(* ===== verification/_CoqProject ===== *)
-Q . S2P
Prelude.v
Errors.v
Effects.v
Atomic.v
GoStrings.v
Base64.v
Uuid.v
Calendar.v
Json.v
JsonText.v
JsonDecode.v
Money.v
Sha256.v
Pagination.v
Catalog.v
Customer.v
Product.v
Auth.v
OrderModel.v
OrderRepo.v
OrderService.v
OrderLifecycle.v
OrderProtocol.v
OrderQueue.v
QueueDrain.v
RedisQueue.v
OrderSystem.v
Metrics.v
Worker.v
Delivery.v
Bodies.v
Http.v
Handlers.v
Server.v
OpenApi.v
EndToEnd.v
Config.v
Main.v
Schema.v
Provenance.v
Postgres.v
PgPages.v
PgOrders.v
PgSessions.v
Interchange.v
PgCatalog.v
PgUsers.v
Production.v
PhaseMetrics.v
Phases.v
