(* ===== verification/Prelude.v ===== *)
(** * A verification of the order service

    The repository is a Go service that takes orders for registered customers and
    products, stores them, and processes their payment in background workers.  This
    library models the live program, [src/internal] and [src/cmd], and proves what
    makes it correct; of the archived folders under [src/dev] it models what differs.

    ** The program and the files that model it

    One program is three processes.  The API process ([cmd/api]) serves HTTP: a
    router with middleware calls thin handlers, which call the services, which call
    repositories, a message producer, a clock and id generators.  The worker process
    ([cmd/worker]) takes messages from the queue and calls the same order service to
    process the payment, requeues failed messages and dead-letters them.  The seed
    command ([cmd/seed]) stores the default administrator.

    - Prelude: machine integers with their wrap-around, hint databases, tactics.
    - Errors: [internal/errors]: [AppError], error chains, the HTTP error writer.
    - Effects: programs over an interface of calls, with their sequential execution
      [run], relational execution [exec], interleaving [pool_steps] and typestate
      [protocol]s; the translation of every Go method that has collaborators.  Atomic:
      when programs whose calls are themselves programs behave, interleaved, as if each
      of those calls took place at once.
    - GoStrings, Base64, Uuid, Calendar: the library functions the code uses on
      strings, uuids, dates and RFC 3339 instants; Sha256: SHA-256 and HMAC.
    - Json, JsonText, JsonDecode: encoding/json: the reader of texts, the text of a
      document and what reading it back gives, and the decoding of a value into a
      tagged struct.
    - Money: [internal/money], int64 cents.
    - Pagination, Catalog: [internal/pagination] and what the in-memory repositories
      share: ranging over a map, sorting, slicing a page, unique text keys.
    - Customer (Module customer), Product (Module product), Auth (Module auth): the
      three packages of that name: model, DTOs, in-memory repository, service; for
      auth also the token manager and the seed.
    - OrderModel ([order/status.go], [model.go], [dto.go], [ports.go]), OrderRepo
      ([order/repository.go]: the port's contract [repo_spec] and the in-memory
      adapter), OrderService ([order/service.go]).
    - OrderQueue ([order/queue.go], [processor.go], the fakes of [ports.go]),
      QueueDrain (looping consumers over that queue) and RedisQueue
      ([internal/queue]).
    - Metrics: [internal/metrics], and its counters against the stored orders.
    - OrderLifecycle and OrderProtocol: the theorems about the order service that
      hold for every implementation of its ports; OrderSystem: the service composed
      with the other components, with the adapters of [cmd/api/adapters.go].
    - Worker: [internal/worker] and the decorator of [cmd/worker]; Delivery: API
      requests and workers together over one order store and its queues.
    - Bodies (the tagged fields of the request DTOs), Http ([internal/middleware] and
      the JSON views), Handlers (the four [handler.go] files), Server
      ([internal/server], the endpoints of [internal/openapi]), OpenApi (the document
      [internal/openapi/openapi.yaml] as data, against the handlers); EndToEnd: an
      API process and the worker over the in-memory adapters, from the bytes of a request
      to the bytes of a response.
    - Config: [internal/config] and [internal/logger]; Main: the three [main.go]
      files and [internal/database].
    - Schema: the tables of [src/migrations] as the rows they admit.  Postgres: the
      four [postgres_repository.go] files; PgPages: what the database answers to their
      listings; PgOrders: the order one over its two tables;
      PgSessions: the order service over many sessions of one database; PgCatalog and
      PgUsers: the customer, product and user adapters over their tables, and the
      services over them, for concurrent clients.  Interchange: the order service over
      the in-memory repository against the order service over PostgreSQL.
    - Provenance: the whole API with the queue messages, call by call, over any adapters:
      what the stored orders refer to and who created them; Production: the PostgreSQL
      adapters, by their contracts, as an instance of its interface.
    - PhaseMetrics and Phases: the code of [src/dev] that the live program replaced (the
      in-memory metrics; the configuration loaders, the authentication scaffold, order
      creation without metrics, the worker without retries), against the live code.

    ** How state and operations correspond

    A struct is a [Record], an interface an indexed type of calls ([repoE], [orderE],
    [workerE], [httpE], ...), a method a [prog] over the calls it makes, with Go's
    early returns as [res] values: [Ok], [Err], or [Panic] for a run-time panic.
    Integers are [Z] with [wrap64] where the code computes; times are nanoseconds;
    maps are [gmap]s, and ranging over one is a list in an order no theorem relies
    on.  The atomic step of an interleaving is one call: one critical section of an
    in-memory adapter, one SQL statement, one Redis command.  The queue of
    OrderQueue is finer: its steps are the critical sections and the channel
    operations of each method.

    ** What the theorems show

    - Orders (C1, C3, C4, C8, C20, C35): whatever the ports answer, a stored order is
      well formed, its identity, lines and total never change, and, served one request
      at a time, its status only moves along the transition table; [Create] calls no port
      for a request that the rules BR-ORD-001 to 003 refuse, commits
      once, priced from the loaded products, and publishes only after the commit;
      [Process] pays once, after the order is PROCESSING.  Under interleaving
      everything but the transition order survives ([concurrent_requests_keep_orders] in
      OrderSystem), and C20 is the run that breaks it.  C8 adds the rest of the API: while
      HTTP requests of every kind and queue messages run together, each order refers to
      a customer and products that exist and was created by the user of a verified
      token, so that the foreign keys of the schema hold whether or not the store checks
      them.  The interface is the class [OrderWorldLaws], and for C8 [ApiLaws] beside it;
      OrderSystem and Provenance discharge them for the in-memory adapters, PgSessions
      and Production for the PostgreSQL ones.  The counters of the
      metrics agree with the stored orders (C19, in memory, where no repository call
      fails).
    - The whole system (C2, C7): an order created over HTTP is processed by the worker
      and served over HTTP with its outcome, to exactly the requests whose token is
      accepted (C2, in memory, where no call fails); and while requests and workers run
      together, with failures and lost acknowledgements at every call, each order that
      waits for its payment is in a queue, in one thread's hands, or was reported.
      The queues of C7 are any that keep [DeliveryLaws], among them the channel of C13.
    - The database (C5, C6, C11, C12, C14, C15, C21, C22, C24, C37): the order adapter commits
      an order with its items or not at all, refines the abstract store up to the
      microseconds its columns keep, its listings included, and is linearizable for any
      number of sessions
      whose SQL statements interleave; what passes the validation but not the columns of
      the schema is refused and answered as an internal error.  As long as no repository call fails, clients cannot
      tell it from the in-memory adapter (C24), listings aside.  Customers, products and accounts keep their rules
      for concurrent clients, uniqueness included, which follows from what the unique
      indexes refuse and which the in-memory adapters do not
      guarantee ([concurrent_creates_share_document] in Customer).  A listing sends its two
      statements with fixed texts: no value is ever put into SQL text.
    - Requests (C9, C10, C33, C34, C36): no protected endpoint calls a service before the
      token of the request was verified and its role permitted, and every answer carries a request
      id; every documented operation answers with a documented status and a body whose
      bytes have the documented type and formats, one undocumented 404 and the unchecked
      e-mail address of a registration apart, and no internal error
      text reaches a client; a decoded body is well typed whatever the bytes were, and
      the body a client encodes is decoded to what it meant; what the query string of a
      listing selects.
    - Queues and workers (C13, C16 to C18, C25, C26): Redis lists implement a shared
      FIFO channel; the in-memory queue loses nothing, and looping consumers empty it
      under every schedule in a bounded number of steps; a failing message is tried
      [maxRetries + 1] times and dead-lettered, a recovering one is not; and the
      error path that leaves an order in PROCESSING.
    - In-memory adapters (C23, C32): the order repository does what each call says or
      refuses it and changes nothing, as the contract without failures says; its
      listings are exact, for pages whose arithmetic stays in range.
    - Processes (C27, C40): start-up, shutdown and configuration: a configuration is
      loaded exactly when the environment describes it.
    - Authentication (C28 to C31): tokens; what a registration stores (in memory); and
      that a failed login does not say why, whatever the ports answer.  Money (C38, C39).
    - The archived code, in PhaseMetrics and Phases, by theorems without a number: the
      live loader accepts what phase 6 accepted, and workers below one besides; the live
      gate and order endpoints answer as the scaffold's did; the live [Create] with
      metrics that do nothing is the one of phase 5; the worker of phase 6 delivers a
      message once and drops it when it fails, where the live one retries; and a scrape
      of the in-memory collector shows moments of the history in order, though not one
      moment.

    ** Bounds and fuel

    [Dequeue] and [runLoop] are endless loops in the code; here they take a number of
    rounds, and the theorems about them quantify over it: C16 and C17 name a number of
    rounds that is enough and hold for every larger one.  QueueDrain has no fuel: C26
    bounds the steps of every run.  The JSON reader recurses on fuel, twice the length
    of its input and two; [JsonText.decode_first_fuel] shows that more fuel gives the
    same result, and its depth limit is the one of encoding/json.  [digits_loop] has the fuel
    [log2 n + 1], at least the number of decimal digits.  Every other recursion is
    structural.

    ** What is a parameter

    Third-party code and the outside world: uuid text ([UuidText]), bcrypt ([Bcrypt]),
    Unicode case tables ([CaseTables]), the zone of the process ([LocalZone]), chi path
    matching and the texts it answers with ([Platform]), Redis lists ([RedisLists]), the
    instruments of the Prometheus client ([Prometheus]), the answers of PostgreSQL
    ([pgE]) and what its statements do to the tables ([OrderStatements], shared by
    [OrderDatabase] for one session and [SharedDatabase] for many; [CatalogDatabase];
    [UserDatabase]), its search operator ([Ilike]), the other ports of the order service ([Ports]) and the queues
    between the processes ([DeliveryLaws]).  The payment processor of C24 may read of an
    order only what its columns keep ([fair_payments]).  Each class states documented laws only, and
    a concrete instance shows that they can hold; the witnesses run on those instances.

    ** What is not modelled

    The text of the metrics exposition and the parsing of the API document are the work
    of third-party libraries; deployment files and tests are left out.  Most of the
    code under [src/dev] is the live code under other import paths and is not repeated;
    the stub processes and multiplexers of its folders are left out.  Of the SQL schema, the defaults, the
    indexes and the down migrations are left out, and that the database enforces the
    foreign keys is not used: C8 shows that the requests keep them.  The
    TIMESTAMP columns carry no zone, and the model assumes that the process runs in UTC
    there.  A listing makes two statements, so its total may disagree with its page;
    the theorems say nothing of the total.  C5 and C7 are about
    two levels of the same system, SQL statements and calls of the ports; that the
    workers' statements may also be interleaved within one run of C7 is not proved. *)
From stdpp Require Export base tactics numbers list gmap strings sorting.
From Stdlib Require Export Lia.

#[global] Open Scope Z_scope.

(** ** Scope and notations of the development

    [go_scope] carries the notations used to write Go statements: early returns
    and sequencing (see Effects.v). *)
Declare Scope go_scope.
Delimit Scope go_scope with go.

(** ** Hint databases

    [go_int]   rewrites about 64-bit wrap-around;
    [go_step]  lemmas that advance the execution of a program by one call;
    [go_inv]   preservation lemmas of component invariants. *)
Create Rewrite HintDb go_int.
Create Rewrite HintDb go_step.
Create HintDb go_inv.

(** ** Machine integers

    Go's [int] and [int64] are 64 bits wide on the platforms the repository
    builds for (amd64 and arm64); arithmetic wraps around silently. *)
Definition int64_min : Z := - 2 ^ 63.
Definition int64_max : Z := 2 ^ 63 - 1.

(** Two's-complement truncation of an exact result to 64 bits. *)
Definition wrap64 (z : Z) : Z := (z + 2 ^ 63) mod 2 ^ 64 - 2 ^ 63.

Definition in_int64 (z : Z) : Prop := int64_min <= z <= int64_max.

#[export] Instance in_int64_dec z : Decision (in_int64 z).
Proof. unfold in_int64. apply _. Defined.

Definition in_int64b (z : Z) : bool := (int64_min <=? z) && (z <=? int64_max).

Lemma in_int64b_spec z : in_int64b z = true <-> in_int64 z.
Proof. unfold in_int64b, in_int64. rewrite andb_true_iff, !Z.leb_le. done. Qed.

Lemma wrap64_range z : in_int64 (wrap64 z).
Proof.
  unfold in_int64, wrap64, int64_min, int64_max.
  pose proof (Z.mod_pos_bound (z + 2 ^ 63) (2 ^ 64) ltac:(lia)). lia.
Qed.

Lemma wrap64_id z : in_int64 z -> wrap64 z = z.
Proof.
  unfold in_int64, wrap64, int64_min, int64_max. intros Hz.
  rewrite Z.mod_small; lia.
Qed.

Lemma wrap64_idem z : wrap64 (wrap64 z) = wrap64 z.
Proof. apply wrap64_id, wrap64_range. Qed.

(** [wrap64] only forgets multiples of 2^64. *)
Lemma wrap64_congr z : exists k, wrap64 z = z + k * 2 ^ 64.
Proof.
  exists (- ((z + 2 ^ 63) / 2 ^ 64)). unfold wrap64.
  pose proof (Z.div_mod (z + 2 ^ 63) (2 ^ 64) ltac:(lia)). lia.
Qed.

Lemma wrap64_add_mult z k : wrap64 (z + k * 2 ^ 64) = wrap64 z.
Proof.
  unfold wrap64. replace (z + k * 2 ^ 64 + 2 ^ 63) with (z + 2 ^ 63 + k * 2 ^ 64) by lia.
  rewrite Z.mod_add by lia. done.
Qed.

Lemma wrap64_add_l a b : wrap64 (wrap64 a + b) = wrap64 (a + b).
Proof.
  destruct (wrap64_congr a) as [k ->].
  replace (a + k * 2 ^ 64 + b) with (a + b + k * 2 ^ 64) by lia.
  apply wrap64_add_mult.
Qed.

Lemma wrap64_add_r a b : wrap64 (a + wrap64 b) = wrap64 (a + b).
Proof. rewrite Z.add_comm, wrap64_add_l. f_equal. lia. Qed.

Lemma wrap64_mul_l a b : wrap64 (wrap64 a * b) = wrap64 (a * b).
Proof.
  destruct (wrap64_congr a) as [k ->].
  replace ((a + k * 2 ^ 64) * b) with (a * b + k * b * 2 ^ 64) by lia.
  apply wrap64_add_mult.
Qed.

Lemma wrap64_opp_wrap a : wrap64 (- wrap64 a) = wrap64 (- a).
Proof.
  destruct (wrap64_congr a) as [k ->].
  replace (- (a + k * 2 ^ 64)) with (- a + (- k) * 2 ^ 64) by lia.
  apply wrap64_add_mult.
Qed.

#[export] Hint Rewrite wrap64_idem wrap64_add_l wrap64_add_r wrap64_mul_l
  wrap64_opp_wrap : go_int.

Ltac wrap_simpl := autorewrite with go_int.

(** Decide a closed [in_int64] or range goal. *)
Ltac solve_int64 :=
  unfold in_int64, int64_min, int64_max in *; lia.

(** ** Identifiers and instants

    A [uuid.UUID] is a 16-byte array, kept as the 128-bit number it spells;
    [uuid.Nil] is the all-zero array.  A [time.Time] is kept as the instant it
    denotes, in nanoseconds since the Unix epoch: the repository only compares
    instants ([Equal], [Before], [After]) and subtracts them. *)
Abbreviation uuid := N (only parsing).
Abbreviation time := Z (only parsing).

Definition uuid_Nil : uuid := 0%N.

(** ** Association of keys: [nodup_keys]

    Generic list facts shared by the in-memory adapters. *)
Lemma NoDup_fmap_inj_on {A B} (f : A -> B) (l : list A) x y :
  NoDup (f <$> l) -> x ∈ l -> y ∈ l -> f x = f y -> x = y.
Proof.
  induction l as [|a l IH]; cbn; intros Hnd Hx Hy Hf; [set_solver|].
  apply NoDup_cons in Hnd as [Hna Hnd].
  apply elem_of_cons in Hx as [->|Hx]; apply elem_of_cons in Hy as [->|Hy]; auto.
  - exfalso. apply Hna. rewrite Hf. apply list_elem_of_fmap. eauto.
  - exfalso. apply Hna. rewrite <- Hf. apply list_elem_of_fmap. eauto.
Qed.

Lemma NoDup_fmap_filter {A B} (f : A -> B) (P : A -> Prop) `{!forall x, Decision (P x)} (l : list A) :
  NoDup (f <$> l) -> NoDup (f <$> filter P l).
Proof.
  induction l as [|x l IH]; intros Hnd; [done|].
  rewrite fmap_cons, NoDup_cons in Hnd. destruct Hnd as [Hx Hnd].
  rewrite filter_cons. case_decide; [|by apply IH].
  rewrite fmap_cons, NoDup_cons. split; [|by apply IH]. intros Hin. apply Hx.
  apply list_elem_of_fmap in Hin as (y & Hy & Hin). apply list_elem_of_filter in Hin as [_ Hin].
  apply list_elem_of_fmap. eauto.
Qed.

(** Sorted for a relation, sorted for a weaker one. *)
Lemma StronglySorted_weaken {A} (R R' : A -> A -> Prop) (l : list A) :
  (forall x y, R x y -> R' x y) -> StronglySorted R l -> StronglySorted R' l.
Proof. intros HR Hl. rewrite <- (list_fmap_id l). by apply (StronglySorted_fmap id R). Qed.

(** Destruct every [match]/[if] in the goal or in a hypothesis and clean up. *)
Ltac case_all :=
  repeat (case_match || case_decide || case_bool_decide); simplify_eq.
