(* ===== verification/Errors.v ===== *)
(** Errors: Go error values, [errors.Is]/[errors.As] over the unwrap chain, the
    application error model of internal/errors (codes, constructors) and the
    JSON error response it renders. *)
From S2P Require Import Prelude.

(** ** Go error values

    A package-level [errors.New] variable is compared by identity, so each one
    the repository compares against is a constructor of [sentinel]. *)
Inductive sentinel :=
| OrderErrNotFound        (* order.ErrNotFound *)
| OrderErrOrderNotFound   (* order.ErrOrderNotFound *)
| OrderErrQueueClosed     (* order.ErrQueueClosed *)
| CustomerErrNotFound     (* customer.ErrNotFound *)
| ProductErrNotFound      (* product.ErrNotFound *)
| AuthErrUserNotFound     (* auth.ErrUserNotFound *)
| AuthErrEmailTaken       (* auth.ErrEmailTaken *)
| AuthErrInvalidToken     (* auth.ErrInvalidToken *)
| MoneyErrInvalid         (* money.ErrInvalid *)
| PgxErrNoRows            (* pgx.ErrNoRows *)
| CtxCanceled.            (* context.Canceled *)

#[export] Instance sentinel_eq_dec : EqDecision sentinel.
Proof. solve_decision. Defined.

(** [Code] is the application error code (architecture §24). *)
Inductive Code :=
| CodeValidation | CodeUnauthorized | CodeForbidden | CodeNotFound | CodeDuplicate
| CodeInvalidOrderStatus | CodeInactiveCustomer | CodeInactiveProduct | CodeInternal.

#[export] Instance Code_eq_dec : EqDecision Code.
Proof. solve_decision. Defined.

(** The string each code constant is defined as. *)
Definition Code_string (c : Code) : string :=
  match c with
  | CodeValidation => "VALIDATION_ERROR"
  | CodeUnauthorized => "UNAUTHORIZED"
  | CodeForbidden => "FORBIDDEN"
  | CodeNotFound => "RESOURCE_NOT_FOUND"
  | CodeDuplicate => "DUPLICATE_RESOURCE"
  | CodeInvalidOrderStatus => "INVALID_ORDER_STATUS"
  | CodeInactiveCustomer => "INACTIVE_CUSTOMER"
  | CodeInactiveProduct => "INACTIVE_PRODUCT"
  | CodeInternal => "INTERNAL_ERROR"
  end.

(** An error value.  [ErrApp] is a [*AppError] with its optional cause, [ErrWrap]
    the value of [fmt.Errorf] with one [%w] (its text and what it wraps), [ErrPg]
    a [*pgconn.PgError] with its SQLSTATE, [ErrNew] any other opaque error with
    its message. *)
Inductive error :=
| ErrVar (s : sentinel)
| ErrNew (msg : string)
| ErrPg (sqlstate : string)
| ErrWrap (msg : string) (cause : error)
| ErrApp (code : Code) (msg : string) (status : Z) (cause : option error).

(** The value of a Go call that returns [(T, error)]: a value with a nil error, a
    non-nil error, or a run-time panic that unwinds the caller. *)
Inductive res (A : Type) :=
| Ok (a : A)
| Err (e : error)
| Panic (why : string).
Arguments Ok {A} a.
Arguments Err {A} e.
Arguments Panic {A} why.

Definition sentinel_string (s : sentinel) : string :=
  match s with
  | OrderErrNotFound => "resource not found"
  | OrderErrOrderNotFound => "order not found"
  | OrderErrQueueClosed => "queue closed"
  | CustomerErrNotFound => "customer not found"
  | ProductErrNotFound => "product not found"
  | AuthErrUserNotFound => "user not found"
  | AuthErrEmailTaken => "email already registered"
  | AuthErrInvalidToken => "invalid token"
  | MoneyErrInvalid => "invalid money amount"
  | PgxErrNoRows => "no rows in result set"
  | CtxCanceled => "context canceled"
  end.

(** [Error()] of each error type; the text of a [PgError] is the driver's. *)
Fixpoint Error (e : error) : string :=
  match e with
  | ErrVar s => sentinel_string s
  | ErrNew m => m
  | ErrPg c => "SQLSTATE " +:+ c
  | ErrWrap m _ => m
  | ErrApp c m _ cause =>
      match cause with
      | Some e' => Code_string c +:+ ": " +:+ m +:+ ": " +:+ Error e'
      | None => Code_string c +:+ ": " +:+ m
      end
  end.

(** [Unwrap()]: [AppError] and [fmt.Errorf] values expose their cause. *)
Definition Unwrap (e : error) : option error :=
  match e with
  | ErrWrap _ e' => Some e'
  | ErrApp _ _ _ cause => cause
  | _ => None
  end.

(** [errors.Is err target] for a sentinel target: identity along the chain. *)
Fixpoint errors_Is (e : error) (target : sentinel) : bool :=
  match e with
  | ErrVar s => bool_decide (s = target)
  | ErrNew _ | ErrPg _ => false
  | ErrWrap _ e' => errors_Is e' target
  | ErrApp _ _ _ (Some e') => errors_Is e' target
  | ErrApp _ _ _ None => false
  end.

(** An [*AppError] as data: what [errors.As] finds. *)
Record AppError := mkAppError {
  ae_Code : Code;
  ae_Message : string;
  ae_HTTPStatus : Z;
  ae_cause : option error;
}.

(** [errors.As err &appErr]: the first [*AppError] along the chain. *)
Fixpoint errors_As_AppError (e : error) : option AppError :=
  match e with
  | ErrVar _ | ErrNew _ | ErrPg _ => None
  | ErrWrap _ e' => errors_As_AppError e'
  | ErrApp c m st cause => Some (mkAppError c m st cause)
  end.

(** [errors.As err &pgErr]: the SQLSTATE of the first [*pgconn.PgError]. *)
Fixpoint errors_As_PgError (e : error) : option string :=
  match e with
  | ErrVar _ | ErrNew _ => None
  | ErrPg c => Some c
  | ErrWrap _ e' => errors_As_PgError e'
  | ErrApp _ _ _ (Some e') => errors_As_PgError e'
  | ErrApp _ _ _ None => None
  end.

(** ** Constructors (internal/errors/app_error.go) *)
Definition New (code : Code) (message : string) (status : Z) (cause : option error) : error :=
  ErrApp code message status cause.

Definition StatusOK : Z := 200.
Definition StatusCreatedHTTP : Z := 201.
Definition StatusNoContent : Z := 204.
Definition StatusBadRequest : Z := 400.
Definition StatusUnauthorized : Z := 401.
Definition StatusForbidden : Z := 403.
Definition StatusNotFound : Z := 404.
Definition StatusConflict : Z := 409.
Definition StatusInternalServerError : Z := 500.

Definition Validation (message : string) : error :=
  New CodeValidation message StatusBadRequest None.
Definition Unauthorized (message : string) : error :=
  New CodeUnauthorized message StatusUnauthorized None.
Definition Forbidden (message : string) : error :=
  New CodeForbidden message StatusForbidden None.
Definition NotFound (message : string) : error :=
  New CodeNotFound message StatusNotFound None.
Definition Duplicate (message : string) : error :=
  New CodeDuplicate message StatusConflict None.
Definition InvalidOrderStatus (message : string) : error :=
  New CodeInvalidOrderStatus message StatusBadRequest None.
Definition InactiveCustomer (message : string) : error :=
  New CodeInactiveCustomer message StatusBadRequest None.
Definition InactiveProduct (message : string) : error :=
  New CodeInactiveProduct message StatusBadRequest None.
Definition Internal (message : string) (cause : error) : error :=
  New CodeInternal message StatusInternalServerError (Some cause).

(** ** HTTP responses

    A response body is the Go value handed to [json.NewEncoder(w).Encode], as the
    tree of its tagged fields; leaves whose text is produced by another package
    ([uuid.UUID], [time.Time]) stay typed, a [Money] leaf is the token its
    [MarshalJSON] returns. *)
Inductive json :=
| JNull
| JBool (b : bool)
| JInt (z : Z)
| JStr (s : string)
| JToken (s : string)
| JUuid (u : uuid)
| JTime (t : time)
| JArr (l : list json)
| JObj (fields : list (string * json)).

Inductive body :=
| NoBody
| JsonBody (v : json)
| TextBody (s : string).

Record Response := mkResponse {
  rs_status : Z;
  rs_headers : list (string * string);
  rs_body : body;
}.

(** [errorBody]/[errorResponse] with their JSON tags. *)
Definition errorResponse (code : Code) (message : string) : json :=
  JObj [("error", JObj [("code", JStr (Code_string code)); ("message", JStr message)])].

(** The response for an [AppError]: its status, its code and its message; the
    cause is not part of it. *)
Definition Write_app (a : AppError) : Response :=
  mkResponse (ae_HTTPStatus a) [("Content-Type", "application/json")]
    (JsonBody (errorResponse (ae_Code a) (ae_Message a))).

(** [apperrors.Write]: an error without an [AppError] in its chain becomes a
    generic INTERNAL_ERROR. *)
Definition Write (err : error) : Response :=
  match errors_As_AppError err with
  | Some a => Write_app a
  | None => Write_app (mkAppError CodeInternal "Internal server error"
                         StatusInternalServerError (Some err))
  end.

(** [writeJSON] of the handlers. *)
Definition writeJSON (status : Z) (v : json) : Response :=
  mkResponse status [("Content-Type", "application/json")] (JsonBody v).

(** ** Facts shared by the components *)
Lemma errors_Is_var s t : errors_Is (ErrVar s) t = bool_decide (s = t).
Proof. done. Qed.

Lemma errors_As_app c m st cause :
  errors_As_AppError (ErrApp c m st cause) = Some (mkAppError c m st cause).
Proof. done. Qed.

Lemma Write_ErrApp c m st cause :
  Write (ErrApp c m st cause) =
  mkResponse st [("Content-Type", "application/json")] (JsonBody (errorResponse c m)).
Proof. done. Qed.

#[export] Hint Rewrite Write_ErrApp : go_step.

(** Every status the code constants are paired with. *)
Definition code_status (c : Code) : Z :=
  match c with
  | CodeValidation | CodeInvalidOrderStatus | CodeInactiveCustomer | CodeInactiveProduct => 400
  | CodeUnauthorized => 401
  | CodeForbidden => 403
  | CodeNotFound => 404
  | CodeDuplicate => 409
  | CodeInternal => 500
  end.
