(* ===== verification/Effects.v ===== *)
(** Effects: programs over an interface of calls, their sequential execution,
    their traces and their interleaved execution.

    A method of a Go service is translated to a [prog E (res T)]: a tree whose
    nodes are the calls it makes on its collaborators (repository, queue, clock,
    logger, ...), each call continuing with the value the collaborator returned.
    One tree has three readings:
    - [run] executes it against a deterministic implementation of the interface;
    - [exec] relates it to every outcome of a possibly failing implementation;
    - [pool_step] interleaves any number of them at call granularity, which is the
      granularity at which the mutexes of the in-memory adapters and the single
      SQL statements of the PostgreSQL adapters are atomic. *)
From S2P Require Import Prelude Errors.

Inductive prog (E : Type -> Type) (A : Type) : Type :=
| Ret (a : A)
| Vis {X : Type} (e : E X) (k : X -> prog E A).
Arguments Ret {E A} a.
Arguments Vis {E A X} e k.

Section prog_defs.
Context {E : Type -> Type}.

Fixpoint bind {A B} (p : prog E A) (f : A -> prog E B) : prog E B :=
  match p with
  | Ret a => f a
  | Vis e k => Vis e (fun x => bind (k x) f)
  end.

(** One call on a collaborator. *)
Definition call {X} (e : E X) : prog E X := Vis e Ret.

(** Sequencing of fallible calls: [x, err := p; if err != nil { return err }]; a
    panic unwinds. *)
Definition bind_res {A B} (p : prog E (res A)) (f : A -> prog E (res B)) : prog E (res B) :=
  bind p (fun r => match r with
                   | Ok a => f a
                   | Err e => Ret (Err e)
                   | Panic s => Ret (Panic s)
                   end).

(** [x, err := p; if err != nil { return onErr(err) }]. *)
Definition bind_err {A B} (p : prog E (res A)) (onErr : error -> res B)
    (f : A -> prog E (res B)) : prog E (res B) :=
  bind p (fun r => match r with
                   | Ok a => f a
                   | Err e => Ret (onErr e)
                   | Panic s => Ret (Panic s)
                   end).

(** Loop over a slice, threading an accumulator and stopping at the first error. *)
Fixpoint for_res {A B} (f : B -> A -> prog E (res B)) (l : list A) (acc : B) : prog E (res B) :=
  match l with
  | [] => Ret (Ok acc)
  | x :: l' => bind_res (f acc x) (for_res f l')
  end.
End prog_defs.

Notation "x <- p ;; q" := (bind p (fun x => q))
  (at level 100, p at next level, right associativity) : go_scope.
Notation "p ;;; q" := (bind p (fun _ => q))
  (at level 100, right associativity) : go_scope.
Notation "x <-! p ;; q" := (bind_res p (fun x => q))
  (at level 100, p at next level, right associativity) : go_scope.
Notation "x <-! p 'catch' h ;; q" := (bind_err p h (fun x => q))
  (at level 100, p at next level, h at next level, right associativity) : go_scope.
#[global] Open Scope go_scope.

(** Implement the calls of one interface by programs over another: a decorator of a
    port, or a component plugged into a larger one. *)
Fixpoint interp {E F : Type -> Type} (h : forall X, E X -> prog F X) {A} (p : prog E A) : prog F A :=
  match p with
  | Ret a => Ret a
  | Vis e k => bind (h _ e) (fun x => interp h (k x))
  end.

(** ** Sequential execution against a deterministic implementation *)
Class Handler (E : Type -> Type) (W : Type) :=
  handle : forall X, E X -> W -> X * W.
Arguments handle {E W _} {X} e w.

Section run.
Context {E : Type -> Type} {W : Type} `{!Handler E W}.

Fixpoint run {A} (p : prog E A) (w : W) : A * W :=
  match p with
  | Ret a => (a, w)
  | Vis e k => let '(x, w') := handle e w in run (k x) w'
  end.

Lemma run_bind {A B} (p : prog E A) (f : A -> prog E B) w :
  run (bind p f) w = let '(a, w') := run p w in run (f a) w'.
Proof.
  revert w. induction p as [a|X e k IH]; intros w; cbn; [done|].
  destruct (handle e w) as [x w']. apply IH.
Qed.

Lemma run_call {X} (e : E X) w : run (call e) w = handle e w.
Proof. cbn. destruct (handle e w); done. Qed.

(** Sequencing of fallible steps. *)
Lemma run_bind_res {A B} (p : prog E (res A)) (f : A -> prog E (res B)) w :
  run (bind_res p f) w =
  match run p w with
  | (Ok a, w') => run (f a) w'
  | (Err e, w') => (Err e, w')
  | (Panic m, w') => (Panic m, w')
  end.
Proof. unfold bind_res. rewrite run_bind. by destruct (run p w) as [[a|e|m] w']. Qed.

Lemma run_bind_err {A B} (p : prog E (res A)) (h : error -> res B) (f : A -> prog E (res B)) w :
  run (bind_err p h f) w =
  match run p w with
  | (Ok a, w') => run (f a) w'
  | (Err e, w') => (h e, w')
  | (Panic m, w') => (Panic m, w')
  end.
Proof. unfold bind_err. rewrite run_bind. by destruct (run p w) as [[a|e|m] w']. Qed.

Lemma run_ret {A} (a : A) w : run (Ret a : prog E A) w = (a, w).
Proof. done. Qed.

(** A program of which every call preserves [I] preserves [I]. *)
Lemma run_invariant (I : W -> Prop) :
  (forall X (e : E X) w, I w -> I (handle e w).2) ->
  forall A (p : prog E A) w, I w -> I (run p w).2.
Proof.
  intros Hh A p. induction p as [a|X e k IH]; intros w Hw; cbn; [done|].
  specialize (Hh X e w Hw). destruct (handle e w) as [x w']. by apply IH.
Qed.
End run.

(** Running an interpreted program is running the program against the handler that
    runs the interpretation of each call. *)
Lemma run_interp {E F : Type -> Type} {W} `{!Handler F W} (h : forall X, E X -> prog F X) {A}
    (p : prog E A) (w : W) :
  run (interp h p) w = @run E W (fun X e w => run (h X e) w) A p w.
Proof.
  revert w. induction p as [a|X e k IH]; intros w; cbn [run interp]; [done|].
  rewrite run_bind. unfold handle at 1. destruct (run (h X e) w) as [x w']. apply IH.
Qed.

(** ** Nondeterministic implementations: a call may fail or choose *)
Class Sem (E : Type -> Type) (W : Type) :=
  sem : forall X, E X -> W -> X -> W -> Prop.
Arguments sem {E W _} {X} e w x w'.

Section exec.
Context {E : Type -> Type} {W : Type} `{!Sem E W}.

Fixpoint exec {A} (p : prog E A) (w : W) (a : A) (w' : W) : Prop :=
  match p with
  | Ret b => a = b /\ w' = w
  | Vis e k => exists x w1, sem e w x w1 /\ exec (k x) w1 a w'
  end.

Lemma exec_bind {A B} (p : prog E A) (f : A -> prog E B) w b w' :
  exec (bind p f) w b w' <-> exists a w1, exec p w a w1 /\ exec (f a) w1 b w'.
Proof.
  revert w. induction p as [a|X e k IH]; intros w; cbn.
  - split; [intros ?; by exists a, w | by intros (? & ? & [-> ->] & ?)].
  - setoid_rewrite IH. naive_solver.
Qed.

Lemma exec_call {X} (e : E X) w x w' : exec (call e) w x w' -> sem e w x w'.
Proof. cbn. by intros (y & w1 & Hs & -> & ->). Qed.

(** A sequence that ends at the first error or panic. *)
Lemma exec_bind_res {A B} (p : prog E (res A)) (f : A -> prog E (res B)) w b w' :
  exec (bind_res p f) w b w' ->
  exists x w1, exec p w x w1 /\
    match x with
    | Ok a => exec (f a) w1 b w'
    | Err e => b = Err e /\ w' = w1
    | Panic why => b = Panic why /\ w' = w1
    end.
Proof.
  unfold bind_res. rewrite exec_bind. intros (x & w1 & Hp & Hf). exists x, w1. split; [done|].
  by destruct x.
Qed.

Lemma exec_bind_err {A B} (p : prog E (res A)) h (f : A -> prog E (res B)) w b w' :
  exec (bind_err p h f) w b w' ->
  exists x w1, exec p w x w1 /\
    match x with
    | Ok a => exec (f a) w1 b w'
    | Err e => b = h e /\ w' = w1
    | Panic why => b = Panic why /\ w' = w1
    end.
Proof.
  unfold bind_err. rewrite exec_bind. intros (x & w1 & Hp & Hf). exists x, w1. split; [done|].
  by destruct x.
Qed.

Lemma exec_invariant (I : W -> Prop) :
  (forall X (e : E X) w x w', I w -> sem e w x w' -> I w') ->
  forall A (p : prog E A) w a w', exec p w a w' -> I w -> I w'.
Proof.
  intros Hs A p. induction p as [b|X e k IH]; cbn; intros w a w'.
  - by intros [_ ->].
  - intros (x & w1 & Hsem & Hex) Hw. eauto.
Qed.

(** ** Interleaving

    A pool is the list of programs still running (goroutines, requests of several
    processes) over one shared state. *)

(** One call of one program. *)
Definition prog_step {A} (p : prog E A) (w : W) (p' : prog E A) (w' : W) : Prop :=
  match p with
  | Ret _ => False
  | Vis e k => exists x, sem e w x w' /\ p' = k x
  end.

Inductive pool_step {A} : list (prog E A) * W -> list (prog E A) * W -> Prop :=
| pool_call (ts : list (prog E A)) (w : W) i p p' w' :
    ts !! i = Some p ->
    prog_step p w p' w' ->
    pool_step (ts, w) (<[i := p']> ts, w').

Definition pool_steps {A} := rtc (@pool_step A).

(** A state predicate kept by every call is kept by every interleaving. *)
Lemma pool_invariant (I : W -> Prop) :
  (forall X (e : E X) w x w', I w -> sem e w x w' -> I w') ->
  forall A (c c' : list (prog E A) * W), pool_steps c c' -> I c.2 -> I c'.2.
Proof.
  intros Hs A c c' Hsteps. induction Hsteps as [|c1 c2 c3 Hstep _ IH]; [done|].
  intros HI. apply IH. destruct Hstep as [ts w i p p' w' _ Hp]; cbn in *.
  destruct p as [|X e k]; [done|]. destruct Hp as (x & Hsem & _). eauto.
Qed.

(** The relational version, for reflexive and transitive relations between the
    states before and after. *)
Lemma pool_relation (R : W -> W -> Prop) :
  (forall w, R w w) -> (forall a b c, R a b -> R b c -> R a c) ->
  (forall X (e : E X) w x w', sem e w x w' -> R w w') ->
  forall A (c c' : list (prog E A) * W), pool_steps c c' -> R c.2 c'.2.
Proof.
  intros Hrefl Htrans Hs A c c' Hsteps.
  induction Hsteps as [|c1 c2 c3 Hstep _ IH]; [done|].
  eapply Htrans; [|apply IH]. destruct Hstep as [ts w i p p' w' _ Hp]; cbn.
  destruct p as [|X e k]; [done|]. destruct Hp as (x & Hsem & _). eauto.
Qed.
End exec.

(** An implementation with more behaviours has more interleavings. *)
Lemma pool_steps_mono {E W} (S S' : Sem E W) {A} (c c' : list (prog E A) * W) :
  (forall X (e : E X) w x w', S X e w x w' -> S' X e w x w') ->
  @pool_steps E W S A c c' -> @pool_steps E W S' A c c'.
Proof.
  intros Hsub Hsteps. induction Hsteps as [|c1 c2 c3 Hstep _ IH]; [constructor|]. eapply rtc_l; [|exact IH].
  destruct Hstep as [ts w i p p' w' Hi Hp]. apply (@pool_call E W S' A ts w i p); [done|].
  destruct p as [a|X e k]; [done|]. destruct Hp as (x & Hx & ->). exists x. split; [|done]. by apply Hsub.
Qed.

(** A deterministic implementation as a relation. *)
Definition sem_of_handler {E W} (H : Handler E W) : Sem E W :=
  fun X e w x w' => handle e w = (x, w').

Lemma run_exec {E W} (H : Handler E W) {A} (p : prog E A) w :
  @exec E W (sem_of_handler H) A p w (run p w).1 (run p w).2.
Proof.
  revert w. induction p as [a|X e k IH]; intros w; cbn; [done|].
  destruct (handle e w) as [x w'] eqn:Hh. exists x, w'. split; [exact Hh | apply IH].
Qed.

(** ** Traces

    The events of one run: each call with the value it returned.  A trace leaves
    the environment arbitrary, so a fact about all traces of a program holds for
    every implementation of its collaborators. *)
Record event (E : Type -> Type) := Ev {
  ev_type : Type;
  ev_call : E ev_type;
  ev_ret : ev_type;
}.
Arguments Ev {E ev_type} ev_call ev_ret.

Fixpoint trace {E : Type -> Type} {A} (p : prog E A) (l : list (event E)) (a : A) : Prop :=
  match p with
  | Ret b => l = [] /\ a = b
  | Vis e k => exists x l', l = Ev e x :: l' /\ trace (k x) l' a
  end.

Lemma trace_bind {E A B} (p : prog E A) (f : A -> prog E B) l b :
  trace (bind p f) l b <-> exists l1 l2 a, l = l1 ++ l2 /\ trace p l1 a /\ trace (f a) l2 b.
Proof.
  revert l. induction p as [a|X e k IH]; intros l; cbn.
  - split; [intros ?; by exists [], l, a | by intros (? & ? & ? & -> & [-> ->] & ?)].
  - setoid_rewrite IH. split.
    + intros (x & l' & -> & l1 & l2 & a & -> & H1 & H2).
      exists (Ev e x :: l1), l2, a. naive_solver.
    + intros (l1 & l2 & a & -> & (x & l' & -> & H1) & H2). exists x, (l' ++ l2). naive_solver.
Qed.

(** Every execution has a trace. *)
Lemma exec_trace {E W} `{!Sem E W} {A} (p : prog E A) w a w' :
  exec p w a w' -> exists l, trace p l a.
Proof.
  revert w. induction p as [b|X e k IH]; intros w; cbn.
  - intros [-> _]. by exists [].
  - intros (x & w1 & _ & Hex). apply IH in Hex as [l Hl]. by exists (Ev e x :: l), x, l.
Qed.

(** ** Protocols

    A protocol is a typestate over the calls of an interface: which calls are
    allowed in a state, which answers the environment may give, and how a call and
    its answer move the state.  [conforms] says that a program respects the
    protocol against every environment, and that its result satisfies [Q] in the
    state it ends in. *)
Record protocol (E : Type -> Type) (S : Type) := mkProtocol {
  allowed : forall X, S -> E X -> Prop;
  possible : forall X, S -> E X -> X -> Prop;
  next : forall X, S -> E X -> X -> S;
}.
Arguments mkProtocol {E S} _ _ _.
Arguments allowed {E S} _ {X} _ _.
Arguments possible {E S} _ {X} _ _ _.
Arguments next {E S} _ {X} _ _ _.

Section protocol.
Context {E : Type -> Type} {S : Type} (P : protocol E S).

Fixpoint conforms {A} (s : S) (p : prog E A) (Q : S -> A -> Prop) : Prop :=
  match p with
  | Ret a => Q s a
  | Vis e k => allowed P s e /\
               forall x, possible P s e x -> conforms (next P s e x) (k x) Q
  end.

Lemma conforms_bind {A B} s (p : prog E A) (f : A -> prog E B) Q :
  conforms s p (fun s' a => conforms s' (f a) Q) -> conforms s (bind p f) Q.
Proof.
  revert s. induction p as [a|X e k IH]; intros s; cbn; [done|].
  intros [Ha Hk]. split; [done|]. eauto.
Qed.

Lemma conforms_mono {A} s (p : prog E A) (Q Q' : S -> A -> Prop) :
  (forall s a, Q s a -> Q' s a) -> conforms s p Q -> conforms s p Q'.
Proof.
  intros HQ. revert s. induction p as [a|X e k IH]; intros s; cbn; [apply HQ|].
  intros [Ha Hk]. split; [done|]. eauto.
Qed.

(** Sequencing of fallible calls: the error paths end the program. *)
Lemma conforms_bind_res {A B} s (p : prog E (res A)) (f : A -> prog E (res B)) Q :
  conforms s p (fun s' r => match r with
                            | Ok a => conforms s' (f a) Q
                            | Err e => Q s' (Err e)
                            | Panic m => Q s' (Panic m)
                            end) ->
  conforms s (bind_res p f) Q.
Proof.
  intros H. apply conforms_bind. eapply conforms_mono; [|exact H].
  by intros s' [a|e|m].
Qed.

Lemma conforms_bind_err {A B} s (p : prog E (res A)) (h : error -> res B)
    (f : A -> prog E (res B)) Q :
  conforms s p (fun s' r => match r with
                            | Ok a => conforms s' (f a) Q
                            | Err e => Q s' (h e)
                            | Panic m => Q s' (Panic m)
                            end) ->
  conforms s (bind_err p h f) Q.
Proof.
  intros H. apply conforms_bind. eapply conforms_mono; [|exact H].
  by intros s' [a|e|m].
Qed.

(** Calls plugged in from another interface, all allowed in [s] and leaving it. *)
Lemma conforms_plug {F : Type -> Type} {A} (f : forall X, F X -> E X) s (p : prog F A) :
  (forall X (e : F X), allowed P s (f X e) /\ forall x, next P s (f X e) x = s) ->
  conforms s (interp (fun X e => call (f X e)) p) (fun s' _ => s' = s).
Proof.
  intros Hf. induction p as [a|X e k IH]; cbn; [done|].
  destruct (Hf X e) as [Ha Hn]. split; [exact Ha|]. intros x _. rewrite Hn. apply IH.
Qed.

Lemma conforms_call {X} s (e : E X) (Q : S -> X -> Prop) :
  allowed P s e -> (forall x, possible P s e x -> Q (next P s e x) x) -> conforms s (call e) Q.
Proof. cbn. auto. Qed.

(** The rule of a loop over a slice, with an invariant on the part done. *)
Lemma conforms_for_res {A B} (I : list A -> S -> B -> Prop) (f : B -> A -> prog E (res B))
    (Q : S -> res B -> Prop) (l : list A) s acc :
  (forall pre x post s acc, l = pre ++ x :: post -> I pre s acc ->
    conforms s (f acc x) (fun s' r => match r with
                                      | Ok acc' => I (pre ++ [x]) s' acc'
                                      | Err e => Q s' (Err e)
                                      | Panic m => Q s' (Panic m)
                                      end)) ->
  (forall s acc, I l s acc -> Q s (Ok acc)) ->
  I [] s acc ->
  conforms s (for_res f l acc) Q.
Proof.
  intros Hf Hend H0.
  enough (Hgen : forall post pre s acc, l = pre ++ post -> I pre s acc ->
            conforms s (for_res f post acc) Q) by by apply (Hgen l []).
  clear H0 s acc. induction post as [|x post IH]; intros pre s acc Hl HI; cbn [for_res].
  - rewrite app_nil_r in Hl. subst pre. by apply Hend.
  - apply conforms_bind_res. eapply conforms_mono; [|by eapply Hf].
    intros s' [acc'|e|m]; [|done..]. intros HI'. apply (IH (pre ++ [x])); [|done].
    by rewrite <- app_assoc.
Qed.

(** Programs that respect the protocol keep respecting it under interleaving, and
    a global invariant [G] tying the typestates of all programs to the shared
    state survives, if each allowed call keeps it. *)
Section pool.
Context {W : Type} `{!Sem E W} (G : list S -> W -> Prop).
Hypothesis G_possible : forall ss w i s X (e : E X) x w',
  ss !! i = Some s -> G ss w -> allowed P s e -> sem e w x w' -> possible P s e x.
Hypothesis G_step : forall ss w i s X (e : E X) x w',
  ss !! i = Some s -> G ss w -> allowed P s e -> sem e w x w' ->
  G (<[i := next P s e x]> ss) w'.

Lemma pool_conforms {A} (Q : S -> A -> Prop) (c c' : list (prog E A) * W) ss :
  pool_steps c c' ->
  Forall2 (fun s p => conforms s p Q) ss c.1 -> G ss c.2 ->
  exists ss', Forall2 (fun s p => conforms s p Q) ss' c'.1 /\ G ss' c'.2.
Proof.
  intros Hsteps. revert ss. induction Hsteps as [c|c1 c2 c3 Hstep _ IH]; intros ss Hall HG; [eauto|].
  destruct Hstep as [ts w i p p' w' Hi Hp]; cbn in *.
  destruct p as [|X e k]; [done|]. destruct Hp as (x & Hsem & ->).
  destruct (Forall2_lookup_r _ _ _ _ _ Hall Hi) as (s & Hs & Hc). cbn in Hc.
  destruct Hc as [Hal Hk].
  apply (IH (<[i := next P s e x]> ss)); [|by eapply G_step].
  apply Forall2_insert; [done|]. apply Hk. by eapply G_possible.
Qed.
End pool.
End protocol.

(** Two protocols side by side: a program that follows both follows their product. *)
Definition both {E S S'} (P : protocol E S) (P' : protocol E S') : protocol E (S * S') :=
  mkProtocol (fun X s e => allowed P s.1 e /\ allowed P' s.2 e)
             (fun X s e x => possible P s.1 e x /\ possible P' s.2 e x)
             (fun X s e x => (next P s.1 e x, next P' s.2 e x)).

Lemma conforms_both {E S S'} (P : protocol E S) (P' : protocol E S') {A} (p : prog E A) s s' Q Q' :
  conforms P s p Q -> conforms P' s' p Q' ->
  conforms (both P P') (s, s') p (fun t a => Q t.1 a /\ Q' t.2 a).
Proof.
  revert s s'. induction p as [a|X e k IH]; intros s s'; cbn; [done|].
  intros [Ha Hk] [Ha' Hk']. split; [done|]. intros x [Hp Hp']. by apply IH; [apply Hk|apply Hk'].
Qed.

(** Under any semantics whose answers are possible, an execution of a conforming
    program ends in a state satisfying the postcondition. *)
Lemma conforms_exec {E S W} (P : protocol E S) `{!Sem E W} (G : S -> W -> Prop) :
  (forall s X (e : E X) w x w', G s w -> allowed P s e -> sem e w x w' ->
     possible P s e x /\ G (next P s e x) w') ->
  forall A (p : prog E A) s w a w' Q,
    conforms P s p Q -> G s w -> exec p w a w' -> exists s', Q s' a /\ G s' w'.
Proof.
  intros HG A p. induction p as [b|X e k IH]; cbn; intros s w a w' Q Hc Hs.
  - intros [-> ->]. eauto.
  - intros (x & w1 & Hsem & Hex). destruct Hc as [Hal Hk].
    destruct (HG _ _ _ _ _ _ Hs Hal Hsem) as [Hp HG']. eauto.
Qed.

(** The same for a deterministic implementation, without a global invariant. *)
Lemma conforms_run {E S W} (P : protocol E S) `{!Handler E W} :
  (forall s X (e : E X) w, allowed P s e -> possible P s e (handle e w).1) ->
  forall A (p : prog E A) s w Q, conforms P s p Q -> exists s', Q s' (run p w).1.
Proof.
  intros HP A p. induction p as [a|X e k IH]; cbn; intros s w Q Hc; [by exists s|].
  destruct Hc as [Hal Hk]. pose proof (HP s X e w Hal) as Hx. destruct (handle e w) as [x w1]. eauto.
Qed.

(** Executable scheduling of a pool under a deterministic implementation: run the
    next call of the program each index names. *)
Section schedule.
Context {E : Type -> Type} {W : Type} (H : Handler E W).

Fixpoint run_schedule {A} (sched : list nat) (ts : list (prog E A)) (w : W)
    : list (prog E A) * W :=
  match sched with
  | [] => (ts, w)
  | i :: sched' =>
      match ts !! i with
      | Some (Vis e k) =>
          let '(x, w') := handle e w in run_schedule sched' (<[i := k x]> ts) w'
      | _ => run_schedule sched' ts w
      end
  end.

Lemma run_schedule_steps {A} sched (ts : list (prog E A)) w :
  @pool_steps E W (sem_of_handler H) A (ts, w) (run_schedule sched ts w).
Proof.
  revert ts w. induction sched as [|i sched IH]; intros ts w; cbn; [constructor|].
  destruct (ts !! i) as [[a|X e k]|] eqn:Hi; [apply IH| |apply IH].
  destruct (handle e w) as [x w'] eqn:Hh.
  eapply rtc_l; [|apply IH].
  eapply (@pool_call E W (sem_of_handler H) A ts w i (Vis e k)); [exact Hi|]. by exists x.
Qed.
End schedule.
