(* ===== verification/Atomic.v ===== *)
(** Atomic: when an implementation of an interface by several smaller calls may be
    taken for atomic: every interleaving of the small calls of many clients is an
    interleaving of their whole calls, with the same answers. *)
From S2P Require Import Prelude Errors Effects.

(** A program that only makes calls satisfying [ok], whatever the answers. *)
Definition stateless {E : Type -> Type} (ok : forall X, E X -> Prop) (answers : forall X, E X -> X -> Prop)
    : protocol E unit :=
  mkProtocol (fun X _ e => ok X e) (fun X _ e x => answers X e x) (fun X _ _ _ => tt).

Definition makes {E : Type -> Type} {A} ok answers (p : prog E A) : Prop :=
  conforms (stateless ok answers) tt p (fun _ _ => True).

(** An interpretation of the calls turns such a program into one that only makes the
    calls of the interpretation. *)
Lemma stateless_interp {E F : Type -> Type} {A} ok answers ok' answers' (h : forall X, E X -> prog F X) (p : prog E A) :
  (forall X (e : E X), ok X e -> conforms (stateless ok' answers') tt (h X e) (fun _ x => answers X e x)) ->
  makes ok answers p -> makes ok' answers' (interp h p).
Proof.
  intros Hh. unfold makes. induction p as [a|X e k IH]; cbn; [done|]. intros [He Hk].
  apply conforms_bind. eapply conforms_mono; [|by apply Hh]. intros [] x Hx. by apply IH, Hk.
Qed.

(** One choice for each element of a list. *)
Lemma list_choice {A B} (P : nat -> A -> B -> Prop) (l : list A) :
  (forall i a, l !! i = Some a -> exists b, P i a b) ->
  exists l', length l' = length l /\ forall i a b, l !! i = Some a -> l' !! i = Some b -> P i a b.
Proof.
  revert P. induction l as [|a l IH]; intros P HP.
  - by exists [].
  - destruct (HP 0%nat a eq_refl) as [b Hb].
    destruct (IH (fun i => P (S i))) as (l' & Hlen & Hl'); [intros i; apply (HP (S i))|].
    exists (b :: l'). split; [cbn; congruence|]. intros [|i] x y; cbn; [congruence|apply Hl'].
Qed.

Section atomicity.
Context {E F : Type -> Type} {W S : Type} `{!Sem F W, !Sem E S}.

(** The abstract state of a concrete one, and the method of each client for a call. *)
Context (view : W -> S) (h : nat -> forall X, E X -> prog F X).
Context (ok : forall X, E X -> Prop) (answers : forall X, E X -> X -> Prop).

(** The proof of an implementation: when client [i] may start a call; which rests of a
    method occur in the middle of a call, in which state, and where the call may stand
    there: not yet taken effect ([None]), or taken effect with an answer; and what a
    step of client [i] guarantees to the others. *)
Context (quiet : nat -> W -> Prop)
        (mid : nat -> forall X, E X -> prog F X -> W -> (option X -> Prop) -> Prop)
        (guarantees : nat -> W -> W -> Prop).

Arguments ok {X} _.
Arguments answers {X} _ _.
Arguments mid _ {X} _ _ _ _.

(** A small step leaves the abstract state alone, or is the effect of the call. *)
Definition moves {X} (e : E X) (w : W) (o : option X) (w' : W) (o' : option X) : Prop :=
  match o, o' with
  | None, None => view w' = view w
  | None, Some x => sem e (view w) x (view w')
  | Some x, Some x' => x = x' /\ view w' = view w
  | Some _, None => False
  end.

(** What a small step must achieve: the call is finished, or goes on in a state where
    each standing comes from one before. *)
Definition step_ok (i : nat) {X} (e : E X) (w : W) (T : option X -> Prop) (r' : prog F X) (w' : W) : Prop :=
  guarantees i w w' /\
  ((exists x, r' = Ret x /\ quiet i w' /\ answers e x /\ exists o, T o /\ moves e w o w' (Some x)) \/
   (exists T', mid i e r' w' T' /\ forall o', T' o' -> exists o, T o /\ moves e w o w' o')).

Lemma step_finishes i X (e : E X) w (T : option X -> Prop) o x w' :
  guarantees i w w' -> quiet i w' -> answers e x -> T o -> moves e w o w' (Some x) -> step_ok i e w T (Ret x) w'.
Proof. intros Hg Hq Ha HT Hm. split; [done|]. left. eauto 10. Qed.

Lemma step_continues i X (e : E X) w (T T' : option X -> Prop) r' w' :
  guarantees i w w' -> mid i e r' w' T' -> (forall o', T' o' -> exists o, T o /\ moves e w o w' o') ->
  step_ok i e w T r' w'.
Proof. intros Hg Hmid HT. split; [done|]. right. eauto. Qed.

Hypothesis mid_call : forall i X (e : E X) x w T, ~ mid i e (Ret x) w T.
Hypothesis mid_somewhere : forall i X (e : E X) r w T, mid i e r w T -> exists o, T o.
Hypothesis start : forall i X (e : E X) w, ok e -> quiet i w -> mid i e (h i X e) w (eq None).
Hypothesis step : forall i X (e : E X) r w T r' w', ok e -> mid i e r w T -> prog_step r w r' w' ->
  step_ok i e w T r' w'.
Hypothesis stable_quiet : forall i j w w', i <> j -> guarantees i w w' -> quiet j w -> quiet j w'.
Hypothesis stable_mid : forall i j X (e : E X) r w T w', i <> j -> guarantees i w w' -> mid j e r w T ->
  mid j e r w' T.

Section clients.
Context {A : Type}.

Definition client (i : nat) (q : prog E A) : prog F A := interp (h i) q.

(** The clients' programs [q] that a program in the middle of a call may be. *)
Definition resume {X} (e : E X) (k : X -> prog E A) (o : option X) : prog E A :=
  match o with None => Vis e k | Some x => k x end.

Definition thread_ok (i : nat) (p : prog F A) (w : W) (Q : prog E A -> Prop) : Prop :=
  (exists a, p = Ret a /\ quiet i w /\ forall q, Q q <-> q = Ret a) \/
  (exists X (e : E X) (k : X -> prog E A) (r : prog F X) (T : option X -> Prop),
     p = bind r (fun x => client i (k x)) /\ ok e /\ mid i e r w T /\
     (forall x, answers e x -> makes (@ok) (@answers) (k x)) /\
     forall q, Q q <-> exists o, T o /\ q = resume e k o).

Lemma thread_start i q w :
  makes (@ok) (@answers) q -> quiet i w -> exists Q, thread_ok i (client i q) w Q /\ forall q', Q q' <-> q' = q.
Proof.
  intros Hq Hw. destruct q as [a|X e k].
  - exists (fun q => q = Ret a). split; [|done]. left. by exists a.
  - destruct Hq as [He Hk]. exists (fun q => q = Vis e k). split; [|done]. right.
    exists X, e, k, (h i X e), (eq None). split_and!; [done..|by apply start|done|].
    intros q. split; [intros ->; by exists None|by intros (o & <- & ->)].
Qed.

(** One client's step is no step or one step of a program it may be. *)
Definition advances (q : prog E A) (w : W) (q' : prog E A) (w' : W) : Prop :=
  (q' = q /\ view w' = view w) \/ prog_step q (view w) q' (view w').

Lemma moves_advances {X} (e : E X) k w o w' o' :
  moves e w o w' o' -> advances (resume e k o) w (resume e k o') w'.
Proof.
  destruct o as [x|], o' as [x'|]; cbn [moves resume].
  - intros [-> Hv]. by left.
  - done.
  - intros Hs. right. by exists x'.
  - intros Hv. by left.
Qed.

Lemma thread_step i p w Q p' w' :
  thread_ok i p w Q -> prog_step p w p' w' ->
  guarantees i w w' /\
  exists Q', thread_ok i p' w' Q' /\ forall q', Q' q' -> exists q, Q q /\ advances q w q' w'.
Proof.
  intros [(a & -> & _)|(X & e & k & r & T & -> & He & Hmid & Hk & HQ)]; [done|].
  destruct r as [x|Y c kr]; [by destruct (mid_call _ _ _ _ _ _ Hmid)|]. intros (y & Hsem & ->).
  destruct (step i X e (Vis c kr) w T (kr y) w' He Hmid) as [Hg Hcase]; [by exists y|].
  split; [exact Hg|]. destruct Hcase as [(x & Hr & Hquiet & Hans & o & Ho & Hmv)|(T' & Hmid' & Hst)].
  - rewrite Hr. destruct (thread_start i (k x) w') as (Q' & Hok' & HQ'); [by apply Hk|done|].
    exists Q'. split; [exact Hok'|]. intros q' ->%HQ'. exists (resume e k o). split.
    + apply HQ. by exists o.
    + exact (moves_advances e k w o w' (Some x) Hmv).
  - exists (fun q => exists o, T' o /\ q = resume e k o). split.
    + right. exists X, e, k, (kr y), T'. by split_and!.
    + intros q' (o' & Ho' & ->). destruct (Hst o' Ho') as (o & Ho & Hmv). exists (resume e k o). split.
      * apply HQ. by exists o.
      * by apply moves_advances.
Qed.

Lemma thread_stable i j p w w' Q :
  i <> j -> guarantees i w w' -> thread_ok j p w Q -> thread_ok j p w' Q.
Proof.
  intros Hij Hg [(a & -> & Hq & HQ)|(X & e & k & r & T & -> & He & Hmid & Hk & HQ)].
  - left. exists a. by eauto.
  - right. exists X, e, k, r, T. split_and!; eauto.
Qed.

Lemma thread_somewhere i p w Q : thread_ok i p w Q -> exists q, Q q.
Proof.
  intros [(a & _ & _ & HQ)|(X & e & k & r & T & _ & _ & Hmid & _ & HQ)].
  - exists (Ret a). by apply HQ.
  - destruct (mid_somewhere _ _ _ _ _ _ Hmid) as [o Ho]. exists (resume e k o). apply HQ. eauto.
Qed.

(** ** All clients together *)
Definition pool_ok (ps : list (prog F A)) (w : W) (Qs : list (prog E A -> Prop)) : Prop :=
  length Qs = length ps /\
  forall i p Q, ps !! i = Some p -> Qs !! i = Some Q -> thread_ok i p w Q.

(** What the clients may be is what the abstract pool can reach. *)
Definition explains (c0 : list (prog E A) * S) (w : W) (Qs : list (prog E A -> Prop)) : Prop :=
  forall qs, Forall2 (fun (Q : prog E A -> Prop) q => Q q) Qs qs -> pool_steps c0 (qs, view w).

Lemma pool_start qs w :
  Forall (makes (@ok) (@answers)) qs -> (forall i, quiet i w) ->
  exists Qs, pool_ok (imap client qs) w Qs /\ explains (qs, view w) w Qs.
Proof.
  intros Hqs Hw.
  assert (Hall : forall i q, qs !! i = Some q -> exists Q, thread_ok i (client i q) w Q /\ forall q', Q q' <-> q' = q).
  { intros i q Hq. rewrite Forall_lookup in Hqs. apply thread_start; eauto. }
  destruct (list_choice _ _ Hall) as (Qs & Hlen & HQs). exists Qs. split.
  - split; [by rewrite length_imap|]. intros i p Q Hp HQ. rewrite list_lookup_imap in Hp.
    destruct (qs !! i) as [q|] eqn:Hq; [|done]. injection Hp as <-. by apply (HQs i q Q).
  - intros qs' Hqs'. assert (qs' = qs) as ->; [|constructor].
    apply list_eq. intros i. destruct (qs !! i) as [q|] eqn:Hq.
    + destruct (lookup_lt_is_Some_2 Qs i) as [Q HQ]; [rewrite Hlen; by eapply lookup_lt_Some|].
      destruct (Forall2_lookup_l _ _ _ _ _ Hqs' HQ) as (q' & Hq' & Hin). rewrite Hq'.
      by apply (proj2 (HQs i q Q Hq HQ)) in Hin as ->.
    + apply lookup_ge_None in Hq. apply lookup_ge_None. by rewrite <- (Forall2_length _ _ _ Hqs'), Hlen.
Qed.

Lemma pool_advance c0 ps w Qs ps' w' :
  pool_ok ps w Qs -> explains c0 w Qs -> pool_step (ps, w) (ps', w') ->
  exists Qs', pool_ok ps' w' Qs' /\ explains c0 w' Qs'.
Proof.
  intros [Hlen Hok] Hex Hstep. inversion Hstep as [ts w1 i p p' w2 Hi Hp]; subst ts w1 ps' w2.
  destruct (lookup_lt_is_Some_2 Qs i) as [Q HQ]; [rewrite Hlen; by eapply lookup_lt_Some|].
  destruct (thread_step i p w Q p' w' (Hok i p Q Hi HQ) Hp) as [Hg (Q' & Hok' & Hadv)].
  assert (Hothers : forall j P, Qs !! j = Some P -> exists P',
            (forall pj, <[i := p']> ps !! j = Some pj -> thread_ok j pj w' P') /\
            (if decide (j = i) then P' = Q' else forall q, P' q -> P q)).
  { intros j P HP. destruct (decide (j = i)) as [->|Hne].
    - exists Q'. split; [|done]. rewrite list_lookup_insert_eq by by eapply lookup_lt_Some. by intros ? [= <-].
    - exists P. split; [|done]. rewrite list_lookup_insert_ne by done. intros pj Hpj.
      by apply (thread_stable i j pj w), Hok. }
  destruct (list_choice _ _ Hothers) as (Qs' & Hlen' & HQs'). exists Qs'. split.
  - split; [by rewrite length_insert, Hlen'|]. intros j pj P' Hpj HP'.
    destruct (lookup_lt_is_Some_2 Qs j) as [P HP]; [rewrite <- Hlen'; by eapply lookup_lt_Some|].
    by apply (HQs' j P P').
  - intros qs' Hqs'. destruct (lookup_lt_is_Some_2 Qs' i) as [P' HP']; [rewrite Hlen'; by eapply lookup_lt_Some|].
    pose proof (proj2 (HQs' i Q P' HQ HP')) as Heq. rewrite decide_True in Heq by done. subst P'.
    destruct (Forall2_lookup_l _ _ _ _ _ Hqs' HP') as (q' & Hq' & Hin').
    destruct (Hadv q' Hin') as (q & Hin & Hmove).
    assert (Hbefore : Forall2 (fun (Q : prog E A -> Prop) q => Q q) Qs (<[i := q]> qs')).
    { apply Forall2_same_length_lookup_2.
      - by rewrite length_insert, <- (Forall2_length _ _ _ Hqs'), Hlen'.
      - intros j P x HP Hx. destruct (lookup_lt_is_Some_2 Qs' j) as [R HR]; [rewrite Hlen'; by eapply lookup_lt_Some|].
        pose proof (proj2 (HQs' j P R HP HR)) as Hsub. destruct (decide (j = i)) as [->|Hne].
        + rewrite list_lookup_insert_eq in Hx by by eapply lookup_lt_Some. by simplify_eq.
        + rewrite list_lookup_insert_ne in Hx by done. apply Hsub.
          destruct (Forall2_lookup_l _ _ _ _ _ Hqs' HR) as (y & Hy & Hiny). by simplify_eq. }
    etrans; [exact (Hex _ Hbefore)|]. destruct Hmove as [[-> ->]|Hmove].
    + by rewrite list_insert_id.
    + apply rtc_once. assert (Hqs2 : qs' = <[i := q']> (<[i := q]> qs')) by by rewrite list_insert_insert_eq, list_insert_id.
      rewrite Hqs2 at 2.
      apply (pool_call _ _ i q); [|done]. apply list_lookup_insert_eq. by eapply lookup_lt_Some.
Qed.

Lemma pool_explained qs w c :
  Forall (makes (@ok) (@answers)) qs -> (forall i, quiet i w) -> pool_steps (imap client qs, w) c ->
  exists Qs, pool_ok c.1 c.2 Qs /\ explains (qs, view w) c.2 Qs.
Proof.
  intros Hqs Hw Hsteps. destruct (pool_start qs w Hqs Hw) as (Qs & Hok & Hex).
  change (imap client qs) with (imap client qs, w).1 in Hok. change w with (imap client qs, w).2 in Hok at 2.
  assert (Hex' : explains (qs, view w) (imap client qs, w).2 Qs) by exact Hex. clear Hex.
  revert Qs Hok Hex'. induction Hsteps as [c|[ps1 w1] [ps2 w2] c3 Hstep _ IH]; intros Qs Hok Hex; [by exists Qs|].
  destruct (pool_advance _ _ _ _ _ _ Hok Hex Hstep) as (Qs' & Hok' & Hex'). by apply (IH Qs').
Qed.

(** Every interleaving of the small calls is explained by one of the whole calls that
    reaches the same abstract state; *)
Lemma atomic_calls qs w c :
  Forall (makes (@ok) (@answers)) qs -> (forall i, quiet i w) -> pool_steps (imap client qs, w) c ->
  exists qs', pool_steps (qs, view w) (qs', view c.2).
Proof.
  intros Hqs Hw Hsteps. destruct (pool_explained qs w c Hqs Hw Hsteps) as (Qs & [Hlen Hok] & Hex).
  assert (Hall : forall i Q, Qs !! i = Some Q -> exists q, Q q).
  { intros i Q HQ. destruct (lookup_lt_is_Some_2 c.1 i) as [p Hp]; [rewrite <- Hlen; by eapply lookup_lt_Some|].
    by eapply thread_somewhere, Hok. }
  destruct (list_choice _ _ Hall) as (qs' & Hlen' & Hqs'). exists qs'. apply Hex.
  by apply Forall2_same_length_lookup_2.
Qed.

(** and when all clients are done, they have the same results. *)
Lemma atomic_results qs w (results : list A) w' :
  Forall (makes (@ok) (@answers)) qs -> (forall i, quiet i w) -> pool_steps (imap client qs, w) (Ret <$> results, w') ->
  pool_steps (qs, view w) (Ret <$> results, view w').
Proof.
  intros Hqs Hw Hsteps. destruct (pool_explained qs w _ Hqs Hw Hsteps) as (Qs & [Hlen Hok] & Hex). apply Hex.
  apply Forall2_same_length_lookup_2; [cbn in Hlen; rewrite Hlen; by rewrite !length_fmap|]. intros i Q q HQ Hq.
  assert (Hq' : (Ret <$> results : list (prog F A)) !! i = Ret <$> (results !! i)) by apply list_lookup_fmap.
  rewrite list_lookup_fmap in Hq. destruct (results !! i) as [a|] eqn:Ha; [|done]. injection Hq as <-.
  destruct (Hok i (Ret a) Q Hq' HQ) as [(a' & Heq & _ & HQa)|(X & e & k & r & T & Heq & _ & Hmid & _)].
  - apply HQa. by injection Heq as ->.
  - destruct r; [|done]. by destruct (mid_call _ _ _ _ _ _ Hmid).
Qed.

End clients.
End atomicity.
