(* ===== verification/GoStrings.v ===== *)
(** GoStrings: the functions of Go's [strings], [strconv] and [fmt] packages the
    repository uses, on byte strings.

    A Go string is a byte sequence, kept as a [string] of 8-bit characters and
    processed as the list of its bytes.  [TrimSpace] is exact on every byte string
    (the multi-byte Unicode spaces included).  [ToUpper] and [ToLower] are the byte
    maps Go uses on ASCII strings; their Unicode tables, for strings with a byte
    above 127, are the class [CaseTables], left abstract; so is the quoting of such
    strings by [%q]. *)
From Stdlib Require Export Ascii.
From S2P Require Import Prelude.

Definition bytes : Type := list ascii.
Definition to_bytes (s : string) : bytes := String.list_ascii_of_string s.
Definition of_bytes (l : bytes) : string := String.string_of_list_ascii l.

Lemma to_of_bytes l : to_bytes (of_bytes l) = l.
Proof. apply String.list_ascii_of_string_of_list_ascii. Qed.

Lemma of_to_bytes s : of_bytes (to_bytes s) = s.
Proof. apply String.string_of_list_ascii_of_string. Qed.

(** [len(s)]: the number of bytes. *)
Definition len (s : string) : Z := Z.of_nat (String.length s).

Definition byte_of (c : ascii) : Z := Z.of_N (N_of_ascii c).
Definition chr (z : Z) : ascii := ascii_of_N (Z.to_N z).

Definition is_ascii (s : string) : Prop := Forall (fun c => byte_of c < 128) (to_bytes s).

#[export] Instance is_ascii_dec s : Decision (is_ascii s).
Proof. unfold is_ascii. apply _. Defined.

(** ** strings.TrimSpace *)

(** The one-byte spaces: TAB, LF, VT, FF, CR and SPACE. *)
Definition space1 (c : ascii) : bool :=
  let b := byte_of c in ((9 <=? b) && (b <=? 13)) || (b =? 32).

(** U+0085 and U+00A0. *)
Definition space2 (c d : ascii) : bool :=
  (byte_of c =? 0xC2) && ((byte_of d =? 0x85) || (byte_of d =? 0xA0)).

(** U+1680, U+2000..U+200A, U+2028, U+2029, U+202F, U+205F, U+3000. *)
Definition space3 (c d e : ascii) : bool :=
  let x := byte_of c in let y := byte_of d in let z := byte_of e in
  ((x =? 0xE1) && (y =? 0x9A) && (z =? 0x80))
  || ((x =? 0xE2) && (y =? 0x80)
      && (((0x80 <=? z) && (z <=? 0x8A)) || (z =? 0xA8) || (z =? 0xA9) || (z =? 0xAF)))
  || ((x =? 0xE2) && (y =? 0x81) && (z =? 0x9F))
  || ((x =? 0xE3) && (y =? 0x80) && (z =? 0x80)).

Fixpoint trim_left (l : bytes) : bytes :=
  match l with
  | [] => []
  | c :: r =>
      if space1 c then trim_left r else
      match r with
      | [] => l
      | d :: r2 =>
          if space2 c d then trim_left r2 else
          match r2 with
          | [] => l
          | e :: r3 => if space3 c d e then trim_left r3 else l
          end
      end
  end.

(** The same from the right end, on the reversed bytes. *)
Fixpoint trim_left_rev (l : bytes) : bytes :=
  match l with
  | [] => []
  | c :: r =>
      if space1 c then trim_left_rev r else
      match r with
      | [] => l
      | d :: r2 =>
          if space2 d c then trim_left_rev r2 else
          match r2 with
          | [] => l
          | e :: r3 => if space3 e d c then trim_left_rev r3 else l
          end
      end
  end.

Definition trim_bytes (l : bytes) : bytes := reverse (trim_left_rev (reverse (trim_left l))).
Definition TrimSpace (s : string) : string := of_bytes (trim_bytes (to_bytes s)).

(** ** Case mapping *)
Definition upper_byte (c : ascii) : ascii :=
  let b := byte_of c in if (97 <=? b) && (b <=? 122) then chr (b - 32) else c.
Definition lower_byte (c : ascii) : ascii :=
  let b := byte_of c in if (65 <=? b) && (b <=? 90) then chr (b + 32) else c.

(** The results of [strings.ToUpper] and [strings.ToLower] on non-ASCII strings. *)
Class CaseTables := {
  unicode_upper : string -> string;
  unicode_lower : string -> string;
  unicode_quote : string -> string;
}.

(** Tables that map nothing, for the examples. *)
Definition no_tables : CaseTables :=
  {| unicode_upper s := s; unicode_lower s := s; unicode_quote s := s |}.

Definition ToUpper `{CaseTables} (s : string) : string :=
  if decide (is_ascii s) then of_bytes (upper_byte <$> to_bytes s) else unicode_upper s.
Definition ToLower `{CaseTables} (s : string) : string :=
  if decide (is_ascii s) then of_bytes (lower_byte <$> to_bytes s) else unicode_lower s.

(** [strconv.Quote], the [%q] verb: escapes, then hexadecimal for the other
    unprintable bytes. *)
Definition quote_chr : ascii := chr 34.
Definition backslash_chr : ascii := chr 92.
Definition hex_chr (d : Z) : ascii := if d <? 10 then chr (48 + d) else chr (87 + d).

Definition quote_byte (c : ascii) : bytes :=
  let b := byte_of c in
  let esc (l : ascii) := [backslash_chr; l] in
  if b =? 34 then esc quote_chr
  else if b =? 92 then esc backslash_chr
  else if b =? 7 then esc "a"%char
  else if b =? 8 then esc "b"%char
  else if b =? 12 then esc "f"%char
  else if b =? 10 then esc "n"%char
  else if b =? 13 then esc "r"%char
  else if b =? 9 then esc "t"%char
  else if b =? 11 then esc "v"%char
  else if (b <? 32) || (b =? 127) then [backslash_chr; "x"%char; hex_chr (b / 16); hex_chr (b mod 16)]
  else [c].

Definition Quote `{CaseTables} (s : string) : string :=
  if decide (is_ascii s)
  then of_bytes (quote_chr :: (c ← to_bytes s; quote_byte c) ++ [quote_chr])
  else unicode_quote s.

(** [strings.EqualFold] against an ASCII [t] without the letters k and s, the only
    ASCII letters a non-ASCII rune folds to: byte-wise comparison of lower case. *)
Definition EqualFold (s t : string) : bool :=
  bool_decide (lower_byte <$> to_bytes s = lower_byte <$> to_bytes t).

(** ** strings.HasPrefix, strings.Contains, strings.Split, strings.Join *)
Fixpoint has_prefix (p l : bytes) : bool :=
  match p, l with
  | [], _ => true
  | a :: p', b :: l' => bool_decide (a = b) && has_prefix p' l'
  | _ :: _, [] => false
  end.
Definition HasPrefix (s p : string) : bool := has_prefix (to_bytes p) (to_bytes s).

Fixpoint contains (l p : bytes) : bool :=
  has_prefix p l || match l with [] => false | _ :: l' => contains l' p end.
Definition Contains (s p : string) : bool := contains (to_bytes s) (to_bytes p).

(** [strings.Split(s, sep)] for a one-byte separator. *)
Fixpoint split_on (sep : ascii) (l : bytes) : list bytes :=
  match l with
  | [] => [[]]
  | c :: r =>
      if bool_decide (c = sep) then [] :: split_on sep r
      else match split_on sep r with
           | [] => [[c]]
           | w :: ws => (c :: w) :: ws
           end
  end.

Fixpoint Join (l : list string) (sep : string) : string :=
  match l with
  | [] => ""
  | [s] => s
  | s :: l' => s +:+ sep +:+ Join l' sep
  end.

(** ** strconv *)
Definition digit_val (c : ascii) : option Z :=
  let b := byte_of c in if (48 <=? b) && (b <=? 57) then Some (b - 48) else None.
Definition digit_chr (d : Z) : ascii := chr (48 + d).

Definition maxUint64 : Z := 2 ^ 64 - 1.

(** The loop of [ParseUint(s, 10, 64)]; [None] is a syntax or a range error. *)
Fixpoint parse_uint_loop (l : bytes) (n : Z) : option Z :=
  match l with
  | [] => Some n
  | c :: r =>
      match digit_val c with
      | None => None
      | Some d =>
          let n1 := n * 10 + d in
          if maxUint64 <? n1 then None else parse_uint_loop r n1
      end
  end.

Definition ParseUint (l : bytes) : option Z :=
  match l with [] => None | _ => parse_uint_loop l 0 end.

Definition plus_chr : ascii := "+"%char.
Definition minus_chr : ascii := "-"%char.
Definition dot_chr : ascii := "."%char.

(** [strconv.ParseInt(s, 10, 64)]; [None] is a non-nil error. *)
Definition ParseInt (l : bytes) : option Z :=
  match l with
  | [] => None
  | c :: r =>
      let neg := bool_decide (c = minus_chr) in
      let s := if bool_decide (c = plus_chr) || neg then r else l in
      match ParseUint s with
      | None => None
      | Some un =>
          if negb neg && (2 ^ 63 <=? un) then None
          else if neg && (2 ^ 63 <? un) then None
          else Some (if neg then wrap64 (- un) else un)
      end
  end.

(** [strconv.Atoi] on a 64-bit platform. *)
Definition Atoi (s : string) : option Z := ParseInt (to_bytes s).

Definition ParseBool (s : string) : option bool :=
  if bool_decide (s ∈ ["1"; "t"; "T"; "true"; "TRUE"; "True"]) then Some true
  else if bool_decide (s ∈ ["0"; "f"; "F"; "false"; "FALSE"; "False"]) then Some false
  else None.

(** Decimal digits of a non-negative number; [fuel] bounds the number of digits,
    [Z.log2] of the number being more than enough. *)
Fixpoint digits_loop (fuel : nat) (n : Z) (acc : bytes) : bytes :=
  match fuel with
  | O => acc
  | S f =>
      let acc' := digit_chr (n mod 10) :: acc in
      if n / 10 =? 0 then acc' else digits_loop f (n / 10) acc'
  end.

Definition digits (n : Z) : bytes := digits_loop (S (Z.to_nat (Z.log2 n))) n [].

(** [%d] and [strconv.Itoa]. *)
Definition fmt_d (z : Z) : bytes :=
  if z <? 0 then minus_chr :: digits (- z) else digits z.

(** [%02d]: padded with a zero to two bytes. *)
Definition fmt_02d (z : Z) : bytes :=
  match fmt_d z with
  | [c] => [digit_chr 0; c]
  | l => l
  end.

Definition Itoa (z : Z) : string := of_bytes (fmt_d z).

(** ** Lemmas *)
Lemma byte_of_range c : 0 <= byte_of c < 256.
Proof.
  unfold byte_of. pose proof (N_ascii_bounded c). split; [lia|].
  change 256 with (Z.of_N 256). lia.
Qed.

Lemma byte_of_chr z : 0 <= z < 256 -> byte_of (chr z) = z.
Proof. intros Hz. unfold byte_of, chr. rewrite N_ascii_embedding; lia. Qed.

Lemma digit_val_chr d : 0 <= d < 10 -> digit_val (digit_chr d) = Some d.
Proof.
  intros Hd. unfold digit_val, digit_chr. rewrite byte_of_chr by lia.
  replace (48 <=? 48 + d) with true by lia. replace (48 + d <=? 57) with true by lia.
  cbn -[Z.sub Z.add]. f_equal. lia.
Qed.

Definition is_digit (c : ascii) : Prop := is_Some (digit_val c).

Lemma digit_chr_is_digit d : 0 <= d < 10 -> is_digit (digit_chr d).
Proof. intros Hd. exists d. by apply digit_val_chr. Qed.

Lemma is_digit_not c d : is_digit c -> digit_val d = None -> c <> d.
Proof. intros [v Hv] Hd ->. congruence. Qed.

Lemma digits_loop_digits f n acc :
  Forall is_digit acc -> Forall is_digit (digits_loop f n acc).
Proof.
  revert n acc. induction f as [|f IH]; intros n acc Hacc; cbn [digits_loop]; [done|].
  assert (is_digit (digit_chr (n mod 10))).
  { apply digit_chr_is_digit. pose proof (Z.mod_pos_bound n 10). lia. }
  case_match; [|apply IH]; by constructor.
Qed.

Lemma digits_digits n : Forall is_digit (digits n).
Proof. apply digits_loop_digits. constructor. Qed.

Lemma digits_loop_acc f n acc : digits_loop f n acc = digits_loop f n [] ++ acc.
Proof.
  revert n acc. induction f as [|f IH]; intros n acc; cbn [digits_loop]; [done|].
  case_match; [done|]. rewrite IH, (IH _ [_]), <- app_assoc. done.
Qed.

(** Reading back the digits gives the number: the loop invariant. *)
Lemma parse_digits_loop f n acc :
  0 <= n < 2 ^ Z.of_nat f -> n <= maxUint64 ->
  f <> 0%nat ->
  parse_uint_loop (digits_loop f n acc) 0 = parse_uint_loop acc n.
Proof.
  revert n acc. induction f as [|f IH]; intros n acc Hn Hmax Hf; [done|].
  pose proof (Z.mod_pos_bound n 10 ltac:(lia)) as Hm.
  pose proof (Z.div_mod n 10 ltac:(lia)) as Hdm.
  rewrite Nat2Z.inj_succ, Z.pow_succ_r in Hn by lia.
  cbn [digits_loop]. destruct (n / 10 =? 0) eqn:Hz.
  - cbn [parse_uint_loop]. rewrite digit_val_chr by lia.
    replace (0 * 10 + n mod 10) with n by lia.
    replace (maxUint64 <? n) with false by lia. done.
  - assert (0 < n / 10) by (pose proof (Z.div_pos n 10); lia).
    assert (n / 10 < 2 ^ Z.of_nat f) by (apply Z.div_lt_upper_bound; lia).
    assert (f <> 0%nat) by (intros ->; cbn in *; lia).
    rewrite IH by lia.
    cbn [parse_uint_loop]. rewrite digit_val_chr by lia.
    replace (n / 10 * 10 + n mod 10) with n by lia.
    replace (maxUint64 <? n) with false by lia. done.
Qed.

Lemma digits_fuel n : 0 <= n -> 0 <= n < 2 ^ Z.of_nat (S (Z.to_nat (Z.log2 n))).
Proof.
  intros Hn. split; [done|]. rewrite Nat2Z.inj_succ, Z2Nat.id by apply Z.log2_nonneg.
  destruct (decide (n = 0)) as [->|]; [cbn; lia|]. apply Z.log2_spec. lia.
Qed.

Lemma digits_nonempty n : digits n <> [].
Proof.
  unfold digits. cbn [digits_loop]. case_match; [done|].
  rewrite digits_loop_acc. by destruct (digits_loop _ _ _).
Qed.

Lemma ParseUint_digits n : 0 <= n <= maxUint64 -> ParseUint (digits n) = Some n.
Proof.
  intros Hn. unfold ParseUint. pose proof (digits_nonempty n).
  destruct (digits n) eqn:Hd; [done|]. rewrite <- Hd. unfold digits.
  rewrite parse_digits_loop; [done|apply digits_fuel; lia|lia|done].
Qed.

Lemma digits_head n : exists c r, digits n = c :: r /\ is_digit c.
Proof.
  pose proof (digits_nonempty n). pose proof (digits_digits n) as Hd.
  destruct (digits n) as [|c r]; [done|]. inversion Hd; eauto.
Qed.

Lemma ParseInt_unsigned c r :
  is_digit c -> ParseInt (c :: r) =
    match ParseUint (c :: r) with
    | None => None
    | Some un => if 2 ^ 63 <=? un then None else Some un
    end.
Proof.
  intros Hc. unfold ParseInt.
  rewrite (bool_decide_eq_false_2 (c = minus_chr)) by (eapply is_digit_not; done).
  rewrite (bool_decide_eq_false_2 (c = plus_chr)) by (eapply is_digit_not; done).
  cbn [orb]. destruct (ParseUint (c :: r)); [|done]. cbn [negb andb].
  case_match; done.
Qed.

Lemma ParseInt_digits n : 0 <= n < 2 ^ 63 -> ParseInt (digits n) = Some n.
Proof.
  intros Hn. destruct (digits_head n) as (c & r & Hd & Hc).
  rewrite Hd, ParseInt_unsigned, <- Hd by done.
  rewrite ParseUint_digits by (unfold maxUint64; lia).
  replace (2 ^ 63 <=? n) with false by lia. done.
Qed.

Lemma ParseInt_minus_digits n :
  0 <= n <= 2 ^ 63 -> ParseInt (minus_chr :: digits n) = Some (- n).
Proof.
  intros Hn. unfold ParseInt.
  rewrite (bool_decide_eq_true_2 (minus_chr = minus_chr)) by done.
  rewrite orb_true_r, ParseUint_digits by (unfold maxUint64; lia). cbn [negb andb].
  replace (2 ^ 63 <? n) with false by lia.
  rewrite wrap64_id; [done|]. unfold in_int64, int64_min, int64_max. lia.
Qed.

Lemma ParseInt_fmt_d z : in_int64 z -> ParseInt (fmt_d z) = Some z.
Proof.
  intros Hz. unfold in_int64, int64_min, int64_max in Hz. unfold fmt_d. case_match.
  - rewrite ParseInt_minus_digits by lia. f_equal. lia.
  - apply ParseInt_digits. lia.
Qed.

(** Two-digit numbers are printed as two digits by [%02d]. *)
Lemma fmt_02d_two d :
  0 <= d < 100 -> fmt_02d d = [digit_chr (d / 10); digit_chr (d mod 10)].
Proof.
  intros Hd.
  assert (Hall : forallb (fun i => bool_decide
    (fmt_02d (Z.of_nat i) = [digit_chr (Z.of_nat i / 10); digit_chr (Z.of_nat i mod 10)]))
    (seq 0 100) = true) by (vm_compute; reflexivity).
  rewrite forallb_forall in Hall. specialize (Hall (Z.to_nat d)).
  rewrite bool_decide_eq_true, Z2Nat.id in Hall by lia.
  apply Hall, in_seq. lia.
Qed.

(** Splitting around separators. *)
Lemma split_on_none sep l : sep ∉ l -> split_on sep l = [l].
Proof.
  induction l as [|c l IH]; intros Hn; cbn; [done|].
  apply not_elem_of_cons in Hn as [Hc Hl].
  rewrite bool_decide_eq_false_2 by congruence. by rewrite IH.
Qed.

Lemma split_on_app sep l1 l2 :
  sep ∉ l1 -> split_on sep (l1 ++ sep :: l2) = l1 :: split_on sep l2.
Proof.
  induction l1 as [|c l1 IH]; intros Hn; cbn.
  - by rewrite bool_decide_eq_true_2.
  - apply not_elem_of_cons in Hn as [Hc Hl].
    rewrite bool_decide_eq_false_2 by congruence. by rewrite IH.
Qed.

Lemma digits_not_in c l : digit_val c = None -> Forall is_digit l -> c ∉ l.
Proof.
  intros Hc Hl Hin. rewrite Forall_forall in Hl. apply Hl in Hin as [v Hv]. congruence.
Qed.

(** Trimming leaves a string alone that starts and ends with a visible ASCII byte. *)
Definition visible (c : ascii) : Prop := 33 <= byte_of c < 127.

Lemma visible_space1 c : visible c -> space1 c = false.
Proof. unfold visible, space1. lia. Qed.
Lemma visible_space2_l c d : visible c -> space2 c d = false.
Proof. unfold visible, space2. lia. Qed.
Lemma visible_space2_r c d : visible d -> space2 c d = false.
Proof. unfold visible, space2. lia. Qed.
Lemma visible_space3_l c d e : visible c -> space3 c d e = false.
Proof. unfold visible, space3. lia. Qed.
Lemma visible_space3_r c d e : visible e -> space3 c d e = false.
Proof. unfold visible, space3. lia. Qed.

Lemma trim_left_visible c r : visible c -> trim_left (c :: r) = c :: r.
Proof.
  intros Hc. cbn. rewrite visible_space1 by done.
  destruct r as [|d [|e r]]; [done|..]; rewrite visible_space2_l by done; [done|].
  by rewrite visible_space3_l.
Qed.

Lemma trim_left_rev_visible c r : visible c -> trim_left_rev (c :: r) = c :: r.
Proof.
  intros Hc. cbn. rewrite visible_space1 by done.
  destruct r as [|d [|e r]]; [done|..]; rewrite visible_space2_r by done; [done|].
  by rewrite visible_space3_r.
Qed.

Lemma trim_bytes_visible l :
  Forall visible l -> trim_bytes l = l.
Proof.
  intros Hl. unfold trim_bytes. destruct l as [|c l]; [done|].
  rewrite trim_left_visible by (by inversion Hl).
  destruct (reverse (c :: l)) as [|d r] eqn:Hr.
  - apply (f_equal reverse) in Hr. by rewrite reverse_involutive in Hr.
  - rewrite trim_left_rev_visible, <- Hr, reverse_involutive; [done|].
    assert (Hin : d ∈ c :: l) by (rewrite <- elem_of_reverse, Hr; set_solver).
    rewrite Forall_forall in Hl. by apply Hl.
Qed.

Lemma is_digit_visible c : is_digit c -> visible c.
Proof.
  intros [v Hv]. unfold digit_val in Hv. unfold visible. case_match; [lia|done].
Qed.

(** Padding with one-byte spaces on both sides is removed. *)
Definition blank (c : ascii) : Prop := space1 c = true.

Lemma trim_left_blank l r : Forall blank l -> trim_left (l ++ r) = trim_left r.
Proof. induction 1 as [|c l Hc _ IH]; cbn; [done|]. unfold blank in Hc. by rewrite Hc. Qed.

Lemma trim_left_rev_blank l r : Forall blank l -> trim_left_rev (l ++ r) = trim_left_rev r.
Proof. induction 1 as [|c l Hc _ IH]; cbn; [done|]. unfold blank in Hc. by rewrite Hc. Qed.

Lemma trim_bytes_padded l w r :
  Forall blank l -> Forall blank r -> Forall visible w -> w <> [] ->
  trim_bytes (l ++ w ++ r) = w.
Proof.
  intros Hl Hr Hw Hne. unfold trim_bytes. rewrite trim_left_blank by done.
  destruct w as [|c w]; [done|]. cbn [app].
  rewrite trim_left_visible by (by inversion Hw).
  rewrite app_comm_cons, reverse_app, trim_left_rev_blank by (by apply Forall_reverse).
  destruct (reverse (c :: w)) as [|d v] eqn:Hrev.
  - apply (f_equal reverse) in Hrev. by rewrite reverse_involutive in Hrev.
  - rewrite trim_left_rev_visible, <- Hrev; [apply reverse_involutive|].
    apply Forall_reverse in Hw. rewrite Hrev in Hw. by inversion Hw.
Qed.

Lemma upper_byte_blank c : blank c -> upper_byte c = c.
Proof. unfold blank, space1, upper_byte. intros Hc. case_match; [lia|done]. Qed.

Lemma upper_bytes_blank l : Forall blank l -> upper_byte <$> l = l.
Proof. induction 1 as [|c l Hc _ IH]; cbn; [done|]. by rewrite upper_byte_blank, IH. Qed.

Lemma upper_byte_ascii c : byte_of (upper_byte c) < 128 -> byte_of c < 128.
Proof. unfold upper_byte. case_match; lia. Qed.

Lemma ToUpper_ascii `{CaseTables} s : is_ascii s -> ToUpper s = of_bytes (upper_byte <$> to_bytes s).
Proof. intros Hs. unfold ToUpper. by rewrite decide_True. Qed.

Lemma ToLower_ascii `{CaseTables} s : is_ascii s -> ToLower s = of_bytes (lower_byte <$> to_bytes s).
Proof. intros Hs. unfold ToLower. by rewrite decide_True. Qed.

Lemma blank_ascii c : blank c -> byte_of c < 128.
Proof. unfold blank, space1. lia. Qed.

Lemma parse_uint_loop_nonneg l n m : 0 <= n -> parse_uint_loop l n = Some m -> 0 <= m.
Proof.
  revert n. induction l as [|c l IH]; intros n Hn; cbn; [intros [= <-]; done|].
  destruct (digit_val c) as [d|] eqn:Hd; [|done]. case_match; [done|]. apply IH.
  unfold digit_val in Hd. case_match; simplify_eq. lia.
Qed.

Lemma ParseUint_nonneg l n : ParseUint l = Some n -> 0 <= n.
Proof. destruct l; [done|]. by apply parse_uint_loop_nonneg. Qed.

(** What a Go [int] can be parsed to. *)
Lemma ParseInt_range l n : ParseInt l = Some n -> in_int64 n.
Proof.
  unfold ParseInt. destruct l as [|c r]; [done|].
  destruct (ParseUint _) as [un|] eqn:Hu; [|done]. apply ParseUint_nonneg in Hu.
  case_bool_decide; cbn [negb andb].
  - case_match; [done|]. intros [= <-]. apply wrap64_range.
  - case_match; [done|]. intros [= <-]. unfold in_int64, int64_min, int64_max. lia.
Qed.
