(* ===== verification/Base64.v ===== *)
(** Base64: [base64.RawURLEncoding] of Go's encoding/base64, which the JWT segments
    use: the URL alphabet, no padding; the decoder skips CR and LF and, not being
    strict, ignores the unused low bits of the last character. *)
From S2P Require Import Prelude GoStrings.

(** ** Alphabet *)
Definition b64_chr (s : Z) : ascii :=
  if s <? 26 then chr (65 + s)
  else if s <? 52 then chr (97 + (s - 26))
  else if s <? 62 then chr (48 + (s - 52))
  else if s =? 62 then "-"%char else "_"%char.

Definition b64_val (c : ascii) : option Z :=
  let b := byte_of c in
  if (65 <=? b) && (b <=? 90) then Some (b - 65)
  else if (97 <=? b) && (b <=? 122) then Some (b - 97 + 26)
  else if (48 <=? b) && (b <=? 57) then Some (b - 48 + 52)
  else if b =? 45 then Some 62
  else if b =? 95 then Some 63
  else None.

(** ** Encoding *)
Fixpoint b64_sextets (l : bytes) : list Z :=
  match l with
  | a :: b :: c :: r =>
      let n := byte_of a * 65536 + byte_of b * 256 + byte_of c in
      n / 262144 :: (n / 4096) mod 64 :: (n / 64) mod 64 :: n mod 64 :: b64_sextets r
  | [a; b] =>
      let n := byte_of a * 65536 + byte_of b * 256 in
      [n / 262144; (n / 4096) mod 64; (n / 64) mod 64]
  | [a] => let n := byte_of a * 65536 in [n / 262144; (n / 4096) mod 64]
  | [] => []
  end.

Definition EncodeToString (l : bytes) : bytes := b64_chr <$> b64_sextets l.

(** ** Decoding *)
Definition is_newline (c : ascii) : bool := (byte_of c =? 10) || (byte_of c =? 13).

Fixpoint b64_values (l : bytes) : option (list Z) :=
  match l with
  | [] => Some []
  | c :: r =>
      if is_newline c then b64_values r
      else match b64_val c, b64_values r with
           | Some v, Some vs => Some (v :: vs)
           | _, _ => None
           end
  end.

Fixpoint b64_bytes (vs : list Z) : option bytes :=
  match vs with
  | a :: b :: c :: d :: r =>
      let n := a * 262144 + b * 4096 + c * 64 + d in
      match b64_bytes r with
      | Some l => Some (chr (n / 65536) :: chr ((n / 256) mod 256) :: chr (n mod 256) :: l)
      | None => None
      end
  | [a; b; c] =>
      let n := a * 262144 + b * 4096 + c * 64 in
      Some [chr (n / 65536); chr ((n / 256) mod 256)]
  | [a; b] => let n := a * 262144 + b * 4096 in Some [chr (n / 65536)]
  | [_] => None
  | [] => Some []
  end.

Definition DecodeString (l : bytes) : option bytes :=
  match b64_values l with Some vs => b64_bytes vs | None => None end.

(** ** Lemmas *)
Definition sextet (s : Z) : Prop := 0 <= s < 64.

Lemma b64_chr_val s : sextet s -> b64_val (b64_chr s) = Some s /\ is_newline (b64_chr s) = false.
Proof.
  intros Hs. assert (Hall : forallb (fun s => bool_decide (b64_val (b64_chr s) = Some s)
                              && negb (is_newline (b64_chr s))) (seqZ 0 64) = true) by (vm_compute; done).
  rewrite forallb_forall in Hall. specialize (Hall s). rewrite andb_true_iff, negb_true_iff in Hall.
  destruct Hall as [H1%bool_decide_eq_true H2]; [|done].
  apply list_elem_of_In, elem_of_seqZ. unfold sextet in Hs. lia.
Qed.

Lemma b64_chr_not_dot s : sextet s -> b64_chr s <> dot_chr.
Proof. intros Hs Heq. destruct (b64_chr_val s Hs) as [Hv _]. rewrite Heq in Hv. done. Qed.

Lemma three_step_ind {A} (P : list A -> Prop) :
  P [] -> (forall a, P [a]) -> (forall a b, P [a; b]) ->
  (forall a b c l, P l -> P (a :: b :: c :: l)) -> forall l, P l.
Proof.
  intros H0 H1 H2 H3. fix IH 1. intros [|a [|b [|c l]]]; [exact H0|apply H1|apply H2|].
  apply H3, IH.
Qed.

Lemma div_sextet n k : 0 <= n -> 0 < k -> sextet ((n / k) mod 64).
Proof. intros. unfold sextet. apply Z.mod_pos_bound. lia. Qed.

Lemma top_sextet n : 0 <= n < 16777216 -> sextet (n / 262144).
Proof. intros. unfold sextet. split; [apply Z.div_pos; lia|apply Z.div_lt_upper_bound; lia]. Qed.

Lemma sextets_ok l : Forall sextet (b64_sextets l).
Proof.
  induction l as [|a|a b|a b c l IH] using three_step_ind; cbn [b64_sextets]; [constructor|..];
    pose proof (byte_of_range a); try pose proof (byte_of_range b); try pose proof (byte_of_range c);
    repeat constructor; try done; try (apply top_sextet; lia); try (apply div_sextet; lia);
    unfold sextet; apply Z.mod_pos_bound; lia.
Qed.

Lemma b64_values_chr vs : Forall sextet vs -> b64_values (b64_chr <$> vs) = Some vs.
Proof.
  induction 1 as [|s vs Hs _ IH]; [done|]. cbn. destruct (b64_chr_val s Hs) as [-> ->].
  by rewrite IH.
Qed.

(** The four sextets of a 24-bit number spell it. *)
Lemma sextets_join n :
  0 <= n -> n / 262144 * 262144 + (n / 4096) mod 64 * 4096 + (n / 64) mod 64 * 64 + n mod 64 = n.
Proof.
  intros Hn.
  pose proof (Z.div_mod n 64 ltac:(lia)). pose proof (Z.div_mod (n / 64) 64 ltac:(lia)).
  pose proof (Z.div_mod (n / 4096) 64 ltac:(lia)).
  assert (n / 64 / 64 = n / 4096) by (rewrite Z.div_div by lia; done).
  assert (n / 4096 / 64 = n / 262144) by (rewrite Z.div_div by lia; done). lia.
Qed.

Lemma bytes_split a b c :
  0 <= a < 256 -> 0 <= b < 256 -> 0 <= c < 256 ->
  let n := a * 65536 + b * 256 + c in
  n / 65536 = a /\ (n / 256) mod 256 = b /\ n mod 256 = c.
Proof.
  intros Ha Hb Hc. cbv zeta.
  assert (H1 : (a * 65536 + b * 256 + c) / 256 = a * 256 + b).
  { symmetry. apply (Z.div_unique _ 256 _ c); lia. }
  rewrite H1. split; [|split].
  - symmetry. apply (Z.div_unique _ 65536 _ (b * 256 + c)); lia.
  - symmetry. apply (Z.mod_unique _ 256 a); lia.
  - symmetry. apply (Z.mod_unique _ 256 (a * 256 + b)); lia.
Qed.

Lemma chr_byte_of c : chr (byte_of c) = c.
Proof. unfold chr, byte_of. rewrite N2Z.id. apply ascii_N_embedding. Qed.

Lemma b64_bytes_sextets l : b64_bytes (b64_sextets l) = Some l.
Proof.
  induction l as [|a|a b|a b c l IH] using three_step_ind; cbn [b64_sextets b64_bytes]; [done|..].
  - pose proof (byte_of_range a) as Ha.
    pose proof (sextets_join (byte_of a * 65536) ltac:(lia)) as Hj.
    rewrite <- (Z.div_unique (byte_of a * 65536) 64 (byte_of a * 1024) 0) in Hj by lia.
    replace ((byte_of a * 1024) mod 64) with 0 in Hj
      by (apply (Z.mod_unique _ 64 (byte_of a * 16)); lia).
    replace ((byte_of a * 65536) mod 64) with 0 in Hj
      by (apply (Z.mod_unique _ 64 (byte_of a * 1024)); lia).
    rewrite !Z.mul_0_l, !Z.add_0_r in Hj. rewrite Hj.
    destruct (bytes_split (byte_of a) 0 0) as (H1 & _ & _); [lia..|].
    rewrite Z.mul_0_l, !Z.add_0_r in H1. by rewrite H1, chr_byte_of.
  - pose proof (byte_of_range a) as Ha. pose proof (byte_of_range b) as Hb.
    set (n := byte_of a * 65536 + byte_of b * 256).
    pose proof (sextets_join n ltac:(lia)) as Hj.
    replace (n mod 64) with 0 in Hj by (apply (Z.mod_unique _ 64 (byte_of a * 1024 + byte_of b * 4)); lia).
    rewrite Z.add_0_r in Hj. rewrite Hj.
    destruct (bytes_split (byte_of a) (byte_of b) 0) as (H1 & H2 & _); [lia..|].
    rewrite Z.add_0_r in H1, H2. fold n in H1, H2. by rewrite H1, H2, !chr_byte_of.
  - pose proof (byte_of_range a) as Ha. pose proof (byte_of_range b) as Hb.
    pose proof (byte_of_range c) as Hc.
    rewrite IH, sextets_join by lia.
    destruct (bytes_split (byte_of a) (byte_of b) (byte_of c)) as (H1 & H2 & H3); [lia..|].
    by rewrite H1, H2, H3, !chr_byte_of.
Qed.

Lemma Decode_Encode l : DecodeString (EncodeToString l) = Some l.
Proof.
  unfold DecodeString, EncodeToString. rewrite b64_values_chr by apply sextets_ok.
  apply b64_bytes_sextets.
Qed.

(** The encoding never contains the separator of the segments. *)
Lemma Encode_no_dot l : dot_chr ∉ EncodeToString l.
Proof.
  unfold EncodeToString. rewrite list_elem_of_fmap. intros (s & Heq & Hs).
  pose proof (sextets_ok l) as Hall. rewrite Forall_forall in Hall.
  by apply (b64_chr_not_dot s (Hall s Hs)).
Qed.
