(* ===== verification/Uuid.v ===== *)
(** Uuid: the interface of the third-party package github.com/google/uuid.

    The development never defines what the package computes: its text form and
    parser are a class whose laws are the documented ones ([String] is the
    canonical ASCII form and [Parse] reads it back).  [bit_text] is a concrete instance
    that shows the laws can hold; the examples run on it. *)
From Stdlib Require Import Ascii.
From S2P Require Import Prelude GoStrings.

Class UuidText := {
  uuid_String : uuid -> string;
  uuid_Parse : string -> option uuid;
  uuid_Parse_String u : uuid_Parse (uuid_String u) = Some u;
  uuid_String_ascii u : is_ascii (uuid_String u);
}.

#[export] Instance uuid_String_inj `{UuidText} : Inj (=) (=) uuid_String.
Proof.
  intros u v Huv. assert (Hp : uuid_Parse (uuid_String u) = uuid_Parse (uuid_String v)) by congruence.
  rewrite !uuid_Parse_String in Hp. congruence.
Qed.

(** ** A concrete instance: the bits of the successor, least significant first *)
Fixpoint bits_of_pos (p : positive) : string :=
  match p with
  | xH => ""
  | xO p' => String "0"%char (bits_of_pos p')
  | xI p' => String "1"%char (bits_of_pos p')
  end.

Fixpoint pos_of_bits (s : string) : positive :=
  match s with
  | EmptyString => xH
  | String c s' => if bool_decide (c = "0"%char) then xO (pos_of_bits s') else xI (pos_of_bits s')
  end.

Lemma pos_of_bits_of_pos p : pos_of_bits (bits_of_pos p) = p.
Proof. induction p as [p IH|p IH|]; cbn; by rewrite ?IH. Qed.

Definition bit_parse (s : string) : option uuid :=
  match s with
  | EmptyString => Some 0%N
  | _ => if bool_decide (bits_of_pos (pos_of_bits s) = s)
         then Some (Pos.pred_N (pos_of_bits s)) else None
  end.

Lemma bit_parse_text (u : uuid) : bit_parse (bits_of_pos (N.succ_pos u)) = Some u.
Proof.
  unfold bit_parse. destruct (bits_of_pos (N.succ_pos u)) eqn:Hb.
  - rewrite <- (N.pos_pred_succ u), <- (pos_of_bits_of_pos (N.succ_pos u)), Hb. done.
  - rewrite <- Hb, pos_of_bits_of_pos, bool_decide_eq_true_2 by done.
    by rewrite N.pos_pred_succ.
Qed.

Lemma bits_ascii p : is_ascii (bits_of_pos p).
Proof. induction p as [p IH|p IH|]; unfold is_ascii in *; cbn; repeat constructor; done. Qed.

Definition bit_text : UuidText := {|
  uuid_String u := bits_of_pos (N.succ_pos u);
  uuid_Parse := bit_parse;
  uuid_Parse_String := bit_parse_text;
  uuid_String_ascii u := bits_ascii (N.succ_pos u);
|}.
