(* ===== verification/Calendar.v ===== *)
(** Calendar: the calendar dates and the text forms of instants that the repository
    takes from Go's [time] package: [time.Parse] with the layout 2006-01-02, which the
    listing filters use, and the RFC 3339 text of [time.Time] in JSON. *)
From Stdlib Require Import Ascii.
From S2P Require Import Prelude GoStrings.

(** ** Civil dates *)
Definition leap (y : Z) : bool :=
  (y mod 4 =? 0) && (negb (y mod 100 =? 0) || (y mod 400 =? 0)).

Definition days_in (m y : Z) : Z :=
  if m =? 2 then (if leap y then 29 else 28)
  else if (m =? 4) || (m =? 6) || (m =? 9) || (m =? 11) then 30 else 31.

(** Days from 1970-01-01 to a date of the proleptic Gregorian calendar.  Years are
    counted from March, so the leap day is the last day of its year. *)
Definition days_from_civil (y m d : Z) : Z :=
  let y' := if m <=? 2 then y - 1 else y in
  let era := y' / 400 in
  let yoe := y' - era * 400 in
  let mp := if m <=? 2 then m + 9 else m - 3 in
  let doy := (153 * mp + 2) / 5 + d - 1 in
  era * 146097 + (yoe * 365 + yoe / 4 - yoe / 100 + doy) - 719468.

(** The date of a day number: the 400-year era, then the century, the four-year
    cycle and the year inside it, the last of which may be one day longer. *)
Definition civil_from_days (z : Z) : Z * Z * Z :=
  let z' := z + 719468 in
  let era := z' / 146097 in
  let doe := z' mod 146097 in
  let c := Z.min 3 (doe / 36524) in
  let doc := doe - c * 36524 in
  let q := doc / 1461 in
  let doq := doc - q * 1461 in
  let n := Z.min 3 (doq / 365) in
  let doy := doq - n * 365 in
  let mp := (5 * doy + 2) / 153 in
  let d := doy - (153 * mp + 2) / 5 + 1 in
  let m := if mp <? 10 then mp + 3 else mp - 9 in
  let y := era * 400 + c * 100 + q * 4 + n in
  (if m <=? 2 then y + 1 else y, m, d).

Definition valid_date (y m d : Z) : bool :=
  (1 <=? m) && (m <=? 12) && (1 <=? d) && (d <=? days_in m y).

Definition second_ns : Z := 1000000000.
Definition day_ns : Z := 86400 * second_ns.

(** ** Fixed-width decimal fields *)
Fixpoint fixed (width : nat) (z : Z) : bytes :=
  match width with
  | O => []
  | S w => fixed w (z / 10) ++ [digit_chr (z mod 10)]
  end.

Fixpoint read_from (acc : Z) (l : bytes) : option Z :=
  match l with
  | [] => Some acc
  | c :: r => match digit_val c with Some v => read_from (acc * 10 + v) r | None => None end
  end.

Definition read (l : bytes) : option Z := read_from 0 l.

(** A field read within bounds, as [parseUint(s, min, max)] of the package. *)
Definition read_in (lo hi : Z) (l : bytes) : option Z :=
  match read l with
  | Some v => if (lo <=? v) && (v <=? hi) then Some v else None
  | None => None
  end.

(** ** time.Parse("2006-01-02", s): ten bytes, a valid date, midnight UTC *)
Definition read_date (y1 y2 y3 y4 m1 m2 d1 d2 : ascii) : option (Z * Z * Z) :=
  match read [y1; y2; y3; y4], read [m1; m2], read [d1; d2] with
  | Some y, Some m, Some d => if valid_date y m d then Some (y, m, d) else None
  | _, _, _ => None
  end.

Definition ParseDate (s : string) : option time :=
  match to_bytes s with
  | [y1; y2; y3; y4; s1; m1; m2; s2; d1; d2] =>
      if bool_decide (s1 = minus_chr) && bool_decide (s2 = minus_chr) then
        match read_date y1 y2 y3 y4 m1 m2 d1 d2 with
        | Some (y, m, d) => Some (days_from_civil y m d * day_ns)
        | None => None
        end
      else None
  | _ => None
  end.

Example ParseDate_epoch :
  ParseDate "1970-01-02" = Some day_ns /\ ParseDate "2023-02-29" = None /\
  ParseDate "2024-02-29" = Some (19782 * day_ns) /\ ParseDate "2024-2-1" = None.
Proof. split_and!; vm_compute; reflexivity. Qed.

Example civil_examples :
  civil_from_days 0 = (1970, 1, 1) /\ civil_from_days 19782 = (2024, 2, 29) /\
  civil_from_days (-719468) = (0, 3, 1) /\ civil_from_days 11016 = (2000, 2, 29).
Proof. split_and!; vm_compute; reflexivity. Qed.

(** ** RFC 3339 *)
Definition colon_chr : ascii := ":"%char.

(** The offset from UTC, in minutes, that the process prints local times with. *)
Class LocalZone := {
  zone_minutes : time -> Z;
  zone_bound t : -1440 < zone_minutes t < 1440;
}.

Definition UTC : LocalZone.
Proof. refine {| zone_minutes _ := 0 |}. intros _. lia. Defined.

(** Nine digits without the trailing zeros, after a point; nothing for zero. *)
Fixpoint strip_zeros (l : bytes) : bytes :=
  match l with
  | [] => []
  | c :: r => match strip_zeros r with
              | [] => if bool_decide (c = digit_chr 0) then [] else [c]
              | r' => c :: r'
              end
  end.

Definition fraction_text (nanos : Z) : bytes :=
  match strip_zeros (fixed 9 nanos) with [] => [] | l => dot_chr :: l end.

Definition zone_text (minutes : Z) : bytes :=
  if minutes =? 0 then ["Z"%char]
  else (if minutes <? 0 then minus_chr else plus_chr)
       :: fixed 2 (Z.abs minutes / 60) ++ colon_chr :: fixed 2 (Z.abs minutes mod 60).

(** [Time.MarshalJSON] without the quotes; an error when the local year does not
    have four digits. *)
Definition format_rfc3339 `{!LocalZone} (t : time) : option bytes :=
  let minutes := zone_minutes t in
  let local := t + minutes * 60 * second_ns in
  let '(y, m, d) := civil_from_days (local / day_ns) in
  let rest := local mod day_ns in
  let secs := rest / second_ns in
  if (0 <=? y) && (y <=? 9999) then
    Some (fixed 4 y ++ minus_chr :: fixed 2 m ++ minus_chr :: fixed 2 d ++ "T"%char
          :: fixed 2 (secs / 3600) ++ colon_chr :: fixed 2 (secs / 60 mod 60) ++ colon_chr
          :: fixed 2 (secs mod 60) ++ fraction_text (rest mod second_ns) ++ zone_text minutes)
  else None.

(** The run of digits of a fraction. *)
Fixpoint span_digits (l : bytes) : bytes * bytes :=
  match l with
  | c :: r => match digit_val c with
              | Some _ => let '(ds, rest) := span_digits r in (c :: ds, rest)
              | None => ([], l)
              end
  | [] => ([], [])
  end.

Definition read_fraction (l : bytes) : option (Z * bytes) :=
  match l with
  | c :: r =>
      if bool_decide (c = dot_chr) then
        match span_digits r with
        | ([], _) => Some (0, l)
        | (ds, rest) =>
            match read (take 9 ds) with
            | Some v => Some (v * 10 ^ (9 - Z.of_nat (length (take 9 ds))), rest)
            | None => None
            end
        end
      else Some (0, l)
  | [] => Some (0, [])
  end.

(** The offset in minutes at the end of the text. *)
Definition read_zone (l : bytes) : option Z :=
  match l with
  | [c] => if bool_decide (c = "Z"%char) then Some 0 else None
  | [s; h1; h2; c; i1; i2] =>
      match read_in 0 23 [h1; h2], read_in 0 59 [i1; i2] with
      | Some h, Some i =>
          if bool_decide (c = colon_chr) then
            if bool_decide (s = plus_chr) then Some (h * 60 + i)
            else if bool_decide (s = minus_chr) then Some (- (h * 60 + i)) else None
          else None
      | _, _ => None
      end
  | _ => None
  end.

(** [Time.UnmarshalJSON] on the text between the quotes: the strict grammar. *)
Definition parse_rfc3339 (l : bytes) : option time :=
  match l with
  | y1 :: y2 :: y3 :: y4 :: s1 :: m1 :: m2 :: s2 :: d1 :: d2 :: s3 ::
    h1 :: h2 :: s4 :: i1 :: i2 :: s5 :: c1 :: c2 :: rest =>
      if bool_decide ([s1; s2; s3; s4; s5] = [minus_chr; minus_chr; "T"%char; colon_chr; colon_chr]) then
        match read_date y1 y2 y3 y4 m1 m2 d1 d2, read_in 0 23 [h1; h2], read_in 0 59 [i1; i2],
              read_in 0 59 [c1; c2] with
        | Some (y, m, d), Some h, Some i, Some c =>
            match read_fraction rest with
            | Some (nanos, zone) =>
                match read_zone zone with
                | Some minutes =>
                    Some ((((days_from_civil y m d * 24 + h) * 60 + i - minutes) * 60 + c) * second_ns + nanos)
                | None => None
                end
            | None => None
            end
        | _, _, _, _ => None
        end
      else None
  | _ => None
  end.

(** ** Lemmas: dates *)

(** The month and the day of a day of the March-based year. *)
Definition month_ok (doy : Z) : bool :=
  let mp := (5 * doy + 2) / 153 in
  let d := doy - (153 * mp + 2) / 5 + 1 in
  let m := if mp <? 10 then mp + 3 else mp - 9 in
  (0 <=? mp) && (mp <=? 11) && (1 <=? m) && (m <=? 12) && (1 <=? d) &&
  (if m =? 2 then (d <=? 29) && ((d =? 29) || (doy <? 365)) && ((d <=? 28) || (doy =? 365))
   else d <=? days_in m 1).

Lemma month_of_day doy : 0 <= doy <= 365 -> month_ok doy = true.
Proof.
  intros Hd.
  assert (Hall : forallb month_ok (seqZ 0 366) = true) by (vm_compute; reflexivity).
  rewrite forallb_forall in Hall. apply Hall, list_elem_of_In, elem_of_seqZ. lia.
Qed.

Lemma leap_from_parts era c q n :
  0 <= c <= 3 -> 0 <= q <= 24 -> 0 <= n <= 3 ->
  n = 3 -> (q = 24 -> c = 3) -> leap (era * 400 + c * 100 + q * 4 + n + 1) = true.
Proof.
  intros Hc Hq Hn -> Hcase. unfold leap.
  assert (H4 : (era * 400 + c * 100 + q * 4 + 3 + 1) mod 4 = 0)
    by (replace (era * 400 + c * 100 + q * 4 + 3 + 1) with ((era * 100 + c * 25 + q + 1) * 4) by lia;
        apply Z.mod_mul; lia).
  rewrite H4. cbn [Z.eqb andb].
  destruct (decide (q = 24)) as [->|Hne].
  - rewrite (Hcase eq_refl).
    replace (era * 400 + 3 * 100 + 24 * 4 + 3 + 1) with ((era + 1) * 400) by lia.
    rewrite Z.mod_mul by lia. by rewrite orb_true_r.
  - replace (era * 400 + c * 100 + q * 4 + 3 + 1) with (q * 4 + 4 + (era * 4 + c) * 100) by lia.
    rewrite Z.mod_add, Z.mod_small by lia. by replace (q * 4 + 4 =? 0) with false by lia.
Qed.

(** The years of the era before a year, from its parts. *)
Lemma year_parts era c q n :
  0 <= c <= 3 -> 0 <= q <= 24 -> 0 <= n <= 3 ->
  let y := era * 400 + c * 100 + q * 4 + n in
  y / 400 = era /\ (y - era * 400) / 4 = c * 25 + q /\ (y - era * 400) / 100 = c.
Proof. intros Hc Hq Hn y. subst y. split_and!; Z.to_euclidean_division_equations; lia. Qed.

Lemma era_parts z' :
  exists era c q n doy, z' = era * 146097 + c * 36524 + q * 1461 + n * 365 + doy /\
    0 <= c <= 3 /\ 0 <= q <= 24 /\ 0 <= n <= 3 /\ 0 <= doy <= 365 /\
    (doy = 365 -> n = 3 /\ (q = 24 -> c = 3)) /\
    era = z' / 146097 /\ c = Z.min 3 (z' mod 146097 / 36524) /\
    q = (z' mod 146097 - c * 36524) / 1461 /\
    n = Z.min 3 ((z' mod 146097 - c * 36524 - q * 1461) / 365).
Proof.
  pose proof (Z.div_mod z' 146097 ltac:(lia)) as Hz. pose proof (Z.mod_pos_bound z' 146097 ltac:(lia)) as Hdoe.
  set (doe := z' mod 146097) in *.
  pose proof (Z.div_mod doe 36524 ltac:(lia)). pose proof (Z.mod_pos_bound doe 36524 ltac:(lia)).
  set (c := Z.min 3 (doe / 36524)). set (doc := doe - c * 36524).
  assert (Hc : 0 <= c <= 3 /\ 0 <= doc <= 36524 /\ (doc = 36524 -> c = 3)) by (unfold c, doc; lia).
  pose proof (Z.div_mod doc 1461 ltac:(lia)). pose proof (Z.mod_pos_bound doc 1461 ltac:(lia)).
  set (q := doc / 1461) in *. set (doq := doc - q * 1461).
  assert (Hq : 0 <= q <= 24 /\ 0 <= doq <= 1460 /\ (doq = 1460 -> q = 24 -> c = 3)) by (unfold doq; lia).
  pose proof (Z.div_mod doq 365 ltac:(lia)). pose proof (Z.mod_pos_bound doq 365 ltac:(lia)).
  set (n := Z.min 3 (doq / 365)).
  assert (Hn : 0 <= n <= 3 /\ 0 <= doq - n * 365 <= 365 /\ (doq - n * 365 = 365 -> n = 3 /\ doq = 1460))
    by (unfold n; lia).
  exists (z' / 146097), c, q, n, (doq - n * 365). fold doc doq.
  split_and!; try lia; done.
Qed.

Lemma civil_valid z y m d :
  civil_from_days z = (y, m, d) -> valid_date y m d = true /\ days_from_civil y m d = z.
Proof.
  destruct (era_parts (z + 719468)) as (era & c & q & n & doy & Hz & Hc & Hq & Hn & Hdoy & Hleap & Ee & Ec & Eq & En).
  unfold civil_from_days. cbv zeta. rewrite <- Ec. rewrite <- Eq. rewrite <- En. rewrite <- Ee.
  replace ((z + 719468) mod 146097 - c * 36524 - q * 1461 - n * 365) with doy
    by (rewrite Z.mod_eq by lia; lia).
  clear Ec Eq En Ee. pose proof (month_of_day doy Hdoy) as Hm. unfold month_ok in Hm.
  set (mp := (5 * doy + 2) / 153) in *. set (d0 := doy - (153 * mp + 2) / 5 + 1) in *.
  set (m0 := if mp <? 10 then mp + 3 else mp - 9) in *. cbv zeta in Hm.
  rewrite !andb_true_iff in Hm. destruct Hm as [[[[[H1 H2] H3] H4] H5] H6].
  set (y0 := era * 400 + c * 100 + q * 4 + n). intros [= <- <- <-].
  assert (Hmp : (if m0 <=? 2 then m0 + 9 else m0 - 3) = mp).
  { unfold m0. destruct (mp <? 10) eqn:E; destruct (_ <=? 2) eqn:E2; lia. }
  split.
  - unfold valid_date. rewrite H3, H4, H5. cbn [andb]. unfold days_in at 1.
    destruct (m0 =? 2) eqn:E2.
    + replace (m0 <=? 2) with true by lia. rewrite !andb_true_iff in H6. destruct H6 as [[H6 H7] H8].
      destruct (decide (doy = 365)) as [Hd|Hd]; [|by destruct (leap _); lia].
      destruct (Hleap Hd) as [Hn3 Hq24]. unfold y0. rewrite leap_from_parts by done. done.
    + revert H6. unfold days_in. rewrite E2. done.
  - unfold days_from_civil. rewrite Hmp.
    replace (if m0 <=? 2 then (if m0 <=? 2 then y0 + 1 else y0) - 1 else if m0 <=? 2 then y0 + 1 else y0)
      with y0 by (destruct (m0 <=? 2); lia).
    destruct (year_parts era c q n Hc Hq Hn) as (He & Hy4 & Hy100). fold y0 in He, Hy4, Hy100.
    rewrite He, Hy4, Hy100. unfold d0, y0. lia.
Qed.

(** ** Lemmas: fields *)
Lemma length_fixed w z : length (fixed w z) = w.
Proof. revert z. induction w as [|w IH]; intros z; cbn; [done|]. rewrite length_app, IH. cbn. lia. Qed.

Lemma read_from_fixed w z acc rest :
  0 <= z < 10 ^ Z.of_nat w ->
  read_from acc (fixed w z ++ rest) = read_from (acc * 10 ^ Z.of_nat w + z) rest.
Proof.
  revert z acc rest. induction w as [|w IH]; intros z acc rest Hz.
  - cbn. f_equal. change (10 ^ Z.of_nat 0) with 1 in *. lia.
  - cbn [fixed]. rewrite <- app_assoc.
    assert (Hp : 10 ^ Z.of_nat (S w) = 10 * 10 ^ Z.of_nat w)
      by (rewrite Nat2Z.inj_succ, Z.pow_succ_r by lia; lia).
    pose proof (Z.div_mod z 10 ltac:(lia)). pose proof (Z.mod_pos_bound z 10 ltac:(lia)).
    rewrite IH by lia. cbn [app read_from]. rewrite digit_val_chr by lia. f_equal. rewrite Hp. lia.
Qed.

Lemma read_fixed w z : 0 <= z < 10 ^ Z.of_nat w -> read (fixed w z) = Some z.
Proof.
  intros Hz. unfold read. rewrite <- (app_nil_r (fixed w z)), read_from_fixed by done. done.
Qed.

Lemma read_in_fixed lo hi w z :
  0 <= z < 10 ^ Z.of_nat w -> lo <= z <= hi -> read_in lo hi (fixed w z) = Some z.
Proof.
  intros Hz Hb. unfold read_in. rewrite read_fixed by done.
  by replace ((lo <=? z) && (z <=? hi)) with true by lia.
Qed.

Lemma fixed_digits w z : Forall is_digit (fixed w z).
Proof.
  revert z. induction w as [|w IH]; intros z; cbn; [constructor|].
  apply Forall_app. split; [apply IH|]. constructor; [|constructor].
  apply digit_chr_is_digit, Z.mod_pos_bound. lia.
Qed.

(** ** Lemmas: the fraction *)
Lemma strip_zeros_spec l : exists k, l = strip_zeros l ++ replicate k (digit_chr 0).
Proof.
  induction l as [|c l [k IH]]; [by exists 0%nat|]. cbn.
  destruct (strip_zeros l) as [|c' l'] eqn:E; cbn in *.
  - case_bool_decide as Hc; [exists (S k)|exists k]; cbn; by rewrite <- IH; subst.
  - exists k. by rewrite <- IH.
Qed.

Lemma read_from_zeros acc k : read_from acc (replicate k (digit_chr 0)) = Some (acc * 10 ^ Z.of_nat k).
Proof.
  revert acc. induction k as [|k IH]; intros acc; cbn [replicate read_from].
  - f_equal. cbn. lia.
  - rewrite digit_val_chr by lia. rewrite IH, Nat2Z.inj_succ, Z.pow_succ_r by lia. f_equal. lia.
Qed.

Lemma read_from_app acc l1 l2 :
  read_from acc (l1 ++ l2) = match read_from acc l1 with Some v => read_from v l2 | None => None end.
Proof.
  revert acc. induction l1 as [|c l1 IH]; intros acc; cbn; [done|]. destruct (digit_val c); [apply IH|done].
Qed.

Lemma span_digits_app l rest :
  Forall is_digit l -> (forall c r, rest = c :: r -> digit_val c = None) -> span_digits (l ++ rest) = (l, rest).
Proof.
  intros Hl Hrest. induction Hl as [|c l [v Hv] Hl IH]; cbn.
  - destruct rest as [|c r]; [done|]. cbn. by rewrite (Hrest c r eq_refl).
  - rewrite Hv, IH. done.
Qed.

(** The zone designator starts neither with a digit nor with a point. *)
Lemma zone_text_head m : exists c r, zone_text m = c :: r /\ digit_val c = None /\ c <> dot_chr.
Proof. unfold zone_text. destruct (m =? 0); [|destruct (m <? 0)]; by eexists _, _. Qed.

Lemma read_fraction_text nanos m :
  0 <= nanos < second_ns ->
  read_fraction (fraction_text nanos ++ zone_text m) = Some (nanos, zone_text m).
Proof.
  intros Hn. destruct (zone_text_head m) as (c & r & Hz & Hd & Hdot).
  unfold fraction_text. destruct (strip_zeros_spec (fixed 9 nanos)) as [k Hk].
  pose proof (read_fixed 9 nanos ltac:(exact Hn)) as Hread. pose proof (length_fixed 9 nanos) as Hlen.
  pose proof (fixed_digits 9 nanos) as Hdig. rewrite Hk in Hread, Hlen, Hdig.
  destruct (strip_zeros (fixed 9 nanos)) as [|c0 l0]; cbn [app].
  - unfold read in Hread. rewrite app_nil_l, read_from_zeros in Hread. injection Hread as Hread.
    rewrite Hz. cbn [read_fraction]. rewrite bool_decide_eq_false_2 by done. by rewrite <- Hread.
  - cbn [read_fraction]. rewrite bool_decide_eq_true_2 by done.
    apply Forall_app in Hdig as [Hdig _]. rewrite length_app, length_replicate in Hlen.
    change (c0 :: l0 ++ zone_text m) with ((c0 :: l0) ++ zone_text m).
    rewrite span_digits_app by (done || (intros ? ?; rewrite Hz; by intros [= <- <-])).
    rewrite take_ge by (cbn in *; lia).
    unfold read in *. rewrite read_from_app in Hread.
    destruct (read_from 0 (c0 :: l0)) as [v|] eqn:E; [|done].
    rewrite read_from_zeros in Hread. injection Hread as Hread. cbn [Z.of_nat] in *.
    do 2 f_equal. rewrite <- Hread. f_equal. f_equal. lia.
Qed.

Lemma read_zone_text m : -1440 < m < 1440 -> read_zone (zone_text m) = Some m.
Proof.
  intros Hm. unfold zone_text. destruct (m =? 0) eqn:E0; [cbn; f_equal; lia|].
  pose proof (Z.div_mod (Z.abs m) 60 ltac:(lia)). pose proof (Z.mod_pos_bound (Z.abs m) 60 ltac:(lia)).
  pose proof (read_in_fixed 0 23 2 (Z.abs m / 60) ltac:(cbn; lia) ltac:(lia)) as Hh.
  pose proof (read_in_fixed 0 59 2 (Z.abs m mod 60) ltac:(cbn; lia) ltac:(lia)) as Hi.
  cbn [fixed app] in *. unfold read_zone. rewrite Hh, Hi. rewrite bool_decide_eq_true_2 by done.
  destruct (m <? 0) eqn:E1.
  - rewrite bool_decide_eq_false_2 by done. rewrite bool_decide_eq_true_2 by done. f_equal. lia.
  - rewrite bool_decide_eq_true_2 by done. f_equal. lia.
Qed.

(** ** The round trip of instants *)
Lemma valid_date_bounds y m d : valid_date y m d = true -> 1 <= m <= 12 /\ 1 <= d <= 31.
Proof.
  unfold valid_date, days_in. rewrite !andb_true_iff.
  repeat case_match; lia.
Qed.

Lemma parse_format_rfc3339 `{!LocalZone} t text :
  format_rfc3339 t = Some text -> parse_rfc3339 text = Some t.
Proof.
  unfold format_rfc3339. set (minutes := zone_minutes t). set (local := t + minutes * 60 * second_ns).
  destruct (civil_from_days (local / day_ns)) as [[y m] d] eqn:Hcivil.
  destruct (civil_valid _ _ _ _ Hcivil) as [Hvalid Hdays].
  destruct ((0 <=? y) && (y <=? 9999)) eqn:Hy; [|done]. apply andb_true_iff in Hy as [Hy1 Hy2].
  destruct (valid_date_bounds _ _ _ Hvalid) as [Hm Hd].
  pose proof (Z.div_mod local day_ns ltac:(done)) as Hlocal.
  pose proof (Z.mod_pos_bound local day_ns ltac:(done)) as Hrest.
  set (rest := local mod day_ns) in *.
  pose proof (Z.div_mod rest second_ns ltac:(done)) as Hsec.
  pose proof (Z.mod_pos_bound rest second_ns ltac:(done)) as Hnanos.
  set (secs := rest / second_ns) in *. set (nanos := rest mod second_ns) in *.
  assert (Hsecs : 0 <= secs < 86400) by (unfold day_ns, second_ns in *; lia).
  intros [= <-].
  pose proof (Z.div_mod secs 60 ltac:(lia)) as Hmin. pose proof (Z.mod_pos_bound secs 60 ltac:(lia)).
  pose proof (Z.div_mod (secs / 60) 60 ltac:(lia)) as Hhour.
  pose proof (Z.mod_pos_bound (secs / 60) 60 ltac:(lia)).
  rewrite Z.div_div in Hhour by lia. change (60 * 60) with 3600 in Hhour.
  pose proof (read_fixed 4 y ltac:(cbn; lia)) as Ry. pose proof (read_fixed 2 m ltac:(cbn; lia)) as Rm.
  pose proof (read_fixed 2 d ltac:(cbn; lia)) as Rd.
  pose proof (read_in_fixed 0 23 2 (secs / 3600) ltac:(cbn; lia) ltac:(lia)) as Rh.
  pose proof (read_in_fixed 0 59 2 (secs / 60 mod 60) ltac:(cbn; lia) ltac:(lia)) as Ri.
  pose proof (read_in_fixed 0 59 2 (secs mod 60) ltac:(cbn; lia) ltac:(lia)) as Rs.
  pose proof (read_fraction_text nanos minutes Hnanos) as Rf.
  pose proof (read_zone_text minutes (zone_bound t)) as Rz.
  cbn [fixed app] in *. cbn [parse_rfc3339]. unfold read_date.
  rewrite bool_decide_eq_true_2 by done. rewrite Ry, Rm, Rd, Hvalid, Rh, Ri, Rs, Rf, Rz, Hdays.
  f_equal. assert (Hlt : local = t + minutes * 60 * second_ns) by done.
  clearbody rest secs nanos local minutes. generalize dependent (local / day_ns). intros days _ _ Hlocal.
  unfold day_ns, second_ns in *. lia.
Qed.

Example format_examples :
  @format_rfc3339 UTC 0 = Some (to_bytes "1970-01-01T00:00:00Z") /\
  @format_rfc3339 UTC 1709210096120000000 = Some (to_bytes "2024-02-29T12:34:56.12Z") /\
  parse_rfc3339 (to_bytes "2024-02-29T14:34:56.120+02:00") = Some 1709210096120000000 /\
  parse_rfc3339 (to_bytes "2023-02-29T00:00:00Z") = None.
Proof. split_and!; vm_compute; reflexivity. Qed.
