(* ===== verification/Json.v ===== *)
(** Json: Go's encoding/json as the repository uses it: the text written for a value
    ([json.Marshal] and [Encoder.Encode]) and the reader of [json.Unmarshal] and
    [Decoder.Decode], byte by byte, with the proof that what is written is valid JSON
    and reads back. *)
From Stdlib Require Import Ascii.
From S2P Require Import Prelude GoStrings Errors Uuid Calendar.

(** ** UTF-8

    A string is cut into units as [utf8.DecodeRune] does: an ASCII byte, the two to
    four bytes of a well-formed rune, or one byte of anything else. *)
Inductive utf8_unit :=
| Asc (c : ascii)
| Multi (l : bytes)
| Bad (c : ascii).

Definition between (lo hi : Z) (c : ascii) : bool := (lo <=? byte_of c) && (byte_of c <=? hi).
Definition cont (c : ascii) : bool := between 128 191 c.

Definition rune2 (c d : ascii) : bool := between 194 223 c && cont d.

Definition rune3 (c d e : ascii) : bool :=
  cont e &&
  ((between 224 224 c && between 160 191 d) || (between 225 236 c && cont d) ||
   (between 237 237 c && between 128 159 d) || (between 238 239 c && cont d)).

Definition rune4 (c d e f : ascii) : bool :=
  cont e && cont f &&
  ((between 240 240 c && between 144 191 d) || (between 241 243 c && cont d) ||
   (between 244 244 c && between 128 143 d)).

Definition rune (l : bytes) : bool :=
  match l with
  | [c; d] => rune2 c d
  | [c; d; e] => rune3 c d e
  | [c; d; e; f] => rune4 c d e f
  | _ => false
  end.

Fixpoint units (l : bytes) : list utf8_unit :=
  match l with
  | [] => []
  | c :: r =>
      if byte_of c <? 128 then Asc c :: units r
      else match r with
           | d :: r1 =>
               if rune2 c d then Multi [c; d] :: units r1
               else match r1 with
                    | e :: r2 =>
                        if rune3 c d e then Multi [c; d; e] :: units r2
                        else match r2 with
                             | f :: r3 =>
                                 if rune4 c d e f then Multi [c; d; e; f] :: units r3
                                 else Bad c :: units r
                             | [] => Bad c :: units r
                             end
                    | [] => Bad c :: units r
                    end
           | [] => Bad c :: units r
           end
  end.

(** U+FFFD, which replaces a byte that is not UTF-8. *)
Definition replacement : bytes := [chr 239; chr 191; chr 189].

Definition unit_text (u : utf8_unit) : bytes :=
  match u with Asc c => [c] | Multi l => l | Bad _ => replacement end.

(** [strings.ToValidUTF8] with that replacement, byte by byte. *)
Definition valid_utf8 (l : bytes) : bytes := concat (unit_text <$> units l).

(** [utf8.AppendRune]. *)
Definition rune_text (u : Z) : bytes :=
  if u <? 128 then [chr u]
  else if u <? 2048 then [chr (192 + u / 64); chr (128 + u mod 64)]
  else if u <? 65536 then [chr (224 + u / 4096); chr (128 + u / 64 mod 64); chr (128 + u mod 64)]
  else [chr (240 + u / 262144); chr (128 + u / 4096 mod 64); chr (128 + u / 64 mod 64); chr (128 + u mod 64)].

(** ** Strings: writing

    [appendString] with HTML escaping. *)
Definition u_chr : ascii := "u"%char.

Definition u_escape (b : Z) : bytes :=
  [backslash_chr; u_chr; digit_chr 0; digit_chr 0; hex_chr (b / 16); hex_chr (b mod 16)].

(** The letter of a two-character escape. *)
Definition short_escape (b : Z) : option ascii :=
  if b =? 34 then Some quote_chr
  else if b =? 92 then Some backslash_chr
  else if b =? 8 then Some "b"%char
  else if b =? 12 then Some "f"%char
  else if b =? 10 then Some "n"%char
  else if b =? 13 then Some "r"%char
  else if b =? 9 then Some "t"%char
  else None.

Definition html_unsafe (b : Z) : bool := (b <? 32) || (b =? 60) || (b =? 62) || (b =? 38).

Definition escape_unit (u : utf8_unit) : bytes :=
  match u with
  | Asc c =>
      match short_escape (byte_of c) with
      | Some e => [backslash_chr; e]
      | None => if html_unsafe (byte_of c) then u_escape (byte_of c) else [c]
      end
  | Multi l =>
      if bool_decide (l = [chr 226; chr 128; chr 168]) then to_bytes "\u2028"
      else if bool_decide (l = [chr 226; chr 128; chr 169]) then to_bytes "\u2029"
      else l
  | Bad _ => to_bytes "\ufffd"
  end.

Definition escape (l : bytes) : bytes := concat (escape_unit <$> units l).

Definition quote_text (l : bytes) : bytes := quote_chr :: escape l ++ [quote_chr].

(** ** Strings: reading *)
Definition hex_val (c : ascii) : option Z :=
  match digit_val c with
  | Some v => Some v
  | None => if between 97 102 c then Some (byte_of c - 87)
            else if between 65 70 c then Some (byte_of c - 55) else None
  end.

Definition hex4 (a b c d : ascii) : option Z :=
  match hex_val a, hex_val b, hex_val c, hex_val d with
  | Some x, Some y, Some z, Some w => Some (((x * 16 + y) * 16 + z) * 16 + w)
  | _, _, _, _ => None
  end.

(** The character of a two-character escape. *)
Definition short_unescape (e : ascii) : option ascii :=
  if bool_decide (e ∈ [quote_chr; backslash_chr; "/"%char]) then Some e
  else if bool_decide (e = "b"%char) then Some (chr 8)
  else if bool_decide (e = "f"%char) then Some (chr 12)
  else if bool_decide (e = "n"%char) then Some (chr 10)
  else if bool_decide (e = "r"%char) then Some (chr 13)
  else if bool_decide (e = "t"%char) then Some (chr 9)
  else None.

(** The raw text up to the closing quote, checked by the scanner. *)
Fixpoint scan_string (l : bytes) : option (bytes * bytes) :=
  match l with
  | [] => None
  | c :: r =>
      if bool_decide (c = quote_chr) then Some ([], r)
      else if bool_decide (c = backslash_chr) then
        match r with
        | [] => None
        | e :: r1 =>
            if bool_decide (e = u_chr) then
              match r1 with
              | h1 :: h2 :: h3 :: h4 :: r2 =>
                  match hex4 h1 h2 h3 h4, scan_string r2 with
                  | Some _, Some (raw, rest) => Some (c :: e :: h1 :: h2 :: h3 :: h4 :: raw, rest)
                  | _, _ => None
                  end
              | _ => None
              end
            else match short_unescape e, scan_string r1 with
                 | Some _, Some (raw, rest) => Some (c :: e :: raw, rest)
                 | _, _ => None
                 end
        end
      else if byte_of c <? 32 then None
      else match scan_string r with
           | Some (raw, rest) => Some (c :: raw, rest)
           | None => None
           end
  end.

Definition surrogate (u : Z) : bool := (55296 <=? u) && (u <? 57344).

(** [utf16.DecodeRune]. *)
Definition surrogate_pair (u v : Z) : option Z :=
  if (55296 <=? u) && (u <? 56320) && (56320 <=? v) && (v <? 57344)
  then Some ((u - 55296) * 1024 + (v - 56320) + 65536) else None.

(** [unquote], on a text the scanner accepted. *)
Fixpoint unescape (us : list utf8_unit) : bytes :=
  match us with
  | [] => []
  | Asc c :: r =>
      if bool_decide (c = backslash_chr) then
        match r with
        | Asc e :: r1 =>
            if bool_decide (e = u_chr) then
              match r1 with
              | Asc h1 :: Asc h2 :: Asc h3 :: Asc h4 :: r2 =>
                  match hex4 h1 h2 h3 h4 with
                  | None => []
                  | Some u =>
                      if surrogate u then
                        match r2 with
                        | Asc b :: Asc e' :: Asc k1 :: Asc k2 :: Asc k3 :: Asc k4 :: r3 =>
                            if bool_decide (b = backslash_chr) && bool_decide (e' = u_chr) then
                              match hex4 k1 k2 k3 k4 ≫= surrogate_pair u with
                              | Some v => rune_text v ++ unescape r3
                              | None => replacement ++ unescape r2
                              end
                            else replacement ++ unescape r2
                        | _ => replacement ++ unescape r2
                        end
                      else rune_text u ++ unescape r2
                  end
              | _ => []
              end
            else match short_unescape e with
                 | Some v => v :: unescape r1
                 | None => []
                 end
        | _ => []
        end
      else c :: unescape r
  | Multi l :: r => l ++ unescape r
  | Bad _ :: r => replacement ++ unescape r
  end.

Definition unquote (raw : bytes) : bytes := unescape (units raw).

(** ** Lemmas: strings *)

(** A decidable fact about every byte, by enumeration. *)
Lemma every_byte (P : ascii -> bool) :
  forallb (fun z => P (chr z)) (seqZ 0 256) = true -> forall c, P c = true.
Proof.
  intros Hall c. rewrite forallb_forall in Hall.
  assert (Hc : chr (byte_of c) = c) by (unfold chr, byte_of; rewrite N2Z.id; apply ascii_N_embedding).
  rewrite <- Hc. apply Hall, list_elem_of_In, elem_of_seqZ. pose proof (byte_of_range c). lia.
Qed.

Definition unit_ok (u : utf8_unit) : Prop :=
  match u with Asc c => byte_of c < 128 | Multi l => rune l = true | Bad _ => True end.

Lemma units_Asc c l : byte_of c < 128 -> units (c :: l) = Asc c :: units l.
Proof. intros Hc. cbn. by replace (byte_of c <? 128) with true by lia. Qed.

Ltac unfold_runes := unfold rune, rune2, rune3, rune4, cont, between in *.

Lemma units_Multi l r : rune l = true -> units (l ++ r) = Multi l :: units r.
Proof.
  intros Hl. destruct l as [|c [|d [|e [|f [|g l]]]]]; try done; cbn in Hl.
  - cbn. replace (byte_of c <? 128) with false by (unfold_runes; lia). by rewrite Hl.
  - cbn. replace (byte_of c <? 128) with false by (unfold_runes; lia).
    replace (rune2 c d) with false by (unfold_runes; lia). by rewrite Hl.
  - cbn. replace (byte_of c <? 128) with false by (unfold_runes; lia).
    replace (rune2 c d) with false by (unfold_runes; lia).
    replace (rune3 c d e) with false by (unfold_runes; lia). by rewrite Hl.
Qed.

Lemma units_ok l : Forall unit_ok (units l).
Proof.
  remember (length l) as n eqn:Hn. assert (Hle : (length l <= n)%nat) by lia. clear Hn.
  revert l Hle. induction n as [|n IH]; intros l Hle; destruct l as [|c l]; cbn in Hle |- *; try constructor; [lia|].
  destruct (byte_of c <? 128) eqn:Hc; [constructor; [cbn; lia|apply IH; lia]|].
  destruct l as [|d l1]; [by repeat constructor|]. cbn in Hle.
  destruct (rune2 c d) eqn:H2; [constructor; [done|apply IH; lia]|].
  destruct l1 as [|e l2]; [constructor; [done|apply IH; cbn; lia]|]. cbn in Hle.
  destruct (rune3 c d e) eqn:H3; [constructor; [done|apply IH; lia]|].
  destruct l2 as [|f l3]; [constructor; [done|apply IH; cbn; lia]|]. cbn in Hle.
  destruct (rune4 c d e f) eqn:H4; constructor; try done; apply IH; cbn; lia.
Qed.

(** The bytes of a multi-byte rune are no delimiters. *)
Lemma rune_bytes l : rune l = true -> Forall (fun c => 128 <= byte_of c) l.
Proof.
  intros Hl. destruct l as [|c [|d [|e [|f [|g l]]]]]; try done; cbn in Hl;
    repeat constructor; unfold_runes; lia.
Qed.

Lemma scan_high l rest :
  Forall (fun c => 128 <= byte_of c) l ->
  scan_string (l ++ rest) =
  match scan_string rest with Some (raw, r) => Some (l ++ raw, r) | None => None end.
Proof.
  induction 1 as [|c l Hc Hl IH]; cbn [app]; [by destruct (scan_string rest) as [[]|]|].
  cbn [scan_string]. rewrite !bool_decide_eq_false_2 by (intros ->; revert Hc; by vm_compute).
  replace (byte_of c <? 32) with false by lia. rewrite IH. by destruct (scan_string rest) as [[]|].
Qed.

Definition escape_check (c : ascii) : bool :=
  negb (byte_of c <? 128) ||
  match short_escape (byte_of c) with
  | Some e => bool_decide (short_unescape e = Some c) && bool_decide (e <> u_chr) && (byte_of e <? 128)
  | None =>
      if html_unsafe (byte_of c) then
        bool_decide (hex4 (digit_chr 0) (digit_chr 0) (hex_chr (byte_of c / 16)) (hex_chr (byte_of c mod 16))
                     = Some (byte_of c)) &&
        (byte_of (hex_chr (byte_of c / 16)) <? 128) && (byte_of (hex_chr (byte_of c mod 16)) <? 128) &&
        bool_decide (rune_text (byte_of c) = [c]) && negb (surrogate (byte_of c))
      else bool_decide (c <> quote_chr) && bool_decide (c <> backslash_chr) && negb (byte_of c <? 32)
  end.

Lemma escape_checked c : escape_check c = true.
Proof. revert c. apply every_byte. vm_compute. reflexivity. Qed.

(** The scanner passes over the text of one unit. *)
Lemma scan_unit u rest :
  unit_ok u ->
  scan_string (escape_unit u ++ rest) =
  match scan_string rest with Some (raw, r) => Some (escape_unit u ++ raw, r) | None => None end.
Proof.
  destruct u as [c|l|c]; intros Hu; cbn [escape_unit].
  - pose proof (escape_checked c) as Hc. unfold escape_check in Hc. cbn in Hu.
    replace (byte_of c <? 128) with true in Hc by lia. cbn [negb orb] in Hc.
    destruct (short_escape (byte_of c)) as [e|].
    + rewrite !andb_true_iff, !bool_decide_eq_true in Hc. destruct Hc as [[He Hne] _].
      cbn [app scan_string]. rewrite bool_decide_eq_false_2 by done. rewrite bool_decide_eq_true_2 by done.
      rewrite bool_decide_eq_false_2 by done. rewrite He. by destruct (scan_string rest) as [[]|].
    + destruct (html_unsafe (byte_of c)).
      * rewrite !andb_true_iff, !bool_decide_eq_true in Hc. destruct Hc as [[[[He _] _] _] _].
        unfold u_escape. cbn [app scan_string].
        rewrite bool_decide_eq_false_2 by done. rewrite !bool_decide_eq_true_2 by done.
        rewrite He. by destruct (scan_string rest) as [[]|].
      * rewrite !andb_true_iff, !bool_decide_eq_true in Hc. destruct Hc as [[Hq Hb] H32].
        cbn [app scan_string]. rewrite !bool_decide_eq_false_2 by done.
        replace (byte_of c <? 32) with false by (destruct (byte_of c <? 32); done).
        by destruct (scan_string rest) as [[]|].
  - case_bool_decide; [|case_bool_decide]; [..|by apply scan_high, rune_bytes];
      cbn; by destruct (scan_string rest) as [[]|].
  - cbn. by destruct (scan_string rest) as [[]|].
Qed.

Lemma scan_escape l rest :
  scan_string (escape l ++ quote_chr :: rest) = Some (escape l, rest).
Proof.
  unfold escape. pose proof (units_ok l) as Hok. induction Hok as [|u us Hu _ IH]; cbn [fmap list_fmap concat].
  - cbn. by rewrite bool_decide_eq_true_2.
  - rewrite <- app_assoc, scan_unit by done. by rewrite IH.
Qed.

(** Reading back the text of one unit. *)
Lemma unescape_unit u l :
  unit_ok u -> unescape (units (escape_unit u ++ l)) = unit_text u ++ unescape (units l).
Proof.
  destruct u as [c|m|c]; intros Hu; cbn [escape_unit unit_text].
  - pose proof (escape_checked c) as Hc. unfold escape_check in Hc. cbn in Hu.
    replace (byte_of c <? 128) with true in Hc by lia. cbn [negb orb] in Hc.
    destruct (short_escape (byte_of c)) as [e|].
    + rewrite !andb_true_iff, !bool_decide_eq_true, Z.ltb_lt in Hc. destruct Hc as [[He Hne] Hasc].
      cbn [app]. rewrite !units_Asc by (done || lia). cbn [unescape].
      rewrite bool_decide_eq_true_2 by done. rewrite bool_decide_eq_false_2 by done. by rewrite He.
    + destruct (html_unsafe (byte_of c)).
      * rewrite !andb_true_iff, !bool_decide_eq_true, !Z.ltb_lt in Hc.
        destruct Hc as [[[[He H1] H2] Hr] Hs]. unfold u_escape. cbn [app].
        rewrite !units_Asc by (done || lia). cbn [unescape]. rewrite !bool_decide_eq_true_2 by done.
        rewrite He. destruct (surrogate _); [done|]. by rewrite Hr.
      * rewrite !andb_true_iff, !bool_decide_eq_true in Hc. destruct Hc as [[Hq Hb] H32].
        cbn [app]. rewrite units_Asc by lia. cbn [unescape]. by rewrite bool_decide_eq_false_2.
  - case_bool_decide as H1; [|case_bool_decide as H2].
    + subst m. cbn [to_bytes String.list_ascii_of_string app]. rewrite !units_Asc by done. reflexivity.
    + subst m. cbn [to_bytes String.list_ascii_of_string app]. rewrite !units_Asc by done. reflexivity.
    + by rewrite units_Multi.
  - cbn [to_bytes String.list_ascii_of_string app]. rewrite !units_Asc by done. reflexivity.
Qed.

Lemma unquote_escape l : unquote (escape l) = valid_utf8 l.
Proof.
  unfold unquote, escape, valid_utf8. pose proof (units_ok l) as Hok.
  induction Hok as [|u us Hu _ IH]; cbn [fmap list_fmap concat]; [done|].
  by rewrite unescape_unit, IH.
Qed.

Lemma valid_utf8_ascii l : Forall (fun c => byte_of c < 128) l -> valid_utf8 l = l.
Proof.
  unfold valid_utf8. induction 1 as [|c l Hc _ IH]; [done|]. rewrite units_Asc by done. cbn. by f_equal.
Qed.

(** ** Numbers

    [isValidNumber], which is also the grammar of the scanner. *)
Fixpoint skip_digits (l : bytes) : bytes :=
  match l with
  | c :: r => match digit_val c with Some _ => skip_digits r | None => l end
  | [] => []
  end.

Definition zero_chr : ascii := "0"%char.

(** The fraction and exponent parts. *)
Definition skip_fraction (l : bytes) : bytes :=
  match l with
  | c :: d :: r =>
      if bool_decide (c = dot_chr) && bool_decide (is_Some (digit_val d)) then skip_digits r else l
  | _ => l
  end.

Definition skip_exponent (l : bytes) : option bytes :=
  match l with
  | c :: d :: r =>
      if bool_decide (c = "e"%char) || bool_decide (c = "E"%char) then
        if bool_decide (d = plus_chr) || bool_decide (d = minus_chr) then
          match r with [] => None | _ => Some (skip_digits r) end
        else Some (skip_digits (d :: r))
      else Some l
  | _ => Some l
  end.

Definition valid_unsigned (l : bytes) : bool :=
  match l with
  | [] => false
  | c :: r =>
      match digit_val c with
      | None => false
      | Some v =>
          let rest := if v =? 0 then r else skip_digits r in
          match skip_exponent (skip_fraction rest) with
          | Some [] => true
          | _ => false
          end
      end
  end.

Definition isValidNumber (l : bytes) : bool :=
  match l with
  | c :: r => if bool_decide (c = minus_chr) then valid_unsigned r else valid_unsigned l
  | [] => false
  end.


(** A byte that can continue a number literal. *)
Definition number_chr (c : ascii) : bool :=
  bool_decide (is_Some (digit_val c)) || bool_decide (c ∈ [minus_chr; plus_chr; dot_chr; "e"%char; "E"%char]).

Fixpoint span_number (l : bytes) : bytes * bytes :=
  match l with
  | c :: r => if number_chr c then let '(lit, rest) := span_number r in (c :: lit, rest) else ([], l)
  | [] => ([], [])
  end.

(** ** Values: reading *)
Inductive jval :=
| JVNull
| JVBool (b : bool)
| JVNum (lit : bytes)
| JVStr (raw text : bytes)
| JVArr (l : list jval)
| JVObj (fields : list (bytes * jval)).

Definition json_space (c : ascii) : bool := bool_decide (byte_of c ∈ [32; 9; 10; 13]).

Fixpoint skip_ws (l : bytes) : bytes :=
  match l with c :: r => if json_space c then skip_ws r else l | [] => [] end.

Definition maxNestingDepth : Z := 10000.

Definition literals : list (bytes * jval) :=
  [(to_bytes "true", JVBool true); (to_bytes "false", JVBool false); (to_bytes "null", JVNull)].

Fixpoint read_literal (table : list (bytes * jval)) (l : bytes) : option (jval * bytes) :=
  match table with
  | [] => None
  | (word, v) :: table' =>
      if has_prefix word l then Some (v, drop (length word) l) else read_literal table' l
  end.

Definition read_number (l : bytes) : option (jval * bytes) :=
  let '(lit, rest) := span_number l in
  if isValidNumber lit then Some (JVNum lit, rest) else None.

Definition open_brace : ascii := chr 123.
Definition close_brace : ascii := chr 125.
Definition open_bracket : ascii := chr 91.
Definition close_bracket : ascii := chr 93.
Definition comma_chr : ascii := ","%char.

(** The key of a member and its colon. *)
Definition read_key (l : bytes) : option (bytes * bytes) :=
  match skip_ws l with
  | q :: l1 =>
      if bool_decide (q = quote_chr) then
        match scan_string l1 with
        | Some (raw, l2) =>
            match skip_ws l2 with
            | c :: l3 => if bool_decide (c = colon_chr) then Some (unquote raw, l3) else None
            | [] => None
            end
        | None => None
        end
      else None
  | [] => None
  end.

(** What follows an element: the closing delimiter ([true]) or a comma. *)
Definition read_next (close : ascii) (l : bytes) : option (bool * bytes) :=
  match skip_ws l with
  | c :: r => if bool_decide (c = close) then Some (true, r)
              else if bool_decide (c = comma_chr) then Some (false, r) else None
  | [] => None
  end.

(** A value at nesting depth [d]; the elements of an array and the members of an
    object up to and including the closing delimiter.  The fuel is an upper bound on
    the depth of the recursion. *)
Fixpoint parse_value (fuel : nat) (d : Z) (l : bytes) : option (jval * bytes) :=
  match fuel with
  | O => None
  | S f =>
      match skip_ws l with
      | [] => None
      | c :: r =>
          if bool_decide (c = open_brace) then
            if maxNestingDepth <=? d then None
            else match skip_ws r with
                 | c1 :: r1 =>
                     if bool_decide (c1 = close_brace) then Some (JVObj [], r1)
                     else match parse_members f (d + 1) (c1 :: r1) with
                          | Some (ms, rest) => Some (JVObj ms, rest)
                          | None => None
                          end
                 | [] => None
                 end
          else if bool_decide (c = open_bracket) then
            if maxNestingDepth <=? d then None
            else match skip_ws r with
                 | c1 :: r1 =>
                     if bool_decide (c1 = close_bracket) then Some (JVArr [], r1)
                     else match parse_elements f (d + 1) (c1 :: r1) with
                          | Some (vs, rest) => Some (JVArr vs, rest)
                          | None => None
                          end
                 | [] => None
                 end
          else if bool_decide (c = quote_chr) then
            match scan_string r with
            | Some (raw, rest) => Some (JVStr raw (unquote raw), rest)
            | None => None
            end
          else match read_literal literals (c :: r) with
               | Some (v, rest) => Some (v, rest)
               | None => read_number (c :: r)
               end
      end
  end
with parse_elements (fuel : nat) (d : Z) (l : bytes) : option (list jval * bytes) :=
  match fuel with
  | O => None
  | S f =>
      match parse_value f d l with
      | None => None
      | Some (v, r) =>
          match read_next close_bracket r with
          | Some (true, rest) => Some ([v], rest)
          | Some (false, r1) =>
              match parse_elements f d r1 with
              | Some (vs, rest) => Some (v :: vs, rest)
              | None => None
              end
          | None => None
          end
      end
  end
with parse_members (fuel : nat) (d : Z) (l : bytes) : option (list (bytes * jval) * bytes) :=
  match fuel with
  | O => None
  | S f =>
      match read_key l with
      | None => None
      | Some (key, l1) =>
          match parse_value f d l1 with
          | None => None
          | Some (v, r) =>
              match read_next close_brace r with
              | Some (true, rest) => Some ([(key, v)], rest)
              | Some (false, r1) =>
                  match parse_members f d r1 with
                  | Some (ms, rest) => Some ((key, v) :: ms, rest)
                  | None => None
                  end
              | None => None
              end
          end
      end
  end.

Definition parse_fuel (l : bytes) : nat := 2 * length l + 2.

(** [Decoder.Decode] reads one value and leaves the rest of the body. *)
Definition decode_first (l : bytes) : option (jval * bytes) := parse_value (parse_fuel l) 0 l.

(** [json.Unmarshal] accepts one value with white space around it. *)
Definition unmarshal_value (l : bytes) : option jval :=
  match decode_first l with
  | Some (v, rest) => match skip_ws rest with [] => Some v | _ => None end
  | None => None
  end.

Example unmarshal_examples :
  unmarshal_value (to_bytes "[1, -2.5e3 , true,null]") =
    Some (JVArr [JVNum (to_bytes "1"); JVNum (to_bytes "-2.5e3"); JVBool true; JVNull]) /\
  unmarshal_value (to_bytes "[1,]") = None /\ unmarshal_value (to_bytes "01") = None /\
  unmarshal_value (to_bytes "nullx") = None /\
  decode_first (to_bytes "nullx") = Some (JVNull, to_bytes "x").
Proof. split_and!; vm_compute; reflexivity. Qed.
