(* ===== verification/JsonText.v ===== *)
(** JsonText: the text [encoding/json] writes for a response or a message, and what the
    reader of Json does on it: the reader does not depend on its fuel, always leaves a
    shorter rest, and reads back what the writer wrote. *)
From Stdlib Require Import Ascii.
From S2P Require Import Prelude GoStrings Errors Uuid Calendar Json.

(** ** Decimal digits are numbers *)
Lemma skip_digits_all l r :
  Forall is_digit l ->
  match r with c :: _ => digit_val c = None | [] => True end ->
  skip_digits (l ++ r) = r.
Proof.
  intros Hl Hr. induction Hl as [|c l [v Hv] _ IH]; cbn.
  - destruct r; cbn; [done|]. by rewrite Hr.
  - by rewrite Hv.
Qed.

(** Canonical digits do not start with a superfluous zero. *)
Lemma digits_loop_lead f n acc c r :
  0 < n < 2 ^ Z.of_nat f ->
  digits_loop f n acc = c :: r -> exists v, digit_val c = Some v /\ v <> 0.
Proof.
  revert n acc. induction f as [|f IH]; intros n acc Hn; [cbn in Hn; lia|].
  rewrite Nat2Z.inj_succ, Z.pow_succ_r in Hn by lia. cbn [digits_loop].
  pose proof (Z.div_mod n 10 ltac:(lia)). pose proof (Z.mod_pos_bound n 10 ltac:(lia)).
  destruct (n / 10 =? 0) eqn:Hz.
  - intros [= <- <-]. exists (n mod 10). rewrite digit_val_chr by lia. split; [done|lia].
  - apply IH. split; [pose proof (Z.div_pos n 10); lia|]. apply Z.div_lt_upper_bound; lia.
Qed.

Lemma digits_lead n c r :
  0 <= n -> digits n = c :: r ->
  exists v, digit_val c = Some v /\ (if v =? 0 then r = [] else True).
Proof.
  intros Hn Hd. destruct (decide (n = 0)) as [->|].
  - vm_compute in Hd. simplify_eq. exists 0. split; [by vm_compute|done].
  - apply digits_loop_lead in Hd as (v & Hv & Hne).
    + exists v. split; [done|]. by replace (v =? 0) with false by lia.
    + pose proof (digits_fuel n Hn). lia.
Qed.

Lemma valid_unsigned_digits n tail :
  0 <= n ->
  match tail with c :: _ => digit_val c = None | [] => True end ->
  valid_unsigned (digits n ++ tail) =
    match skip_exponent (skip_fraction tail) with Some [] => true | _ => false end.
Proof.
  intros Hn Ht. pose proof (digits_digits n) as Hall.
  destruct (digits_head n) as (c & r & Hd & _).
  destruct (digits_lead n c r Hn Hd) as (v & Hv & Hr). rewrite Hd in *.
  inversion Hall; subst. cbn [app valid_unsigned]. rewrite Hv.
  destruct (v =? 0); [by subst r|]. by rewrite skip_digits_all.
Qed.

Lemma isValidNumber_signed neg c r :
  is_digit c ->
  isValidNumber ((if neg : bool then [minus_chr] else []) ++ c :: r) = valid_unsigned (c :: r).
Proof.
  intros Hc. destruct neg; cbn [app isValidNumber].
  - by rewrite bool_decide_eq_true_2.
  - rewrite bool_decide_eq_false_2 by (eapply is_digit_not; [done|reflexivity]). done.
Qed.

Lemma isValidNumber_digits neg n tail :
  0 <= n ->
  match tail with c :: _ => digit_val c = None | [] => True end ->
  isValidNumber ((if neg : bool then [minus_chr] else []) ++ digits n ++ tail) =
    match skip_exponent (skip_fraction tail) with Some [] => true | _ => false end.
Proof.
  intros Hn Ht. rewrite <- (valid_unsigned_digits n tail) by done.
  destruct (digits_head n) as (c & r & Hd & Hc). rewrite Hd. cbn [app].
  by apply isValidNumber_signed.
Qed.

(** ** The reader consumes its input *)
Lemma skip_ws_length l : (length (skip_ws l) <= length l)%nat.
Proof. induction l as [|c l IH]; cbn; [lia|]. destruct (json_space c); cbn; lia. Qed.

Lemma skip_ws_cons l c r : skip_ws l = c :: r -> (length r < length l)%nat.
Proof. intros Hl. pose proof (skip_ws_length l). rewrite Hl in *. cbn in *. lia. Qed.

Lemma scan_string_length l raw rest :
  scan_string l = Some (raw, rest) -> (length rest < length l)%nat.
Proof.
  remember (length l) as n eqn:Hn. revert l raw rest Hn.
  induction n as [n IH] using (well_founded_induction lt_wf). intros l raw rest Hn Hs.
  assert (Hrec : forall l' raw' rest', scan_string l' = Some (raw', rest') -> (length l' < n)%nat ->
                 (length rest' < length l')%nat) by (intros; eapply IH; [|reflexivity|]; eauto).
  destruct l as [|c l]; [done|]. cbn [scan_string] in Hs. cbn in Hn.
  repeat case_match; simplify_eq; try lia;
    match goal with H : scan_string _ = Some _ |- _ => apply Hrec in H; cbn in *; lia end.
Qed.

Lemma span_number_length l lit rest :
  span_number l = (lit, rest) -> (length lit + length rest = length l)%nat.
Proof.
  revert lit rest. induction l as [|c l IH]; cbn; intros lit rest Hs; [by simplify_eq|].
  destruct (number_chr c); [|by simplify_eq]. destruct (span_number l) as [a b] eqn:E.
  simplify_eq. cbn. f_equal. by apply IH.
Qed.

Lemma read_number_length l v rest : read_number l = Some (v, rest) -> (length rest < length l)%nat.
Proof.
  unfold read_number. destruct (span_number l) as [lit r] eqn:E. destruct (isValidNumber lit) eqn:Hv; [|done].
  intros [= <- <-]. apply span_number_length in E. destruct lit; [done|]. cbn in E. lia.
Qed.

Lemma read_literal_length l v rest :
  read_literal literals l = Some (v, rest) -> (length rest < length l)%nat.
Proof.
  cbn [read_literal literals]. destruct l as [|c l]; [done|].
  repeat case_match; intros Hs; simplify_eq; cbn; rewrite ?length_drop; lia.
Qed.

(** Case analysis of one unfolding of the reader. *)
Ltac parse_cases H :=
  repeat match type of H with
         | match ?x with _ => _ end = Some _ => destruct x eqn:?
         end; simplify_eq.

Lemma read_key_length l key rest : read_key l = Some (key, rest) -> (length rest < length l)%nat.
Proof.
  unfold read_key. intros Hk. parse_cases Hk.
  repeat match goal with
         | H : skip_ws _ = _ :: _ |- _ => apply skip_ws_cons in H
         | H : scan_string _ = Some _ |- _ => apply scan_string_length in H
         end. lia.
Qed.

Lemma read_next_length close l b rest : read_next close l = Some (b, rest) -> (length rest < length l)%nat.
Proof. unfold read_next. intros Hk. parse_cases Hk; eapply skip_ws_cons; eauto. Qed.

Lemma parse_shorter f :
  (forall d l v rest, parse_value f d l = Some (v, rest) -> (length rest < length l)%nat) /\
  (forall d l vs rest, parse_elements f d l = Some (vs, rest) -> (length rest < length l)%nat) /\
  (forall d l ms rest, parse_members f d l = Some (ms, rest) -> (length rest < length l)%nat).
Proof.
  induction f as [|f (IHv & IHe & IHm)]; [done|].
  split_and!; intros d l v rest Hp; cbn -[read_literal] in Hp.
  all: parse_cases Hp;
    repeat match goal with
           | H : skip_ws _ = _ :: _ |- _ => apply skip_ws_cons in H
           | H : read_key _ = Some _ |- _ => apply read_key_length in H
           | H : read_next _ _ = Some _ |- _ => apply read_next_length in H
           | H : scan_string _ = Some _ |- _ => apply scan_string_length in H
           | H : read_literal _ _ = Some _ |- _ => apply read_literal_length in H
           | H : read_number _ = Some _ |- _ => apply read_number_length in H
           | H : parse_value _ _ _ = Some _ |- _ => apply IHv in H
           | H : parse_elements _ _ _ = Some _ |- _ => apply IHe in H
           | H : parse_members _ _ _ = Some _ |- _ => apply IHm in H
           end; cbn [length] in *; lia.
Qed.

(** Fuel that covers the text gives the same answer as any larger fuel. *)
Lemma parse_enough f :
  (forall g d l, (2 * length l + 1 <= f)%nat -> (f <= g)%nat -> parse_value g d l = parse_value f d l) /\
  (forall g d l, (2 * length l + 2 <= f)%nat -> (f <= g)%nat -> parse_elements g d l = parse_elements f d l) /\
  (forall g d l, (2 * length l + 2 <= f)%nat -> (f <= g)%nat -> parse_members g d l = parse_members f d l).
Proof.
  induction f as [|f (IHv & IHe & IHm)]; [split_and!; intros; lia|].
  split_and!; intros [|g] d l Hl Hg; try lia; cbn -[read_literal].
  - destruct (skip_ws l) as [|c r] eqn:El; [done|]. apply skip_ws_cons in El.
    destruct (skip_ws r) as [|c1 r1] eqn:Er.
    + by repeat case_match.
    + pose proof (skip_ws_length r) as Hr. rewrite Er in Hr.
      rewrite (IHm g (d + 1) (c1 :: r1)), (IHe g (d + 1) (c1 :: r1)) by lia. reflexivity.
  - rewrite (IHv g d l) by lia. destruct (parse_value f d l) as [[v r]|] eqn:Ev; [|done].
    apply (proj1 (parse_shorter f)) in Ev.
    destruct (read_next _ r) as [[b r1]|] eqn:Er; [|done]. apply read_next_length in Er.
    by rewrite (IHe g d r1) by lia.
  - destruct (read_key l) as [[key l1]|] eqn:Ek; [|done]. apply read_key_length in Ek.
    rewrite (IHv g d l1) by lia. destruct (parse_value f d l1) as [[v r]|] eqn:Ev; [|done].
    apply (proj1 (parse_shorter f)) in Ev.
    destruct (read_next _ r) as [[b r1]|] eqn:Er; [|done]. apply read_next_length in Er.
    by rewrite (IHm g d r1) by lia.
Qed.

Lemma decode_first_fuel l g : (parse_fuel l <= g)%nat -> parse_value g 0 l = decode_first l.
Proof. intros Hg. apply (proj1 (parse_enough (parse_fuel l))); unfold parse_fuel in *; lia. Qed.

Lemma decode_first_shorter l v rest : decode_first l = Some (v, rest) -> (length rest < length l)%nat.
Proof. apply (proj1 (parse_shorter _)). Qed.

(** ** The writer

    [json.Marshal]: strings are escaped for HTML, a uuid is the text of its
    [MarshalText], an instant that of its [MarshalJSON]; a token, which only [Money]
    produces, must be a number. *)
Fixpoint join (l : list bytes) : bytes :=
  match l with
  | [] => []
  | [x] => x
  | x :: r => x ++ comma_chr :: join r
  end.

Definition member_text (key : string) (text : bytes) : bytes :=
  quote_text (to_bytes key) ++ colon_chr :: text.

Definition in_brackets (l : list bytes) : bytes := open_bracket :: join l ++ [close_bracket].
Definition in_braces (l : list bytes) : bytes := open_brace :: join l ++ [close_brace].

Section render.
Context `{!UuidText, !LocalZone}.

Fixpoint render (v : json) : option bytes :=
  match v with
  | JNull => Some (to_bytes "null")
  | JBool b => Some (to_bytes (if b then "true" else "false"))
  | JInt z => Some (fmt_d z)
  | JStr s => Some (quote_text (to_bytes s))
  | JToken s => if isValidNumber (to_bytes s) then Some (to_bytes s) else None
  | JUuid u => Some (quote_text (to_bytes (uuid_String u)))
  | JTime t => (fun text => quote_chr :: text ++ [quote_chr]) <$> format_rfc3339 t
  | JArr l => in_brackets <$> mapM render l
  | JObj fields => in_braces <$> mapM (fun kv => member_text kv.1 <$> render kv.2) fields
  end.

(** What a reader of the text gets. *)
Fixpoint shape (v : json) : jval :=
  match v with
  | JNull => JVNull
  | JBool b => JVBool b
  | JInt z => JVNum (fmt_d z)
  | JStr s => JVStr (escape (to_bytes s)) (valid_utf8 (to_bytes s))
  | JToken s => JVNum (to_bytes s)
  | JUuid u => JVStr (escape (to_bytes (uuid_String u))) (to_bytes (uuid_String u))
  | JTime t => let text := default [] (format_rfc3339 t) in JVStr text text
  | JArr l => JVArr (shape <$> l)
  | JObj fields => JVObj ((fun kv => (valid_utf8 (to_bytes kv.1), shape kv.2)) <$> fields)
  end.

Fixpoint height (v : json) : Z :=
  match v with
  | JArr l => 1 + fold_right Z.max 0 (height <$> l)
  | JObj fields => 1 + fold_right Z.max 0 ((fun kv => height kv.2) <$> fields)
  | _ => 0
  end.
End render.

(** [Encoder.Encode] writes the text and a newline, and nothing when a field cannot
    be marshalled; the handlers have sent the status by then and drop the error. *)
Definition body_text `{!UuidText, !LocalZone} (b : body) : bytes :=
  match b with
  | NoBody => []
  | JsonBody v => match render v with Some text => text ++ [chr 10] | None => [] end
  | TextBody s => to_bytes s
  end.

(** ** The writer's text reads back *)
Lemma json_nested_ind (P : json -> Prop) :
  P JNull -> (forall b, P (JBool b)) -> (forall z, P (JInt z)) -> (forall s, P (JStr s)) ->
  (forall s, P (JToken s)) -> (forall u, P (JUuid u)) -> (forall t, P (JTime t)) ->
  (forall l, Forall P l -> P (JArr l)) ->
  (forall fields, Forall (fun kv => P kv.2) fields -> P (JObj fields)) ->
  forall v, P v.
Proof.
  intros Hnull Hbool Hint Hstr Htok Huuid Htime Harr Hobj. fix IH 1. intros v. destruct v as [|b|z|s|s|u|t|l|fs].
  1-7: auto.
  - apply Harr. induction l as [|v l IHl]; constructor; [apply IH|exact IHl].
  - apply Hobj. induction fs as [|kv fs IHl]; constructor; [apply IH|exact IHl].
Qed.

(** The rest of the text does not continue a number. *)
Definition delimited (rest : bytes) : Prop :=
  match rest with c :: _ => number_chr c = false | [] => True end.

Lemma is_digit_number c : is_digit c -> number_chr c = true.
Proof. intros Hc. unfold number_chr. by rewrite (bool_decide_eq_true_2 _ Hc). Qed.

Lemma skip_digits_split l : exists p, l = p ++ skip_digits l /\ Forall is_digit p.
Proof.
  induction l as [|c l (p & Hl & Hp)]; [by exists []|]. cbn.
  destruct (digit_val c) eqn:Hc; [|by exists []]. exists (c :: p). cbn. split; [by f_equal|].
  constructor; [by eexists|done].
Qed.

Lemma skip_digits_number l : Forall number_chr (skip_digits l) -> Forall number_chr l.
Proof.
  destruct (skip_digits_split l) as (p & Hl & Hp). rewrite Hl at 2. intros Hr. apply Forall_app.
  split; [|done]. eapply Forall_impl; [exact Hp|]. intros c Hc. by rewrite is_digit_number.
Qed.

Lemma skip_fraction_number l : Forall number_chr (skip_fraction l) -> Forall number_chr l.
Proof.
  destruct l as [|c [|d r]]; cbn; [done..|].
  destruct (bool_decide (c = dot_chr)) eqn:Hc; cbn [andb]; [|done].
  destruct (bool_decide (is_Some (digit_val d))) eqn:Hd; cbn [andb]; [|done].
  apply bool_decide_eq_true in Hc as ->. apply bool_decide_eq_true in Hd. intros Hr.
  constructor; [done|]. constructor; [by rewrite is_digit_number|]. by apply skip_digits_number.
Qed.

Lemma skip_exponent_number l r : skip_exponent l = Some r -> Forall number_chr r -> Forall number_chr l.
Proof.
  destruct l as [|c [|d l]]; cbn; try (by intros [= <-]).
  destruct (bool_decide (c = "e"%char) || bool_decide (c = "E"%char)) eqn:Hc; [|by intros [= <-]].
  assert (number_chr c) as Hnc
    by (rewrite orb_true_iff, !bool_decide_eq_true in Hc; destruct Hc as [->| ->]; done).
  destruct (bool_decide (d = plus_chr) || bool_decide (d = minus_chr)) eqn:Hd.
  - assert (number_chr d) as Hnd
      by (rewrite orb_true_iff, !bool_decide_eq_true in Hd; destruct Hd as [->| ->]; done).
    destruct l; [done|]. intros [= <-] Hr. constructor; [done|]. constructor; [done|].
    by apply skip_digits_number.
  - intros [= <-] Hr. constructor; [done|]. by apply (skip_digits_number (d :: l)).
Qed.

Lemma valid_unsigned_number l : valid_unsigned l = true -> l <> [] /\ Forall number_chr l /\
  exists c r, l = c :: r /\ is_digit c.
Proof.
  destruct l as [|c r]; [done|]. cbn. destruct (digit_val c) as [v|] eqn:Hc; [|done]. intros Hv.
  assert (is_digit c) as Hd by by eexists.
  split; [done|]. split; [|eauto]. constructor; [by rewrite is_digit_number|].
  destruct (skip_exponent _) as [[|]|] eqn:He in Hv; [|done..].
  apply skip_exponent_number, skip_fraction_number in He; [|constructor].
  destruct (v =? 0); [done|by apply skip_digits_number].
Qed.

Lemma isValidNumber_number l : isValidNumber l = true -> Forall number_chr l /\
  exists c r, l = c :: r /\ (is_digit c \/ c = minus_chr).
Proof.
  destruct l as [|c r]; [done|]. cbn [isValidNumber]. case_bool_decide as Hc; intros Hv.
  - subst. apply valid_unsigned_number in Hv as (_ & Hall & _). split; [by constructor|]. eauto.
  - apply valid_unsigned_number in Hv as (_ & Hall & c' & r' & [= <- <-] & Hd). eauto 6.
Qed.

Lemma span_number_app l rest : Forall number_chr l -> delimited rest -> span_number (l ++ rest) = (l, rest).
Proof.
  intros Hl Hr. induction Hl as [|c l Hc _ IH]; cbn.
  - destruct rest as [|c r]; [done|]. cbn in *. by rewrite Hr.
  - rewrite IH. by destruct (number_chr c).
Qed.

Lemma isValidNumber_fmt_d z : isValidNumber (fmt_d z) = true.
Proof.
  unfold fmt_d. destruct (z <? 0) eqn:Hz.
  - pose proof (isValidNumber_digits true (- z) [] ltac:(lia) I) as H. rewrite app_nil_r in H. exact H.
  - pose proof (isValidNumber_digits false z [] ltac:(lia) I) as H. rewrite app_nil_r in H. exact H.
Qed.

(** Bytes a string is written with as they are. *)
Definition plain (c : ascii) : bool :=
  (byte_of c <? 128) && bool_decide (short_escape (byte_of c) = None) && negb (html_unsafe (byte_of c)).

Lemma escape_plain l : Forall plain l -> escape l = l.
Proof.
  unfold escape. induction 1 as [|c l Hc _ IH]; [done|]. unfold plain in Hc.
  rewrite !andb_True, bool_decide_spec, !Is_true_true, negb_true_iff in Hc. destruct Hc as [[Hlt Hs] Hh].
  rewrite units_Asc by lia. cbn. rewrite Hs, Hh. cbn. by f_equal.
Qed.

Lemma plain_ascii l : Forall plain l -> Forall (fun c => byte_of c < 128) l.
Proof.
  intros Hl. eapply Forall_impl; [exact Hl|]. intros c. unfold plain. rewrite !andb_True, !Is_true_true. lia.
Qed.

Lemma digit_plain c : is_digit c -> plain c.
Proof.
  assert (H : forall c, negb (bool_decide (is_Some (digit_val c))) || plain c = true)
    by (apply every_byte; vm_compute; reflexivity).
  intros Hc. specialize (H c). rewrite (bool_decide_eq_true_2 _ Hc) in H. by apply Is_true_true.
Qed.

Lemma fixed_plain w z : Forall plain (fixed w z).
Proof. eapply Forall_impl; [apply fixed_digits|apply digit_plain]. Qed.

Lemma fraction_plain nanos : Forall plain (fraction_text nanos).
Proof.
  unfold fraction_text. destruct (strip_zeros_spec (fixed 9 nanos)) as [k Hk].
  pose proof (fixed_plain 9 nanos) as Hp. rewrite Hk in Hp. apply Forall_app in Hp as [Hp _].
  destruct (strip_zeros _); constructor; done.
Qed.

Lemma zone_plain m : Forall plain (zone_text m).
Proof.
  unfold zone_text. destruct (m =? 0); [by repeat constructor|].
  constructor; [by destruct (m <? 0)|]. apply Forall_app. split; [apply fixed_plain|].
  constructor; [done|apply fixed_plain].
Qed.

Lemma rfc3339_plain `{!LocalZone} t text : format_rfc3339 t = Some text -> Forall plain text.
Proof.
  unfold format_rfc3339. destruct (civil_from_days _) as [[y m] d]. destruct (_ && _); [|done].
  intros Ht. apply (inj Some) in Ht as <-.
  repeat first [ apply fixed_plain | apply fraction_plain | apply zone_plain
               | apply Forall_app; split | apply Forall_cons; split; [done|] ].
Qed.

(** A value of each kind at the head of a text. *)
Definition number_head (c : ascii) : bool :=
  bool_decide (is_Some (digit_val c)) || bool_decide (c = minus_chr).

Definition number_head_check (c : ascii) : bool :=
  negb (number_head c) ||
  (negb (json_space c) && negb (bool_decide (c ∈ [open_brace; open_bracket; close_bracket; quote_chr;
                                                  "t"%char; "f"%char; "n"%char]))).

Lemma number_head_checked c : number_head_check c = true.
Proof. revert c. apply every_byte. vm_compute. reflexivity. Qed.

(** A text that starts a value: no space and no closing bracket. *)
Definition value_head (text : bytes) : Prop :=
  match text with c :: _ => json_space c = false /\ c <> close_bracket | [] => False end.

Lemma skip_ws_head text rest : value_head text -> skip_ws (text ++ rest) = text ++ rest.
Proof. destruct text as [|c r]; [done|]. intros [Hc _]. cbn. by rewrite Hc. Qed.

Lemma number_value lit :
  isValidNumber lit = true -> value_head lit /\
  forall f d rest, delimited rest -> parse_value (S f) d (lit ++ rest) = Some (JVNum lit, rest).
Proof.
  intros Hv. destruct (isValidNumber_number lit Hv) as (Hall & c & r & Hl & Hc).
  assert (number_head c = true) as Hn.
  { unfold number_head. destruct Hc as [Hc| ->]; [by rewrite (bool_decide_eq_true_2 _ Hc)|done]. }
  pose proof (number_head_checked c) as Hk. unfold number_head_check in Hk. rewrite Hn in Hk.
  cbn [negb orb] in Hk. rewrite andb_true_iff, !negb_true_iff, bool_decide_eq_false in Hk.
  destruct Hk as [Hsp Hk]. rewrite !not_elem_of_cons in Hk. destruct Hk as (K1 & K2 & K3 & K4 & K5 & K6 & K7 & _).
  split; [subst lit; by split|]. intros f d rest Hrest.
  cbn -[read_literal]. rewrite Hl. cbn [app skip_ws]. rewrite Hsp.
  rewrite !bool_decide_eq_false_2 by done. cbn [read_literal literals has_prefix to_bytes String.list_ascii_of_string].
  rewrite !(bool_decide_eq_false_2 (_ = c)) by done. cbn [andb].
  unfold read_number. change (c :: r ++ rest) with ((c :: r) ++ rest). rewrite <- Hl.
  rewrite span_number_app by done. by rewrite Hv.
Qed.

Lemma quoted_value f d l :
  parse_value (S f) d (quote_chr :: l) =
  match scan_string l with Some (raw, rest) => Some (JVStr raw (unquote raw), rest) | None => None end.
Proof. reflexivity. Qed.

Lemma string_value l f d rest :
  parse_value (S f) d (quote_text l ++ rest) = Some (JVStr (escape l) (valid_utf8 l), rest).
Proof.
  unfold quote_text. cbn [app]. rewrite <- app_assoc. cbn [app].
  by rewrite quoted_value, scan_escape, unquote_escape.
Qed.

Section read_back.
Context `{!UuidText, !LocalZone}.

(** The text of [v] is read as its shape, whatever follows it, given enough fuel. *)
Definition reads_back (v : json) (text : bytes) : Prop :=
  value_head text /\
  forall d rest, d + height v <= maxNestingDepth -> delimited rest ->
  exists f0, forall f, (f0 <= f)%nat -> parse_value f d (text ++ rest) = Some (shape v, rest).

Lemma at_least_one (P : nat -> Prop) : (forall f, P (S f)) -> exists f0, forall f, (f0 <= f)%nat -> P f.
Proof. intros HP. exists 1%nat. intros [|f] Hf; [lia|apply HP]. Qed.

Lemma reads_number v lit :
  isValidNumber lit = true -> shape v = JVNum lit -> reads_back v lit.
Proof.
  intros Hl Hs. destruct (number_value lit Hl) as [Hh Hp]. split; [done|]. intros d rest _ Hr.
  apply at_least_one. intros f. rewrite Hs. by apply Hp.
Qed.

Lemma reads_string v l :
  shape v = JVStr (escape l) (valid_utf8 l) -> reads_back v (quote_text l).
Proof.
  intros Hs. split; [by split|]. intros d rest _ Hr. apply at_least_one. intros f. rewrite Hs.
  apply string_value.
Qed.

(** A list between brackets, one element at a time. *)
Lemma reads_elements l texts :
  Forall2 reads_back l texts -> l <> [] ->
  forall d rest, Forall (fun v => d + height v <= maxNestingDepth) l ->
  exists f0, forall f, (f0 <= f)%nat ->
    parse_elements f d (join texts ++ close_bracket :: rest) = Some (shape <$> l, rest).
Proof.
  induction 1 as [|v text l texts [_ Hv] Hrest IH]; [done|]. intros _ d rest Hd.
  inversion Hd as [|? ? Hd1 Hd2]; subst. destruct Hrest as [|v' text' l' texts' Hv' Hrest'].
  - destruct (Hv d (close_bracket :: rest) Hd1 eq_refl) as [f0 Hf0]. exists (S f0). intros [|f] Hf; [lia|].
    cbn [parse_elements join]. by rewrite Hf0 by lia.
  - destruct (IH ltac:(done) d rest Hd2) as [f1 Hf1].
    destruct (Hv d (comma_chr :: join (text' :: texts') ++ close_bracket :: rest) Hd1 eq_refl) as [f0 Hf0].
    exists (S (f0 + f1)). intros [|f] Hf; [lia|].
    change (join (text :: text' :: texts')) with (text ++ comma_chr :: join (text' :: texts')).
    cbn [parse_elements]. rewrite <- app_assoc. cbn [app]. rewrite Hf0 by lia.
    change (read_next close_bracket (comma_chr :: ?x)) with (Some (false, x)). cbv beta iota.
    by rewrite Hf1 by lia.
Qed.

Lemma read_key_text key text : read_key (member_text key text) = Some (valid_utf8 (to_bytes key), text).
Proof.
  unfold member_text, quote_text, read_key. cbn [app]. rewrite <- !app_assoc. cbn [app].
  change (skip_ws (quote_chr :: ?x)) with (quote_chr :: x). cbv beta iota.
  rewrite bool_decide_eq_true_2 by done. rewrite scan_escape, unquote_escape. reflexivity.
Qed.

Lemma member_text_app key text rest : member_text key text ++ rest = member_text key (text ++ rest).
Proof. unfold member_text. by rewrite <- app_assoc. Qed.

Lemma reads_members fields texts :
  Forall2 (fun kv t => exists text, t = member_text kv.1 text /\ reads_back kv.2 text) fields texts -> fields <> [] ->
  forall d rest, Forall (fun kv => d + height kv.2 <= maxNestingDepth) fields ->
  exists f0, forall f, (f0 <= f)%nat ->
    parse_members f d (join texts ++ close_brace :: rest) =
    Some ((fun kv => (valid_utf8 (to_bytes kv.1), shape kv.2)) <$> fields, rest).
Proof.
  induction 1 as [|kv t l texts (text & -> & _ & Hv) Hrest IH]; [done|]. intros _ d rest Hd.
  inversion Hd as [|? ? Hd1 Hd2]; subst. destruct Hrest as [|kv' text' l' texts' Hv' Hrest'].
  - destruct (Hv d (close_brace :: rest) Hd1 eq_refl) as [f0 Hf0]. exists (S f0). intros [|f] Hf; [lia|].
    cbn [parse_members join]. rewrite member_text_app, read_key_text. by rewrite Hf0 by lia.
  - destruct (IH ltac:(done) d rest Hd2) as [f1 Hf1].
    destruct (Hv d (comma_chr :: join (text' :: texts') ++ close_brace :: rest) Hd1 eq_refl) as [f0 Hf0].
    exists (S (f0 + f1)). intros [|f] Hf; [lia|].
    change (join (?x :: text' :: texts')) with (x ++ comma_chr :: join (text' :: texts')).
    cbn [parse_members]. rewrite <- app_assoc, member_text_app, read_key_text. cbn [app]. rewrite Hf0 by lia.
    change (read_next close_brace (comma_chr :: ?x)) with (Some (false, x)). cbv beta iota.
    by rewrite Hf1 by lia.
Qed.
Lemma array_value f d c r :
  d < maxNestingDepth -> json_space c = false -> c <> close_bracket ->
  parse_value (S f) d (open_bracket :: c :: r) =
  match parse_elements f (d + 1) (c :: r) with Some (vs, rest) => Some (JVArr vs, rest) | None => None end.
Proof.
  intros Hd Hc Hne.
  transitivity (if maxNestingDepth <=? d then None else match skip_ws (c :: r) with
    | c1 :: r1 => if bool_decide (c1 = close_bracket) then Some (JVArr [], r1)
                  else match parse_elements f (d + 1) (c1 :: r1) with
                       | Some (vs, rest) => Some (JVArr vs, rest) | None => None end
    | [] => None end); [reflexivity|].
  replace (maxNestingDepth <=? d) with false by lia. cbn [skip_ws]. rewrite Hc.
  by rewrite bool_decide_eq_false_2.
Qed.

Lemma object_value f d c r :
  d < maxNestingDepth -> json_space c = false -> c <> close_brace ->
  parse_value (S f) d (open_brace :: c :: r) =
  match parse_members f (d + 1) (c :: r) with Some (ms, rest) => Some (JVObj ms, rest) | None => None end.
Proof.
  intros Hd Hc Hne.
  transitivity (if maxNestingDepth <=? d then None else match skip_ws (c :: r) with
    | c1 :: r1 => if bool_decide (c1 = close_brace) then Some (JVObj [], r1)
                  else match parse_members f (d + 1) (c1 :: r1) with
                       | Some (ms, rest) => Some (JVObj ms, rest) | None => None end
    | [] => None end); [reflexivity|].
  replace (maxNestingDepth <=? d) with false by lia. cbn [skip_ws]. rewrite Hc.
  by rewrite bool_decide_eq_false_2.
Qed.

Lemma empty_value f d rest :
  d < maxNestingDepth ->
  parse_value (S f) d (in_brackets [] ++ rest) = Some (JVArr [], rest) /\
  parse_value (S f) d (in_braces [] ++ rest) = Some (JVObj [], rest).
Proof.
  intros Hd. split.
  - transitivity (if maxNestingDepth <=? d then None else Some (JVArr [], rest)); [reflexivity|].
    by replace (maxNestingDepth <=? d) with false by lia.
  - transitivity (if maxNestingDepth <=? d then None else Some (JVObj [], rest)); [reflexivity|].
    by replace (maxNestingDepth <=? d) with false by lia.
Qed.

Lemma height_max {A} (g : A -> Z) (l : list A) :
  0 <= fold_right Z.max 0 (g <$> l) /\ Forall (fun x => g x <= fold_right Z.max 0 (g <$> l)) l.
Proof.
  induction l as [|x l [IH0 IH]]; cbn; [split; [lia|constructor]|]. split; [lia|].
  constructor; [lia|]. eapply Forall_impl; [exact IH|]. cbn. intros; lia.
Qed.

Lemma join_head text texts rest :
  value_head text -> exists c r, join (text :: texts) ++ rest = c :: r /\ json_space c = false /\ c <> close_bracket.
Proof.
  destruct text as [|c r]; [done|]. intros [Hc Hne]. destruct texts; cbn; eauto.
Qed.

Lemma reads_array l texts : Forall2 reads_back l texts -> reads_back (JArr l) (in_brackets texts).
Proof.
  intros Hl. split; [by split|]. intros d rest Hd Hrest. cbn in Hd.
  destruct (height_max height l) as [Hpos Hall]. set (h := fold_right Z.max 0 (height <$> l)) in *. clearbody h.
  destruct Hl as [|v text l texts Hv Hl]; [apply at_least_one; intros f; apply (empty_value f d rest); lia|].
  assert (Hfits : Forall (fun v => d + 1 + height v <= maxNestingDepth) (v :: l))
    by (eapply Forall_impl; [exact Hall|]; cbn; intros; lia).
  destruct (reads_elements (v :: l) (text :: texts) ltac:(by constructor) ltac:(done) (d + 1) rest Hfits) as [f0 Hf0].
  exists (S f0). intros [|f] Hf; [lia|]. specialize (Hf0 f ltac:(lia)).
  unfold in_brackets. cbn [app]. rewrite <- app_assoc. cbn [app].
  destruct (join_head text texts (close_bracket :: rest) (proj1 Hv)) as (c & r & Hj & Hc & Hne).
  rewrite Hj in *. rewrite array_value by (done || lia). rewrite Hf0. done.
Qed.

Lemma reads_object fields texts :
  Forall2 (fun kv t => exists text, t = member_text kv.1 text /\ reads_back kv.2 text) fields texts ->
  reads_back (JObj fields) (in_braces texts).
Proof.
  intros Hl. split; [by split|]. intros d rest Hd Hrest. cbn in Hd.
  destruct (height_max (fun kv : string * json => height kv.2) fields) as [Hpos Hall].
  set (h := fold_right Z.max 0 ((fun kv : string * json => height kv.2) <$> fields)) in *. clearbody h.
  destruct Hl as [|v t l texts Hv Hl]; [apply at_least_one; intros f; apply (empty_value f d rest); lia|].
  assert (Hfits : Forall (fun kv : string * json => d + 1 + height kv.2 <= maxNestingDepth) (v :: l))
    by (eapply Forall_impl; [exact Hall|]; cbn; intros; lia).
  destruct (reads_members (v :: l) (t :: texts) ltac:(by constructor) ltac:(done) (d + 1) rest Hfits) as [f0 Hf0].
  exists (S f0). intros [|f] Hf; [lia|]. specialize (Hf0 f ltac:(lia)).
  unfold in_braces. cbn [app]. rewrite <- app_assoc. cbn [app].
  destruct Hv as (text & -> & Hv).
  destruct (join_head (member_text v.1 text) texts (close_brace :: rest) ltac:(by split)) as (c & r & Hj & Hc & Hne).
  assert (c = quote_chr) as -> by (destruct texts; cbn in Hj; by injection Hj).
  rewrite Hj in *. rewrite object_value by (done || lia). rewrite Hf0. done.
Qed.

Lemma render_reads_back v text : render v = Some text -> reads_back v text.
Proof.
  revert text. induction v as [|b|z|s|s|u|t|l IH|fields IH] using json_nested_ind; intros text; cbn [render].
  - intros [= <-]. split; [by split|]. intros d rest _ _. by apply at_least_one.
  - intros [= <-]. destruct b; (split; [by split|]; intros d rest _ _; by apply at_least_one).
  - intros Ht. apply (inj Some) in Ht as <-. by apply reads_number; [apply isValidNumber_fmt_d|].
  - intros Ht. apply (inj Some) in Ht as <-. by apply reads_string.
  - destruct (isValidNumber _) eqn:Hs; [|done]. intros [= <-]. by apply reads_number.
  - intros Ht. apply (inj Some) in Ht as <-. apply reads_string. cbn.
    by rewrite (valid_utf8_ascii _ (uuid_String_ascii u)).
  - destruct (format_rfc3339 t) as [text'|] eqn:Ht; [|done]. intros [= <-].
    pose proof (rfc3339_plain _ _ Ht) as Hp.
    rewrite <- (escape_plain text') at 1 by done. apply (reads_string _ text'). cbn [shape]. rewrite Ht. cbn [default from_option id].
    by rewrite escape_plain, valid_utf8_ascii by (done || by apply plain_ascii).
  - destruct (mapM render l) as [texts|] eqn:Hl; [|done]. intros [= <-]. apply reads_array.
    apply mapM_Some in Hl. clear -IH Hl. induction Hl; inversion IH; subst; constructor; auto.
  - destruct (mapM _ fields) as [texts|] eqn:Hl; [|done]. intros [= <-]. apply reads_object.
    apply mapM_Some in Hl. clear -IH Hl. induction Hl as [|kv t fields texts Hkv _ IHl]; [constructor|].
    inversion IH; subst. constructor; [|auto]. destruct (render kv.2) as [text|] eqn:Hr; [|done].
    cbn in Hkv. injection Hkv as <-. eauto.
Qed.

(** What the encoder writes, the decoder reads back as the shape of the value. *)
Lemma decode_first_render v text rest :
  render v = Some text -> height v <= maxNestingDepth -> delimited rest ->
  decode_first (text ++ rest) = Some (shape v, rest).
Proof.
  intros Hr Hh Hd. destruct (proj2 (render_reads_back v text Hr) 0 rest ltac:(lia) Hd) as [f0 Hf0].
  rewrite <- (decode_first_fuel _ (parse_fuel (text ++ rest) + f0)) by lia. apply Hf0. lia.
Qed.

Lemma unmarshal_render v text :
  render v = Some text -> height v <= maxNestingDepth -> unmarshal_value text = Some (shape v).
Proof.
  intros Hr Hh. unfold unmarshal_value. rewrite <- (app_nil_r text).
  by rewrite (decode_first_render v text []).
Qed.
End read_back.

(** A number and a quoted string as whole texts. *)
Lemma unmarshal_number_text l : isValidNumber l = true -> unmarshal_value l = Some (JVNum l).
Proof.
  intros Hl. destruct (number_value l Hl) as [_ Hp]. specialize (Hp (S (2 * length l)) 0 [] I).
  unfold unmarshal_value. rewrite <- (decode_first_fuel l (S (S (2 * length l)))) by (unfold parse_fuel; lia).
  rewrite app_nil_r in Hp. by rewrite Hp.
Qed.

Lemma unmarshal_quoted l : unmarshal_value (quote_text l) = Some (JVStr (escape l) (valid_utf8 l)).
Proof.
  pose proof (string_value l (parse_fuel (quote_text l)) 0 []) as Hp. rewrite app_nil_r in Hp.
  unfold unmarshal_value. rewrite <- (decode_first_fuel _ (S (parse_fuel (quote_text l)))) by lia.
  by rewrite Hp.
Qed.

Lemma number_ascii l : isValidNumber l = true -> Forall (fun c => byte_of c < 128) l.
Proof.
  intros Hl. apply isValidNumber_number in Hl as [Hall _].
  assert (H : forall c, negb (number_chr c) || (byte_of c <? 128) = true)
    by (apply every_byte; vm_compute; reflexivity).
  eapply Forall_impl; [exact Hall|]. intros c Hc. specialize (H c). apply Is_true_true in Hc.
  rewrite Hc in H. cbn in H. lia.
Qed.

(** ** Decoded text is UTF-8 *)
Inductive utf8 : bytes -> Prop :=
| utf8_nil : utf8 []
| utf8_asc c l : byte_of c < 128 -> utf8 l -> utf8 (c :: l)
| utf8_multi m l : rune m = true -> utf8 l -> utf8 (m ++ l).

Lemma utf8_app l1 l2 : utf8 l1 -> utf8 l2 -> utf8 (l1 ++ l2).
Proof.
  intros H1 H2. induction H1 as [|c l Hc _ IH|m l Hm _ IH]; [done|by constructor|].
  rewrite <- app_assoc. by constructor.
Qed.

Lemma utf8_rune m : rune m = true -> utf8 m.
Proof. intros Hm. rewrite <- (app_nil_r m). by constructor; [|constructor]. Qed.

Lemma utf8_valid l : utf8 l -> valid_utf8 l = l.
Proof.
  unfold valid_utf8. induction 1 as [|c l Hc _ IH|m l Hm _ IH]; [done|..].
  - rewrite units_Asc by done. cbn. by f_equal.
  - rewrite units_Multi by done. cbn. by f_equal.
Qed.

Lemma hex_val_range c v : hex_val c = Some v -> 0 <= v < 16.
Proof.
  assert (H : forall c, match hex_val c with Some v => (0 <=? v) && (v <? 16) | None => true end = true)
    by (apply every_byte; vm_compute; reflexivity).
  intros Hv. specialize (H c). rewrite Hv in H. lia.
Qed.

Lemma hex4_range a b c d u : hex4 a b c d = Some u -> 0 <= u < 65536.
Proof.
  unfold hex4. destruct (hex_val a) as [x|] eqn:Ha; [|done]. destruct (hex_val b) as [y|] eqn:Hb; [|done].
  destruct (hex_val c) as [z|] eqn:Hc; [|done]. destruct (hex_val d) as [w|] eqn:Hd; [|done].
  apply hex_val_range in Ha, Hb, Hc, Hd. intros [= <-]. lia.
Qed.

Lemma rune_text_utf8 u : 0 <= u < 1114112 -> surrogate u = false -> utf8 (rune_text u).
Proof.
  intros Hu Hs. unfold rune_text, surrogate in *.
  pose proof (Z.mod_pos_bound u 64 ltac:(lia)). pose proof (Z.div_mod u 64 ltac:(lia)).
  pose proof (Z.mod_pos_bound (u / 64) 64 ltac:(lia)). pose proof (Z.div_mod (u / 64) 64 ltac:(lia)) as H64.
  pose proof (Z.mod_pos_bound (u / 4096) 64 ltac:(lia)). pose proof (Z.div_mod (u / 4096) 64 ltac:(lia)) as H4096.
  rewrite Z.div_div in H64, H4096 by lia. change (64 * 64) with 4096 in *. change (4096 * 64) with 262144 in *.
  repeat case_match.
  - constructor; [|constructor]. rewrite byte_of_chr; lia.
  - apply utf8_rune. cbn. unfold_runes. rewrite !byte_of_chr by lia. lia.
  - apply utf8_rune. cbn. unfold_runes. rewrite !byte_of_chr by lia. lia.
  - apply utf8_rune. cbn. unfold_runes. rewrite !byte_of_chr by lia. lia.
Qed.

Lemma surrogate_pair_range u v w :
  surrogate_pair u v = Some w -> 65536 <= w < 1114112 /\ surrogate w = false.
Proof. unfold surrogate_pair, surrogate. case_match; [|done]. intros [= <-]. lia. Qed.

Lemma short_unescape_ascii e c : short_unescape e = Some c -> byte_of c < 128.
Proof.
  assert (H : forall e, match short_unescape e with Some c => byte_of c <? 128 | None => true end = true)
    by (apply every_byte; vm_compute; reflexivity).
  intros Hc. specialize (H e). rewrite Hc in H. lia.
Qed.

Lemma replacement_utf8 : utf8 replacement.
Proof. apply utf8_rune. by vm_compute. Qed.

Lemma unescape_utf8 us : Forall unit_ok us -> utf8 (unescape us).
Proof.
  remember (length us) as n eqn:Hn. revert us Hn.
  induction n as [n IH] using (well_founded_induction lt_wf). intros us -> Hok.
  assert (Hrec : forall us', (length us' < length us)%nat -> Forall unit_ok us' -> utf8 (unescape us'))
    by (intros us' Hlt Hus'; by eapply IH). clear IH.
  destruct Hok as [|[c|m|c] us Hu Hok]; cbn [unescape]; [constructor|..].
  2: apply utf8_app; [by apply utf8_rune|apply Hrec; [cbn; lia|done]].
  2: apply utf8_app; [apply replacement_utf8|apply Hrec; [cbn; lia|done]].
  case_bool_decide; [|constructor; [done|apply Hrec; [cbn; lia|done]]].
  repeat (case_match; try exact utf8_nil); subst;
    repeat match goal with
           | H : Forall unit_ok (_ :: _) |- _ => apply Forall_cons in H as [? H]
           | H : hex4 _ _ _ _ ≫= _ = Some _ |- _ => apply bind_Some in H as (? & ? & ?)
           | H : surrogate_pair _ _ = Some _ |- _ => apply surrogate_pair_range in H as [? ?]
           | H : hex4 _ _ _ _ = Some _ |- _ => apply hex4_range in H
           | H : short_unescape _ = Some _ |- _ => apply short_unescape_ascii in H
           end.
  all: repeat first [ done | (apply Hrec; [cbn; lia|]) | apply utf8_app | apply replacement_utf8
                    | (apply rune_text_utf8; [lia|done]) | assumption | apply Forall_cons_2 | apply utf8_asc ].
Qed.

(** Every string of a parsed value, keys aside, is UTF-8. *)
Inductive jval_ok : jval -> Prop :=
| ok_null : jval_ok JVNull
| ok_bool b : jval_ok (JVBool b)
| ok_num lit : jval_ok (JVNum lit)
| ok_str raw text : utf8 text -> jval_ok (JVStr raw text)
| ok_arr l : Forall jval_ok l -> jval_ok (JVArr l)
| ok_obj ms : Forall (fun m => jval_ok m.2) ms -> jval_ok (JVObj ms).

Lemma unquote_utf8 raw : utf8 (unquote raw).
Proof. apply unescape_utf8, units_ok. Qed.

Lemma read_literal_ok l v rest : read_literal literals l = Some (v, rest) -> jval_ok v.
Proof. cbn [read_literal literals]. repeat case_match; intros; simplify_eq; constructor. Qed.

Lemma parse_ok f :
  (forall d l v rest, parse_value f d l = Some (v, rest) -> jval_ok v) /\
  (forall d l vs rest, parse_elements f d l = Some (vs, rest) -> Forall jval_ok vs) /\
  (forall d l ms rest, parse_members f d l = Some (ms, rest) -> Forall (fun m => jval_ok m.2) ms).
Proof.
  induction f as [|f (IHv & IHe & IHm)]; [done|].
  split_and!; intros d l v rest Hp; cbn -[read_literal] in Hp.
  all: parse_cases Hp; eauto using ok_str, ok_arr, ok_obj, unquote_utf8, read_literal_ok.
  unfold read_number in *. destruct (span_number _). case_match; simplify_eq. constructor.
Qed.

Lemma decode_first_ok l v rest : decode_first l = Some (v, rest) -> jval_ok v.
Proof. apply (proj1 (parse_ok _)). Qed.
