(* ===== verification/JsonDecode.v ===== *)
(** JsonDecode: how [encoding/json] stores a parsed value into a Go variable: strings,
    integers, uuids, instants, slices and structs, with the corner cases of the
    library: [null], keys matched without regard to case, repeated and unknown keys,
    and slices that are decoded into the elements they already have. *)
From Stdlib Require Import Ascii.
From S2P Require Import Prelude GoStrings Errors Uuid Calendar Json JsonText.

(** A decoder takes the parsed value and the present contents of the variable, and
    gives its new contents; any error, reported at once or after the whole value, is
    [None]. *)
Abbreviation decoder A := (jval -> A -> option A) (only parsing).

Definition dec_string : decoder string := fun v old =>
  match v with
  | JVNull => Some old
  | JVStr _ text => Some (of_bytes text)
  | _ => None
  end.

(** [int] and [int64]. *)
Definition dec_int : decoder Z := fun v old =>
  match v with
  | JVNull => Some old
  | JVNum lit => ParseInt lit
  | _ => None
  end.

(** [UnmarshalText] of the uuid package; [null] does not reach it. *)
Definition dec_uuid `{UuidText} : decoder uuid := fun v old =>
  match v with
  | JVNull => Some old
  | JVStr _ text => uuid_Parse (of_bytes text)
  | _ => None
  end.

(** [Time.UnmarshalJSON], on the bytes between the quotes as they are. *)
Definition dec_time : decoder time := fun v old =>
  match v with
  | JVNull => Some old
  | JVStr raw _ => parse_rfc3339 raw
  | _ => None
  end.

(** ** Slices

    [array] decodes into the elements the slice already has and, past its length, into
    whatever earlier elements its backing array still holds; only beyond those does it
    start from the zero value.  [null] and an empty array drop the backing array. *)
Record slice (A : Type) := mkSlice {
  sl_backing : list A;
  sl_len : nat;
}.
Arguments mkSlice {A} _ _.
Arguments sl_backing {A} _.
Arguments sl_len {A} _.

Definition no_elements {A} : slice A := mkSlice [] 0.
Definition elements {A} (s : slice A) : list A := take (sl_len s) (sl_backing s).

Section slices.
Context {A : Type} (zero : A) (dec : decoder A).

Fixpoint dec_elements (vs : list jval) (backing : list A) : option (list A) :=
  match vs with
  | [] => Some backing
  | v :: vs' =>
      x ← dec v (default zero (head backing));
      rest ← dec_elements vs' (tail backing);
      Some (x :: rest)
  end.

Definition dec_slice : decoder (slice A) := fun v old =>
  match v with
  | JVNull | JVArr [] => Some no_elements
  | JVArr vs => (fun backing => mkSlice backing (length vs)) <$> dec_elements vs (sl_backing old)
  | _ => None
  end.
End slices.

(** ** Structs

    A key selects the field whose tag it equals up to [foldName]: ASCII letters in
    upper case, and the two other characters that fold to an ASCII letter. *)
Definition fold_unit (u : utf8_unit) : bytes :=
  match u with
  | Asc c => [upper_byte c]
  | Multi l =>
      if bool_decide (l = [chr 197; chr 191]) then ["S"%char]
      else if bool_decide (l = [chr 226; chr 132; chr 170]) then ["K"%char]
      else l
  | Bad c => [c]
  end.

Definition foldName (key : bytes) : bytes := concat (fold_unit <$> units key).

Definition field_matches (tag : string) (key : bytes) : bool :=
  bool_decide (foldName key = foldName (to_bytes tag)).

(** The fields of a struct: tag and decoder of the field inside the struct. *)
Fixpoint dec_field {A} (fields : list (string * decoder A)) (key : bytes) : decoder A :=
  match fields with
  | [] => fun _ old => Some old
  | (tag, dec) :: rest => if field_matches tag key then dec else dec_field rest key
  end.

Section structs.
Context {A : Type} (fields : list (string * decoder A)).

Fixpoint dec_members (ms : list (bytes * jval)) (x : A) : option A :=
  match ms with
  | [] => Some x
  | (key, v) :: ms' => dec_field fields key v x ≫= dec_members ms'
  end.

Definition dec_struct : decoder A := fun v x =>
  match v with
  | JVNull => Some x
  | JVObj ms => dec_members ms x
  | _ => None
  end.
End structs.

(** A field of a struct, from the decoder of its type, its projection and its update. *)
Definition field {A F} (tag : string) (dec : decoder F) (get : A -> F) (set : F -> A -> A) : string * decoder A :=
  (tag, fun v x => (fun y => set y x) <$> dec v (get x)).

(** [json.Unmarshal] and [Decoder.Decode] into a zero variable. *)
Definition Unmarshal {A} (dec : decoder A) (zero : A) (l : bytes) : option A :=
  v ← unmarshal_value l; dec v zero.

Definition Decode {A} (dec : decoder A) (zero : A) (body : string) : option A :=
  vr ← decode_first (to_bytes body); dec vr.1 zero.

(** The error value of a failed [json.Unmarshal]; nothing reads its text. *)
Definition json_error : error := ErrNew "json: cannot unmarshal".

Definition unmarshal_res {A} (dec : decoder A) (zero : A) (l : bytes) : res A :=
  match Unmarshal dec zero l with Some x => Ok x | None => Err json_error end.

(** ** Lemmas *)
Lemma foldName_ascii l : Forall (fun c => byte_of c < 128) l -> foldName l = upper_byte <$> l.
Proof.
  unfold foldName. induction 1 as [|c l Hc _ IH]; [done|]. rewrite units_Asc by done. cbn. by f_equal.
Qed.

Lemma dec_string_shape `{!UuidText, !LocalZone} s old :
  is_ascii s -> dec_string (shape (JStr s)) old = Some s.
Proof. intros Hs. cbn. rewrite valid_utf8_ascii by done. by rewrite of_to_bytes. Qed.

Lemma dec_int_shape `{!UuidText, !LocalZone} z old : in_int64 z -> dec_int (shape (JInt z)) old = Some z.
Proof. apply ParseInt_fmt_d. Qed.

Lemma dec_uuid_shape `{!UuidText, !LocalZone} u old : dec_uuid (shape (JUuid u)) old = Some u.
Proof. cbn. rewrite of_to_bytes. apply uuid_Parse_String. Qed.

Lemma dec_time_shape `{!UuidText, !LocalZone} t text old :
  render (JTime t) = Some text -> dec_time (shape (JTime t)) old = Some t.
Proof.
  cbn [render shape dec_time]. destruct (format_rfc3339 t) as [l|] eqn:Ht; [|done]. intros _. cbn.
  by apply parse_format_rfc3339.
Qed.

(** A text that [json.Marshal] wrote is decoded from the shape of its value. *)
Lemma Unmarshal_render `{!UuidText, !LocalZone} {A} (dec : decoder A) zero v text :
  render v = Some text -> height v <= maxNestingDepth ->
  Unmarshal dec zero text = dec (shape v) zero.
Proof. intros Hr Hh. unfold Unmarshal. by rewrite (unmarshal_render v text). Qed.

(** Select the fields of a struct whose keys are literal. *)
Ltac select_fields :=
  cbn [shape fmap list_fmap fst snd dec_struct dec_members];
  repeat (match goal with
          | |- context [dec_field (?x :: ?rest) ?key] => change (dec_field (x :: rest) key) with
              (if field_matches x.1 key then x.2 else dec_field rest key)
          end;
          repeat match goal with
                 | |- context [field_matches ?t ?k] =>
                     let b := eval vm_compute in (field_matches t k) in
                     change (field_matches t k) with b
                 end; cbn [fst snd]);
  unfold field; cbn [fst snd dec_string dec_int dec_uuid dec_time mbind option_bind fmap option_fmap option_map].

(** ** What a decoder can produce

    An invariant of a variable that every field decoder keeps, on values whose strings
    are UTF-8. *)
Definition keeps {A} (P : A -> Prop) (dec : decoder A) : Prop :=
  forall v x y, jval_ok v -> P x -> dec v x = Some y -> P y.

Lemma keeps_members {A} (P : A -> Prop) fields ms x y :
  Forall (fun f => keeps P f.2) fields -> Forall (fun m => jval_ok m.2) ms -> P x ->
  dec_members fields ms x = Some y -> P y.
Proof.
  intros Hf Hms. revert x. induction Hms as [|[key v] ms Hv _ IH]; intros x Hx; cbn; [by intros [= <-]|].
  destruct (dec_field fields key v x) as [x'|] eqn:Hd; [|done]. cbn. apply IH.
  clear IH. induction Hf as [|[tag dec] fields Hdec _ IHf]; cbn in Hd; [by simplify_eq|].
  destruct (field_matches tag key); [by eapply Hdec|by apply IHf].
Qed.

Lemma keeps_struct {A} (P : A -> Prop) fields :
  Forall (fun f => keeps P f.2) fields -> keeps P (dec_struct fields).
Proof.
  intros Hf v x y Hv Hx. destruct Hv; cbn; try done; [by intros [= <-]|].
  by apply keeps_members.
Qed.

Lemma keeps_field {A F} (P : A -> Prop) (Q : F -> Prop) tag dec (get : A -> F) set :
  keeps Q dec -> (forall x, P x -> Q (get x)) -> (forall x y, P x -> Q y -> P (set y x)) ->
  keeps P (field tag dec get set).2.
Proof.
  intros Hdec Hget Hset v x y Hv Hx. cbn. destruct (dec v (get x)) as [z|] eqn:Hz; [|done].
  intros [= <-]. eauto.
Qed.

Lemma keeps_elements {A} (P : A -> Prop) zero dec vs backing out :
  P zero -> keeps P dec -> Forall jval_ok vs -> Forall P backing ->
  dec_elements zero dec vs backing = Some out -> Forall P out.
Proof.
  intros Hz Hdec Hvs. revert backing out. induction Hvs as [|v vs Hv _ IH]; intros backing out Hb; cbn.
  - by intros [= <-].
  - destruct (dec v (default zero (head backing))) as [x|] eqn:Hx; [|done]. cbn.
    destruct (dec_elements zero dec vs (tail backing)) as [rest|] eqn:Hr; [|done]. intros [= <-].
    constructor; [|eapply IH, Hr; destruct Hb; [constructor|done]].
    eapply Hdec, Hx; [done|]. by destruct Hb.
Qed.

Lemma keeps_slice {A} (P : A -> Prop) zero dec :
  P zero -> keeps P dec -> keeps (fun s => Forall P (sl_backing s)) (dec_slice zero dec).
Proof.
  intros Hz Hdec v x y Hv Hx. destruct Hv as [| | | |l Hl|]; cbn; try done; [by intros [= <-]; constructor|].
  destruct Hl as [|v l Hv Hl]; [intros [= <-]; constructor|].
  destruct (dec_elements _ _ _ _) as [b|] eqn:Hb; [|done]. intros [= <-].
  eapply keeps_elements, Hb; try done. by constructor.
Qed.

Lemma keeps_string : keeps (fun s => utf8 (to_bytes s)) dec_string.
Proof. intros v x y Hv Hx. destruct Hv; cbn; try done; intros [= <-]; by rewrite ?to_of_bytes. Qed.

Lemma keeps_int : keeps in_int64 dec_int.
Proof. intros v x y Hv Hx. destruct Hv; cbn; try done; [by intros [= <-]|apply ParseInt_range]. Qed.

Lemma keeps_any {A} (dec : decoder A) : keeps (fun _ => True) dec.
Proof. by intros v x y _ _ _. Qed.

Lemma Decode_keeps {A} (P : A -> Prop) dec zero body x :
  keeps P dec -> P zero -> Decode dec zero body = Some x -> P x.
Proof.
  intros Hk Hz. unfold Decode. destruct (decode_first _) as [[v rest]|] eqn:Hv; [|done].
  apply Hk; [by eapply decode_first_ok|done].
Qed.

(** A body that starts with the encoded text of a value is decoded from its shape. *)
Lemma Decode_render `{!UuidText, !LocalZone} {A} (dec : decoder A) zero v text rest :
  render v = Some text -> height v <= maxNestingDepth -> delimited rest ->
  Decode dec zero (of_bytes (text ++ rest)) = dec (shape v) zero.
Proof. intros Hr Hh Hd. unfold Decode. by rewrite to_of_bytes, (decode_first_render v text). Qed.

(** Into a slice with no elements, every element starts from the zero value. *)
Lemma dec_elements_fresh {A} (zero : A) dec vs : dec_elements zero dec vs [] = mapM (fun v => dec v zero) vs.
Proof. induction vs as [|v vs IH]; cbn; [done|]. destruct (dec v zero); cbn; [|done]. by rewrite IH. Qed.
