(* ===== verification/Money.v ===== *)
(** Money: the fixed-scale monetary type of internal/money (integer cents in an
    [int64], two fractional digits), its parser, its printers and its JSON codec. *)
From S2P Require Import Prelude Errors GoStrings Json JsonText JsonDecode.

Definition scale : Z := 100.

(** [cents] is an [int64]: every operation below wraps its result to 64 bits. *)
Record Money := mkMoney { cents : Z }.

#[export] Instance Money_eq_dec : EqDecision Money.
Proof. solve_decision. Defined.

Definition money_ok (m : Money) : Prop := in_int64 (cents m).

Definition FromCents (c : Z) : Money := mkMoney c.
Definition Cents (m : Money) : Z := cents m.
Definition IsPositive (m : Money) : bool := 0 <? cents m.
Definition Add (m other : Money) : Money := mkMoney (wrap64 (cents m + cents other)).
Definition Multiply (m : Money) (quantity : Z) : Money := mkMoney (wrap64 (cents m * quantity)).

(** [ParseString] after trimming and the sign: dollars, an optional fraction. *)
Definition parse_unsigned (negative : bool) (s : bytes) : res Money :=
  match split_on dot_chr s with
  | dollarPart :: fracParts =>
      if Nat.ltb 1 (length fracParts) then Err (ErrVar MoneyErrInvalid) else
      match ParseInt dollarPart with
      | None => Err (ErrVar MoneyErrInvalid)
      | Some dollars =>
          let frac :=
            match fracParts with
            | [] => Some 0
            | fracPart :: _ =>
                match fracPart with
                | [] => None
                | [_] => ParseInt (fracPart ++ [digit_chr 0])
                | [_; _] => ParseInt fracPart
                | _ => None
                end
            end in
          match frac with
          | None => Err (ErrVar MoneyErrInvalid)
          | Some f =>
              let c := wrap64 (wrap64 (dollars * scale) + f) in
              Ok (mkMoney (if negative then wrap64 (- c) else c))
          end
      end
  | [] => Err (ErrVar MoneyErrInvalid)
  end.

Definition parse_bytes (raw : bytes) : res Money :=
  let s := trim_bytes raw in
  match s with
  | [] => Err (ErrVar MoneyErrInvalid)
  | c :: r =>
      let negative := bool_decide (c = minus_chr) in
      let s' := if negative then r else s in
      match s' with
      | [] => Err (ErrVar MoneyErrInvalid)
      | _ => parse_unsigned negative s'
      end
  end.

Definition ParseString (raw : string) : res Money := parse_bytes (to_bytes raw).

(** A [json.Number] is its literal text. *)
Definition ParseNumber (n : string) : res Money := ParseString n.

(** The sign and magnitude both printers start from; [-c] wraps on the minimum. *)
Definition sign_split (m : Money) : bytes * Z :=
  if cents m <? 0 then ([minus_chr], wrap64 (- cents m)) else ([], cents m).

Definition decimal_bytes (m : Money) : bytes :=
  let '(sign, c) := sign_split m in
  sign ++ fmt_d (Z.quot c scale) ++ [dot_chr] ++ fmt_02d (Z.rem c scale).

Definition Decimal (m : Money) : string := of_bytes (decimal_bytes m).

Definition marshal_bytes (m : Money) : bytes :=
  let '(sign, c) := sign_split m in
  let dollars := Z.quot c scale in
  let frac := Z.rem c scale in
  if frac =? 0 then sign ++ fmt_d dollars
  else sign ++ fmt_d dollars ++ [dot_chr] ++ fmt_02d frac.

(** [MarshalJSON] returns the token bytes and never an error. *)
Definition MarshalJSON (m : Money) : string := of_bytes (marshal_bytes m).

(** ** Decoding

    The bytes handed to [UnmarshalJSON] are one JSON value.  [json.Unmarshal(b,
    &asNumber)] stores the literal, or leaves the empty [json.Number] for [null]; it
    accepts a string that spells a number. *)
Definition unmarshal_number (v : jval) : option string :=
  match v with
  | JVNull => Some ""
  | JVNum lit => Some (of_bytes lit)
  | JVStr _ text => if isValidNumber text then Some (of_bytes text) else None
  | _ => None
  end.

(** [json.Unmarshal(b, &asString)]. *)
Definition unmarshal_string (v : jval) : option string := dec_string v "".

(** [UnmarshalJSON]: the new value of the receiver, or the error. *)
Definition UnmarshalJSON (v : jval) : res Money :=
  match unmarshal_number v with
  | Some n => ParseNumber n
  | None =>
      match unmarshal_string v with
      | None => Err (ErrVar MoneyErrInvalid)
      | Some s => ParseString s
      end
  end.

(** An amount inside a decoded struct: the decoder calls [UnmarshalJSON] on every
    value, [null] included. *)
Definition dec_money : jval -> Money -> option Money := fun v _ =>
  match UnmarshalJSON v with Ok m => Some m | _ => None end.

(** ** Shared lemmas *)

(** The decimal text of an amount: optional sign, dollars, point, two digits. *)
Definition canonical (neg : bool) (d f : Z) : bytes :=
  (if neg then [minus_chr] else []) ++ digits d ++ [dot_chr; digit_chr (f / 10); digit_chr (f mod 10)].

Lemma digit_val_dot : digit_val dot_chr = None.
Proof. reflexivity. Qed.
Lemma digit_val_minus : digit_val minus_chr = None.
Proof. reflexivity. Qed.

Lemma two_digits_digits f :
  0 <= f < 100 -> Forall is_digit [digit_chr (f / 10); digit_chr (f mod 10)].
Proof.
  intros Hf. pose proof (Z.mod_pos_bound f 10 ltac:(lia)).
  assert (0 <= f / 10 < 10) by (split; [apply Z.div_pos|apply Z.div_lt_upper_bound]; lia).
  repeat constructor; by apply digit_chr_is_digit.
Qed.

Lemma ParseInt_two_digits f :
  0 <= f < 100 -> ParseInt [digit_chr (f / 10); digit_chr (f mod 10)] = Some f.
Proof.
  intros Hf. pose proof (two_digits_digits f Hf) as Hd. inversion Hd as [|? ? Hc Hd' E1].
  pose proof (Z.mod_pos_bound f 10 ltac:(lia)).
  assert (0 <= f / 10 < 10) by (split; [apply Z.div_pos|apply Z.div_lt_upper_bound]; lia).
  rewrite ParseInt_unsigned by done.
  cbn [ParseUint parse_uint_loop]. rewrite !digit_val_chr by lia.
  pose proof (Z.div_mod f 10 ltac:(lia)).
  replace (maxUint64 <? 0 * 10 + f / 10) with false by (unfold maxUint64; lia).
  replace ((0 * 10 + f / 10) * 10 + f mod 10) with f by lia.
  replace (maxUint64 <? f) with false by (unfold maxUint64; lia).
  replace (2 ^ 63 <=? f) with false by lia. done.
Qed.

Lemma parse_unsigned_two neg (d : bytes) dollars f :
  Forall is_digit d -> ParseInt d = Some dollars -> 0 <= f < 100 ->
  parse_unsigned neg (d ++ [dot_chr; digit_chr (f / 10); digit_chr (f mod 10)]) =
  let c := wrap64 (dollars * scale + f) in
  Ok (mkMoney (if neg then wrap64 (- c) else c)).
Proof.
  intros Hd HP Hf. pose proof (two_digits_digits f Hf) as Htwo. unfold parse_unsigned.
  rewrite split_on_app by (by apply digits_not_in).
  rewrite split_on_none by (by apply digits_not_in).
  cbn [length Nat.ltb Nat.leb]. rewrite HP, ParseInt_two_digits by done. cbv zeta. by rewrite wrap64_add_l.
Qed.

Lemma parse_unsigned_int neg (d : bytes) dollars :
  Forall is_digit d -> ParseInt d = Some dollars ->
  parse_unsigned neg d =
  let c := wrap64 (dollars * scale) in
  Ok (mkMoney (if neg then wrap64 (- c) else c)).
Proof.
  intros Hd HP. unfold parse_unsigned.
  rewrite split_on_none by (by apply digits_not_in). cbn [length Nat.ltb Nat.leb].
  rewrite HP. cbv zeta. by rewrite wrap64_add_l, Z.add_0_r.
Qed.

(** Text that starts with a digit, or with a minus and a digit, and contains only
    visible bytes goes straight to [parse_unsigned]. *)
Lemma parse_bytes_plain neg (c : ascii) (r : bytes) :
  is_digit c -> Forall visible r ->
  parse_bytes ((if neg : bool then [minus_chr] else []) ++ c :: r) = parse_unsigned neg (c :: r).
Proof.
  intros Hc Hr. assert (Hv : visible c) by (by apply is_digit_visible).
  unfold parse_bytes. rewrite trim_bytes_visible.
  2:{ apply Forall_app. split; [destruct neg; by repeat constructor|by constructor]. }
  destruct neg; cbn [app].
  - by rewrite bool_decide_eq_true_2.
  - rewrite bool_decide_eq_false_2 by (eapply is_digit_not; [done|reflexivity]). reflexivity.
Qed.

Lemma digits_visible l : Forall is_digit l -> Forall visible l.
Proof. intros Hl. eapply Forall_impl; [exact Hl|apply is_digit_visible]. Qed.

Lemma parse_canonical neg d f :
  0 <= d < 2 ^ 63 -> 0 <= f < 100 ->
  parse_bytes (canonical neg d f) =
  let c := wrap64 (d * scale + f) in
  Ok (mkMoney (if neg then wrap64 (- c) else c)).
Proof.
  intros Hd Hf. unfold canonical. destruct (digits_head d) as (c & r & Hdig & Hc).
  pose proof (digits_digits d) as Hall. pose proof (two_digits_digits f Hf) as Htwo.
  rewrite Hdig in *. cbn [app]. rewrite parse_bytes_plain; [|done|].
  - rewrite app_comm_cons, <- Hdig. apply parse_unsigned_two; [by rewrite Hdig| |done].
    by apply ParseInt_digits.
  - inversion Hall; subst. apply Forall_app; split; [by apply digits_visible|].
    constructor; [by compute|by apply digits_visible].
Qed.

Lemma sign_split_nonmin m :
  money_ok m -> cents m <> int64_min ->
  sign_split m = ((if cents m <? 0 then [minus_chr] else []), Z.abs (cents m)).
Proof.
  unfold money_ok, in_int64, int64_min, int64_max. intros Hm Hne. unfold sign_split.
  case_match; [|f_equal; lia]. f_equal. rewrite wrap64_id by solve_int64. lia.
Qed.

Lemma abs_quot_rem m :
  money_ok m -> cents m <> int64_min ->
  0 <= Z.abs (cents m) / scale < 2 ^ 63 /\ 0 <= Z.abs (cents m) mod scale < 100 /\
  Z.quot (Z.abs (cents m)) scale = Z.abs (cents m) / scale /\
  Z.rem (Z.abs (cents m)) scale = Z.abs (cents m) mod scale.
Proof.
  unfold money_ok, in_int64, int64_min, int64_max, scale. intros Hm Hne.
  pose proof (Z.mod_pos_bound (Z.abs (cents m)) 100 ltac:(lia)).
  rewrite Z.quot_div_nonneg, Z.rem_mod_nonneg by lia. repeat split; try lia.
  - apply Z.div_pos; lia.
  - apply Z.div_lt_upper_bound; lia.
Qed.

Lemma decimal_canonical m :
  money_ok m -> cents m <> int64_min ->
  decimal_bytes m = canonical (cents m <? 0) (Z.abs (cents m) / scale) (Z.abs (cents m) mod scale).
Proof.
  intros Hm Hne. destruct (abs_quot_rem m Hm Hne) as (Hd & Hf & Hq & Hr).
  unfold decimal_bytes. rewrite sign_split_nonmin, Hq, Hr, fmt_02d_two by done.
  unfold fmt_d. replace (Z.abs (cents m) / scale <? 0) with false by lia. done.
Qed.

Lemma money_recompose m :
  money_ok m ->
  let c := wrap64 (Z.abs (cents m) / scale * scale + Z.abs (cents m) mod scale) in
  mkMoney (if cents m <? 0 then wrap64 (- c) else c) = m.
Proof.
  intros Hm. unfold scale. pose proof (Z.div_mod (Z.abs (cents m)) 100 ltac:(lia)).
  replace (Z.abs (cents m) / 100 * 100 + Z.abs (cents m) mod 100) with (Z.abs (cents m)) by lia.
  cbv zeta. wrap_simpl. destruct m as [c]; cbn in *.
  f_equal. destruct (c <? 0) eqn:Hc.
  - replace (- Z.abs c) with c by lia. by apply wrap64_id.
  - replace (Z.abs c) with c by lia. by apply wrap64_id.
Qed.

Lemma money_min_decimal : decimal_bytes (mkMoney int64_min) = to_bytes "--92233720368547758.-8".
Proof. vm_compute. reflexivity. Qed.

Lemma marshal_canonical m :
  money_ok m -> cents m <> int64_min ->
  marshal_bytes m =
    if Z.abs (cents m) mod scale =? 0
    then (if cents m <? 0 then [minus_chr] else []) ++ digits (Z.abs (cents m) / scale)
    else canonical (cents m <? 0) (Z.abs (cents m) / scale) (Z.abs (cents m) mod scale).
Proof.
  intros Hm Hne. destruct (abs_quot_rem m Hm Hne) as (Hd & Hf & Hq & Hr).
  unfold marshal_bytes. rewrite sign_split_nonmin, Hq, Hr by done.
  unfold fmt_d. replace (Z.abs (cents m) / scale <? 0) with false by lia.
  case_match; [done|]. by rewrite fmt_02d_two.
Qed.

(** ** Encoded amounts *)
Lemma ParseString_ok s m : ParseString s = Ok m -> money_ok m.
Proof.
  unfold ParseString, parse_bytes, parse_unsigned. intros Hp. repeat case_match; simplify_eq; apply wrap64_range.
Qed.

Lemma MarshalJSON_number m :
  money_ok m -> cents m <> int64_min -> isValidNumber (to_bytes (MarshalJSON m)) = true.
Proof.
  intros Hm Hmin. destruct (abs_quot_rem m Hm Hmin) as (Hd & Hf & _ & _).
  unfold MarshalJSON. rewrite to_of_bytes, marshal_canonical by done.
  pose proof (two_digits_digits _ Hf) as Htwo. case_match.
  - rewrite <- (app_nil_r (digits _)), isValidNumber_digits by (done || lia). done.
  - unfold canonical. rewrite isValidNumber_digits by (done || lia).
    inversion Htwo as [|? ? Ha Htwo' E1]; subst. inversion Htwo' as [|? ? Hb _ E2]; subst.
    cbn [skip_fraction]. rewrite !bool_decide_eq_true_2 by done. cbn [andb].
    cbn [skip_digits]. destruct Hb as [v ->]. done.
Qed.

Lemma ParseString_MarshalJSON m :
  money_ok m -> cents m <> int64_min -> ParseString (MarshalJSON m) = Ok m.
Proof.
  intros Hm Hmin. destruct (abs_quot_rem m Hm Hmin) as (Hd & Hf & _ & _).
  unfold ParseString, MarshalJSON. rewrite to_of_bytes, marshal_canonical by done.
  case_match eqn:Hz; [|rewrite parse_canonical by done; f_equal; by apply money_recompose].
  pose proof (money_recompose m Hm) as Hrec.
  replace (Z.abs (cents m) mod scale) with 0 in Hrec by lia. rewrite Z.add_0_r in Hrec.
  rewrite <- Hrec at 3. pose proof (digits_digits (Z.abs (cents m) / scale)) as Hall.
  destruct (digits_head (Z.abs (cents m) / scale)) as (c & r & Hdig & Hc).
  rewrite <- (parse_unsigned_int _ (digits (Z.abs (cents m) / scale))); [|done|by apply ParseInt_digits].
  rewrite Hdig in *. inversion Hall; subst. rewrite parse_bytes_plain; [done..|].
  by apply digits_visible.
Qed.

(** ** Properties *)

(** The decimal text of an amount parses back to it. *)
Lemma ParseString_Decimal (m : Money) : money_ok m -> ParseString (Decimal m) = Ok m.
Proof.
  intros Hm. unfold ParseString, Decimal. rewrite to_of_bytes.
  destruct (decide (cents m = int64_min)) as [Hmin|Hne].
  - destruct m as [c]; cbn in Hmin; subst c. rewrite money_min_decimal. vm_compute. reflexivity.
  - rewrite decimal_canonical, parse_canonical by (try apply abs_quot_rem; done).
    f_equal. by apply money_recompose.
Qed.

(** C38: printing an amount for the NUMERIC column and parsing the text back
    returns the same amount, for every int64 number of cents (the minimum, whose
    negation wraps, included). *)
Theorem Decimal_ParseString_roundtrip (m : Money) (Hm : money_ok m) :
  ParseString (Decimal m) = Ok m.
Proof. by apply ParseString_Decimal. Qed.

Lemma Decimal_ParseString_roundtrip_witness :
  money_ok (FromCents (-8990)) /\ Decimal (FromCents (-8990)) = "-89.90" /\
  ParseString (Decimal (FromCents (-8990))) = Ok (FromCents (-8990)).
Proof.
  split; [by compute|split; [vm_compute; reflexivity|]].
  apply (Decimal_ParseString_roundtrip (FromCents (-8990))). by compute.
Defined.

(** C39: for every amount but the minimum int64, [MarshalJSON] emits one JSON
    number, and decoding that text, as it is or quoted as a string, returns the
    amount. *)
Theorem MarshalJSON_roundtrip (m : Money) (Hm : money_ok m) (Hmin : cents m <> int64_min) :
  isValidNumber (to_bytes (MarshalJSON m)) = true /\
  Unmarshal dec_money (FromCents 0) (to_bytes (MarshalJSON m)) = Some m /\
  Unmarshal dec_money (FromCents 0) (quote_text (to_bytes (MarshalJSON m))) = Some m.
Proof.
  pose proof (MarshalJSON_number m Hm Hmin) as Hvalid. pose proof (ParseString_MarshalJSON m Hm Hmin) as Hparse.
  assert (Hascii : valid_utf8 (to_bytes (MarshalJSON m)) = to_bytes (MarshalJSON m))
    by (apply valid_utf8_ascii, number_ascii, Hvalid).
  unfold Unmarshal. rewrite unmarshal_number_text, unmarshal_quoted, Hascii by done. cbn.
  unfold dec_money, UnmarshalJSON, unmarshal_number, ParseNumber.
  by rewrite Hvalid, of_to_bytes, Hparse.
Qed.

Lemma MarshalJSON_roundtrip_witness :
  MarshalJSON (FromCents 8990) = "89.90" /\
  Unmarshal dec_money (FromCents 0) (to_bytes "89.90") = Some (FromCents 8990).
Proof.
  split; [vm_compute; reflexivity|].
  destruct (MarshalJSON_roundtrip (FromCents 8990)) as (_ & H & _);
    [by compute|by vm_compute|exact H].
Defined.

(** A well-formed decimal amount (optional minus, digits, optionally a
    point and two digits) whose exact value fits in an int64 parses to exactly that
    number of cents; no rounding and no sign loss. *)
Theorem ParseString_exact (neg : bool) (d f : Z) :
  0 <= d -> 0 <= f < 100 -> d * scale + f <= int64_max ->
  ParseString (of_bytes (canonical neg d f)) =
    Ok (FromCents (if neg then - (d * scale + f) else d * scale + f)).
Proof.
  unfold int64_max, scale. intros Hd Hf Hmax. unfold ParseString. rewrite to_of_bytes.
  rewrite parse_canonical by lia. unfold scale. cbv zeta. unfold FromCents. do 2 f_equal.
  destruct neg; wrap_simpl; apply wrap64_id; solve_int64.
Qed.

Lemma ParseString_exact_witness :
  ParseString (of_bytes (canonical true 2 50)) = Ok (FromCents (-250)) /\
  of_bytes (canonical true 2 50) = "-2.50".
Proof. split; [apply (ParseString_exact true 2 50); unfold int64_max, scale; lia|reflexivity]. Defined.

(** The parser delegates both parts to [strconv.ParseInt], which takes
    a sign of its own, and multiplies without an overflow check: doubled and inner
    signs are accepted with a changed value, and an amount above the int64 range
    wraps to an unrelated one instead of being rejected. *)
Theorem ParseString_accepts_malformed :
  ParseString "--1.50" = Ok (FromCents 50) /\
  ParseString "1.-5" = Ok (FromCents 95) /\
  ParseString "1.+5" = Ok (FromCents 105) /\
  ParseString "+3" = Ok (FromCents 300) /\
  ParseString "92233720368547758.08" = Ok (FromCents int64_min) /\
  ParseString "184467440737095517" = Ok (FromCents 84).
Proof. repeat split; vm_compute; reflexivity. Qed.

(** Multiplication by a quantity and addition are exact while the exact
    result fits in an int64, and wrap modulo 2^64 beyond. *)
Theorem Multiply_Add_bounds (m other : Money) (q : Z) :
  (in_int64 (cents m * q) -> cents (Multiply m q) = cents m * q) /\
  (in_int64 (cents m + cents other) -> cents (Add m other) = cents m + cents other) /\
  money_ok (Multiply m q) /\ money_ok (Add m other) /\
  exists k, cents (Multiply m q) = cents m * q + k * 2 ^ 64.
Proof.
  repeat split; cbn.
  - apply wrap64_id.
  - apply wrap64_id.
  - apply wrap64_range.
  - apply wrap64_range.
  - apply wrap64_range.
  - apply wrap64_range.
  - apply wrap64_congr.
Qed.
