(* ===== verification/Sha256.v ===== *)
(** Sha256: the hash of crypto/sha256 and the keyed hash of crypto/hmac, which sign the
    tokens: FIPS 180-4 and RFC 2104 on bytes. *)
From Stdlib Require Import Ascii.
From S2P Require Import Prelude GoStrings.

(** ** 32-bit words *)
Definition word32 (z : Z) : Z := Z.land z 0xffffffff.
Definition add32 (x y : Z) : Z := word32 (x + y).
Definition rotr (n x : Z) : Z := Z.lor (Z.shiftr x n) (word32 (Z.shiftl x (32 - n))).

Definition ch (x y z : Z) : Z := Z.lxor (Z.land x y) (Z.land (Z.lxor x 0xffffffff) z).
Definition maj (x y z : Z) : Z := Z.lxor (Z.lxor (Z.land x y) (Z.land x z)) (Z.land y z).
Definition big_sigma0 (x : Z) : Z := Z.lxor (Z.lxor (rotr 2 x) (rotr 13 x)) (rotr 22 x).
Definition big_sigma1 (x : Z) : Z := Z.lxor (Z.lxor (rotr 6 x) (rotr 11 x)) (rotr 25 x).
Definition sigma0 (x : Z) : Z := Z.lxor (Z.lxor (rotr 7 x) (rotr 18 x)) (Z.shiftr x 3).
Definition sigma1 (x : Z) : Z := Z.lxor (Z.lxor (rotr 17 x) (rotr 19 x)) (Z.shiftr x 10).

(** The first 32 bits of the fractional parts of the cube roots of the first 64 primes
    and of the square roots of the first eight, computed from the primes. *)
Definition prime (n : Z) : bool :=
  (2 <=? n) && forallb (fun d => negb (n mod d =? 0)) (seqZ 2 (Z.sqrt n - 1)).

Definition primes : list Z := List.filter prime (seqZ 2 310).

(** The largest [r] below [2 ^ bits + r0] with [r ^ 3 <= z], bit by bit from the top. *)
Fixpoint cube_root (bits : nat) (r z : Z) : Z :=
  match bits with
  | O => r
  | S b =>
      let r' := r + 2 ^ Z.of_nat b in
      cube_root b (if r' ^ 3 <=? z then r' else r) z
  end.

Definition round_constants : list Z :=
  Eval vm_compute in (fun p => word32 (cube_root 36 0 (p * 2 ^ 96))) <$> primes.

Definition initial_hash : list Z :=
  Eval vm_compute in (fun p => word32 (Z.sqrt (p * 2 ^ 64))) <$> take 8 primes.

(** ** Padding and blocks *)
Fixpoint big_endian (width : nat) (z : Z) : bytes :=
  match width with
  | O => []
  | S w => big_endian w (Z.shiftr z 8) ++ [chr (Z.land z 255)]
  end.

(** One byte 0x80, zeros up to 56 modulo 64, and the length in bits. *)
Definition pad (l : bytes) : bytes :=
  l ++ chr 128 :: replicate (Z.to_nat ((55 - Z.of_nat (length l)) mod 64)) (chr 0)
    ++ big_endian 8 (8 * Z.of_nat (length l)).

Definition word_of (l : bytes) : Z := fold_left (fun acc c => Z.lor (Z.shiftl acc 8) (byte_of c)) l 0.

Fixpoint chunks {A} (fuel : nat) (n : nat) (l : list A) : list (list A) :=
  match fuel, l with
  | S f, _ :: _ => take n l :: chunks f n (drop n l)
  | _, _ => []
  end.

(** The message schedule, newest word first: [w_t] from the sixteen before it. *)
Definition next_word (ws : list Z) : Z :=
  add32 (add32 (sigma1 (nth 1 ws 0)) (nth 6 ws 0)) (add32 (sigma0 (nth 14 ws 0)) (nth 15 ws 0)).

Fixpoint expand (n : nat) (ws : list Z) : list Z :=
  match n with O => ws | S n' => expand n' (next_word ws :: ws) end.

Definition schedule (block : bytes) : list Z :=
  reverse (expand 48 (reverse (word_of <$> chunks 16 4 block))).

(** ** Compression *)
Definition round (st : list Z) (kw : Z * Z) : list Z :=
  match st with
  | [a; b; c; d; e; f; g; h] =>
      let t1 := add32 (add32 (add32 h (big_sigma1 e)) (add32 (ch e f g) kw.1)) kw.2 in
      let t2 := add32 (big_sigma0 a) (maj a b c) in
      [add32 t1 t2; a; b; c; add32 d t1; e; f; g]
  | _ => st
  end.

Definition compress (st : list Z) (block : bytes) : list Z :=
  zip_with add32 st (fold_left round (zip round_constants (schedule block)) st).

Definition sha256 (l : bytes) : bytes :=
  let padded := pad l in
  concat (big_endian 4 <$> fold_left compress (chunks (length padded) 64 padded) initial_hash).

(** ** HMAC *)
Definition block_size : nat := 64.

Definition block_key (key : bytes) : bytes :=
  let k := if Nat.ltb block_size (length key) then sha256 key else key in
  k ++ replicate (block_size - length k) (chr 0).

Definition xor_bytes (b : Z) (l : bytes) : bytes := (fun c => chr (Z.lxor (byte_of c) b)) <$> l.

Definition hmac_sha256 (key msg : bytes) : bytes :=
  let k := block_key key in
  sha256 (xor_bytes 0x5c k ++ sha256 (xor_bytes 0x36 k ++ msg)).

(** Computed only where a test asks for it. *)
#[global] Strategy opaque [sha256 hmac_sha256].

Definition hex_text (l : bytes) : string :=
  of_bytes (concat ((fun c => [hex_chr (byte_of c / 16); hex_chr (byte_of c mod 16)]) <$> l)).

Example sha256_vectors :
  hex_text (sha256 (to_bytes "abc")) =
    "ba7816bf8f01cfea414140de5dae2223b00361a396177a9cb410ff61f20015ad" /\
  hex_text (sha256 []) =
    "e3b0c44298fc1c149afbf4c8996fb92427ae41e4649b934ca495991b7852b855".
Proof. split; vm_compute; reflexivity. Qed.

(** RFC 4231, test case 2, and a key longer than a block. *)
Example hmac_vectors :
  hex_text (hmac_sha256 (to_bytes "Jefe") (to_bytes "what do ya want for nothing?")) =
    "5bdcc146bf60754e6a042426089575c75a003f089d2739839dec58b964ec3843" /\
  hex_text (hmac_sha256 (replicate 131 (chr 170)) (to_bytes "Test Using Larger Than Block-Size Key - Hash Key First")) =
    "60e431591ee0b67f0d8a26aacbf5b77f8e0bc6213728c5140546040f0ee37f54".
Proof. split; vm_compute; reflexivity. Qed.
