(* ===== verification/Pagination.v ===== *)
(** Pagination: the page envelope of internal/pagination and the listing that the
    three in-memory adapters share (sort by creation time then id text, slice the
    requested page, count the pages). *)
From S2P Require Import Prelude Errors Uuid.

(** [Page[T]]. *)
Record Page (A : Type) := mkPage {
  pg_Items : list A;
  pg_Page : Z;
  pg_PageSize : Z;
  pg_Total : Z;
  pg_TotalPages : Z;
}.
Arguments mkPage {A} _ _ _ _ _.
Arguments pg_Items {A} _.
Arguments pg_Page {A} _.
Arguments pg_PageSize {A} _.
Arguments pg_Total {A} _.
Arguments pg_TotalPages {A} _.

Definition page_map {A B} (f : A -> B) (p : Page A) : Page B :=
  mkPage (f <$> pg_Items p) (pg_Page p) (pg_PageSize p) (pg_Total p) (pg_TotalPages p).

(** The slice expression [s[a:b]]. *)
Definition slice {A} (l : list A) (a b : Z) : res (list A) :=
  if (0 <=? a) && (a <=? b) && (b <=? Z.of_nat (length l))
  then Ok (take (Z.to_nat (b - a)) (drop (Z.to_nat a) l))
  else Panic "slice bounds out of range".

(** [start] and [end] of the requested page, with [int] arithmetic and clamping. *)
Definition page_start (total page pageSize : Z) : Z :=
  let start := wrap64 (wrap64 (page - 1) * pageSize) in
  if total <? start then total else start.
Definition page_end (total page pageSize : Z) : Z :=
  let e := wrap64 (page_start total page pageSize + pageSize) in
  if total <? e then total else e.

Definition page_slice {A} (matched : list A) (page pageSize : Z) : res (list A) :=
  let total := Z.of_nat (length matched) in
  slice matched (page_start total page pageSize) (page_end total page pageSize).

(** [(total + pageSize - 1) / pageSize], an integer division that panics on 0. *)
Definition ceil_pages (total pageSize : Z) : res Z :=
  if pageSize =? 0 then Panic "integer divide by zero"
  else Ok (Z.quot (wrap64 (wrap64 (total + pageSize) - 1)) pageSize).

(** The guarded count of the PostgreSQL adapters and the order adapter. *)
Definition guarded_pages (total pageSize : Z) : Z :=
  if 0 <? pageSize then Z.quot (wrap64 (wrap64 (total + pageSize) - 1)) pageSize else 0.

Section listing.
Context {A : Type} (created : A -> time) (ident : A -> uuid) `{UuidText}.

(** The [less] function given to [sort.Slice]. *)
Definition less (x y : A) : bool :=
  if created x =? created y
  then String.ltb (uuid_String (ident x)) (uuid_String (ident y))
  else created x <? created y.

(** Its non-strict version, the relation a sorted slice satisfies. *)
Definition ordered (x y : A) : Prop := less y x = false.

#[export] Instance ordered_dec x y : Decision (ordered x y).
Proof. unfold ordered. apply _. Defined.

(** [sort.Slice] promises a permutation in which no later element is less than an
    earlier one, and nothing about equal elements; merge sort is one such sort. *)
Definition sort_Slice (l : list A) : list A := merge_sort ordered l.

Definition sorted_by_less (l l' : list A) : Prop := l' ≡ₚ l /\ StronglySorted ordered l'.

Lemma ltb_false (s t : string) : String.ltb t s = false <-> String.le s t.
Proof.
  unfold String.le, String.ltb, String.leb. rewrite (String.compare_antisym t s).
  destruct (String.compare s t); cbn; naive_solver.
Qed.

Lemma ordered_spec x y :
  ordered x y <->
  created x < created y \/
  (created x = created y /\ String.le (uuid_String (ident x)) (uuid_String (ident y))).
Proof.
  unfold ordered, less. destruct (Z.eqb_spec (created y) (created x)) as [He|Hne].
  - rewrite ltb_false. intuition lia.
  - rewrite Z.ltb_ge. intuition lia.
Qed.

#[export] Instance ordered_trans : Transitive ordered.
Proof.
  intros x y z. rewrite !ordered_spec. intros [Hxy|[Hxy Hsxy]] [Hyz|[Hyz Hsyz]]; try (left; lia).
  right. split; [lia|]. by etrans.
Qed.

#[export] Instance ordered_total : Total ordered.
Proof.
  intros x y. rewrite !ordered_spec.
  destruct (Z.lt_trichotomy (created x) (created y)) as [?|[He|?]]; [left; left; lia| |right; left; lia].
  destruct (total String.le (uuid_String (ident x)) (uuid_String (ident y))); [left|right]; right; auto.
Qed.

Lemma ordered_antisym x y : ordered x y -> ordered y x -> ident x = ident y.
Proof.
  rewrite !ordered_spec. intros [?|[? H1]] [?|[? H2]]; try lia.
  apply (inj uuid_String). by apply (anti_symm String.le).
Qed.

Lemma sort_Slice_sorted l : sorted_by_less l (sort_Slice l).
Proof.
  split; [apply merge_sort_Permutation|]. apply StronglySorted_merge_sort; apply _.
Qed.

(** With distinct ids the sorted slice is unique: neither the iteration order of
    the map nor the instability of [sort.Slice] is observable. *)
Lemma sorted_by_less_unique l l1 l2 l1' :
  NoDup (ident <$> l) -> l ≡ₚ l1' -> sorted_by_less l l1 -> sorted_by_less l1' l2 -> l1 = l2.
Proof.
  intros Hnd Hll [Hp1 Hs1] [Hp2 Hs2].
  apply (StronglySorted_unique_strong ordered); [|done|done|].
  - intros x y Hx Hy Hxy Hyx.
    apply (NoDup_fmap_inj_on ident l); [done| | |by apply ordered_antisym].
    + by rewrite <- Hp1.
    + by rewrite Hll, <- Hp2.
  - by rewrite Hp1, Hll, Hp2.
Qed.

Lemma sort_Slice_perm l l' :
  NoDup (ident <$> l) -> l ≡ₚ l' -> sort_Slice l = sort_Slice l'.
Proof. intros Hnd Hp. eapply sorted_by_less_unique; eauto using sort_Slice_sorted. Qed.
End listing.

(** ** Page arithmetic *)
Section arith.
Context {A : Type}.
Implicit Types (l : list A) (total page pageSize : Z).

(** The products below stay in range for every page a caller can reach through
    valid listings. *)
Definition page_in_range page pageSize : Prop :=
  1 <= page /\ 1 <= pageSize /\ (page - 1) * pageSize + pageSize <= int64_max.

Lemma page_start_exact total page pageSize :
  page_in_range page pageSize ->
  page_start total page pageSize = Z.min total ((page - 1) * pageSize).
Proof.
  intros (Hp & Hs & Hmax). unfold page_start. unfold int64_max in Hmax.
  rewrite (wrap64_id (page - 1)) by (unfold in_int64, int64_min, int64_max; nia).
  rewrite wrap64_id by (unfold in_int64, int64_min, int64_max; nia).
  cbv zeta. case_match; lia.
Qed.

Lemma page_end_exact total page pageSize :
  0 <= total -> total + pageSize <= int64_max -> page_in_range page pageSize ->
  page_end total page pageSize = Z.min total (page * pageSize).
Proof.
  intros Ht Htm Hr. unfold page_end. rewrite page_start_exact by done.
  destruct Hr as (Hp & Hs & Hmax). unfold int64_max in *. cbv zeta.
  assert (0 <= (page - 1) * pageSize) by nia.
  rewrite wrap64_id by (unfold in_int64, int64_min, int64_max; lia).
  case_match; nia.
Qed.

Lemma page_slice_exact l page pageSize :
  Z.of_nat (length l) + pageSize <= int64_max -> page_in_range page pageSize ->
  page_slice l page pageSize =
    Ok (take (Z.to_nat pageSize) (drop (Z.to_nat ((page - 1) * pageSize)) l)).
Proof.
  intros Hl Hr. unfold page_slice, slice.
  rewrite page_start_exact, page_end_exact by (done || lia).
  destruct Hr as (Hp & Hs & Hmax). set (n := Z.of_nat (length l)) in *.
  replace (0 <=? Z.min n ((page - 1) * pageSize)) with true by (symmetry; apply Z.leb_le; nia).
  replace (Z.min n ((page - 1) * pageSize) <=? Z.min n (page * pageSize)) with true
    by (symmetry; apply Z.leb_le; nia).
  replace (Z.min n (page * pageSize) <=? n) with true by lia. cbn [andb]. f_equal.
  destruct (Z.le_gt_cases n ((page - 1) * pageSize)).
  - rewrite (Z.min_l n ((page - 1) * pageSize)) by lia.
    rewrite !drop_ge by lia. by rewrite !take_nil.
  - rewrite (Z.min_r n ((page - 1) * pageSize)) by lia.
    destruct (Z.le_gt_cases n (page * pageSize)).
    + rewrite Z.min_l by lia. rewrite !take_ge; [done|rewrite length_drop; nia..].
    + rewrite Z.min_r by lia. f_equal. lia.
Qed.

Lemma guarded_pages_exact total pageSize :
  0 <= total -> 1 <= pageSize -> total + pageSize <= int64_max ->
  guarded_pages total pageSize = (total + pageSize - 1) / pageSize.
Proof.
  unfold int64_max. intros Ht Hs Hm. unfold guarded_pages.
  replace (0 <? pageSize) with true by lia.
  rewrite (wrap64_id (total + pageSize)) by (unfold in_int64, int64_min, int64_max; lia).
  rewrite wrap64_id by (unfold in_int64, int64_min, int64_max; lia).
  apply Z.quot_div_nonneg; lia.
Qed.

Lemma ceil_pages_guarded total pageSize :
  1 <= pageSize -> ceil_pages total pageSize = Ok (guarded_pages total pageSize).
Proof.
  intros Hs. unfold ceil_pages, guarded_pages.
  replace (pageSize =? 0) with false by lia. by replace (0 <? pageSize) with true by lia.
Qed.

(** Consecutive windows of [n] elements, [k] of them, rebuild the list. *)
Lemma windows_concat l n k :
  (length l <= k * n)%nat ->
  concat ((fun i => take n (drop (i * n) l)) <$> seq 0 k) = l.
Proof.
  revert l. induction k as [|k IH]; intros l Hl; cbn [seq].
  - destruct l; [done|cbn in Hl; lia].
  - rewrite fmap_cons. cbn [concat]. rewrite Nat.mul_0_l, drop_0, <- fmap_S_seq, <- list_fmap_compose.
    transitivity (take n l ++ drop n l); [|apply take_drop]. f_equal.
    rewrite <- (IH (drop n l)).
    + f_equal. apply list_fmap_ext. intros i x _. cbn. rewrite drop_drop. do 2 f_equal; lia.
    + rewrite length_drop. lia.
Qed.
End arith.

(** ** Properties *)

(** The listing a caller sees does not depend on the iteration order of the
    Go map nor on the order an unstable sort gives: any slice that is a permutation
    of the stored records and sorted by [less] is the one [sort_Slice] computes,
    because ids are distinct and their text is injective. *)
Theorem listing_deterministic {A} (created : A -> time) (ident : A -> uuid) `{!UuidText}
    (l iterated out : list A) :
  NoDup (ident <$> l) -> iterated ≡ₚ l -> sorted_by_less created ident iterated out ->
  out = sort_Slice created ident l.
Proof.
  intros Hnd Hp Hout. symmetry.
  apply (sorted_by_less_unique created ident l _ _ iterated); [done|done| |done].
  apply sort_Slice_sorted.
Qed.

Lemma listing_deterministic_witness :
  let _ := bit_text in
  let l := [(3, 7%N); (1, 9%N); (3, 2%N)] in
  sort_Slice fst snd l = [(1, 9%N); (3, 7%N); (3, 2%N)] /\
  [(1, 9%N); (3, 7%N); (3, 2%N)] = sort_Slice fst snd l.
Proof.
  cbv zeta. split; [vm_compute; reflexivity|].
  apply (@listing_deterministic (Z * N) fst snd bit_text _ [(3, 7%N); (3, 2%N); (1, 9%N)]).
  - apply (bool_decide_unpack (NoDup (A:=N) [7; 9; 2]%N)). vm_compute. exact I.
  - constructor. apply perm_swap.
  - split; [apply (Permutation_app_comm [(1, 9%N)] [(3, 7%N); (3, 2%N)])|].
    repeat constructor.
Defined.

(** For a positive page size, the pages 1 .. total_pages are all served
    without a panic, none is longer than the page size, and together they are the
    whole sorted listing, without a gap or a repetition. *)
Theorem pages_partition {A} (l : list A) (pageSize : Z) :
  1 <= pageSize -> Z.of_nat (length l) + 2 * pageSize <= int64_max ->
  exists pages,
    Forall2 (fun page items => page_slice l page pageSize = Ok items)
      (seqZ 1 (guarded_pages (Z.of_nat (length l)) pageSize)) pages /\
    concat pages = l /\
    Forall (fun items => Z.of_nat (length items) <= pageSize) pages.
Proof.
  intros Hs Hmax. set (n := Z.of_nat (length l)).
  assert (Hgp : guarded_pages n pageSize = (n + pageSize - 1) / pageSize)
    by (apply guarded_pages_exact; lia).
  pose proof (Z.div_mod (n + pageSize - 1) pageSize ltac:(lia)) as Hdm.
  pose proof (Z.mod_pos_bound (n + pageSize - 1) pageSize ltac:(lia)) as Hm.
  set (k := (n + pageSize - 1) / pageSize) in *.
  assert (0 <= k) by (apply Z.div_pos; lia).
  exists ((fun i => take (Z.to_nat pageSize) (drop (i * Z.to_nat pageSize) l)) <$> seq 0 (Z.to_nat k)).
  repeat split.
  - rewrite Hgp. unfold seqZ. rewrite Forall2_fmap.
    apply Forall2_same_length_lookup_2; [done|]. intros i x y Hx Hy.
    apply lookup_seq in Hx as [-> Hi], Hy as [-> _]. cbn.
    rewrite page_slice_exact; [do 3 f_equal; nia|lia|].
    unfold page_in_range. repeat split; [lia..|]. nia.
  - apply windows_concat. nia.
  - apply Forall_fmap, Forall_forall. intros i _. cbn. rewrite length_take. lia.
Qed.

Lemma pages_partition_witness :
  1 <= 2 /\ exists pages,
    Forall2 (fun page items => page_slice [10; 20; 30] page 2 = Ok items) [1; 2] pages /\
    concat pages = [10; 20; 30] /\ Forall (fun items => Z.of_nat (length items) <= 2) pages.
Proof.
  split; [lia|]. apply (pages_partition [10; 20; 30] 2); unfold int64_max; cbn; lia.
Defined.

(** The offset product is computed in 64 bits after only [page]
    >= 1 and [page_size] <= 100 were checked, so a huge page number makes it
    negative and the slice expression panics, whatever is stored. *)
Theorem page_offset_overflow_panics {A} (l : list A) :
  page_slice l int64_max 20 = Panic "slice bounds out of range".
Proof.
  unfold page_slice, slice.
  assert (Hst : page_start (Z.of_nat (length l)) int64_max 20 = -40).
  { unfold page_start. replace (wrap64 (wrap64 (int64_max - 1) * 20)) with (-40) by reflexivity.
    cbv zeta. case_match; lia. }
  rewrite Hst. reflexivity.
Qed.
