(* ===== verification/Catalog.v ===== *)
(** Catalog: what the in-memory adapters of the customer, product and user packages
    share: a map of records under one mutex, searched and listed by ranging over it,
    with a text key meant to be unique; and the clock and id source of the services. *)
From S2P Require Import Prelude Errors Effects Uuid Pagination.

(** ** Clock and id source

    The sequences [time.Now] and [uuid.New] will return, with the number of calls
    already made.  The development assumes of [draws] only what a theorem states. *)
Record oracle := mkOracle {
  clock : nat -> time;
  draw : nat -> uuid;
  ticks : nat;
  drawn : nat;
}.

Definition tick (o : oracle) : time * oracle :=
  (clock o (ticks o), mkOracle (clock o) (draw o) (S (ticks o)) (drawn o)).

Definition fresh_id (o : oracle) : uuid * oracle :=
  (draw o (drawn o), mkOracle (clock o) (draw o) (ticks o) (S (drawn o))).

(** Ids are distinct and never nil. *)
Definition good_ids (o : oracle) : Prop :=
  (forall i j, draw o i = draw o j -> i = j) /\ forall i, draw o i <> uuid_Nil.

(** The ids in [s] were all drawn earlier. *)
Definition ids_drawn (s : gset uuid) (o : oracle) : Prop :=
  forall u, u ∈ s -> exists i, (i < drawn o)%nat /\ draw o i = u.

(** A concrete source: the ids 1, 2, 3, ... and a clock that counts calls. *)
Definition demo_oracle : oracle := mkOracle (fun n => Z.of_nat n) (fun n => N.of_nat (S n)) 0 0.

Lemma good_ids_demo : good_ids demo_oracle.
Proof. split; cbn; [intros i j; lia|intros i; unfold uuid_Nil; lia]. Qed.

Lemma good_ids_fresh_id o : good_ids o -> good_ids (fresh_id o).2.
Proof. done. Qed.
Lemma good_ids_tick o : good_ids o -> good_ids (tick o).2.
Proof. done. Qed.

Lemma fresh_id_new s o : good_ids o -> ids_drawn s o -> (fresh_id o).1 ∉ s.
Proof.
  intros [Hinj _] Hs Hin. destruct (Hs _ Hin) as (i & Hi & Hu). apply Hinj in Hu. lia.
Qed.

Lemma ids_drawn_tick s o : ids_drawn s o -> ids_drawn s (tick o).2.
Proof. done. Qed.

Lemma ids_drawn_fresh_id s o : ids_drawn s o -> ids_drawn ({[(fresh_id o).1]} ∪ s) (fresh_id o).2.
Proof.
  intros Hs u [->%elem_of_singleton|Hu]%elem_of_union.
  - exists (drawn o). split; [cbn; lia|done].
  - destruct (Hs u Hu) as (i & Hi & <-). exists i. split; [cbn; lia|done].
Qed.

#[export] Hint Resolve good_ids_demo good_ids_fresh_id good_ids_tick ids_drawn_tick
  ids_drawn_fresh_id : go_inv.

(** ** Tables *)
Section table.
Context {A : Type}.
Implicit Types (m : gmap uuid A) (P : A -> bool).

(** The values a [range] over the map visits, in one possible order. *)
Definition values m : list A := (map_to_list m).*2.

(** The first visited value that satisfies [P]. *)
Definition find_value P m : option A := head (base.filter (fun a => P a = true) (values m)).

Lemma elem_of_values m a : a ∈ values m <-> exists i, m !! i = Some a.
Proof.
  unfold values. rewrite list_elem_of_fmap. split.
  - intros ([i b] & -> & Hin). exists i. by apply elem_of_map_to_list.
  - intros [i Ha]. exists (i, a). split; [done|]. by apply elem_of_map_to_list.
Qed.

Lemma find_value_Some P m a : find_value P m = Some a -> P a = true /\ exists i, m !! i = Some a.
Proof.
  unfold find_value. intros Hh. apply head_Some_elem_of, list_elem_of_filter in Hh.
  by rewrite elem_of_values in Hh.
Qed.

Lemma find_value_None P m : find_value P m = None -> forall i a, m !! i = Some a -> P a = false.
Proof.
  unfold find_value. intros Hh%head_None i a Ha.
  destruct (P a) eqn:HP; [|done]. exfalso.
  assert (a ∈ base.filter (fun a => P a = true) (values m)) as Hin.
  { apply list_elem_of_filter. split; [done|]. apply elem_of_values. eauto. }
  rewrite Hh in Hin. by apply not_elem_of_nil in Hin.
Qed.

(** At most one record has a given key. *)
Definition unique_by {K} (key : A -> K) m : Prop :=
  forall i j a b, m !! i = Some a -> m !! j = Some b -> key a = key b -> i = j.

Lemma unique_by_empty {K} (key : A -> K) : unique_by key (∅ : gmap uuid A).
Proof. intros i j a b Ha. by rewrite lookup_empty in Ha. Qed.

Lemma unique_by_insert {K} (key : A -> K) m id a :
  unique_by key m ->
  (forall j b, m !! j = Some b -> key b = key a -> j = id) ->
  unique_by key (<[id := a]> m).
Proof.
  intros Hm Ha i j x y.
  destruct (decide (i = id)) as [->|Hi], (decide (j = id)) as [->|Hj];
    rewrite ?lookup_insert_eq, ?lookup_insert_ne by done; intros ?? Hk; simplify_eq; eauto.
  symmetry. eauto.
Qed.

(** With a unique key the search has one possible answer, whatever the order in
    which the map is ranged over. *)
Lemma find_value_unique {K} `{!EqDecision K} (key : A -> K) m k i a :
  unique_by key m -> m !! i = Some a -> key a = k ->
  find_value (fun b => bool_decide (key b = k)) m = Some a.
Proof.
  intros Hu Ha Hk. destruct (find_value _ m) as [b|] eqn:Hf.
  - apply find_value_Some in Hf as [Hb%bool_decide_eq_true [j Hj]].
    assert (i = j) as <- by (eapply Hu; eauto; congruence). congruence.
  - pose proof (find_value_None _ _ Hf _ _ Ha) as Hfa. cbn in Hfa. by rewrite bool_decide_eq_true_2 in Hfa.
Qed.

(** Records are kept under their id. *)
Definition keyed (ident : A -> uuid) m : Prop := map_Forall (fun i a => ident a = i) m.

Lemma keyed_nodup ident m : keyed ident m -> NoDup (ident <$> values m).
Proof.
  intros Hk. assert (ident <$> values m = (map_to_list m).*1) as ->.
  { unfold values. rewrite <- list_fmap_compose. apply list_fmap_ext. intros i [id a] Hi. cbn.
    apply (Hk id). apply elem_of_map_to_list. by apply list_elem_of_lookup_2 in Hi. }
  apply NoDup_fst_map_to_list.
Qed.
End table.

(** ** Tables with a unique text key *)
Section unique_table.
Context {A : Type} (ident : A -> uuid) (created : A -> time) (key : A -> string)
  (record_ok : uuid -> A -> Prop).
Implicit Types (m : gmap uuid A).

Record table_ok m : Prop := {
  ok_records : map_Forall record_ok m;
  ok_unique : unique_by key m;
}.

Definition taken (k : string) m : Prop := exists i a, m !! i = Some a /\ key a = k.

(** No record other than [id]'s has the key. *)
Definition free_for (id : uuid) (k : string) m : Prop :=
  forall i a, m !! i = Some a -> key a = k -> i = id.

#[export] Instance free_for_dec id k m : Decision (free_for id k m).
Proof.
  clear ident created record_ok.
  refine (cast_if (decide (map_Forall (fun i a => key a = k -> i = id) m))); unfold free_for; auto.
Defined.

Lemma not_free_for id k m : ~ free_for id k m -> exists i a, m !! i = Some a /\ key a = k /\ i <> id.
Proof.
  clear ident created record_ok. intros Hf. assert (~ map_Forall (fun i a => key a = k -> i = id) m) as Hn by done.
  apply map_not_Forall in Hn as (i & a & Ha & Hi); [|apply _].
  exists i, a. destruct (decide (key a = k)), (decide (i = id)); tauto.
Qed.

Lemma find_key_None k m : find_value (fun a => bool_decide (key a = k)) m = None <-> ~ taken k m.
Proof.
  split.
  - intros Hf (i & c & Hc & Hd). pose proof (find_value_None _ _ Hf _ _ Hc) as Hb. cbn in Hb.
    by apply bool_decide_eq_false in Hb.
  - intros Ht. destruct (find_value _ m) as [c|] eqn:Hf; [|done].
    apply find_value_Some in Hf as [Hd%bool_decide_eq_true [i Hc]]. destruct Ht. by exists i, c.
Qed.

Lemma find_key_Some k m a :
  find_value (fun a => bool_decide (key a = k)) m = Some a -> exists i, m !! i = Some a /\ key a = k.
Proof. intros [Hk%bool_decide_eq_true [i Ha]]%find_value_Some. eauto. Qed.

Lemma table_ok_empty : table_ok ∅.
Proof. constructor; [apply map_Forall_empty|apply unique_by_empty]. Qed.

Lemma table_ok_insert i a m :
  table_ok m -> record_ok i a -> free_for i (key a) m -> table_ok (<[i := a]> m).
Proof.
  intros [Hr Hu] Ha Hf. constructor; [by apply map_Forall_insert_2|].
  apply unique_by_insert; [done|]. eauto.
Qed.

(** The change does not touch the key. *)
Lemma table_ok_update i a b m :
  table_ok m -> m !! i = Some a -> key b = key a -> record_ok i b -> table_ok (<[i := b]> m).
Proof.
  intros Hm Ha Hk Hb. apply table_ok_insert; [done..|].
  intros j c Hc Hkc. eapply (ok_unique _ Hm); eauto. congruence.
Qed.

(** Nothing is removed, and identity and creation time are kept. *)
Definition keeps m m' : Prop :=
  forall i a, m !! i = Some a -> exists b, m' !! i = Some b /\ ident b = ident a /\ created b = created a.

#[export] Instance keeps_preorder : PreOrder keeps.
Proof.
  split; [by intros m i c Hc; eauto|]. intros m1 m2 m3 H12 H23 i c Hc.
  destruct (H12 _ _ Hc) as (c2 & Hc2 & ? & ?), (H23 _ _ Hc2) as (c3 & Hc3 & ? & ?).
  exists c3. split; [done|]. split; congruence.
Qed.

Lemma keeps_insert_new i c m : m !! i = None -> keeps m (<[i := c]> m).
Proof. intros Hn j c' Hc'. exists c'. rewrite lookup_insert_ne by congruence. done. Qed.

Lemma keeps_insert_same i c c' m :
  m !! i = Some c -> ident c' = ident c -> created c' = created c -> keeps m (<[i := c']> m).
Proof.
  intros Hc Hi Hcr j x Hx. destruct (decide (i = j)) as [<-|Hne].
  - exists c'. rewrite lookup_insert_eq. simplify_eq. done.
  - exists x. by rewrite lookup_insert_ne.
Qed.

(** A table with its id source: ids are good and those stored were drawn. *)
Definition sourced m (o : oracle) : Prop := table_ok m /\ good_ids o /\ ids_drawn (dom m) o.

(** What a use case may do to a table and its source. *)
Definition safe_step m m' (o' : oracle) : Prop := sourced m' o' /\ keeps m m'.

Lemma safe_refl m o : sourced m o -> safe_step m m o.
Proof. by split. Qed.

Lemma sourced_new m o : sourced m o -> m !! (fresh_id o).1 = None.
Proof. intros (_ & Hg & Hd). by apply not_elem_of_dom, fresh_id_new. Qed.

(** A record under a fresh id. *)
Lemma safe_add m o a :
  sourced m o -> record_ok (fresh_id o).1 a -> ~ taken (key a) m ->
  safe_step m (<[(fresh_id o).1 := a]> m) (fresh_id (tick o).2).2.
Proof.
  intros Hs Ha Ht. pose proof (sourced_new _ _ Hs) as Hnew. destruct Hs as (Hok & Hgood & Hdrawn).
  split; [|by apply keeps_insert_new]. split; [|split; [done|]].
  - apply table_ok_insert; [done|done|]. intros i c Hc Hk. destruct Ht. by exists i, c.
  - rewrite dom_insert_L. by apply (ids_drawn_fresh_id _ (tick o).2).
Qed.

(** A record replaced by one with the same identity. *)
Lemma safe_replace m o o' i a b :
  sourced m o -> m !! i = Some a -> ident b = ident a -> created b = created a ->
  record_ok i b -> free_for i (key b) m ->
  draw o' = draw o -> drawn o' = drawn o ->
  safe_step m (<[i := b]> m) o'.
Proof.
  intros (Hok & Hgood & Hdrawn) Ha Hid Hcr Hb Hf Hdraw Hn.
  split; [|by eapply keeps_insert_same]. split; [by apply table_ok_insert|].
  unfold good_ids, ids_drawn in *. rewrite Hdraw, Hn. split; [done|].
  rewrite dom_insert_lookup_L by eauto. done.
Qed.

Lemma free_for_own i a m : table_ok m -> m !! i = Some a -> free_for i (key a) m.
Proof. intros Hm Ha j b Hb Hk. by eapply (ok_unique _ Hm). Qed.
End unique_table.
Arguments ok_records {A key record_ok m} _.
Arguments ok_unique {A key record_ok m} _.

(** ** The listing of the customer and product adapters *)
Section listing.
Context {A : Type} (created : A -> time) (ident : A -> uuid) `{!UuidText}.
Implicit Types (m : gmap uuid A) (keep : A -> bool).

(** Filter, sort, count the pages (an unguarded division), slice. *)
Definition list_page keep (page pageSize : Z) m : res (Page A) :=
  let matched := sort_Slice created ident (base.filter (fun a => keep a = true) (values m)) in
  let total := Z.of_nat (length matched) in
  match ceil_pages total pageSize with
  | Ok pages =>
      match page_slice matched page pageSize with
      | Ok its => Ok (mkPage its page pageSize total pages)
      | Err e => Err e
      | Panic why => Panic why
      end
  | Err e => Err e
  | Panic why => Panic why
  end.

(** The page of the records that match, in creation order, ties by id text. *)
Lemma list_page_exact keep page pageSize m sorted :
  keyed ident m -> page_in_range page pageSize ->
  Z.of_nat (size m) + pageSize <= int64_max ->
  StronglySorted (ordered created ident) sorted -> NoDup (ident <$> sorted) ->
  (forall a, a ∈ sorted <-> (exists i, m !! i = Some a) /\ keep a = true) ->
  list_page keep page pageSize m =
    Ok (mkPage (take (Z.to_nat pageSize) (drop (Z.to_nat ((page - 1) * pageSize)) sorted))
          page pageSize (Z.of_nat (length sorted))
          ((Z.of_nat (length sorted) + pageSize - 1) / pageSize)).
Proof.
  intros Hk Hp Hsize Hsorted Hnd Hiff.
  set (l := base.filter (fun a => keep a = true) (values m)).
  assert (Hndl : NoDup (ident <$> l)) by by apply NoDup_fmap_filter, keyed_nodup.
  assert (Hperm : sorted ≡ₚ l).
  { apply NoDup_Permutation; [by eapply NoDup_fmap_1|by eapply NoDup_fmap_1|].
    intros a. rewrite Hiff. unfold l. rewrite list_elem_of_filter, elem_of_values. tauto. }
  assert (Heq : sort_Slice created ident l = sorted).
  { apply (sorted_by_less_unique created ident l _ _ l); [done|done| |by split].
    apply sort_Slice_sorted. }
  assert (Hlen : (length sorted <= size m)%nat).
  { rewrite Hperm. unfold l, values. etrans; [apply length_filter|].
    by rewrite length_fmap, length_map_to_list. }
  destruct Hp as (Hp1 & Hp2 & Hp3).
  unfold list_page. fold l. rewrite Heq, ceil_pages_guarded by done.
  rewrite page_slice_exact; [|lia|by split].
  by rewrite guarded_pages_exact by lia.
Qed.

(** It panics, instead of answering, on a page size of zero. *)
Lemma list_page_zero keep page m : list_page keep page 0 m = Panic "integer divide by zero".
Proof. done. Qed.

End listing.
