(* ===== verification/Customer.v ===== *)
(** Customer: the package internal/customer: data model, DTOs, the repository port
    with its in-memory adapter, and the service (BR-CUS-001, 002, 004). *)
From S2P Require Import Prelude Errors Effects GoStrings Uuid Pagination Catalog.

Module customer.

(** ** Data (model.go, dto.go) *)
Record Customer := mkCustomer {
  ID : uuid;
  Name : string;
  Document : string;
  Email : string;
  Phone : string;
  Active : bool;
  CreatedAt : time;
  UpdatedAt : time;
}.

Record CreateCustomerInput := mkCreateInput {
  ci_Name : string; ci_Document : string; ci_Email : string; ci_Phone : string;
}.

Record UpdateCustomerInput := mkUpdateInput {
  ui_Name : string; ui_Document : string; ui_Email : string; ui_Phone : string;
}.

Record CustomerOutput := mkOutput {
  co_ID : uuid; co_Name : string; co_Document : string; co_Email : string; co_Phone : string;
  co_Active : bool; co_CreatedAt : time; co_UpdatedAt : time;
}.

Record CustomerFilter := mkFilter {
  cf_Name : string;
  cf_Document : string;
  cf_Active : option bool;
  cf_Page : Z;
  cf_PageSize : Z;
}.

Definition toOutput (c : Customer) : CustomerOutput :=
  mkOutput (ID c) (Name c) (Document c) (Email c) (Phone c) (Active c) (CreatedAt c) (UpdatedAt c).

Definition set_Active (b : bool) (c : Customer) : Customer :=
  mkCustomer (ID c) (Name c) (Document c) (Email c) (Phone c) b (CreatedAt c) (UpdatedAt c).

(** ** The repository port and the ports of the service *)
Inductive repoE : Type -> Type :=
| RCreate (c : Customer) : repoE (res unit)
| RUpdate (c : Customer) : repoE (res unit)
| RDeactivate (id : uuid) : repoE (res unit)
| RFindByID (id : uuid) : repoE (res Customer)
| RFindByDocument (document : string) : repoE (res Customer)
| RList (filter : CustomerFilter) : repoE (res (Page Customer)).

Inductive customerE : Type -> Type :=
| Repo {X : Type} (e : repoE X) : customerE X
| Now : customerE time
| NewUUID : customerE uuid.

Abbreviation customer_prog := (prog customerE) (only parsing).

Definition ErrNotFound : error := ErrVar CustomerErrNotFound.

(** ** In-memory adapter (repository.go) *)
Definition mem_Create (c : Customer) (m : gmap uuid Customer) : res unit * gmap uuid Customer :=
  (Ok tt, <[ID c := c]> m).

Definition mem_Update (c : Customer) (m : gmap uuid Customer) : res unit * gmap uuid Customer :=
  match m !! ID c with
  | None => (Err ErrNotFound, m)
  | Some _ => (Ok tt, <[ID c := c]> m)
  end.

Definition mem_Deactivate (id : uuid) (m : gmap uuid Customer) : res unit * gmap uuid Customer :=
  match m !! id with
  | None => (Err ErrNotFound, m)
  | Some c => (Ok tt, <[id := set_Active false c]> m)
  end.

Definition mem_FindByID (id : uuid) (m : gmap uuid Customer) : res Customer :=
  match m !! id with Some c => Ok c | None => Err ErrNotFound end.

Definition mem_FindByDocument (document : string) (m : gmap uuid Customer) : res Customer :=
  match find_value (fun c => bool_decide (Document c = document)) m with
  | Some c => Ok c
  | None => Err ErrNotFound
  end.

Section listing.
Context `{!UuidText, !CaseTables}.

Definition matches (c : Customer) (filter : CustomerFilter) : bool :=
  if negb (bool_decide (cf_Name filter = "")) && negb (Contains (ToLower (Name c)) (ToLower (cf_Name filter)))
  then false
  else if negb (bool_decide (cf_Document filter = ""))
          && negb (Contains (ToLower (Document c)) (ToLower (cf_Document filter)))
  then false
  else match cf_Active filter with
       | Some b => bool_decide (Active c = b)
       | None => true
       end.

Definition mem_List (filter : CustomerFilter) (m : gmap uuid Customer) : res (Page Customer) :=
  list_page CreatedAt ID (fun c => matches c filter) (cf_Page filter) (cf_PageSize filter) m.

Definition mem_handle {X} (e : repoE X) (m : gmap uuid Customer) : X * gmap uuid Customer :=
  match e in repoE X return X * gmap uuid Customer with
  | RCreate c => mem_Create c m
  | RUpdate c => mem_Update c m
  | RDeactivate id => mem_Deactivate id m
  | RFindByID id => (mem_FindByID id m, m)
  | RFindByDocument d => (mem_FindByDocument d m, m)
  | RList f => (mem_List f m, m)
  end.
End listing.

(** ** Service (service.go) *)
Definition DefaultPageSize : Z := 20.
Definition MaxPageSize : Z := 100.

Definition mapRepoErr (err : error) : error :=
  if errors_Is err CustomerErrNotFound then NotFound "customer not found"
  else Internal "repository error" err.

Definition ensureDocumentUnique (document : string) (excludeID : uuid) : customer_prog (res unit) :=
  existing <- call (Repo (RFindByDocument document)) ;;
  Ret match existing with
      | Err err => if errors_Is err CustomerErrNotFound then Ok tt
                   else Err (Internal "could not verify document uniqueness" err)
      | Panic why => Panic why
      | Ok c => if negb (bool_decide (ID c = excludeID))
                then Err (Duplicate "a customer with this document already exists")
                else Ok tt
      end.

Definition Create (input : CreateCustomerInput) : customer_prog (res CustomerOutput) :=
  let name := TrimSpace (ci_Name input) in
  if bool_decide (name = "") then Ret (Err (Validation "customer name is required"))
  else
    let document := TrimSpace (ci_Document input) in
    if bool_decide (document = "") then Ret (Err (Validation "customer document is required"))
    else
      _ <-! ensureDocumentUnique document uuid_Nil ;;
      now <- call Now ;;
      id <- call NewUUID ;;
      let c := mkCustomer id name document (TrimSpace (ci_Email input)) (TrimSpace (ci_Phone input))
                 true now now in
      _ <-! call (Repo (RCreate c)) catch (fun err => Err (Internal "could not create customer" err)) ;;
      Ret (Ok (toOutput c)).

Definition Update (id : uuid) (input : UpdateCustomerInput) : customer_prog (res CustomerOutput) :=
  existing <-! call (Repo (RFindByID id)) catch (fun err => Err (mapRepoErr err)) ;;
  let name := TrimSpace (ui_Name input) in
  if bool_decide (name = "") then Ret (Err (Validation "customer name is required"))
  else
    let document := TrimSpace (ui_Document input) in
    if bool_decide (document = "") then Ret (Err (Validation "customer document is required"))
    else
      _ <-! (if bool_decide (document = Document existing) then Ret (Ok tt)
             else ensureDocumentUnique document id) ;;
      now <- call Now ;;
      let c := mkCustomer (ID existing) name document (TrimSpace (ui_Email input))
                 (TrimSpace (ui_Phone input)) (Active existing) (CreatedAt existing) now in
      _ <-! call (Repo (RUpdate c)) catch (fun err => Err (mapRepoErr err)) ;;
      Ret (Ok (toOutput c)).

Definition Deactivate (id : uuid) : customer_prog (res unit) :=
  _ <-! call (Repo (RDeactivate id)) catch (fun err => Err (mapRepoErr err)) ;;
  Ret (Ok tt).

Definition FindByID (id : uuid) : customer_prog (res CustomerOutput) :=
  c <-! call (Repo (RFindByID id)) catch (fun err => Err (mapRepoErr err)) ;;
  Ret (Ok (toOutput c)).

Definition with_defaults (filter : CustomerFilter) : CustomerFilter :=
  mkFilter (cf_Name filter) (cf_Document filter) (cf_Active filter)
    (if cf_Page filter =? 0 then 1 else cf_Page filter)
    (if cf_PageSize filter =? 0 then DefaultPageSize else cf_PageSize filter).

Definition List (filter : CustomerFilter) : customer_prog (res (Page CustomerOutput)) :=
  let filter := with_defaults filter in
  if cf_Page filter <? 1 then Ret (Err (Validation "page must be greater than zero"))
  else if cf_PageSize filter <? 1 then Ret (Err (Validation "page_size must be greater than zero"))
  else if MaxPageSize <? cf_PageSize filter then
    Ret (Err (Validation "page_size exceeds the maximum of 100"))
  else
    page <-! call (Repo (RList filter)) catch (fun err => Err (Internal "could not list customers" err)) ;;
    Ret (Ok (page_map toOutput page)).

(** ** The service over the in-memory adapter *)
Record world := mkWorld { table : gmap uuid Customer; source : oracle }.

#[export] Instance mem_handler `{!UuidText, !CaseTables} : Handler customerE world :=
  fun X e =>
  match e in customerE X return world -> X * world with
  | Repo r => fun w => let '(x, m) := mem_handle r (table w) in (x, mkWorld m (source w))
  | Now => fun w => let '(t, o) := tick (source w) in (t, mkWorld (table w) o)
  | NewUUID => fun w => let '(u, o) := fresh_id (source w) in (u, mkWorld (table w) o)
  end.

(** ** Invariant: BR-CUS-001, BR-CUS-002 and the key of each record *)
Definition record_ok (i : uuid) (c : Customer) : Prop :=
  ID c = i /\ i <> uuid_Nil /\ Name c <> "" /\ Document c <> "".

Definition world_ok (w : world) : Prop := sourced Document record_ok (table w) (source w).

(** What one use case may do: see [Catalog.safe_step]. *)
Definition safe (w w' : world) : Prop :=
  safe_step ID CreatedAt Document record_ok (table w) (table w') (source w').

Section service.
Context `{!UuidText, !CaseTables}.

(** The uniqueness check on a sound table: only another record is a conflict. *)
Lemma run_ensure d ex w :
  run (ensureDocumentUnique d ex) w =
  (match find_value (fun c => bool_decide (Document c = d)) (table w) with
   | Some c => if bool_decide (ID c = ex) then Ok tt
               else Err (Duplicate "a customer with this document already exists")
   | None => Ok tt
   end, w).
Proof.
  unfold ensureDocumentUnique. rewrite run_bind, run_call. destruct w as [m o]. cbn.
  unfold mem_FindByDocument. destruct (find_value _ m) as [c|]; cbn; [|done].
  by case_bool_decide.
Qed.

Lemma run_ensure_free d ex w : ~ taken Document d (table w) -> run (ensureDocumentUnique d ex) w = (Ok tt, w).
Proof. intros Ht%find_key_None. by rewrite run_ensure, Ht. Qed.

Lemma run_ensure_conflict d ex w i c :
  table_ok Document record_ok (table w) -> table w !! i = Some c -> Document c = d -> i <> ex ->
  run (ensureDocumentUnique d ex) w =
  (Err (Duplicate "a customer with this document already exists"), w).
Proof.
  intros Hok Hc Hd Hne. rewrite run_ensure, (find_value_unique Document _ d i c) by (done || apply Hok).
  destruct (ok_records Hok _ _ Hc) as (-> & _). by rewrite bool_decide_eq_false_2.
Qed.

(** The record [Create] stores. *)
Definition new_record (input : CreateCustomerInput) (o : oracle) : Customer :=
  let now := (tick o).1 in
  mkCustomer (fresh_id o).1 (TrimSpace (ci_Name input)) (TrimSpace (ci_Document input))
    (TrimSpace (ci_Email input)) (TrimSpace (ci_Phone input)) true now now.

Lemma run_Create_ok input w :
  TrimSpace (ci_Name input) <> "" -> TrimSpace (ci_Document input) <> "" ->
  ~ taken Document (TrimSpace (ci_Document input)) (table w) ->
  run (Create input) w =
  (Ok (toOutput (new_record input (source w))),
   mkWorld (<[(fresh_id (source w)).1 := new_record input (source w)]> (table w))
     (fresh_id (tick (source w)).2).2).
Proof.
  intros Hn Hd Ht. unfold Create. rewrite !bool_decide_eq_false_2 by done.
  rewrite run_bind_res, run_ensure_free by done. by destruct w as [m o].
Qed.

Lemma run_Create_taken input w i c :
  world_ok w -> TrimSpace (ci_Name input) <> "" ->
  table w !! i = Some c -> Document c = TrimSpace (ci_Document input) ->
  run (Create input) w = (Err (Duplicate "a customer with this document already exists"), w).
Proof.
  intros (Hok & _ & _) Hn Hc Hd. unfold Create.
  destruct (ok_records Hok _ _ Hc) as (_ & Hi & _ & Hne).
  rewrite !bool_decide_eq_false_2 by congruence.
  by rewrite run_bind_res, (run_ensure_conflict _ _ _ i c).
Qed.

Lemma run_find id w c :
  table w !! id = Some c -> run (call (Repo (RFindByID id))) w = (Ok c, w).
Proof. intros Hc. destruct w as [m o]. cbn in *. unfold mem_FindByID. by rewrite Hc. Qed.

Lemma run_find_missing id w :
  table w !! id = None -> run (call (Repo (RFindByID id))) w = (Err ErrNotFound, w).
Proof. intros Hc. destruct w as [m o]. cbn in *. unfold mem_FindByID. by rewrite Hc. Qed.

(** The record [Update] stores. *)
Definition updated (input : UpdateCustomerInput) (now : time) (c : Customer) : Customer :=
  mkCustomer (ID c) (TrimSpace (ui_Name input)) (TrimSpace (ui_Document input))
    (TrimSpace (ui_Email input)) (TrimSpace (ui_Phone input)) (Active c) (CreatedAt c) now.

Lemma run_Update_ok id input w c :
  world_ok w -> table w !! id = Some c ->
  TrimSpace (ui_Name input) <> "" -> TrimSpace (ui_Document input) <> "" ->
  free_for Document id (TrimSpace (ui_Document input)) (table w) ->
  run (Update id input) w =
  (Ok (toOutput (updated input (tick (source w)).1 c)),
   mkWorld (<[id := updated input (tick (source w)).1 c]> (table w)) (tick (source w)).2).
Proof.
  intros (Hok & _ & _) Hc Hn Hd Hfree. unfold Update. rewrite run_bind_err, (run_find _ _ c) by done.
  rewrite !(bool_decide_eq_false_2 (TrimSpace _ = "")) by done.
  destruct (ok_records Hok _ _ Hc) as (Hid & _).
  assert (Hens : run (if bool_decide (TrimSpace (ui_Document input) = Document c) then Ret (Ok tt)
                      else ensureDocumentUnique (TrimSpace (ui_Document input)) id) w = (Ok tt, w)).
  { case_bool_decide as Heq; [done|]. apply run_ensure_free. intros (i & c' & Hc' & Hd').
    pose proof (Hfree _ _ Hc' Hd') as ->. congruence. }
  rewrite run_bind_res, Hens. unfold updated. rewrite Hid.
  destruct w as [m o]. cbn in *. unfold mem_Update. cbn. by rewrite Hc.
Qed.

Lemma run_Update_conflict id input w c i c' :
  world_ok w -> table w !! id = Some c -> TrimSpace (ui_Name input) <> "" ->
  table w !! i = Some c' -> Document c' = TrimSpace (ui_Document input) -> i <> id ->
  run (Update id input) w = (Err (Duplicate "a customer with this document already exists"), w).
Proof.
  intros (Hok & _ & _) Hc Hn Hc' Hd Hne. unfold Update. rewrite run_bind_err, (run_find _ _ c) by done.
  destruct (ok_records Hok _ _ Hc') as (_ & _ & _ & Hne').
  rewrite !(bool_decide_eq_false_2 (TrimSpace _ = "")) by congruence.
  rewrite bool_decide_eq_false_2 by (intros Heq; apply Hne; eapply (ok_unique Hok); eauto; congruence).
  by rewrite run_bind_res, (run_ensure_conflict _ _ _ i c').
Qed.

(** ** The use cases, their results forgotten *)
Inductive request :=
| QCreate (input : CreateCustomerInput)
| QUpdate (id : uuid) (input : UpdateCustomerInput)
| QDeactivate (id : uuid)
| QFind (id : uuid)
| QList (filter : CustomerFilter).

Definition forget {A} (p : customer_prog (res A)) : customer_prog unit := bind p (fun _ => Ret tt).

Definition serve (r : request) : customer_prog unit :=
  match r with
  | QCreate input => forget (Create input)
  | QUpdate id input => forget (Update id input)
  | QDeactivate id => forget (Deactivate id)
  | QFind id => forget (FindByID id)
  | QList f => forget (List f)
  end.

Lemma run_forget {A} (p : customer_prog (res A)) w : (run (forget p) w).2 = (run p w).2.
Proof. unfold forget. rewrite run_bind. by destruct (run p w). Qed.

Lemma safe_same w : world_ok w -> safe w w.
Proof. apply safe_refl. Qed.

Lemma safe_Create input w : world_ok w -> safe w (run (Create input) w).2.
Proof.
  intros Hw. destruct (decide (TrimSpace (ci_Name input) = "")) as [Hn|Hn].
  { unfold Create. rewrite bool_decide_eq_true_2 by done. by apply safe_same. }
  destruct (decide (TrimSpace (ci_Document input) = "")) as [Hd|Hd].
  { unfold Create. rewrite bool_decide_eq_false_2, bool_decide_eq_true_2 by done. by apply safe_same. }
  destruct (find_value (fun c => bool_decide (Document c = TrimSpace (ci_Document input))) (table w))
    as [c|] eqn:Hf.
  { apply find_key_Some in Hf as (i & Hc & Hdc).
    rewrite (run_Create_taken _ _ i c) by done. by apply safe_same. }
  apply find_key_None in Hf. rewrite run_Create_ok by done.
  apply safe_add; [done| |done]. repeat split; [apply Hw|done..].
Qed.

Lemma safe_Update id input w : world_ok w -> safe w (run (Update id input) w).2.
Proof.
  intros Hw. destruct (table w !! id) as [c|] eqn:Hc.
  2: { unfold Update. rewrite run_bind_err, run_find_missing by done. by apply safe_same. }
  destruct (decide (TrimSpace (ui_Name input) = "")) as [Hn|Hn].
  { unfold Update. rewrite run_bind_err, (run_find _ _ c), bool_decide_eq_true_2 by done.
    by apply safe_same. }
  destruct (decide (TrimSpace (ui_Document input) = "")) as [Hd|Hd].
  { unfold Update. rewrite run_bind_err, (run_find _ _ c), bool_decide_eq_false_2,
      bool_decide_eq_true_2 by done. by apply safe_same. }
  destruct (decide (free_for Document id (TrimSpace (ui_Document input)) (table w))) as [Hfree|Hconf].
  2: { apply not_free_for in Hconf as (i & c' & Hc' & Hdoc & Hi).
       rewrite (run_Update_conflict id input w c i c') by done. by apply safe_same. }
  rewrite (run_Update_ok _ _ _ c) by done.
  destruct (ok_records (proj1 Hw) _ _ Hc) as (Hid & Hnil & _).
  by apply (safe_replace ID CreatedAt Document record_ok (table w) (source w) _ id c).
Qed.

Lemma safe_Deactivate id w : world_ok w -> safe w (run (Deactivate id) w).2.
Proof.
  intros Hw. destruct w as [m o]. unfold Deactivate. cbn. unfold mem_Deactivate.
  destruct (m !! id) as [c|] eqn:Hc; cbn; [|by apply safe_same].
  apply (safe_replace ID CreatedAt Document record_ok m o _ id c); try done.
  - exact (ok_records (proj1 Hw) _ _ Hc).
  - exact (free_for_own Document record_ok id c m (proj1 Hw) Hc).
Qed.

Lemma safe_FindByID id w : world_ok w -> safe w (run (FindByID id) w).2.
Proof. intros Hw. destruct w as [m o]. cbn. by destruct (mem_FindByID id m); cbn; apply safe_same. Qed.

Lemma safe_List f w : world_ok w -> safe w (run (List f) w).2.
Proof.
  intros Hw. unfold List. repeat (case_match; [by apply safe_same|]).
  destruct w as [m o]. cbn. by destruct (mem_List _ m); cbn; apply safe_same.
Qed.

Lemma safe_serve r w : world_ok w -> safe w (run (serve r) w).2.
Proof.
  destruct r; cbn [serve]; rewrite run_forget;
    eauto using safe_Create, safe_Update, safe_Deactivate, safe_FindByID, safe_List.
Qed.

(** Any number of requests, one after the other. *)
Definition serve_all (rs : list request) : customer_prog unit :=
  foldr (fun r p => serve r ;;; p) (Ret tt) rs.
End service.

Definition empty_world : world := mkWorld ∅ demo_oracle.

Lemma empty_world_ok : world_ok empty_world.
Proof. split; [apply table_ok_empty|]. split; [apply good_ids_demo|by intros u Hu]. Qed.

(** ** Properties *)

(** Under any sequence of creations, updates, deactivations and reads,
    served one after the other, every customer keeps a non-blank name, no two
    customers have the same document (BR-CUS-001, BR-CUS-002), each record stays
    under its id, and no record ever disappears (BR-CUS-004). *)
Theorem requests_keep_customers `{!UuidText, !CaseTables} (rs : list request) (w : world) :
  world_ok w ->
  let w' := (run (serve_all rs) w).2 in
  world_ok w' /\ keeps ID CreatedAt (table w) (table w').
Proof.
  cbv zeta. revert w. induction rs as [|r rs IH]; intros w Hw; [by apply safe_refl|].
  cbn [serve_all foldr]. rewrite run_bind. destruct (run (serve r) w) as [u w1] eqn:Hr.
  pose proof (safe_serve r w Hw) as [Hok1 Hk1]. rewrite Hr in Hok1, Hk1. cbn in *.
  destruct (IH w1 Hok1) as [Hok2 Hk2]. split; [done|by etrans].
Qed.

Definition ann : CreateCustomerInput := mkCreateInput " Ann " "123" "ann@x" "".

Lemma requests_keep_customers_witness :
  let _ := bit_text in let _ := no_tables in
  let w' := (run (serve_all [QCreate ann; QCreate ann; QDeactivate 1]) empty_world).2 in
  world_ok w' /\ keeps ID CreatedAt ∅ (table w') /\ size (table w') = 1%nat.
Proof.
  cbv zeta.
  destruct (@requests_keep_customers bit_text no_tables
              [QCreate ann; QCreate ann; QDeactivate 1] empty_world empty_world_ok) as [H1 H2].
  split; [exact H1|]. split; [exact H2|]. vm_compute. reflexivity.
Defined.

(** [Create], on every branch: a blank name or document is a
    validation error, a document some customer has is a duplicate, and neither
    changes anything; otherwise exactly one active record with the trimmed fields,
    a fresh id and the current time is added and returned. *)
Theorem Create_branches `{!UuidText, !CaseTables} (input : CreateCustomerInput) (w : world) :
  world_ok w ->
  let name := TrimSpace (ci_Name input) in
  let document := TrimSpace (ci_Document input) in
  (name = "" -> run (Create input) w = (Err (Validation "customer name is required"), w)) /\
  (name <> "" -> document = "" ->
   run (Create input) w = (Err (Validation "customer document is required"), w)) /\
  (name <> "" -> document <> "" -> taken Document document (table w) ->
   run (Create input) w = (Err (Duplicate "a customer with this document already exists"), w)) /\
  (name <> "" -> document <> "" -> ~ taken Document document (table w) ->
   exists c, table w !! ID c = None /\
     run (Create input) w =
       (Ok (toOutput c), mkWorld (<[ID c := c]> (table w)) (fresh_id (tick (source w)).2).2) /\
     c = mkCustomer (ID c) name document (TrimSpace (ci_Email input)) (TrimSpace (ci_Phone input))
           true (clock (source w) (ticks (source w))) (clock (source w) (ticks (source w)))).
Proof.
  intros Hw. cbv zeta. split; [|split; [|split]].
  - intros Hn. unfold Create. by rewrite bool_decide_eq_true_2.
  - intros Hn Hd. unfold Create. by rewrite bool_decide_eq_false_2, bool_decide_eq_true_2.
  - intros Hn Hd (i & c & Hc & Hdc). by apply (run_Create_taken _ _ i c).
  - intros Hn Hd Ht. exists (new_record input (source w)).
    split; [|by rewrite run_Create_ok]. by eapply sourced_new.
Qed.

Lemma Create_branches_witness :
  let _ := bit_text in let _ := no_tables in
  world_ok empty_world /\
  run (Create (mkCreateInput "  " "1" "" "")) empty_world =
    (Err (Validation "customer name is required"), empty_world).
Proof.
  cbv zeta. split; [exact empty_world_ok|].
  apply (@Create_branches bit_text no_tables (mkCreateInput "  " "1" "" "") empty_world empty_world_ok).
  reflexivity.
Defined.

(** The uniqueness check and the insertion are two repository calls, so
    two concurrent creations with the same document can both pass the check: the
    in-memory adapter ends with two customers sharing it (only the database's unique
    index rules this out). *)
Theorem concurrent_creates_share_document :
  exists (p1 p2 : customer_prog unit) (w' : world),
    @pool_steps customerE world (sem_of_handler (@mem_handler bit_text no_tables)) unit
      ([serve (QCreate ann); serve (QCreate ann)], empty_world) ([p1; p2], w') /\
    p1 = Ret tt /\ p2 = Ret tt /\
    exists c1 c2, table w' !! 1%N = Some c1 /\ table w' !! 2%N = Some c2 /\
                  Document c1 = "123" /\ Document c2 = "123".
Proof.
  pose proof (run_schedule_steps (@mem_handler bit_text no_tables)
    [0; 1; 0; 0; 0; 1; 1; 1]%nat [serve (QCreate ann); serve (QCreate ann)] empty_world) as Hrun.
  eexists _, _, _. split; [exact Hrun|]. split; [reflexivity|]. split; [reflexivity|].
  eexists _, _. repeat split; vm_compute; reflexivity.
Qed.

(** An update writes back the whole record it read, so over the in-memory adapter one
    that runs while the customer is deactivated undoes the deactivation; the UPDATE
    statement of the PostgreSQL adapter does not name [active]. *)
Theorem concurrent_update_reactivates_customer :
  let w := (run (Handler0 := @mem_handler bit_text no_tables) (serve (QCreate ann)) empty_world).2 in
  exists (p1 p2 : customer_prog unit) (w' : world),
    @pool_steps customerE world (sem_of_handler (@mem_handler bit_text no_tables)) unit
      ([serve (QUpdate 1 (mkUpdateInput "Ann" "123" "" "")); serve (QDeactivate 1)], w) ([p1; p2], w') /\
    p1 = Ret tt /\ p2 = Ret tt /\ Active <$> table w' !! 1%N = Some true.
Proof.
  cbv zeta.
  pose proof (run_schedule_steps (@mem_handler bit_text no_tables) [0; 1; 0; 0; 0]%nat
    [serve (QUpdate 1 (mkUpdateInput "Ann" "123" "" "")); serve (QDeactivate 1)]
    (run (Handler0 := @mem_handler bit_text no_tables) (serve (QCreate ann)) empty_world).2) as Hrun.
  eexists _, _, _. split; [exact Hrun|]. repeat split; vm_compute; reflexivity.
Qed.

End customer.
