(* ===== verification/Product.v ===== *)
(** Product: the package internal/product: data model, DTOs, the repository port
    with its in-memory adapter, and the service (BR-PRD-001, 002, 003). *)
From S2P Require Import Prelude Errors Effects GoStrings Money Uuid Pagination Catalog.

Module product.

(** ** Data (model.go, dto.go) *)
Record Product := mkProduct {
  ID : uuid;
  Name : string;
  SKU : string;
  Price : Money;
  Active : bool;
  CreatedAt : time;
  UpdatedAt : time;
}.

Record CreateProductInput := mkCreateInput {
  pi_Name : string; pi_SKU : string; pi_Price : Money;
}.

Record UpdateProductInput := mkUpdateInput {
  pu_Name : string; pu_SKU : string; pu_Price : Money;
}.

Record ProductOutput := mkOutput {
  po_ID : uuid; po_Name : string; po_SKU : string; po_Price : Money;
  po_Active : bool; po_CreatedAt : time; po_UpdatedAt : time;
}.

Record ProductFilter := mkFilter {
  pf_Name : string;
  pf_SKU : string;
  pf_Active : option bool;
  pf_Page : Z;
  pf_PageSize : Z;
}.

Definition toOutput (c : Product) : ProductOutput :=
  mkOutput (ID c) (Name c) (SKU c) (Price c) (Active c) (CreatedAt c) (UpdatedAt c).

Definition set_Active (b : bool) (c : Product) : Product :=
  mkProduct (ID c) (Name c) (SKU c) (Price c) b (CreatedAt c) (UpdatedAt c).

(** ** The repository port and the ports of the service *)
Inductive repoE : Type -> Type :=
| RCreate (c : Product) : repoE (res unit)
| RUpdate (c : Product) : repoE (res unit)
| RDeactivate (id : uuid) : repoE (res unit)
| RFindByID (id : uuid) : repoE (res Product)
| RFindBySKU (sku : string) : repoE (res Product)
| RFindManyByID (ids : list uuid) : repoE (res (list Product))
| RList (filter : ProductFilter) : repoE (res (Page Product)).

Inductive productE : Type -> Type :=
| Repo {X : Type} (e : repoE X) : productE X
| Now : productE time
| NewUUID : productE uuid.

Abbreviation product_prog := (prog productE) (only parsing).

Definition ErrNotFound : error := ErrVar ProductErrNotFound.

(** ** In-memory adapter (repository.go) *)
Definition mem_Create (c : Product) (m : gmap uuid Product) : res unit * gmap uuid Product :=
  (Ok tt, <[ID c := c]> m).

Definition mem_Update (c : Product) (m : gmap uuid Product) : res unit * gmap uuid Product :=
  match m !! ID c with
  | None => (Err ErrNotFound, m)
  | Some _ => (Ok tt, <[ID c := c]> m)
  end.

Definition mem_Deactivate (id : uuid) (m : gmap uuid Product) : res unit * gmap uuid Product :=
  match m !! id with
  | None => (Err ErrNotFound, m)
  | Some c => (Ok tt, <[id := set_Active false c]> m)
  end.

Definition mem_FindByID (id : uuid) (m : gmap uuid Product) : res Product :=
  match m !! id with Some c => Ok c | None => Err ErrNotFound end.

Definition mem_FindBySKU (sku : string) (m : gmap uuid Product) : res Product :=
  match find_value (fun c => bool_decide (SKU c = sku)) m with
  | Some c => Ok c
  | None => Err ErrNotFound
  end.

(** Missing ids are skipped, the order and repetitions of [ids] are kept. *)
Definition mem_FindManyByID (ids : list uuid) (m : gmap uuid Product) : res (list Product) :=
  Ok (omap (fun id => m !! id) ids).

Section listing.
Context `{!UuidText, !CaseTables}.

Definition matches (c : Product) (filter : ProductFilter) : bool :=
  if negb (bool_decide (pf_Name filter = "")) && negb (Contains (ToLower (Name c)) (ToLower (pf_Name filter)))
  then false
  else if negb (bool_decide (pf_SKU filter = ""))
          && negb (Contains (ToLower (SKU c)) (ToLower (pf_SKU filter)))
  then false
  else match pf_Active filter with
       | Some b => bool_decide (Active c = b)
       | None => true
       end.

Definition mem_List (filter : ProductFilter) (m : gmap uuid Product) : res (Page Product) :=
  list_page CreatedAt ID (fun c => matches c filter) (pf_Page filter) (pf_PageSize filter) m.

Definition mem_handle {X} (e : repoE X) (m : gmap uuid Product) : X * gmap uuid Product :=
  match e in repoE X return X * gmap uuid Product with
  | RCreate c => mem_Create c m
  | RUpdate c => mem_Update c m
  | RDeactivate id => mem_Deactivate id m
  | RFindByID id => (mem_FindByID id m, m)
  | RFindBySKU d => (mem_FindBySKU d m, m)
  | RFindManyByID ids => (mem_FindManyByID ids m, m)
  | RList f => (mem_List f m, m)
  end.
End listing.

(** ** Service (service.go) *)
Definition DefaultPageSize : Z := 20.
Definition MaxPageSize : Z := 100.

Definition mapRepoErr (err : error) : error :=
  if errors_Is err ProductErrNotFound then NotFound "product not found"
  else Internal "repository error" err.

Definition ensureSKUUnique (sku : string) (excludeID : uuid) : product_prog (res unit) :=
  existing <- call (Repo (RFindBySKU sku)) ;;
  Ret match existing with
      | Err err => if errors_Is err ProductErrNotFound then Ok tt
                   else Err (Internal "could not verify sku uniqueness" err)
      | Panic why => Panic why
      | Ok c => if negb (bool_decide (ID c = excludeID))
                then Err (Duplicate "a product with this sku already exists")
                else Ok tt
      end.

Definition Create (input : CreateProductInput) : product_prog (res ProductOutput) :=
  let name := TrimSpace (pi_Name input) in
  if bool_decide (name = "") then Ret (Err (Validation "product name is required"))
  else
    let sku := TrimSpace (pi_SKU input) in
    if bool_decide (sku = "") then Ret (Err (Validation "product sku is required"))
    else if negb (IsPositive (pi_Price input)) then
      Ret (Err (Validation "product price must be greater than zero"))
    else
      _ <-! ensureSKUUnique sku uuid_Nil ;;
      now <- call Now ;;
      id <- call NewUUID ;;
      let c := mkProduct id name sku (pi_Price input)
                 true now now in
      _ <-! call (Repo (RCreate c)) catch (fun err => Err (Internal "could not create product" err)) ;;
      Ret (Ok (toOutput c)).

Definition Update (id : uuid) (input : UpdateProductInput) : product_prog (res ProductOutput) :=
  existing <-! call (Repo (RFindByID id)) catch (fun err => Err (mapRepoErr err)) ;;
  let name := TrimSpace (pu_Name input) in
  if bool_decide (name = "") then Ret (Err (Validation "product name is required"))
  else
    let sku := TrimSpace (pu_SKU input) in
    if bool_decide (sku = "") then Ret (Err (Validation "product sku is required"))
    else if negb (IsPositive (pu_Price input)) then
      Ret (Err (Validation "product price must be greater than zero"))
    else
      _ <-! (if bool_decide (sku = SKU existing) then Ret (Ok tt)
             else ensureSKUUnique sku id) ;;
      now <- call Now ;;
      let c := mkProduct (ID existing) name sku (pu_Price input) (Active existing) (CreatedAt existing) now in
      _ <-! call (Repo (RUpdate c)) catch (fun err => Err (mapRepoErr err)) ;;
      Ret (Ok (toOutput c)).

Definition Deactivate (id : uuid) : product_prog (res unit) :=
  _ <-! call (Repo (RDeactivate id)) catch (fun err => Err (mapRepoErr err)) ;;
  Ret (Ok tt).

Definition FindByID (id : uuid) : product_prog (res ProductOutput) :=
  c <-! call (Repo (RFindByID id)) catch (fun err => Err (mapRepoErr err)) ;;
  Ret (Ok (toOutput c)).

Definition FindManyByID (ids : list uuid) : product_prog (res (list ProductOutput)) :=
  products <-! call (Repo (RFindManyByID ids)) catch (fun err => Err (Internal "could not load products" err)) ;;
  Ret (Ok (list_fmap _ _ toOutput products)).

Definition with_defaults (filter : ProductFilter) : ProductFilter :=
  mkFilter (pf_Name filter) (pf_SKU filter) (pf_Active filter)
    (if pf_Page filter =? 0 then 1 else pf_Page filter)
    (if pf_PageSize filter =? 0 then DefaultPageSize else pf_PageSize filter).

Definition List (filter : ProductFilter) : product_prog (res (Page ProductOutput)) :=
  let filter := with_defaults filter in
  if pf_Page filter <? 1 then Ret (Err (Validation "page must be greater than zero"))
  else if pf_PageSize filter <? 1 then Ret (Err (Validation "page_size must be greater than zero"))
  else if MaxPageSize <? pf_PageSize filter then
    Ret (Err (Validation "page_size exceeds the maximum of 100"))
  else
    page <-! call (Repo (RList filter)) catch (fun err => Err (Internal "could not list products" err)) ;;
    Ret (Ok (page_map toOutput page)).

(** ** The service over the in-memory adapter *)
Record world := mkWorld { table : gmap uuid Product; source : oracle }.

#[export] Instance mem_handler `{!UuidText, !CaseTables} : Handler productE world :=
  fun X e =>
  match e in productE X return world -> X * world with
  | Repo r => fun w => let '(x, m) := mem_handle r (table w) in (x, mkWorld m (source w))
  | Now => fun w => let '(t, o) := tick (source w) in (t, mkWorld (table w) o)
  | NewUUID => fun w => let '(u, o) := fresh_id (source w) in (u, mkWorld (table w) o)
  end.

(** ** Invariant: BR-PRD-001, BR-PRD-002, BR-PRD-003 and the key of each record *)
Definition record_ok (i : uuid) (c : Product) : Prop :=
  ID c = i /\ i <> uuid_Nil /\ Name c <> "" /\ SKU c <> "" /\ 0 < cents (Price c).

Definition world_ok (w : world) : Prop := sourced SKU record_ok (table w) (source w).

(** What one use case may do: see [Catalog.safe_step]. *)
Definition safe (w w' : world) : Prop :=
  safe_step ID CreatedAt SKU record_ok (table w) (table w') (source w').

Section service.
Context `{!UuidText, !CaseTables}.

(** The uniqueness check on a sound table: only another record is a conflict. *)
Lemma run_sku_check d ex w :
  run (ensureSKUUnique d ex) w =
  (match find_value (fun c => bool_decide (SKU c = d)) (table w) with
   | Some c => if bool_decide (ID c = ex) then Ok tt
               else Err (Duplicate "a product with this sku already exists")
   | None => Ok tt
   end, w).
Proof.
  unfold ensureSKUUnique. rewrite run_bind, run_call. destruct w as [m o]. cbn.
  unfold mem_FindBySKU. destruct (find_value _ m) as [c|]; cbn; [|done].
  by case_bool_decide.
Qed.

Lemma run_sku_free d ex w : ~ taken SKU d (table w) -> run (ensureSKUUnique d ex) w = (Ok tt, w).
Proof. intros Ht%find_key_None. by rewrite run_sku_check, Ht. Qed.

Lemma run_sku_conflict d ex w i c :
  table_ok SKU record_ok (table w) -> table w !! i = Some c -> SKU c = d -> i <> ex ->
  run (ensureSKUUnique d ex) w =
  (Err (Duplicate "a product with this sku already exists"), w).
Proof.
  intros Hok Hc Hd Hne. rewrite run_sku_check, (find_value_unique SKU _ d i c) by (done || apply Hok).
  destruct (ok_records Hok _ _ Hc) as (-> & _). by rewrite bool_decide_eq_false_2.
Qed.

(** The record [Create] stores. *)
Definition new_record (input : CreateProductInput) (o : oracle) : Product :=
  let now := (tick o).1 in
  mkProduct (fresh_id o).1 (TrimSpace (pi_Name input)) (TrimSpace (pi_SKU input))
    (pi_Price input) true now now.

Lemma run_Create_product input w :
  TrimSpace (pi_Name input) <> "" -> TrimSpace (pi_SKU input) <> "" ->
  IsPositive (pi_Price input) = true -> ~ taken SKU (TrimSpace (pi_SKU input)) (table w) ->
  run (Create input) w =
  (Ok (toOutput (new_record input (source w))),
   mkWorld (<[(fresh_id (source w)).1 := new_record input (source w)]> (table w))
     (fresh_id (tick (source w)).2).2).
Proof.
  intros Hn Hd Hp Ht. unfold Create. rewrite !bool_decide_eq_false_2, Hp by done. cbn [negb].
  rewrite run_bind_res, run_sku_free by done. by destruct w as [m o].
Qed.

Lemma run_Create_sku_taken input w i c :
  world_ok w -> TrimSpace (pi_Name input) <> "" -> IsPositive (pi_Price input) = true ->
  table w !! i = Some c -> SKU c = TrimSpace (pi_SKU input) ->
  run (Create input) w = (Err (Duplicate "a product with this sku already exists"), w).
Proof.
  intros (Hok & _ & _) Hn Hp Hc Hd. unfold Create.
  destruct (ok_records Hok _ _ Hc) as (_ & Hi & _ & Hne & _).
  rewrite !bool_decide_eq_false_2, Hp by congruence. cbn [negb].
  by rewrite run_bind_res, (run_sku_conflict _ _ _ i c).
Qed.

Lemma run_find_product id w c :
  table w !! id = Some c -> run (call (Repo (RFindByID id))) w = (Ok c, w).
Proof. intros Hc. destruct w as [m o]. cbn in *. unfold mem_FindByID. by rewrite Hc. Qed.

Lemma run_find_no_product id w :
  table w !! id = None -> run (call (Repo (RFindByID id))) w = (Err ErrNotFound, w).
Proof. intros Hc. destruct w as [m o]. cbn in *. unfold mem_FindByID. by rewrite Hc. Qed.

(** The record [Update] stores. *)
Definition updated (input : UpdateProductInput) (now : time) (c : Product) : Product :=
  mkProduct (ID c) (TrimSpace (pu_Name input)) (TrimSpace (pu_SKU input))
    (pu_Price input) (Active c) (CreatedAt c) now.

Lemma run_Update_product id input w c :
  world_ok w -> table w !! id = Some c ->
  TrimSpace (pu_Name input) <> "" -> TrimSpace (pu_SKU input) <> "" ->
  IsPositive (pu_Price input) = true ->
  free_for SKU id (TrimSpace (pu_SKU input)) (table w) ->
  run (Update id input) w =
  (Ok (toOutput (updated input (tick (source w)).1 c)),
   mkWorld (<[id := updated input (tick (source w)).1 c]> (table w)) (tick (source w)).2).
Proof.
  intros (Hok & _ & _) Hc Hn Hd Hp Hfree. unfold Update. rewrite run_bind_err, (run_find_product _ _ c) by done.
  rewrite !(bool_decide_eq_false_2 (TrimSpace _ = "")), Hp by done. cbn [negb].
  destruct (ok_records Hok _ _ Hc) as (Hid & _).
  assert (Hens : run (if bool_decide (TrimSpace (pu_SKU input) = SKU c) then Ret (Ok tt)
                      else ensureSKUUnique (TrimSpace (pu_SKU input)) id) w = (Ok tt, w)).
  { case_bool_decide as Heq; [done|]. apply run_sku_free. intros (i & c' & Hc' & Hd').
    pose proof (Hfree _ _ Hc' Hd') as ->. congruence. }
  rewrite run_bind_res, Hens. unfold updated. rewrite Hid.
  destruct w as [m o]. cbn in *. unfold mem_Update. cbn. by rewrite Hc.
Qed.

Lemma run_Update_sku_conflict id input w c i c' :
  world_ok w -> table w !! id = Some c -> TrimSpace (pu_Name input) <> "" ->
  IsPositive (pu_Price input) = true -> table w !! i = Some c' -> SKU c' = TrimSpace (pu_SKU input) -> i <> id ->
  run (Update id input) w = (Err (Duplicate "a product with this sku already exists"), w).
Proof.
  intros (Hok & _ & _) Hc Hn Hp Hc' Hd Hne. unfold Update. rewrite run_bind_err, (run_find_product _ _ c) by done.
  destruct (ok_records Hok _ _ Hc') as (_ & _ & _ & Hne' & _).
  rewrite !(bool_decide_eq_false_2 (TrimSpace _ = "")), Hp by congruence. cbn [negb].
  rewrite bool_decide_eq_false_2 by (intros Heq; apply Hne; eapply (ok_unique Hok); eauto; congruence).
  by rewrite run_bind_res, (run_sku_conflict _ _ _ i c').
Qed.

(** ** The use cases, their results forgotten *)
Inductive request :=
| QCreate (input : CreateProductInput)
| QUpdate (id : uuid) (input : UpdateProductInput)
| QDeactivate (id : uuid)
| QFind (id : uuid)
| QFindMany (ids : list uuid)
| QList (filter : ProductFilter).

Definition forget {A} (p : product_prog (res A)) : product_prog unit := bind p (fun _ => Ret tt).

Definition serve (r : request) : product_prog unit :=
  match r with
  | QCreate input => forget (Create input)
  | QUpdate id input => forget (Update id input)
  | QDeactivate id => forget (Deactivate id)
  | QFind id => forget (FindByID id)
  | QFindMany ids => forget (FindManyByID ids)
  | QList f => forget (List f)
  end.

Lemma run_forget_product {A} (p : product_prog (res A)) w : (run (forget p) w).2 = (run p w).2.
Proof. unfold forget. rewrite run_bind. by destruct (run p w). Qed.

Lemma safe_same_products w : world_ok w -> safe w w.
Proof. apply safe_refl. Qed.

Lemma safe_Create_product input w : world_ok w -> safe w (run (Create input) w).2.
Proof.
  intros Hw. destruct (decide (TrimSpace (pi_Name input) = "")) as [Hn|Hn].
  { unfold Create. rewrite bool_decide_eq_true_2 by done. by apply safe_same_products. }
  destruct (decide (TrimSpace (pi_SKU input) = "")) as [Hd|Hd].
  { unfold Create. rewrite bool_decide_eq_false_2, bool_decide_eq_true_2 by done. by apply safe_same_products. }
  destruct (IsPositive (pi_Price input)) eqn:Hp.
  2: { unfold Create. rewrite !bool_decide_eq_false_2, Hp by done. by apply safe_same_products. }
  destruct (find_value (fun c => bool_decide (SKU c = TrimSpace (pi_SKU input))) (table w))
    as [c|] eqn:Hf.
  { apply find_key_Some in Hf as (i & Hc & Hdc).
    rewrite (run_Create_sku_taken _ _ i c) by done. by apply safe_same_products. }
  apply find_key_None in Hf. rewrite run_Create_product by done.
  apply safe_add; [done| |done]. apply Z.ltb_lt in Hp. repeat split; [apply Hw|done..].
Qed.

Lemma safe_Update_product id input w : world_ok w -> safe w (run (Update id input) w).2.
Proof.
  intros Hw. destruct (table w !! id) as [c|] eqn:Hc.
  2: { unfold Update. rewrite run_bind_err, run_find_no_product by done. by apply safe_same_products. }
  destruct (decide (TrimSpace (pu_Name input) = "")) as [Hn|Hn].
  { unfold Update. rewrite run_bind_err, (run_find_product _ _ c), bool_decide_eq_true_2 by done.
    by apply safe_same_products. }
  destruct (decide (TrimSpace (pu_SKU input) = "")) as [Hd|Hd].
  { unfold Update. rewrite run_bind_err, (run_find_product _ _ c), bool_decide_eq_false_2,
      bool_decide_eq_true_2 by done. by apply safe_same_products. }
  destruct (IsPositive (pu_Price input)) eqn:Hp.
  2: { unfold Update. rewrite run_bind_err, (run_find_product _ _ c), !bool_decide_eq_false_2, Hp by done.
       by apply safe_same_products. }
  destruct (decide (free_for SKU id (TrimSpace (pu_SKU input)) (table w))) as [Hfree|Hconf].
  2: { apply not_free_for in Hconf as (i & c' & Hc' & Hdoc & Hi).
       rewrite (run_Update_sku_conflict id input w c i c') by done. by apply safe_same_products. }
  rewrite (run_Update_product _ _ _ c) by done.
  destruct (ok_records (proj1 Hw) _ _ Hc) as (Hid & Hnil & _). apply Z.ltb_lt in Hp.
  by apply (safe_replace ID CreatedAt SKU record_ok (table w) (source w) _ id c).
Qed.

Lemma safe_Deactivate_product id w : world_ok w -> safe w (run (Deactivate id) w).2.
Proof.
  intros Hw. destruct w as [m o]. unfold Deactivate. cbn. unfold mem_Deactivate.
  destruct (m !! id) as [c|] eqn:Hc; cbn; [|by apply safe_same_products].
  apply (safe_replace ID CreatedAt SKU record_ok m o _ id c); try done.
  - exact (ok_records (proj1 Hw) _ _ Hc).
  - exact (free_for_own SKU record_ok id c m (proj1 Hw) Hc).
Qed.

Lemma safe_FindByID_product id w : world_ok w -> safe w (run (FindByID id) w).2.
Proof. intros Hw. destruct w as [m o]. cbn. by destruct (mem_FindByID id m); cbn; apply safe_same_products. Qed.

Lemma safe_FindMany_products ids w : world_ok w -> safe w (run (FindManyByID ids) w).2.
Proof. intros Hw. destruct w as [m o]. by apply safe_same_products. Qed.

Lemma safe_List_products f w : world_ok w -> safe w (run (List f) w).2.
Proof.
  intros Hw. unfold List. repeat (case_match; [by apply safe_same_products|]).
  destruct w as [m o]. cbn. by destruct (mem_List _ m); cbn; apply safe_same_products.
Qed.

Lemma safe_serve_products r w : world_ok w -> safe w (run (serve r) w).2.
Proof.
  destruct r; cbn [serve]; rewrite run_forget_product;
    eauto using safe_Create_product, safe_Update_product, safe_Deactivate_product, safe_FindByID_product, safe_FindMany_products,
      safe_List_products.
Qed.

(** Any number of requests, one after the other. *)
Definition serve_all (rs : list request) : product_prog unit :=
  foldr (fun r p => serve r ;;; p) (Ret tt) rs.
End service.

Definition empty_world : world := mkWorld ∅ demo_oracle.

Lemma no_products_ok : world_ok empty_world.
Proof. split; [apply table_ok_empty|]. split; [apply good_ids_demo|by intros u Hu]. Qed.

(** ** Properties *)

(** Under any sequence of creations, updates, deactivations and reads,
    served one after the other, every product keeps a non-blank name and a positive
    price, no two products have the same sku (BR-PRD-001, 002, 003), each record
    stays under its id, and no record ever disappears. *)
Theorem requests_keep_products `{!UuidText, !CaseTables} (rs : list request) (w : world) :
  world_ok w ->
  let w' := (run (serve_all rs) w).2 in
  world_ok w' /\ keeps ID CreatedAt (table w) (table w').
Proof.
  cbv zeta. revert w. induction rs as [|r rs IH]; intros w Hw; [by apply safe_same_products|].
  cbn [serve_all foldr]. rewrite run_bind. destruct (run (serve r) w) as [u w1] eqn:Hr.
  pose proof (safe_serve_products r w Hw) as [Hok1 Hk1]. rewrite Hr in Hok1, Hk1. cbn in *.
  destruct (IH w1 Hok1) as [Hok2 Hk2]. split; [done|by etrans].
Qed.

Definition pen : CreateProductInput := mkCreateInput "Pen" " P-1 " (mkMoney 150).
Definition pen_update (price : Z) : UpdateProductInput := mkUpdateInput "Pen" "P-1" (mkMoney price).

Lemma requests_keep_products_witness :
  let _ := bit_text in let _ := no_tables in
  let w' := (run (serve_all [QCreate pen; QUpdate 1 (pen_update 0); QCreate pen]) empty_world).2 in
  world_ok w' /\ keeps ID CreatedAt ∅ (table w') /\ size (table w') = 1%nat.
Proof.
  cbv zeta.
  destruct (@requests_keep_products bit_text no_tables
              [QCreate pen; QUpdate 1 (pen_update 0); QCreate pen] empty_world no_products_ok) as [H1 H2].
  split; [exact H1|]. split; [exact H2|]. vm_compute. reflexivity.
Defined.

(** [Update], on every branch: an unknown id is not found; a blank
    name, a blank sku or a price that is not positive is a validation error; a sku
    that another product has is a duplicate; none of these changes anything.
    Otherwise - the product's own sku included - the name, sku and price are
    replaced, and the id, the creation time and the active flag are kept. *)
Theorem Update_branches `{!UuidText, !CaseTables} (id : uuid) (input : UpdateProductInput) (w : world) :
  world_ok w ->
  let name := TrimSpace (pu_Name input) in
  let sku := TrimSpace (pu_SKU input) in
  match table w !! id with
  | None => run (Update id input) w = (Err (NotFound "product not found"), w)
  | Some p =>
      if bool_decide (name = "") then
        run (Update id input) w = (Err (Validation "product name is required"), w)
      else if bool_decide (sku = "") then
        run (Update id input) w = (Err (Validation "product sku is required"), w)
      else if cents (pu_Price input) <=? 0 then
        run (Update id input) w = (Err (Validation "product price must be greater than zero"), w)
      else if decide (free_for SKU id sku (table w)) then
        exists p', p' = mkProduct id name sku (pu_Price input) (Active p) (CreatedAt p)
                          (clock (source w) (ticks (source w))) /\
          run (Update id input) w =
            (Ok (toOutput p'), mkWorld (<[id := p']> (table w)) (tick (source w)).2)
      else run (Update id input) w = (Err (Duplicate "a product with this sku already exists"), w)
  end.
Proof.
  intros Hw. cbv zeta. destruct (table w !! id) as [p|] eqn:Hp.
  2: { unfold Update. by rewrite run_bind_err, run_find_no_product. }
  assert (Hpos : IsPositive (pu_Price input) = negb (cents (pu_Price input) <=? 0)).
  { unfold IsPositive. rewrite Z.leb_antisym. by rewrite negb_involutive. }
  case_bool_decide as Hn.
  { unfold Update. by rewrite run_bind_err, (run_find_product _ _ p), bool_decide_eq_true_2. }
  case_bool_decide as Hs.
  { unfold Update. by rewrite run_bind_err, (run_find_product _ _ p), bool_decide_eq_false_2,
      bool_decide_eq_true_2. }
  destruct (cents (pu_Price input) <=? 0); cbn [negb] in Hpos.
  { unfold Update. by rewrite run_bind_err, (run_find_product _ _ p), !bool_decide_eq_false_2, Hpos by done. }
  case_decide as Hf.
  - eexists. split; [reflexivity|]. rewrite (run_Update_product _ _ _ p) by done. unfold updated.
    destruct (ok_records (proj1 Hw) _ _ Hp) as (-> & _). done.
  - apply not_free_for in Hf as (i & p' & Hp' & Hsku & Hi).
    rewrite (run_Update_sku_conflict id input w p i p'); done.
Qed.

Lemma Update_branches_witness :
  let _ := bit_text in let _ := no_tables in
  world_ok empty_world /\
  run (Update 7 (pen_update 3)) empty_world = (Err (NotFound "product not found"), empty_world).
Proof.
  cbv zeta. split; [exact no_products_ok|].
  exact (@Update_branches bit_text no_tables 7%N (pen_update 3) empty_world no_products_ok).
Defined.

End product.
