(* ===== verification/Auth.v ===== *)
(** Auth: the package internal/auth: roles and users, the HS256 token manager, the
    password functions over bcrypt, the login and registration service, the
    in-memory user repository and the default admin seed. *)
From S2P Require Import Prelude Errors Effects GoStrings Base64 Uuid Calendar Json JsonText JsonDecode Sha256 Catalog.

Module auth.

(** ** Roles and users (model.go, dto.go) *)
Abbreviation Role := string (only parsing).
Definition RoleAdmin : Role := "ADMIN".
Definition RoleOperator : Role := "OPERATOR".

Definition role_error `{CaseTables} (s : string) : error :=
  ErrNew ("invalid role " +:+ Quote s +:+ ": must be ADMIN or OPERATOR").

Definition ParseRole `{CaseTables} (s : string) : res Role :=
  if bool_decide (s = RoleAdmin) then Ok RoleAdmin
  else if bool_decide (s = RoleOperator) then Ok RoleOperator
  else Err (role_error s).

Record User := mkUser {
  ID : string;
  Name : string;
  Email : string;
  PasswordHash : string;
  URole : Role;
  Active : bool;
  CreatedAt : time;
  UpdatedAt : time;
}.

Record LoginRequest := mkLogin { lr_Email : string; lr_Password : string }.
Record RegisterRequest := mkRegister {
  rr_Name : string; rr_Email : string; rr_Password : string; rr_Role : string;
}.
Record TokenResponse := mkToken { AccessToken : string; TokenType : string; ExpiresIn : Z }.
Record UserResponse := mkUserResponse {
  ur_ID : string; ur_Name : string; ur_Email : string; ur_Role : string;
}.

(** ** Tokens (jwt.go) *)
Record jwtHeader := mkHeader { Alg : string; Typ : string }.
Record jwtPayload := mkPayload { Sub : string; PRole : string; Exp : Z; Iat : Z }.

(** The tagged fields, as [json.Marshal] and [json.Unmarshal] see them. *)
Definition header_json (h : jwtHeader) : json := JObj [("alg", JStr (Alg h)); ("typ", JStr (Typ h))].

Definition payload_json (p : jwtPayload) : json :=
  JObj [("sub", JStr (Sub p)); ("role", JStr (PRole p)); ("exp", JInt (Exp p)); ("iat", JInt (Iat p))].

Definition dec_header : jval -> jwtHeader -> option jwtHeader := dec_struct [
  field "alg" dec_string Alg (fun x h => mkHeader x (Typ h));
  field "typ" dec_string Typ (fun x h => mkHeader (Alg h) x)].

Definition dec_payload : jval -> jwtPayload -> option jwtPayload := dec_struct [
  field "sub" dec_string Sub (fun x p => mkPayload x (PRole p) (Exp p) (Iat p));
  field "role" dec_string PRole (fun x p => mkPayload (Sub p) x (Exp p) (Iat p));
  field "exp" dec_int Exp (fun x p => mkPayload (Sub p) (PRole p) x (Iat p));
  field "iat" dec_int Iat (fun x p => mkPayload (Sub p) (PRole p) (Exp p) x)].

(** The claim sets the code issues: seconds that fit an int64 and ASCII text. *)
Definition payload_ok (p : jwtPayload) : Prop :=
  in_int64 (Exp p) /\ in_int64 (Iat p) /\ is_ascii (Sub p) /\ is_ascii (PRole p).

Definition algHS256 : string := "HS256".

Record Claims := mkClaims { UserID : string; CRole : Role; ExpiresAt : time }.

(** Durations are nanoseconds. *)
Record TokenManager := mkManager { secret : bytes; expiry : Z }.

Definition NewTokenManager (secret : string) (expiry : Z) : res TokenManager :=
  if bool_decide (secret = "") then Err (ErrNew "jwt: secret must not be empty")
  else if expiry <=? 0 then Err (ErrNew "jwt: expiry must be positive")
  else Ok (mkManager (to_bytes secret) expiry).

(** [t.Unix()] and [time.Unix(s, 0)]: a [time.Time] keeps the seconds since the year 1 in
    an int64, and the conversion of the seconds since 1970 wraps around. *)
Definition second : Z := 1000000000.
Definition unixToInternal : Z := 62135596800.
Definition Unix (t : time) : Z := t / second.
Definition from_Unix (s : Z) : time := (wrap64 (s + unixToInternal) - unixToInternal) * second.

(** The instants a [time.Time] can hold. *)
Definition go_time (t : time) : Prop := in_int64 (Unix t + unixToInternal).

Definition invalid_token (text : string) : error :=
  ErrWrap ("invalid token: " +:+ text) (ErrVar AuthErrInvalidToken).

Section tokens.
Context `{!CaseTables, !UuidText, !LocalZone} (m : TokenManager).

Definition sign (signing : bytes) : bytes := hmac_sha256 (secret m) signing.

(** The error of [json.Marshal] is dropped. *)
Definition encodeSegment (v : json) : bytes := EncodeToString (default [] (render v)).

(** [now] is the clock reading in the call.  [Seconds()] is exact for an expiry of
    whole seconds, which is what the configuration gives. *)
Definition Issue (now : time) (userID : string) (role : Role) : string * Z :=
  let header := encodeSegment (header_json (mkHeader algHS256 "JWT")) in
  let payload := encodeSegment (payload_json
                   (mkPayload userID role (Unix (now + expiry m)) (Unix now))) in
  let signing := header ++ dot_chr :: payload in
  let sig := EncodeToString (sign signing) in
  (of_bytes (signing ++ dot_chr :: sig), Z.quot (expiry m) second).

Definition decodeSegment {A} (dec : jval -> A -> option A) (zero : A) (segment : bytes) : res A :=
  match DecodeString segment with
  | None => Err (ErrNew "illegal base64 data")
  | Some raw => unmarshal_res dec zero raw
  end.

Definition decode_header (segment : bytes) : res jwtHeader :=
  decodeSegment dec_header (mkHeader "" "") segment.

Definition decode_payload (segment : bytes) : res jwtPayload :=
  decodeSegment dec_payload (mkPayload "" "" 0 0) segment.

(** The checks after the signature. *)
Definition check_payload (now : time) (p : jwtPayload) : res Claims :=
  if negb (now <? from_Unix (Exp p)) then Err (invalid_token "expired")
  else match ParseRole (PRole p) with
       | Ok role => Ok (mkClaims (Sub p) role (from_Unix (Exp p)))
       | Err e => Err (invalid_token (Error e))
       | Panic why => Panic why
       end.

Definition verify_signature (now : time) (p0 p1 p2 : bytes) : res Claims :=
  let expected := sign (p0 ++ dot_chr :: p1) in
  match DecodeString p2 with
  | None => Err (invalid_token "signature encoding")
  | Some actual =>
      if negb (bool_decide (expected = actual)) then Err (invalid_token "signature mismatch")
      else match decode_payload p1 with
           | Ok p => check_payload now p
           | Err e => Err (invalid_token ("payload: " +:+ Error e))
           | Panic why => Panic why
           end
  end.

Definition Verify (now : time) (token : string) : res Claims :=
  match split_on dot_chr (to_bytes token) with
  | [p0; p1; p2] =>
      match decode_header p0 with
      | Err e => Err (invalid_token ("header: " +:+ Error e))
      | Panic why => Panic why
      | Ok h =>
          if negb (bool_decide (Alg h = algHS256)) then
            Err (invalid_token ("unexpected alg " +:+ Quote (Alg h)))
          else verify_signature now p0 p1 p2
      end
  | _ => Err (invalid_token "expected 3 segments")
  end.
End tokens.

(** ** Ports of the service (repository.go, password.go)

    bcrypt is behind two calls: one draws a salted hash, one compares. *)
Inductive authE : Type -> Type :=
| FindByEmail (email : string) : authE (res User)
| CreateUser (user : User) : authE (res unit)
| GenerateFromPassword (plaintext : string) : authE (res string)
| CompareHashAndPassword (hash plaintext : string) : authE bool
| Now : authE time
| NewString : authE string
| Info (msg : string) : authE unit.

Abbreviation auth_prog := (prog authE) (only parsing).

Definition ErrUserNotFound : error := ErrVar AuthErrUserNotFound.
Definition ErrEmailTaken : error := ErrVar AuthErrEmailTaken.

Definition HashPassword (plaintext : string) : auth_prog (res string) :=
  call (GenerateFromPassword plaintext).

Definition ComparePassword (hash plaintext : string) : auth_prog bool :=
  call (CompareHashAndPassword hash plaintext).

(** ** Service (service.go) *)
Definition errInvalidCredentials : error := Unauthorized "Invalid credentials".

Definition dummyHash : string := "$2a$10$N9qo8uLOickgx2ZMRZoMyeIjZAgcfl7p92ldGxad68LJZdL17lhWy".
Definition maxPasswordBytes : Z := 72.

Section service.
Context `{!CaseTables, !UuidText, !LocalZone} (m : TokenManager).

Definition normalizeEmail (email : string) : string := ToLower (TrimSpace email).

Definition Login (req : LoginRequest) : auth_prog (res TokenResponse) :=
  found <- call (FindByEmail (normalizeEmail (lr_Email req))) ;;
  match found with
  | Err err =>
      if errors_Is err AuthErrUserNotFound then
        ComparePassword dummyHash (lr_Password req) ;;;
        Ret (Err errInvalidCredentials)
      else Ret (Err (Internal "could not load user" err))
  | Panic why => Ret (Panic why)
  | Ok user =>
      same <- ComparePassword (PasswordHash user) (lr_Password req) ;;
      if negb same then Ret (Err errInvalidCredentials)
      else if negb (Active user) then Ret (Err errInvalidCredentials)
      else
        now <- call Now ;;
        let '(token, expiresIn) := Issue m now (ID user) (URole user) in
        Ret (Ok (mkToken token "Bearer" expiresIn))
  end.

Definition validateRegister (req : RegisterRequest) : option error :=
  if bool_decide (TrimSpace (rr_Name req) = "") then Some (Validation "name is required")
  else if bool_decide (TrimSpace (rr_Email req) = "") then Some (Validation "email is required")
  else if len (rr_Password req) <? 6 then Some (Validation "password must be at least 6 characters")
  else if maxPasswordBytes <? len (rr_Password req) then
    Some (Validation "password must be at most 72 bytes")
  else None.

Definition Register (req : RegisterRequest) : auth_prog (res UserResponse) :=
  match validateRegister req with
  | Some e => Ret (Err e)
  | None =>
      match ParseRole (rr_Role req) with
      | Err e => Ret (Err (Validation (Error e)))
      | Panic why => Ret (Panic why)
      | Ok role =>
          hash <-! HashPassword (rr_Password req)
            catch (fun err => Err (Internal "could not hash password" err)) ;;
          now <- call Now ;;
          id <- call NewString ;;
          let user := mkUser id (rr_Name req) (normalizeEmail (rr_Email req)) hash role true now now in
          _ <-! call (CreateUser user)
            catch (fun err => Err (if errors_Is err AuthErrEmailTaken then Duplicate "Email already registered"
                                   else Internal "could not create user" err)) ;;
          Ret (Ok (mkUserResponse (ID user) (Name user) (Email user) (URole user)))
      end
  end.
End service.

(** ** Seed (seed.go) *)
Definition defaultAdminEmail : string := "admin@example.com".

Definition SeedDefaultAdmin (log : bool) : auth_prog (res unit) :=
  found <- call (FindByEmail defaultAdminEmail) ;;
  match found with
  | Ok _ => Ret (Ok tt)
  | Panic why => Ret (Panic why)
  | Err err =>
      if negb (errors_Is err AuthErrUserNotFound) then Ret (Err err)
      else
        hash <-! HashPassword "123456" ;;
        now <- call Now ;;
        id <- call NewString ;;
        let user := mkUser id "Admin" defaultAdminEmail hash RoleAdmin true now now in
        created <- call (CreateUser user) ;;
        match created with
        | Err err => if errors_Is err AuthErrEmailTaken then Ret (Ok tt) else Ret (Err err)
        | Panic why => Ret (Panic why)
        | Ok _ =>
            (if log then call (Info "seeded default admin user") else Ret tt) ;;;
            Ret (Ok tt)
        end
  end.

(** ** In-memory repository (repository.go) *)
Definition mem_FindByEmail (email : string) (byEmail : gmap string User) : res User :=
  match byEmail !! email with Some u => Ok u | None => Err ErrUserNotFound end.

Definition mem_CreateUser (user : User) (byEmail : gmap string User) : res unit * gmap string User :=
  match byEmail !! Email user with
  | Some _ => (Err ErrEmailTaken, byEmail)
  | None => (Ok tt, <[Email user := user]> byEmail)
  end.

(** bcrypt: a salted hash that compares equal to its own password only through
    [bcrypt_compare]; longer inputs than 72 bytes are refused. *)
Class Bcrypt := {
  bcrypt_generate : nat -> string -> res string;
  bcrypt_compare : string -> string -> bool;
  bcrypt_total salt p : len p <= 72 -> exists h, bcrypt_generate salt p = Ok h;
  bcrypt_correct salt p h : bcrypt_generate salt p = Ok h -> bcrypt_compare h p = true;
}.

Record world := mkWorld {
  users : gmap string User;
  source : oracle;
  salts : nat;
  compares : nat;
  infos : list string;
}.

#[export] Instance mem_handler `{!UuidText, !Bcrypt} : Handler authE world :=
  fun X e =>
  match e in authE X return world -> X * world with
  | FindByEmail email => fun w => (mem_FindByEmail email (users w), w)
  | CreateUser user => fun w =>
      let '(x, us) := mem_CreateUser user (users w) in
      (x, mkWorld us (source w) (salts w) (compares w) (infos w))
  | GenerateFromPassword p => fun w =>
      (bcrypt_generate (salts w) p, mkWorld (users w) (source w) (S (salts w)) (compares w) (infos w))
  | CompareHashAndPassword h p => fun w =>
      (bcrypt_compare h p, mkWorld (users w) (source w) (salts w) (S (compares w)) (infos w))
  | Now => fun w =>
      let '(t, o) := tick (source w) in (t, mkWorld (users w) o (salts w) (compares w) (infos w))
  | NewString => fun w =>
      let '(u, o) := fresh_id (source w) in
      (uuid_String u, mkWorld (users w) o (salts w) (compares w) (infos w))
  | Info msg => fun w => (tt, mkWorld (users w) (source w) (salts w) (compares w) (infos w ++ [msg]))
  end.

(** ** Tokens: lemmas *)
Section token_facts.
Context `{!CaseTables, !UuidText, !LocalZone} (m : TokenManager).

Lemma ParseRole_Ok s r : ParseRole s = Ok r <-> r = s /\ (s = RoleAdmin \/ s = RoleOperator).
Proof.
  unfold ParseRole. case_bool_decide as Ha; [|case_bool_decide as Ho].
  - split; [intros [= <-]|]; naive_solver.
  - split; [intros [= <-]|]; naive_solver.
  - split; [done|]. naive_solver.
Qed.

Lemma role_ascii r : r = RoleAdmin \/ r = RoleOperator -> is_ascii r.
Proof. intros [->| ->]; unfold is_ascii; cbn; repeat constructor. Qed.

Lemma split_token p0 p1 p2 :
  dot_chr ∉ p0 -> dot_chr ∉ p1 -> dot_chr ∉ p2 ->
  split_on dot_chr ((p0 ++ dot_chr :: p1) ++ dot_chr :: p2) = [p0; p1; p2].
Proof.
  intros Hp0 Hp1 Hp2. rewrite <- app_assoc. cbn [app].
  by rewrite split_on_app, split_on_app, split_on_none.
Qed.

(** The segments the code writes read back. *)
Lemma header_roundtrip h :
  is_ascii (Alg h) -> is_ascii (Typ h) -> decode_header (encodeSegment (header_json h)) = Ok h.
Proof.
  intros Ha Ht. unfold decode_header, decodeSegment, encodeSegment. rewrite Decode_Encode. unfold unmarshal_res.
  rewrite (Unmarshal_render dec_header _ (header_json h)) by done. unfold dec_header, header_json.
  select_fields. rewrite !valid_utf8_ascii, !of_to_bytes by done. by destruct h.
Qed.

Lemma payload_roundtrip p : payload_ok p -> decode_payload (encodeSegment (payload_json p)) = Ok p.
Proof.
  intros (He & Hi & Hs & Hr). unfold decode_payload, decodeSegment, encodeSegment. rewrite Decode_Encode.
  unfold unmarshal_res. rewrite (Unmarshal_render dec_payload _ (payload_json p)) by done.
  unfold dec_payload, payload_json. select_fields.
  rewrite !valid_utf8_ascii, !of_to_bytes, !ParseInt_fmt_d by done. by destruct p.
Qed.

Lemma Verify_Issue_lemma now now' userID role :
  role = RoleAdmin \/ role = RoleOperator -> is_ascii userID ->
  in_int64 (Unix (now + expiry m)) -> in_int64 (Unix now) ->
  let exp := Unix (now + expiry m) in
  Verify m now' (Issue m now userID role).1 =
    if now' <? from_Unix exp then Ok (mkClaims userID role (from_Unix exp))
    else Err (invalid_token "expired").
Proof.
  intros Hrole Hid Hexp Hiat. cbv zeta. unfold Verify, Issue. cbn [fst].
  rewrite to_of_bytes, split_token by apply Encode_no_dot.
  rewrite header_roundtrip by by unfold is_ascii; cbn; repeat constructor.
  cbn [Alg]. rewrite bool_decide_eq_true_2 by done. cbn [negb].
  unfold verify_signature. rewrite Decode_Encode, bool_decide_eq_true_2 by done. cbn [negb].
  rewrite payload_roundtrip by (split; [done|split; [done|split; [done|by apply role_ascii]]]).
  unfold check_payload. cbn [Exp PRole Sub]. rewrite <- Z.leb_antisym.
  assert (Hp : ParseRole role = Ok role) by by apply ParseRole_Ok. rewrite Hp.
  rewrite Z.leb_antisym. by destruct (now' <? _).
Qed.

Lemma Unix_bounds t : go_time t -> t - second < from_Unix (Unix t) <= t.
Proof.
  intros Ht. unfold from_Unix. rewrite wrap64_id by exact Ht. unfold Unix, second. pose proof (Z.div_mod t 1000000000 ltac:(lia)).
  pose proof (Z.mod_pos_bound t 1000000000 ltac:(lia)). lia.
Qed.
End token_facts.

(** ** The service over the in-memory repository *)
Section service_facts.
Context `{!UuidText, !LocalZone, !Bcrypt, !CaseTables} (m : TokenManager).

(** ** What [Login] calls, whatever it is answered

    What it has learned: nothing, the answer of the repository, the outcome of the
    comparison, or the clock reading for the token. *)
Inductive login_state :=
| LStart
| LLooked (found : res User)
| LCompared (found : res User) (same : bool)
| LTimed (user : User) (now : time).

(** The hash that is compared: the stored one, or the constant one for an email that is
    not known; none when the repository failed. *)
Definition compared_hash (found : res User) : option string :=
  match found with
  | Ok user => Some (PasswordHash user)
  | Err e => if errors_Is e AuthErrUserNotFound then Some dummyHash else None
  | Panic _ => None
  end.

Definition login_allowed (req : LoginRequest) {X} (s : login_state) (e : authE X) : Prop :=
  match e with
  | FindByEmail email => s = LStart /\ email = normalizeEmail (lr_Email req)
  | CompareHashAndPassword hash password =>
      password = lr_Password req /\ exists found, s = LLooked found /\ compared_hash found = Some hash
  | Now => exists user, s = LCompared (Ok user) true /\ Active user = true
  | _ => False
  end.

Definition login_next {X} (s : login_state) (e : authE X) : X -> login_state :=
  match e in authE X return X -> login_state with
  | FindByEmail _ => fun found => LLooked found
  | CompareHashAndPassword _ _ => fun same =>
      match s with LLooked found => LCompared found same | _ => s end
  | Now => fun now => match s with LCompared (Ok user) _ => LTimed user now | _ => s end
  | _ => fun _ => s
  end.

Definition login_protocol (req : LoginRequest) : protocol authE login_state :=
  mkProtocol (fun X => @login_allowed req X) (fun X s e x => True) (fun X => @login_next X).

(** The answer, by what was learned. *)
Definition login_result (s : login_state) (r : res TokenResponse) : Prop :=
  match s with
  | LStart => False
  | LLooked found =>
      match found with
      | Ok _ => False
      | Err e => errors_Is e AuthErrUserNotFound = false /\ r = Err (Internal "could not load user" e)
      | Panic why => r = Panic why
      end
  | LCompared found same =>
      r = Err errInvalidCredentials /\
      match found with Ok user => same && Active user = false | _ => True end
  | LTimed user now =>
      let issued := Issue m now (ID user) (URole user) in r = Ok (mkToken issued.1 "Bearer" issued.2)
  end.

Lemma Login_conforms req : conforms (login_protocol req) LStart (Login m req) login_result.
Proof.
  unfold Login, ComparePassword. cbn [bind call conforms]. split; [by split|]. intros [user|err|why] _; cbn; [| |done].
  - split; [split; [done|by eexists]|]. intros [] _; cbn; [|done]. destruct (Active user) eqn:Ha; cbn; [|by rewrite Ha].
    split; [by eexists|]. intros now _. by destruct (Issue m now (ID user) (URole user)).
  - destruct (errors_Is err AuthErrUserNotFound) eqn:He; [|by split]. cbn.
    split; [split; [done|]; eexists; split; [reflexivity|]; cbn; by rewrite He|]. by intros same _.
Qed.

(** [Login] as a function of the stored user: one comparison on every path. *)
Definition after_compare (w : world) : world :=
  mkWorld (users w) (source w) (salts w) (Datatypes.S (compares w)) (infos w).

Definition login_answer (req : LoginRequest) (w : world) : res TokenResponse * world :=
  let w1 := after_compare w in
  match users w !! normalizeEmail (lr_Email req) with
  | None => (Err errInvalidCredentials, w1)
  | Some u =>
      if bcrypt_compare (PasswordHash u) (lr_Password req) && Active u then
        let issued := Issue m (clock (source w) (ticks (source w))) (ID u) (URole u) in
        (Ok (mkToken issued.1 "Bearer" issued.2),
         mkWorld (users w) (tick (source w)).2 (salts w) (Datatypes.S (compares w)) (infos w))
      else (Err errInvalidCredentials, w1)
  end.

Lemma run_Login req w : run (Login m req) w = login_answer req w.
Proof.
  unfold Login, login_answer. rewrite run_bind, run_call.
  cbn [handle mem_handler]. unfold mem_FindByEmail.
  destruct (users w !! normalizeEmail (lr_Email req)) as [u|]; [|done].
  rewrite run_bind. unfold ComparePassword. rewrite run_call. cbn [handle mem_handler].
  destruct (bcrypt_compare (PasswordHash u) (lr_Password req)); [|done].
  destruct (Active u); [|done]. done.
Qed.

(** What [Register] stores, and its answer, when the request is acceptable. *)
Definition registered (req : RegisterRequest) (hash : string) (w : world) : User :=
  let now := (tick (source w)).1 in
  mkUser (uuid_String (fresh_id (source w)).1) (rr_Name req) (normalizeEmail (rr_Email req)) hash
    (rr_Role req) true now now.

Definition after_register (req : RegisterRequest) (hash : string) (w : world) : world :=
  mkWorld (<[normalizeEmail (rr_Email req) := registered req hash w]> (users w))
    (fresh_id (tick (source w)).2).2 (Datatypes.S (salts w)) (compares w) (infos w).

Lemma run_Register req w hash :
  validateRegister req = None -> rr_Role req = RoleAdmin \/ rr_Role req = RoleOperator ->
  bcrypt_generate (salts w) (rr_Password req) = Ok hash ->
  users w !! normalizeEmail (rr_Email req) = None ->
  run (Register req) w =
  (Ok (mkUserResponse (uuid_String (fresh_id (source w)).1) (rr_Name req)
         (normalizeEmail (rr_Email req)) (rr_Role req)), after_register req hash w).
Proof.
  intros Hv Hr Hh Hfree. unfold Register. rewrite Hv.
  assert (Hp : ParseRole (rr_Role req) = Ok (rr_Role req)) by by apply ParseRole_Ok.
  rewrite Hp, run_bind_err. unfold HashPassword. rewrite run_call. cbn [handle mem_handler].
  rewrite Hh. cbn. unfold mem_CreateUser. cbn. by rewrite Hfree.
Qed.

Lemma run_Register_taken req w hash u :
  validateRegister req = None -> rr_Role req = RoleAdmin \/ rr_Role req = RoleOperator ->
  bcrypt_generate (salts w) (rr_Password req) = Ok hash ->
  users w !! normalizeEmail (rr_Email req) = Some u ->
  exists w', run (Register req) w = (Err (Duplicate "Email already registered"), w') /\
             users w' = users w.
Proof.
  intros Hv Hr Hh Htaken. unfold Register. rewrite Hv.
  assert (Hp : ParseRole (rr_Role req) = Ok (rr_Role req)) by by apply ParseRole_Ok.
  rewrite Hp, run_bind_err. unfold HashPassword. rewrite run_call. cbn [handle mem_handler].
  rewrite Hh. cbn. unfold mem_CreateUser. cbn. rewrite Htaken. by eexists.
Qed.

Lemma validateRegister_len req : validateRegister req = None -> len (rr_Password req) <= 72.
Proof.
  unfold validateRegister, maxPasswordBytes. repeat case_bool_decide; try done.
  repeat case_match; try done. lia.
Qed.

(** The seed on a repository with and without the admin. *)
Lemma run_Seed_present log w u :
  users w !! defaultAdminEmail = Some u -> run (SeedDefaultAdmin log) w = (Ok tt, w).
Proof.
  intros Hu. unfold SeedDefaultAdmin. rewrite run_bind, run_call. cbn [handle mem_handler].
  unfold mem_FindByEmail. by rewrite Hu.
Qed.

Lemma run_Seed_absent log w :
  users w !! defaultAdminEmail = None ->
  exists u w', run (SeedDefaultAdmin log) w = (Ok tt, w') /\
    users w' = <[defaultAdminEmail := u]> (users w) /\ Email u = defaultAdminEmail /\
    URole u = RoleAdmin /\ Active u = true /\ bcrypt_compare (PasswordHash u) "123456" = true.
Proof.
  intros Hu. destruct (bcrypt_total (salts w) "123456") as [h Hh]; [by vm_compute|].
  unfold SeedDefaultAdmin. rewrite run_bind, run_call. cbn [handle mem_handler].
  unfold mem_FindByEmail. rewrite Hu. cbn [errors_Is ErrUserNotFound].
  rewrite bool_decide_eq_true_2 by done. cbn [negb].
  rewrite run_bind_res. unfold HashPassword. rewrite run_call. cbn [handle mem_handler]. rewrite Hh.
  cbn. unfold mem_CreateUser. cbn. rewrite Hu. cbn. rewrite run_bind.
  destruct log; cbn; eexists _, _; repeat split; by eapply bcrypt_correct.
Qed.
End service_facts.

(** ** A concrete instance, for the examples: a reversible hash *)
Lemma demo_bcrypt_total (salt : nat) (p : string) : len p <= 72 ->
  exists h, (if 72 <? len p then Err (ErrNew "password length exceeds 72 bytes") else Ok ("$" +:+ p)) = Ok h.
Proof. intros Hp. replace (72 <? len p) with false by lia. eauto. Qed.

Lemma demo_bcrypt_correct (salt : nat) (p h : string) :
  (if 72 <? len p then Err (ErrNew "password length exceeds 72 bytes") else Ok ("$" +:+ p)) = Ok h ->
  bool_decide (h = "$" +:+ p) = true.
Proof. case_match; [done|]. intros [= <-]. by apply bool_decide_eq_true_2. Qed.

Definition demo_bcrypt : Bcrypt := {|
  bcrypt_generate _ p :=
    if 72 <? len p then Err (ErrNew "password length exceeds 72 bytes") else Ok ("$" +:+ p);
  bcrypt_compare h p := bool_decide (h = "$" +:+ p);
  bcrypt_total := demo_bcrypt_total;
  bcrypt_correct := demo_bcrypt_correct;
|}.

Definition demo_manager : TokenManager := mkManager (to_bytes "secret") (7200 * second).
Definition no_users : world := mkWorld ∅ demo_oracle 0 0 [].

(** ** Properties *)

(** C29: a token issued for a valid role verifies, until the whole second of its
    expiry, to exactly the user and role it was issued for, and from then on it is
    refused as expired; that second is less than one second before issue time plus
    the configured expiry, for every expiry that a [time.Time] can hold. *)
Theorem Verify_Issue `{!CaseTables, !UuidText, !LocalZone} (m : TokenManager) (now now' : time)
    (userID : string) (role : Role) :
  role = RoleAdmin \/ role = RoleOperator -> is_ascii userID ->
  in_int64 (Unix (now + expiry m)) -> in_int64 (Unix now) ->
  let exp := from_Unix (Unix (now + expiry m)) in
  Verify m now' (Issue m now userID role).1 =
    (if now' <? exp then Ok (mkClaims userID role exp) else Err (invalid_token "expired")) /\
  (go_time (now + expiry m) -> now + expiry m - second < exp <= now + expiry m).
Proof. intros. split; [by apply Verify_Issue_lemma|apply Unix_bounds]. Qed.

Lemma Verify_Issue_witness :
  let _ := no_tables in let _ := bit_text in let _ := UTC in
  Verify demo_manager 5 (Issue demo_manager 3 "u1" RoleAdmin).1 =
    Ok (mkClaims "u1" RoleAdmin (7200 * second)).
Proof.
  cbv zeta. apply (@Verify_Issue no_tables bit_text UTC demo_manager 3 5 "u1" RoleAdmin).
  - by left.
  - apply (bool_decide_unpack (is_ascii "u1")). vm_compute. exact I.
  - apply (bool_decide_unpack (in_int64 (Unix (3 + expiry demo_manager)))). vm_compute. exact I.
  - apply (bool_decide_unpack (in_int64 (Unix 3))). vm_compute. exact I.
Defined.

(** C28: [Verify] returns claims only for a token of three segments whose
    header names HS256, whose third segment decodes to the MAC of the first two
    under the manager's secret, whose payload is not expired and carries a known
    role; the claims are that payload's.  Every refusal is an [ErrInvalidToken]. *)
Theorem Verify_sound `{!CaseTables, !UuidText, !LocalZone} (m : TokenManager) (now : time) (token : string) :
  match Verify m now token with
  | Ok c =>
      exists p0 p1 p2 h p,
        split_on dot_chr (to_bytes token) = [p0; p1; p2] /\
        decode_header p0 = Ok h /\ Alg h = algHS256 /\
        DecodeString p2 = Some (hmac_sha256 (secret m) (p0 ++ dot_chr :: p1)) /\
        decode_payload p1 = Ok p /\ now < from_Unix (Exp p) /\
        (PRole p = RoleAdmin \/ PRole p = RoleOperator) /\
        c = mkClaims (Sub p) (PRole p) (from_Unix (Exp p))
  | Err e => errors_Is e AuthErrInvalidToken = true
  | Panic _ => True
  end.
Proof.
  unfold Verify. destruct (split_on dot_chr (to_bytes token)) as [|p0 [|p1 [|p2 [|]]]] eqn:Hs; try done.
  destruct (decode_header p0) as [h|e|why] eqn:Hh; [|done..].
  case_bool_decide as Halg; cbn [negb]; [|done].
  unfold verify_signature. destruct (DecodeString p2) as [actual|] eqn:Hd; [|done].
  case_bool_decide as Hsig; cbn [negb]; [|done]. subst actual.
  destruct (decode_payload p1) as [p|e|why] eqn:Hp; [|done..].
  unfold check_payload. destruct (now <? from_Unix (Exp p)) eqn:Hexp; cbn [negb]; [|done].
  destruct (ParseRole (PRole p)) as [r|e|why] eqn:Hr; [|done..].
  apply ParseRole_Ok in Hr as [-> Hr]. exists p0, p1, p2, h, p. repeat split; try done. lia.
Qed.

(** C31: [Login] does not tell a client, by its error or by the comparisons it makes, why
    a login failed.  Whatever the repository, bcrypt and the clock answer, it looks up
    the normalized email once, compares the password exactly once - with the stored hash,
    or with the constant dummy hash when the email is unknown - and calls nothing else
    but the clock, which it reads for the token only after all checks: a token for the
    stored user exactly when the email is known, the comparison succeeds and the user is
    active, and otherwise, for each of the three failures, one and the same error.  The
    exception is a failure of the repository itself, which is an internal error without
    a comparison.  Over the in-memory users this gives the answer in closed form. *)
Theorem Login_indistinguishable `{!UuidText, !LocalZone, !Bcrypt, !CaseTables} (m : TokenManager)
    (req : LoginRequest) :
  conforms (login_protocol req) LStart (Login m req) (login_result m) /\
  forall w, let '(r, w') := run (Login m req) w in
    users w' = users w /\ compares w' = Datatypes.S (compares w) /\
    match users w !! normalizeEmail (lr_Email req) with
    | Some u =>
        if bcrypt_compare (PasswordHash u) (lr_Password req) && Active u then
          r = Ok (mkToken (Issue m (clock (source w) (ticks (source w))) (ID u) (URole u)).1 "Bearer"
                    (Z.quot (expiry m) second))
        else r = Err errInvalidCredentials
    | None => r = Err errInvalidCredentials
    end.
Proof.
  split; [apply Login_conforms|]. intros w.
  rewrite run_Login. unfold login_answer. destruct (users w !! _) as [u|]; [|done].
  by destruct (bcrypt_compare (PasswordHash u) (lr_Password req) && Active u).
Qed.

(** C30: over the in-memory user repository, after a successful registration exactly one
    user is added, under the
    normalized email: the id drawn, the given name and role, active, the clock reading,
    and of the password only the salted hash that bcrypt gave, so that no field but that one
    depends on the password; logging in with the registered
    email (in any case and padding that normalizes to it) and password succeeds, and
    the token verifies to the registered id and role until it expires. *)
Theorem Register_then_Login `{!UuidText, !LocalZone, !Bcrypt, !CaseTables} (m : TokenManager)
    (req : RegisterRequest) (email : string) (w : world) (now' : time) :
  validateRegister req = None -> rr_Role req = RoleAdmin \/ rr_Role req = RoleOperator ->
  users w !! normalizeEmail (rr_Email req) = None ->
  normalizeEmail email = normalizeEmail (rr_Email req) ->
  let id := uuid_String (draw (source w) (drawn (source w))) in
  let now := clock (source w) (ticks (source w)) in
  let login_at := clock (source w) (Datatypes.S (ticks (source w))) in
  in_int64 (Unix (login_at + expiry m)) -> in_int64 (Unix login_at) ->
  now' < from_Unix (Unix (login_at + expiry m)) ->
  exists hash w1 tok w2,
    bcrypt_generate (salts w) (rr_Password req) = Ok hash /\
    bcrypt_compare hash (rr_Password req) = true /\
    run (Register req) w =
      (Ok (mkUserResponse id (rr_Name req) (normalizeEmail (rr_Email req)) (rr_Role req)), w1) /\
    users w1 = <[normalizeEmail (rr_Email req) :=
                  mkUser id (rr_Name req) (normalizeEmail (rr_Email req)) hash (rr_Role req) true now now]> (users w) /\
    run (Login m (mkLogin email (rr_Password req))) w1 = (Ok tok, w2) /\ users w2 = users w1 /\
    Verify m now' (AccessToken tok) =
      Ok (mkClaims id (rr_Role req) (from_Unix (Unix (login_at + expiry m)))).
Proof.
  intros Hv Hr Hfree Hem. cbv zeta. intros Hexp Hiat Hnow.
  destruct (bcrypt_total (salts w) (rr_Password req)) as [hash Hh]; [by apply validateRegister_len|].
  assert (Hc : bcrypt_compare hash (rr_Password req) = true) by by eapply bcrypt_correct.
  exists hash, (after_register req hash w). eexists _, _. split; [exact Hh|]. split; [exact Hc|].
  split; [by apply run_Register|]. split; [reflexivity|].
  rewrite run_Login. unfold login_answer. cbn [lr_Email lr_Password].
  rewrite Hem. cbn [users after_register]. rewrite lookup_insert_eq. cbn [PasswordHash Active registered].
  rewrite Hc. cbn [andb]. cbv zeta. split; [reflexivity|]. split; [reflexivity|]. cbn [AccessToken].
  rewrite (Verify_Issue_lemma m _ now') by (done || apply uuid_String_ascii).
  by replace (now' <? _) with true by (symmetry; apply Z.ltb_lt; exact Hnow).
Qed.

Definition demo_register : RegisterRequest := mkRegister "Bob" " Bob@X.io " "secret1" "OPERATOR".

Lemma Register_then_Login_witness :
  let _ := bit_text in let _ := UTC in let _ := demo_bcrypt in let _ := no_tables in
  exists hash w1 tok w2,
    bcrypt_generate 0 "secret1" = Ok hash /\ bcrypt_compare hash "secret1" = true /\
    run (Register demo_register) no_users = (Ok (mkUserResponse (uuid_String 1) "Bob" "bob@x.io" "OPERATOR"), w1) /\
    users w1 = <["bob@x.io" := mkUser (uuid_String 1) "Bob" "bob@x.io" hash "OPERATOR" true 0 0]> ∅ /\
    run (Login demo_manager (mkLogin "BOB@x.io" "secret1")) w1 = (Ok tok, w2) /\ users w2 = users w1 /\
    Verify demo_manager 9 (AccessToken tok) = Ok (mkClaims (uuid_String 1) "OPERATOR" (7200 * second)).
Proof.
  cbv zeta.
  apply (@Register_then_Login bit_text UTC demo_bcrypt no_tables demo_manager demo_register
           "BOB@x.io" no_users 9).
  - vm_compute. reflexivity.
  - by right.
  - reflexivity.
  - vm_compute. reflexivity.
  - apply (bool_decide_unpack (in_int64 (Unix (1 + expiry demo_manager)))). vm_compute. exact I.
  - apply (bool_decide_unpack (in_int64 (Unix 1))). vm_compute. exact I.
  - apply (bool_decide_unpack (9 < from_Unix (Unix (1 + expiry demo_manager)))). vm_compute. exact I.
Defined.

(** Seeding the default admin succeeds, adds one active ADMIN with the
    documented password when the email is free, leaves every user alone when it is
    not, and a second run changes nothing. *)
Theorem SeedDefaultAdmin_idempotent `{!UuidText, !Bcrypt} (log log' : bool) (w : world) :
  let '(r, w1) := run (SeedDefaultAdmin log) w in
  r = Ok tt /\ run (SeedDefaultAdmin log') w1 = (Ok tt, w1) /\
  match users w !! defaultAdminEmail with
  | Some _ => w1 = w
  | None => exists u, users w1 = <[defaultAdminEmail := u]> (users w) /\ URole u = RoleAdmin /\
                      Active u = true /\ bcrypt_compare (PasswordHash u) "123456" = true
  end.
Proof.
  destruct (users w !! defaultAdminEmail) as [u|] eqn:Hu.
  - rewrite (run_Seed_present log w u) by done. split; [done|]. split; [by eapply run_Seed_present|done].
  - destruct (run_Seed_absent log w Hu) as (u & w1 & -> & Hw1 & _ & Hr & Ha & Hc).
    split; [done|]. split; [|by exists u].
    apply (run_Seed_present log' w1 u). by rewrite Hw1, lookup_insert_eq.
Qed.
End auth.
