(* ===== verification/OrderModel.v ===== *)
(** OrderModel: statuses and their transition table, the order data model, the
    request and response DTOs and the queue message of internal/order. *)
From S2P Require Import Prelude Errors GoStrings Money Pagination.

(** ** Statuses (status.go)

    [OrderStatus] is a defined string type: a value read back from the database
    is converted without validation, so the model keeps every string. *)
Abbreviation OrderStatus := string (only parsing).

Definition StatusCreated : OrderStatus := "CREATED".
Definition StatusProcessing : OrderStatus := "PROCESSING".
Definition StatusPaid : OrderStatus := "PAID".
Definition StatusShipped : OrderStatus := "SHIPPED".
Definition StatusCanceled : OrderStatus := "CANCELED".
Definition StatusFailed : OrderStatus := "FAILED".

Definition allStatuses : list OrderStatus :=
  [StatusCreated; StatusProcessing; StatusPaid; StatusShipped; StatusCanceled; StatusFailed].

Definition ParseOrderStatus `{CaseTables} (raw : string) : res OrderStatus :=
  let s := TrimSpace (ToUpper raw) in
  if bool_decide (s ∈ allStatuses) then Ok s
  else Err (ErrNew ("invalid order status: " +:+ Quote raw)).

Definition CanTransition (from to : OrderStatus) : bool :=
  if bool_decide (from = StatusCreated) then
    bool_decide (to = StatusProcessing) || bool_decide (to = StatusCanceled)
  else if bool_decide (from = StatusProcessing) then
    bool_decide (to = StatusPaid) || bool_decide (to = StatusFailed)
  else if bool_decide (from = StatusPaid) then bool_decide (to = StatusShipped)
  else false.

(** [AllStatuses] returns a copy of the table. *)
Definition AllStatuses : list OrderStatus := allStatuses.

(** ** Data model (model.go) *)
Record Order := mkOrder {
  o_ID : uuid;
  o_CustomerID : uuid;
  o_Status : OrderStatus;
  o_TotalAmount : Money;
  o_CreatedBy : uuid;
  o_CreatedAt : time;
  o_UpdatedAt : time;
  o_ProcessedAt : option time;
}.

Record OrderItem := mkItem {
  i_ID : uuid;
  i_OrderID : uuid;
  i_ProductID : uuid;
  i_Quantity : Z;
  i_UnitPrice : Money;
  i_TotalPrice : Money;
}.

#[export] Instance Order_eq_dec : EqDecision Order.
Proof. solve_decision. Defined.
#[export] Instance OrderItem_eq_dec : EqDecision OrderItem.
Proof. solve_decision. Defined.

Definition ItemTotal (unitPrice : Money) (quantity : Z) : Money := Multiply unitPrice quantity.

(** The loop starts from the zero [Money] and adds each item total. *)
Definition OrderTotal (itemTotals : list Money) : Money :=
  fold_left Add itemTotals (mkMoney 0).

(** Field assignments [order.Status = s], [order.UpdatedAt = t], ... *)
Definition set_Status (s : OrderStatus) (o : Order) : Order :=
  mkOrder (o_ID o) (o_CustomerID o) s (o_TotalAmount o) (o_CreatedBy o) (o_CreatedAt o)
    (o_UpdatedAt o) (o_ProcessedAt o).
Definition set_UpdatedAt (t : time) (o : Order) : Order :=
  mkOrder (o_ID o) (o_CustomerID o) (o_Status o) (o_TotalAmount o) (o_CreatedBy o)
    (o_CreatedAt o) t (o_ProcessedAt o).
Definition set_ProcessedAt (t : option time) (o : Order) : Order :=
  mkOrder (o_ID o) (o_CustomerID o) (o_Status o) (o_TotalAmount o) (o_CreatedBy o)
    (o_CreatedAt o) (o_UpdatedAt o) t.

(** ** DTOs (dto.go) and lookup views (ports.go) *)
Record CreateOrderItemInput := mkItemInput {
  ii_ProductID : uuid;
  ii_Quantity : Z;
}.

Record CreateOrderInput := mkOrderInput {
  in_CustomerID : uuid;
  in_Items : list CreateOrderItemInput;
}.

Record OrderItemOutput := mkItemOutput {
  io_ProductID : uuid;
  io_Quantity : Z;
  io_UnitPrice : Money;
  io_TotalPrice : Money;
}.

Record OrderOutput := mkOrderOutput {
  oo_ID : uuid;
  oo_CustomerID : uuid;
  oo_Status : OrderStatus;
  oo_TotalAmount : Money;
  oo_Items : list OrderItemOutput;
  oo_CreatedAt : time;
}.

Record OrderFilter := mkOrderFilter {
  f_CustomerID : option uuid;
  f_Status : option OrderStatus;
  f_StartDate : option time;
  f_EndDate : option time;
  f_Page : Z;
  f_PageSize : Z;
}.

Definition item_output (item : OrderItem) : OrderItemOutput :=
  mkItemOutput (i_ProductID item) (i_Quantity item) (i_UnitPrice item) (i_TotalPrice item).

Definition toOutput (order : Order) (items : list OrderItem) : OrderOutput :=
  mkOrderOutput (o_ID order) (o_CustomerID order) (o_Status order) (o_TotalAmount order)
    (item_output <$> items) (o_CreatedAt order).

(** The minimal customer and product views of the order package. *)
Record Customer := mkCustomer { c_ID : uuid; c_Active : bool }.
Record Product := mkProduct { p_ID : uuid; p_Price : Money; p_Active : bool }.

(** ** Queue message (queue.go) *)
Definition OrderCreatedEvent : string := "ORDER_CREATED".

Record OrderCreatedMessage := mkMessage {
  m_OrderID : uuid;
  m_Event : string;
  m_CreatedAt : time;
  m_RetryCount : Z;
}.

#[export] Instance OrderCreatedMessage_eq_dec : EqDecision OrderCreatedMessage.
Proof. solve_decision. Defined.

(** ** Shared lemmas *)
Definition sum_cents (l : list Money) : Z := fold_right (fun m acc => cents m + acc) 0 l.

Lemma fold_Add_sum l acc :
  in_int64 (cents acc) ->
  fold_left Add l acc = mkMoney (wrap64 (cents acc + sum_cents l)).
Proof.
  revert acc. induction l as [|m l IH]; intros acc Hacc; cbn [fold_left sum_cents fold_right].
  - rewrite Z.add_0_r, wrap64_id by done. by destruct acc.
  - rewrite IH by apply wrap64_range. unfold Add. cbn [cents].
    rewrite wrap64_add_l. do 2 f_equal. unfold sum_cents. lia.
Qed.

(** The accumulated total is the exact sum, truncated once. *)
Lemma OrderTotal_sum l : OrderTotal l = mkMoney (wrap64 (sum_cents l)).
Proof. unfold OrderTotal. rewrite fold_Add_sum by (cbn; solve_int64). done. Qed.

#[export] Instance OrderTotal_perm : Proper ((≡ₚ) ==> eq) OrderTotal.
Proof.
  intros l l' Hl. rewrite !OrderTotal_sum. do 2 f_equal. unfold sum_cents.
  induction Hl; cbn; lia.
Qed.

(** A number for each status that every transition increases. *)
Definition status_rank (s : OrderStatus) : nat :=
  if bool_decide (s = StatusCreated) then 0
  else if bool_decide (s = StatusProcessing) then 1
  else if bool_decide (s = StatusPaid) then 2 else 3.

Lemma CanTransition_inv from to :
  CanTransition from to = true ->
  (from = StatusCreated /\ (to = StatusProcessing \/ to = StatusCanceled)) \/
  (from = StatusProcessing /\ (to = StatusPaid \/ to = StatusFailed)) \/
  (from = StatusPaid /\ to = StatusShipped).
Proof.
  unfold CanTransition. repeat case_bool_decide; cbn; try discriminate; subst; tauto.
Qed.

Lemma CanTransition_rank from to :
  CanTransition from to = true -> (status_rank from < status_rank to)%nat.
Proof.
  intros H%CanTransition_inv.
  destruct H as [[-> [-> | ->]]|[[-> [-> | ->]]|[-> ->]]];
    apply Nat.ltb_lt; vm_compute; reflexivity.
Qed.

Lemma toOutput_items order items :
  oo_Items (toOutput order items) = item_output <$> items.
Proof. done. Qed.

(** ** Properties *)

(** The transition function is exactly the documented table (CREATED to
    PROCESSING or CANCELED, PROCESSING to PAID or FAILED, PAID to SHIPPED) on every
    pair of strings, unknown statuses included. *)
Theorem CanTransition_table (from to : OrderStatus) :
  CanTransition from to = true <->
  (from, to) ∈ [(StatusCreated, StatusProcessing); (StatusCreated, StatusCanceled);
                (StatusProcessing, StatusPaid); (StatusProcessing, StatusFailed);
                (StatusPaid, StatusShipped)].
Proof.
  split.
  - intros H%CanTransition_inv. set_solver.
  - rewrite !elem_of_cons, elem_of_nil. intros H.
    repeat destruct H as [[= -> ->]|H]; done.
Qed.

(** The lifecycle is acyclic: along any chain of allowed transitions
    the status never repeats, and a chain has at most three steps. *)
Theorem lifecycle_bounded (from to : OrderStatus) (n : nat) :
  nsteps (fun a b => CanTransition a b = true) n from to ->
  (n <= 3)%nat /\ (from = to -> n = 0%nat).
Proof.
  intros Hn.
  assert (Hrank : (status_rank from + n <= status_rank to)%nat).
  { induction Hn as [s|n a b c Hab _ IH]; [lia|].
    apply CanTransition_rank in Hab. lia. }
  assert ((status_rank to <= 3)%nat) by (unfold status_rank; repeat case_bool_decide; lia).
  split; [lia|]. intros ->. lia.
Qed.

Lemma lifecycle_bounded_witness :
  nsteps (fun a b => CanTransition a b = true) 3 StatusCreated StatusShipped /\ (3 <= 3)%nat.
Proof.
  assert (H : nsteps (fun a b => CanTransition a b = true) 3 StatusCreated StatusShipped).
  { econstructor 2; [|econstructor 2; [|econstructor 2; [|constructor]]].
    - instantiate (1 := StatusProcessing). reflexivity.
    - instantiate (1 := StatusPaid). reflexivity.
    - reflexivity. }
  split; [exact H|]. exact (proj1 (lifecycle_bounded _ _ _ H)).
Defined.

(** A status name is recognised in any ASCII letter case and with
    any one-byte blanks around it, and the parsed value is the canonical name. *)
Theorem ParseOrderStatus_normalizes `{CaseTables} (s : OrderStatus) (l w r : bytes) :
  s ∈ allStatuses -> upper_byte <$> w = to_bytes s -> Forall blank l -> Forall blank r ->
  ParseOrderStatus (of_bytes (l ++ w ++ r)) = Ok s.
Proof.
  intros Hs Hw Hl Hr. unfold ParseOrderStatus, TrimSpace.
  assert (Hup : Forall (fun c => byte_of c < 128) (to_bytes s)).
  { unfold allStatuses in Hs. rewrite !elem_of_cons, elem_of_nil in Hs.
    repeat destruct Hs as [->|Hs]; [..|done]; repeat constructor. }
  rewrite <- Hw, Forall_fmap in Hup.
  rewrite ToUpper_ascii, !to_of_bytes.
  2: { unfold is_ascii. rewrite to_of_bytes. repeat apply Forall_app_2.
       - eapply Forall_impl; [exact Hl|apply blank_ascii].
       - eapply Forall_impl; [exact Hup|apply upper_byte_ascii].
       - eapply Forall_impl; [exact Hr|apply blank_ascii]. }
  rewrite !fmap_app, Hw, (upper_bytes_blank l), (upper_bytes_blank r) by done.
  assert (Hvis : Forall visible (to_bytes s) /\ to_bytes s <> []).
  { unfold allStatuses in Hs. rewrite !elem_of_cons, elem_of_nil in Hs.
    repeat destruct Hs as [->|Hs]; [..|done]; (split; [|done]); repeat constructor; by compute. }
  rewrite trim_bytes_padded, of_to_bytes by (done || apply Hvis).
  by rewrite bool_decide_eq_true_2.
Qed.

Lemma ParseOrderStatus_normalizes_witness :
  @ParseOrderStatus no_tables " Paid  " = Ok StatusPaid.
Proof.
  apply (@ParseOrderStatus_normalizes no_tables StatusPaid (to_bytes " ") (to_bytes "Paid") (to_bytes "  ")).
  - apply (bool_decide_unpack (StatusPaid ∈ allStatuses)). vm_compute. exact I.
  - reflexivity.
  - repeat constructor.
  - repeat constructor.
Defined.

(** C35: the order total is the sum of quantity times unit price over the lines
    whenever that sum fits in an int64 (BR-ORD-004), even if a partial product or
    partial sum overflowed on the way; otherwise it is that sum modulo 2^64. *)
Theorem OrderTotal_exact (lines : list (Money * Z)) :
  let exact := fold_right (fun l acc => cents l.1 * l.2 + acc) 0 lines in
  let total := OrderTotal ((fun l => ItemTotal l.1 l.2) <$> lines) in
  cents total = wrap64 exact /\ (in_int64 exact -> cents total = exact).
Proof.
  cbv zeta. rewrite OrderTotal_sum. cbn [cents].
  assert (He : wrap64 (sum_cents ((fun l => ItemTotal l.1 l.2) <$> lines)) =
               wrap64 (fold_right (fun l acc => cents l.1 * l.2 + acc) 0 lines)).
  { induction lines as [|[m q] lines IH]; [done|]. rewrite fmap_cons.
    cbn [sum_cents fold_right ItemTotal Multiply cents fst snd].
    rewrite wrap64_add_l, <- wrap64_add_r. unfold sum_cents in IH. rewrite IH.
    by rewrite wrap64_add_r. }
  rewrite He. split; [done|]. apply wrap64_id.
Qed.
