(* ===== verification/OrderRepo.v ===== *)
(** OrderRepo: the persistence port of internal/order (OrderRepository), what it
    promises as an abstract store, and the in-memory adapter that implements it. *)
From S2P Require Import Prelude Errors Effects Uuid Money Pagination OrderModel.

(** ** The port *)
Inductive repoE : Type -> Type :=
| CreateWithItems (order : option Order) (items : list OrderItem) : repoE (res unit)
| FindByID (id : uuid) : repoE (res (Order * list OrderItem))
| UpdateStatus (id : uuid) (status : OrderStatus) : repoE (res unit)
| MarkProcessed (id : uuid) (status : OrderStatus) (processedAt : time) : repoE (res unit)
| ListOrders (filter : OrderFilter) : repoE (res (Page Order)).

Definition matchesOrder (o : Order) (filter : OrderFilter) : bool :=
  match f_CustomerID filter with Some c => bool_decide (o_CustomerID o = c) | None => true end
  && match f_Status filter with Some s => bool_decide (o_Status o = s) | None => true end
  && match f_StartDate filter with Some t => negb (o_CreatedAt o <? t) | None => true end
  && match f_EndDate filter with Some t => negb (t <? o_CreatedAt o) | None => true end.

(** ** What the port promises: an abstract store *)
Abbreviation entry := (Order * list OrderItem)%type (only parsing).
Abbreviation store := (gmap uuid (Order * list OrderItem)) (only parsing).

Definition ErrOrderNotFound : error := ErrVar OrderErrOrderNotFound.

(** An error the callers do not take for "not found". *)
Definition infra (e : error) : Prop := errors_Is e OrderErrOrderNotFound = false.

(** An update of the order row of [id] by [f]: the new store, if there is a row. *)
Definition store_update (id : uuid) (f : Order -> Order) (s : store) : option store :=
  match s !! id with
  | Some (o, its) => Some (<[id := (f o, its)]> s)
  | None => None
  end.

(** A write either answers with an infrastructure failure, in which case it may or
    may not have taken effect (a lost acknowledgement), or does what it says. *)
Definition write_spec (s : store) (target : option store) (notFound : bool)
    (x : res unit) (s' : store) : Prop :=
  (exists e, x = Err e /\ infra e /\ (s' = s \/ target = Some s')) \/
  (x = Ok tt /\ target = Some s') \/
  (notFound = true /\ x = Err ErrOrderNotFound /\ target = None /\ s' = s).

Definition status_update (st : OrderStatus) (t : time) (o : Order) : Order :=
  set_UpdatedAt t (set_Status st o).

Definition processed_update (st : OrderStatus) (t : time) (o : Order) : Order :=
  set_UpdatedAt t (set_ProcessedAt (Some t) (set_Status st o)).

(** The page a listing asks for: a window of the matching orders, all of them, in the
    order of their creation; nothing is said of orders created at the same instant. *)
Definition listing (s : store) (f : OrderFilter) (l : list Order) : Prop :=
  exists sorted,
    StronglySorted (fun o p => o_CreatedAt o <= o_CreatedAt p) sorted /\ NoDup (o_ID <$> sorted) /\
    (forall o, o ∈ sorted <-> (exists its, s !! o_ID o = Some (o, its)) /\ matchesOrder o f = true) /\
    l = take (Z.to_nat (f_PageSize f)) (drop (Z.to_nat ((f_Page f - 1) * f_PageSize f)) sorted).

Definition repo_spec {X} (e : repoE X) : store -> X -> store -> Prop :=
  match e in repoE X return store -> X -> store -> Prop with
  | CreateWithItems order items => fun s x s' =>
      write_spec s ((fun o => <[o_ID o := (o, items)]> s) <$> order) false x s'
  | FindByID id => fun s x s' =>
      s' = s /\
      ((exists en, s !! id = Some en /\ x = Ok en) \/
       (s !! id = None /\ x = Err ErrOrderNotFound) \/
       (exists er, infra er /\ x = Err er))
  | UpdateStatus id st => fun s x s' =>
      exists t, write_spec s (store_update id (status_update st t) s) true x s'
  | MarkProcessed id st t => fun s x s' =>
      write_spec s (store_update id (processed_update st t) s) true x s'
  | ListOrders f => fun s x s' =>
      s' = s /\
      match x with
      | Ok page =>
          Forall (fun o => exists its, s !! o_ID o = Some (o, its) /\ matchesOrder o f = true) (pg_Items page) /\
          (page_in_range (f_Page f) (f_PageSize f) -> Z.of_nat (size s) + f_PageSize f <= int64_max ->
           listing s f (pg_Items page))
      | _ => True
      end
  end.

(** What the port promises when the store never fails: each call does what it says, or
    refuses for a reason of its own and changes nothing.  [now] is the value of the clock
    in the call.  A create is refused without an order, without items, or with an item of
    another order. *)
Definition creatable (order : option Order) (its : list OrderItem) : Prop :=
  exists o, order = Some o /\ its <> [] /\ Forall (fun i => i_OrderID i = o_ID o) its.

Definition prompt_write (target : option store) (s : store) (x : res unit) (s' : store) : Prop :=
  match target with
  | Some s1 => x = Ok tt /\ s' = s1
  | None => x = Err ErrOrderNotFound /\ s' = s
  end.

Definition prompt_spec {X} (e : repoE X) (now : time) : store -> X -> store -> Prop :=
  match e in repoE X return store -> X -> store -> Prop with
  | CreateWithItems order its => fun s x s' =>
      (exists o, order = Some o /\ creatable order its /\ x = Ok tt /\ s' = <[o_ID o := (o, its)]> s) \/
      (~ creatable order its /\ (exists e, x = Err e /\ infra e) /\ s' = s)
  | FindByID id => fun s x s' =>
      s' = s /\ x = match s !! id with Some en => Ok en | None => Err ErrOrderNotFound end
  | UpdateStatus id st => fun s x s' => prompt_write (store_update id (status_update st now) s) s x s'
  | MarkProcessed id st t => fun s x s' => prompt_write (store_update id (processed_update st t) s) s x s'
  | ListOrders f => fun s x s' =>
      s' = s /\
      (page_in_range (f_Page f) (f_PageSize f) -> Z.of_nat (size s) + f_PageSize f <= int64_max ->
       exists page, x = Ok page /\ listing s f (pg_Items page))
  end.

(** What an adapter keeps of a call: it may cut timestamps and order the items its own
    way, and a listing may read its bounds with the same precision. *)
Definition same_order (o o' : Order) : Prop :=
  o_ID o' = o_ID o /\ o_CustomerID o' = o_CustomerID o /\ o_Status o' = o_Status o /\
  o_TotalAmount o' = o_TotalAmount o /\ o_CreatedBy o' = o_CreatedBy o.

Definition stored_as {X} (e : repoE X) : repoE X -> Prop :=
  match e in repoE X return repoE X -> Prop with
  | CreateWithItems None _ => fun e' => exists its', e' = CreateWithItems None its'
  | CreateWithItems (Some o) its => fun e' =>
      exists o' its', e' = CreateWithItems (Some o') its' /\ same_order o o' /\ its ≡ₚ its'
  | FindByID id => fun e' => e' = FindByID id
  | UpdateStatus id st => fun e' => e' = UpdateStatus id st
  | MarkProcessed id st _ => fun e' => exists t, e' = MarkProcessed id st t
  | ListOrders _ => fun e' => exists f, e' = ListOrders f
  end.

Lemma stored_as_refl {X} (e : repoE X) : stored_as e e.
Proof. destruct e as [[o|] its|id|id st|id st t|f]; cbn; try by eauto. by exists o, its. Qed.

(** ** The in-memory adapter (repository.go)

    Two Go maps under one mutex; [OnCreate] is the test hook, [Some calls] when it
    is set. *)
Record InMemoryRepository := mkMem {
  orders : gmap uuid Order;
  items : gmap uuid (list OrderItem);
  CommitCount : Z;
  OnCreate : option (list uuid);
}.

Definition NewInMemoryRepository : InMemoryRepository := mkMem ∅ ∅ 0 None.

Definition mem_CreateWithItems (order : option Order) (its : list OrderItem)
    (r : InMemoryRepository) : res unit * InMemoryRepository :=
  match order with
  | None => (Err (ErrNew "order is nil"), r)
  | Some o =>
      if bool_decide (its = []) then (Err (ErrNew "order must have items"), r)
      else if forallb (fun i => bool_decide (i_OrderID i = o_ID o)) its then
        (Ok tt, mkMem (<[o_ID o := o]> (orders r)) (<[o_ID o := its]> (items r))
                  (wrap64 (CommitCount r + 1))
                  ((fun calls => calls ++ [o_ID o]) <$> OnCreate r))
      else (Err (ErrNew "item order_id mismatch"), r)
  end.

(** A missing [items] entry reads as the nil slice. *)
Definition mem_items (r : InMemoryRepository) (id : uuid) : list OrderItem :=
  default [] (items r !! id).

Definition mem_FindByID (id : uuid) (r : InMemoryRepository) : res (Order * list OrderItem) :=
  match orders r !! id with
  | None => Err ErrOrderNotFound
  | Some o => Ok (o, mem_items r id)
  end.

Definition mem_set_order (id : uuid) (o : Order) (r : InMemoryRepository) : InMemoryRepository :=
  mkMem (<[id := o]> (orders r)) (items r) (CommitCount r) (OnCreate r).

Definition mem_UpdateStatus (id : uuid) (status : OrderStatus) (now : time)
    (r : InMemoryRepository) : res unit * InMemoryRepository :=
  match orders r !! id with
  | None => (Err ErrOrderNotFound, r)
  | Some o => (Ok tt, mem_set_order id (set_UpdatedAt now (set_Status status o)) r)
  end.

Definition mem_MarkProcessed (id : uuid) (status : OrderStatus) (processedAt : time)
    (r : InMemoryRepository) : res unit * InMemoryRepository :=
  match orders r !! id with
  | None => (Err ErrOrderNotFound, r)
  | Some o =>
      (Ok tt, mem_set_order id
                (set_UpdatedAt processedAt (set_ProcessedAt (Some processedAt) (set_Status status o))) r)
  end.

Section listing.
Context `{!UuidText}.

(** The values of the map in some iteration order; Pagination.listing_deterministic
    shows that the order does not matter. *)
Definition mem_values (r : InMemoryRepository) : list Order := (map_to_list (orders r)).*2.

Definition mem_List (filter : OrderFilter) (r : InMemoryRepository) : res (Page Order) :=
  let matched := sort_Slice o_CreatedAt o_ID
                   (base.filter (fun o => matchesOrder o filter = true) (mem_values r)) in
  let total := Z.of_nat (length matched) in
  match page_slice matched (f_Page filter) (f_PageSize filter) with
  | Ok its => Ok (mkPage its (f_Page filter) (f_PageSize filter) total
                    (guarded_pages total (f_PageSize filter)))
  | Err e => Err e
  | Panic m => Panic m
  end.

(** Dispatch of the port; [now] is the value of [time.Now()] in the call. *)
Definition mem_handle {X} (e : repoE X) (now : time) (r : InMemoryRepository)
    : X * InMemoryRepository :=
  match e in repoE X return X * InMemoryRepository with
  | CreateWithItems o its => mem_CreateWithItems o its r
  | FindByID id => (mem_FindByID id r, r)
  | UpdateStatus id st => mem_UpdateStatus id st now r
  | MarkProcessed id st t => mem_MarkProcessed id st t r
  | ListOrders f => (mem_List f r, r)
  end.
End listing.

(** ** Refinement of the abstract store *)
Definition mem_store (r : InMemoryRepository) : store :=
  map_imap (fun id o => Some (o, mem_items r id)) (orders r).

(** The key of an entry is the id of its order. *)
Definition mem_ok (r : InMemoryRepository) : Prop := map_Forall (fun id o => o_ID o = id) (orders r).

Lemma mem_store_lookup r id :
  mem_store r !! id = (fun o => (o, mem_items r id)) <$> orders r !! id.
Proof. unfold mem_store. rewrite map_lookup_imap. by destruct (orders r !! id). Qed.

Lemma mem_store_set_order r id o its :
  mem_store r !! id = Some its ->
  mem_store (mem_set_order id o r) = <[id := (o, its.2)]> (mem_store r).
Proof.
  rewrite mem_store_lookup. intros Hs. apply map_eq. intros j. rewrite mem_store_lookup.
  unfold mem_items, mem_set_order; cbn. destruct (decide (id = j)) as [<-|Hne].
  - rewrite !lookup_insert_eq. cbn. destruct (orders r !! id); cbn in Hs; by simplify_eq.
  - by rewrite !lookup_insert_ne, mem_store_lookup by done.
Qed.

Lemma mem_store_create r o its :
  mem_store (mkMem (<[o_ID o := o]> (orders r)) (<[o_ID o := its]> (items r))
               (wrap64 (CommitCount r + 1)) ((fun calls => calls ++ [o_ID o]) <$> OnCreate r)) =
  <[o_ID o := (o, its)]> (mem_store r).
Proof.
  apply map_eq. intros j. rewrite mem_store_lookup. unfold mem_items; cbn.
  destruct (decide (o_ID o = j)) as [<-|Hne].
  - by rewrite !lookup_insert_eq.
  - by rewrite !lookup_insert_ne, mem_store_lookup by done.
Qed.

Lemma mem_set_order_ok id f r :
  (forall o, o_ID (f o) = o_ID o) -> mem_ok r ->
  forall o, orders r !! id = Some o -> mem_ok (mem_set_order id (f o) r).
Proof.
  intros Hf Hr o Ho. unfold mem_ok, mem_set_order; cbn. apply map_Forall_insert_2; [|done].
  rewrite Hf. by apply (Hr id).
Qed.

Section refinement.
Context `{!UuidText}.

Lemma elem_of_mem_values r o :
  o ∈ mem_values r <-> exists id, orders r !! id = Some o.
Proof.
  unfold mem_values. rewrite list_elem_of_fmap. split.
  - intros ([id o'] & -> & Hin). exists id. by apply elem_of_map_to_list.
  - intros [id Ho]. exists (id, o). split; [done|]. by apply elem_of_map_to_list.
Qed.

Lemma mem_values_ids r : mem_ok r -> o_ID <$> mem_values r = (map_to_list (orders r)).*1.
Proof.
  intros Hr. unfold mem_values. rewrite <- list_fmap_compose. apply list_fmap_ext.
  intros i [id o] Hi. cbn. apply (Hr id). apply elem_of_map_to_list.
  by apply list_elem_of_lookup_2 in Hi.
Qed.

Lemma mem_values_nodup r : mem_ok r -> NoDup (o_ID <$> mem_values r).
Proof. intros Hr. rewrite mem_values_ids by done. apply NoDup_fst_map_to_list. Qed.

Lemma mem_List_items filter r page :
  mem_List filter r = Ok page ->
  Forall (fun o => o ∈ mem_values r /\ matchesOrder o filter = true) (pg_Items page).
Proof.
  unfold mem_List. case_match eqn:Hps; [|done..]. intros [= <-]. cbn.
  unfold page_slice, slice in Hps. case_match; [|done]. injection Hps as <-.
  apply Forall_take, Forall_drop, Forall_forall. intros o Ho.
  destruct (sort_Slice_sorted o_CreatedAt o_ID
    (base.filter (fun o => matchesOrder o filter = true) (mem_values r))) as [Hp _].
  rewrite Hp, list_elem_of_filter in Ho. tauto.
Qed.

Lemma write_spec_fail s target nf e :
  infra e -> write_spec s target nf (Err e) s.
Proof. intros He. left. exists e. auto. Qed.

Lemma write_spec_ok s s' nf : write_spec s (Some s') nf (Ok tt) s'.
Proof. right; left. done. Qed.

Lemma write_spec_missing s : write_spec s None true (Err ErrOrderNotFound) s.
Proof. right; right. done. Qed.

(** A store has as many entries as the map of orders. *)
Lemma mem_store_size r : size (mem_store r) = size (orders r).
Proof.
  rewrite <- !size_dom. f_equal. apply set_eq. intros id. rewrite !elem_of_dom, mem_store_lookup.
  by rewrite fmap_is_Some.
Qed.

Definition matching (f : OrderFilter) (r : InMemoryRepository) : list Order :=
  base.filter (fun o => matchesOrder o f = true) (mem_values r).

Lemma matching_nodup f r : mem_ok r -> NoDup (o_ID <$> matching f r).
Proof. intros Hr. by apply NoDup_fmap_filter, mem_values_nodup. Qed.

Lemma matching_length f r : (length (matching f r) <= size (orders r))%nat.
Proof.
  unfold matching. etrans; [apply length_filter|].
  unfold mem_values. by rewrite length_fmap, length_map_to_list.
Qed.

(** The page of a request whose arithmetic stays in range. *)
Lemma mem_List_window f r :
  page_in_range (f_Page f) (f_PageSize f) ->
  Z.of_nat (size (orders r)) + f_PageSize f <= int64_max ->
  let sorted := sort_Slice o_CreatedAt o_ID (matching f r) in
  mem_List f r =
    Ok (mkPage (take (Z.to_nat (f_PageSize f)) (drop (Z.to_nat ((f_Page f - 1) * f_PageSize f)) sorted))
          (f_Page f) (f_PageSize f) (Z.of_nat (length sorted))
          ((Z.of_nat (length sorted) + f_PageSize f - 1) / f_PageSize f)).
Proof.
  intros Hp Hsize. cbv zeta. unfold mem_List. fold (matching f r).
  assert (Hlen : (length (sort_Slice o_CreatedAt o_ID (matching f r)) <= size (orders r))%nat).
  { destruct (sort_Slice_sorted o_CreatedAt o_ID (matching f r)) as [Hperm _].
    rewrite Hperm. apply matching_length. }
  destruct Hp as (Hp1 & Hp2 & Hp3).
  rewrite page_slice_exact, guarded_pages_exact by (unfold page_in_range; lia). done.
Qed.

Lemma mem_List_listing f r :
  mem_ok r -> page_in_range (f_Page f) (f_PageSize f) ->
  Z.of_nat (size (mem_store r)) + f_PageSize f <= int64_max ->
  exists page, mem_List f r = Ok page /\ listing (mem_store r) f (pg_Items page).
Proof.
  rewrite mem_store_size. intros Hr Hp Hsize. eexists. split; [by apply mem_List_window|]. cbn.
  destruct (sort_Slice_sorted o_CreatedAt o_ID (matching f r)) as [Hperm Hsorted].
  exists (sort_Slice o_CreatedAt o_ID (matching f r)). split_and!; [| | |done].
  - eapply StronglySorted_weaken; [|exact Hsorted]. intros o p. rewrite ordered_spec. lia.
  - rewrite Hperm. by apply matching_nodup.
  - intros o. rewrite Hperm. unfold matching. rewrite list_elem_of_filter, elem_of_mem_values. split.
    + intros [Hm [id Ho]]. split; [|done]. rewrite mem_store_lookup, (Hr id o Ho), Ho. by eexists.
    + intros [[its Hs] Hm]. split; [done|]. exists (o_ID o). rewrite mem_store_lookup in Hs.
      destruct (orders r !! o_ID o); [|done]. by injection Hs as -> _.
Qed.

(** The adapter never fails a call of its own accord, and keeps its invariant. *)
Lemma mem_prompt {X} (e : repoE X) now r :
  mem_ok r ->
  prompt_spec e now (mem_store r) (mem_handle e now r).1 (mem_store (mem_handle e now r).2) /\
  mem_ok (mem_handle e now r).2.
Proof.
  intros Hr. destruct e as [order its|id|id st|id st t|f]; cbn.
  - unfold mem_CreateWithItems, creatable. destruct order as [o|].
    2: { split; [|done]. right. split; [by intros (o & ? & _)|]. split; [by eexists|done]. }
    case_bool_decide as Hne.
    { split; [|done]. right. split; [by intros (? & _ & ? & _)|]. split; [by eexists|done]. }
    destruct (forallb _ its) eqn:Hall; cbn.
    + split; [|by apply map_Forall_insert_2]. left. exists o. split; [done|].
      split; [|by rewrite mem_store_create]. exists o. split; [done|]. split; [done|].
      rewrite forallb_forall in Hall. apply Forall_forall. intros i Hi.
      by apply list_elem_of_In, Hall, bool_decide_eq_true in Hi.
    + split; [|done]. right. split; [|by split; [eexists|]]. intros (o' & [= <-] & _ & Hids).
      apply not_true_iff_false in Hall. apply Hall, forallb_forall. intros i Hi%list_elem_of_In.
      rewrite Forall_forall in Hids. by apply bool_decide_eq_true, Hids.
  - split; [split; [done|]|done]. unfold mem_FindByID. rewrite mem_store_lookup. by destruct (orders r !! id).
  - unfold mem_UpdateStatus, store_update. rewrite mem_store_lookup.
    destruct (orders r !! id) as [o|] eqn:Ho; cbn; [|done].
    split; [|by apply (mem_set_order_ok id (status_update st now))]. split; [done|].
    apply (mem_store_set_order r id _ (o, mem_items r id)). by rewrite mem_store_lookup, Ho.
  - unfold mem_MarkProcessed, store_update. rewrite mem_store_lookup.
    destruct (orders r !! id) as [o|] eqn:Ho; cbn; [|done].
    split; [|by apply (mem_set_order_ok id (processed_update st t))]. split; [done|].
    apply (mem_store_set_order r id _ (o, mem_items r id)). by rewrite mem_store_lookup, Ho.
  - split; [split; [done|]|done]. by apply mem_List_listing.
Qed.

Lemma prompt_write_spec target s x s' : prompt_write target s x s' -> write_spec s target true x s'.
Proof.
  destruct target as [s1|]; intros [-> ->]; [apply write_spec_ok|apply write_spec_missing].
Qed.

(** The adapter implements the abstract store and keeps its invariant. *)
Lemma mem_refines {X} (e : repoE X) now r :
  mem_ok r ->
  repo_spec e (mem_store r) (mem_handle e now r).1 (mem_store (mem_handle e now r).2) /\
  mem_ok (mem_handle e now r).2.
Proof.
  intros Hr. destruct (mem_prompt e now r Hr) as [Hspec Hok]. split; [|done].
  destruct e as [order its|id|id st|id st t|f]; cbn [prompt_spec repo_spec] in *.
  - destruct Hspec as [(o & -> & _ & -> & ->)|(_ & (er & -> & He) & ->)]; [apply write_spec_ok|].
    by apply write_spec_fail.
  - destruct Hspec as [-> ->]. split; [done|]. destruct (mem_store r !! id); [|by eauto]. left. by eexists.
  - exists now. by apply prompt_write_spec.
  - by apply prompt_write_spec.
  - destruct Hspec as [-> Hlist]. split; [done|]. cbn [mem_handle fst] in *.
    destruct (mem_List f r) as [page|er|why] eqn:Hl; [|done..]. split.
    + apply mem_List_items in Hl. eapply Forall_impl; [exact Hl|].
      intros o [[id Ho]%elem_of_mem_values Hm]. exists (mem_items r id).
      rewrite mem_store_lookup, (Hr id o Ho), Ho. done.
    + intros Hp Hsize. destruct (Hlist Hp Hsize) as (page' & [= <-] & Hpage). done.
Qed.
End refinement.

#[export] Hint Resolve map_Forall_empty : go_inv.

(** ** Properties *)

(** C23: the in-memory repository implements the contract of its port without failing
    of its own accord.  On its two maps every operation does exactly what it says: a
    create of an order with items of its own stores it under its id, and any other create
    is refused and stores nothing; a find answers the entry of the id, or that there is
    none; an update changes the status and the times of a stored order - with the value
    of the clock, or the given instant - and answers that there is none otherwise; a
    listing whose page arithmetic stays in range answers its window of the matching
    orders by creation time.  Each order stays under its own id. *)
Theorem InMemoryRepository_refines `{!UuidText} {X} (e : repoE X) (now : time)
    (r : InMemoryRepository) :
  mem_ok r ->
  let '(x, r') := mem_handle e now r in
  prompt_spec e now (mem_store r) x (mem_store r') /\
  repo_spec e (mem_store r) x (mem_store r') /\ mem_ok r'.
Proof.
  intros Hr. pose proof (mem_refines e now r Hr) as [Href _]. pose proof (mem_prompt e now r Hr) as [Hp Hok].
  by destruct (mem_handle e now r) as [x r'].
Qed.

(** A repository with one order. *)
Definition listing_example_repo : InMemoryRepository :=
  (mem_CreateWithItems (Some (mkOrder 5 1 StatusCreated (mkMoney 100) 1 30 30 None))
     [mkItem 6 5 9 1 (mkMoney 100) (mkMoney 100)] NewInMemoryRepository).2.

Lemma listing_example_ok : mem_ok listing_example_repo.
Proof.
  apply (bool_decide_unpack (map_Forall (fun id o => o_ID o = id) (orders listing_example_repo))).
  vm_compute. exact I.
Qed.

(** An order with an item of another order is refused; then its status is changed. *)
Lemma InMemoryRepository_refines_witness :
  let _ := bit_text in
  let s := mem_store listing_example_repo in
  let o := mkOrder 7 1 StatusCreated (mkMoney 100) 1 30 30 None in
  (~ creatable (Some o) [mkItem 6 5 9 1 (mkMoney 100) (mkMoney 100)] /\
   mem_store (mem_CreateWithItems (Some o) [mkItem 6 5 9 1 (mkMoney 100) (mkMoney 100)] listing_example_repo).2 = s) /\
  prompt_write (store_update 5 (status_update StatusCanceled 99) s) s (Ok tt)
    (mem_store (mem_UpdateStatus 5 StatusCanceled 99 listing_example_repo).2).
Proof.
  cbv zeta. split.
  - destruct (@InMemoryRepository_refines bit_text _
                (CreateWithItems (Some (mkOrder 7 1 StatusCreated (mkMoney 100) 1 30 30 None))
                   [mkItem 6 5 9 1 (mkMoney 100) (mkMoney 100)]) 99 listing_example_repo listing_example_ok)
      as [[(o & _ & _ & Hx & _)|(Hn & _ & Hs)] _]; [discriminate Hx|]. split; [exact Hn|exact Hs].
  - exact (proj1 (@InMemoryRepository_refines bit_text _ (UpdateStatus 5 StatusCanceled) 99
                    listing_example_repo listing_example_ok)).
Defined.

(** C32: a listing of the in-memory repository returns exactly the stored orders that
    match the filter, in creation order (ties by id text), cut to the requested page: the
    items are the page's window of the sorted matching orders, and the totals count all
    of them.  This holds for every page number and size of at least one whose last index
    fits an int64, as long as the stored orders and one page do. *)
Theorem mem_List_exact `{!UuidText} (filter : OrderFilter) (r : InMemoryRepository)
    (sorted : list Order) :
  mem_ok r ->
  page_in_range (f_Page filter) (f_PageSize filter) ->
  Z.of_nat (size (orders r)) + f_PageSize filter <= int64_max ->
  StronglySorted (ordered o_CreatedAt o_ID) sorted ->
  NoDup (o_ID <$> sorted) ->
  (forall o, o ∈ sorted <-> (exists id, orders r !! id = Some o) /\ matchesOrder o filter = true) ->
  mem_List filter r =
    Ok (mkPage
          (take (Z.to_nat (f_PageSize filter))
             (drop (Z.to_nat ((f_Page filter - 1) * f_PageSize filter)) sorted))
          (f_Page filter) (f_PageSize filter) (Z.of_nat (length sorted))
          ((Z.of_nat (length sorted) + f_PageSize filter - 1) / f_PageSize filter)).
Proof.
  intros Hr Hp Hsize Hsorted Hnd Hiff.
  rewrite mem_List_window by done.
  enough (sort_Slice o_CreatedAt o_ID (matching filter r) = sorted) as -> by done.
  assert (Hperm : sorted ≡ₚ matching filter r).
  { apply NoDup_Permutation; [by eapply NoDup_fmap_1|by eapply NoDup_fmap_1, matching_nodup|].
    intros o. rewrite Hiff. unfold matching. rewrite list_elem_of_filter, elem_of_mem_values. tauto. }
  apply (sorted_by_less_unique o_CreatedAt o_ID (matching filter r) _ _ (matching filter r));
    [by apply matching_nodup|done|apply sort_Slice_sorted|by split].
Qed.

Lemma mem_List_exact_witness :
  let _ := bit_text in
  let o := mkOrder 5 1 StatusCreated (mkMoney 100) 1 30 30 None in
  mem_List (mkOrderFilter None (Some StatusCreated) None None 1 20) listing_example_repo =
    Ok (mkPage [o] 1 20 1 1).
Proof.
  cbv zeta.
  apply (@mem_List_exact bit_text (mkOrderFilter None (Some StatusCreated) None None 1 20)
           listing_example_repo [mkOrder 5 1 StatusCreated (mkMoney 100) 1 30 30 None]).
  - exact listing_example_ok.
  - unfold page_in_range, int64_max; cbn; lia.
  - unfold int64_max. vm_compute. discriminate.
  - repeat constructor.
  - apply (bool_decide_unpack (NoDup (A:=N) [5%N])). vm_compute. exact I.
  - intros o. rewrite list_elem_of_singleton. split.
    + intros ->. split; [exists 5%N; reflexivity|reflexivity].
    + intros [[id Hid] _]. 
      change (orders listing_example_repo) with
        (<[5%N := mkOrder 5 1 StatusCreated (mkMoney 100) 1 30 30 None]> (∅ : gmap uuid Order)) in Hid.
      rewrite lookup_insert in Hid. case_decide; [congruence|]. by rewrite lookup_empty in Hid.
Defined.
