(* ===== verification/OrderService.v ===== *)
(** OrderService: the order use cases of internal/order/service.go (create,
    process, cancel, ship, find, list) as programs over the ports the service is
    built from, and what they guarantee whatever those ports answer. *)
From S2P Require Import Prelude Errors Effects Uuid GoStrings Money Pagination OrderModel OrderRepo.

(** ** The ports of the service (ports.go, the Service struct)

    The repository, the customer and product lookups, the producer, the
    inconsistency logger, the metrics, the process log, the clock, [uuid.New] and
    the payment processor handed to [Process]. *)
Inductive orderE : Type -> Type :=
| Repo {X : Type} (e : repoE X) : orderE X
| FindCustomer (id : uuid) : orderE (res Customer)
| FindProducts (ids : list uuid) : orderE (res (list Product))
| PublishOrderCreated (msg : OrderCreatedMessage) : orderE (res unit)
| LogPublishFailureAfterCommit (orderID : uuid) (err : error) : orderE unit
| IncOrdersCreated : orderE unit
| IncOrdersProcessed : orderE unit
| IncOrdersFailed : orderE unit
| RecordProcessingDuration (nanoseconds : Z) : orderE unit
| ProcessLog (msg : string) (orderID : option uuid) (err : option error) : orderE unit
| Now : orderE time
| NewUUID : orderE uuid
| ProcessPayment (order : Order) : orderE (res unit).

Abbreviation order_prog := (prog orderE) (only parsing).

Definition DefaultPageSize : Z := 20.
Definition MaxPageSize : Z := 100.

Definition mapOrderRepoErr (err : error) : error :=
  if errors_Is err OrderErrOrderNotFound then NotFound "order not found"
  else Internal "repository error" err.

(** ** Create *)

(** The checks of one item, in the order of the loop body. *)
Definition validate_item (item : CreateOrderItemInput) : option error :=
  if ii_Quantity item <? 1 then Some (Validation "item quantity must be greater than zero")
  else if bool_decide (ii_ProductID item = uuid_Nil) then Some (Validation "product_id is required")
  else None.

Fixpoint validate_items (l : list CreateOrderItemInput) : option error :=
  match l with
  | [] => None
  | item :: l' => match validate_item item with Some e => Some e | None => validate_items l' end
  end.

Definition validate_input (input : CreateOrderInput) : option error :=
  if bool_decide (in_CustomerID input = uuid_Nil) then Some (Validation "customer_id is required")
  else if bool_decide (in_Items input = []) then
    Some (Validation "order must have at least one item")
  else validate_items (in_Items input).

(** The map filled by ranging over the loaded products: the last one wins. *)
Definition index_products (loaded : list Product) : gmap uuid Product :=
  fold_left (fun m p => <[p_ID p := p]> m) loaded ∅.

(** One iteration of the loop that prices the lines. *)
Definition price_line (productByID : gmap uuid Product) (orderID : uuid)
    (acc : list Money * list OrderItem) (line : CreateOrderItemInput)
    : order_prog (res (list Money * list OrderItem)) :=
  match productByID !! ii_ProductID line with
  | None => Ret (Err (NotFound "product not found"))
  | Some product =>
      if negb (p_Active product) then
        Ret (Err (InactiveProduct "inactive products cannot be used in new orders"))
      else
        let unitPrice := p_Price product in
        let lineTotal := ItemTotal unitPrice (ii_Quantity line) in
        itemID <- call NewUUID ;;
        Ret (Ok (acc.1 ++ [lineTotal],
                 acc.2 ++ [mkItem itemID orderID (ii_ProductID line) (ii_Quantity line)
                             unitPrice lineTotal]))
  end.

(** Commit, publish after the commit, count. *)
Definition persist_and_publish (order : Order) (orderItems : list OrderItem)
    : order_prog (res OrderOutput) :=
  _ <-! call (Repo (CreateWithItems (Some order) orderItems))
        catch (fun err => Err (Internal "could not create order" err)) ;;
  let msg := mkMessage (o_ID order) OrderCreatedEvent (o_CreatedAt order) 0 in
  published <- call (PublishOrderCreated msg) ;;
  match published with
  | Err err =>
      call (LogPublishFailureAfterCommit (o_ID order) err) ;;;
      Ret (Err (Internal "order was created but could not be queued for processing" err))
  | Panic m => Ret (Panic m)
  | Ok _ =>
      call IncOrdersCreated ;;;
      Ret (Ok (toOutput order orderItems))
  end.

Definition Create (createdBy : uuid) (input : CreateOrderInput) : order_prog (res OrderOutput) :=
  match validate_input input with
  | Some e => Ret (Err e)
  | None =>
      customer <-! call (FindCustomer (in_CustomerID input))
        catch (fun err => Err (if errors_Is err OrderErrNotFound then NotFound "customer not found"
                               else Internal "could not load customer" err)) ;;
      if negb (c_Active customer) then
        Ret (Err (InactiveCustomer "inactive customers cannot create new orders"))
      else
        loaded <-! call (FindProducts (ii_ProductID <$> in_Items input))
          catch (fun err => Err (Internal "could not load products" err)) ;;
        let productByID := index_products loaded in
        now <- call Now ;;
        orderID <- call NewUUID ;;
        priced <-! for_res (price_line productByID orderID) (in_Items input) ([], []) ;;
        let order := mkOrder orderID (in_CustomerID input) StatusCreated
                       (OrderTotal priced.1) createdBy now now None in
        persist_and_publish order priced.2
  end.

(** ** Process *)

(** [s.now().Sub(start)] in nanoseconds; the float conversion is the recorder's. *)
Definition finish_failed (orderID : uuid) (procErr : error) : order_prog (res unit) :=
  processedAt <- call Now ;;
  _ <-! call (Repo (MarkProcessed orderID StatusFailed processedAt))
        catch (fun err => Err (mapOrderRepoErr err)) ;;
  call IncOrdersFailed ;;;
  call (ProcessLog "order processing failed" (Some orderID) (Some procErr)) ;;;
  Ret (Ok tt).

Definition finish_paid (orderID : uuid) (duration : Z) : order_prog (res unit) :=
  processedAt <- call Now ;;
  _ <-! call (Repo (MarkProcessed orderID StatusPaid processedAt))
        catch (fun err => Err (mapOrderRepoErr err)) ;;
  call IncOrdersProcessed ;;;
  call (RecordProcessingDuration duration) ;;;
  Ret (Ok tt).

Definition pay (orderID : uuid) (order : Order) : order_prog (res unit) :=
  _ <-! call (Repo (UpdateStatus orderID StatusProcessing))
        catch (fun err => Err (mapOrderRepoErr err)) ;;
  start <- call Now ;;
  procErr <- call (ProcessPayment order) ;;
  stop <- call Now ;;
  match procErr with
  | Err e => finish_failed orderID e
  | Panic m => Ret (Panic m)
  | Ok _ => finish_paid orderID (stop - start)
  end.

Definition Process (orderID : uuid) : order_prog (res unit) :=
  if bool_decide (orderID = uuid_Nil) then
    call (ProcessLog "ignoring queue message with empty order id" None None) ;;;
    Ret (Ok tt)
  else
    found <- call (Repo (FindByID orderID)) ;;
    match found with
    | Err err =>
        if errors_Is err OrderErrOrderNotFound then
          call (ProcessLog "ignoring queue message for unknown order" (Some orderID) None) ;;;
          Ret (Ok tt)
        else Ret (Err (Internal "could not load order for processing" err))
    | Panic m => Ret (Panic m)
    | Ok (order, _) =>
        if negb (bool_decide (o_Status order = StatusCreated)) then Ret (Ok tt)
        else if negb (CanTransition (o_Status order) StatusProcessing) then
          Ret (Err (InvalidOrderStatus "order cannot enter processing from its current status"))
        else pay orderID order
    end.

(** ** Cancel, Ship *)
Definition transition (id : uuid) (to required : OrderStatus) (invalidMsg : string)
    : order_prog (res OrderOutput) :=
  found <-! call (Repo (FindByID id)) catch (fun err => Err (mapOrderRepoErr err)) ;;
  let order := found.1 in
  if negb (bool_decide (o_Status order = required)) then Ret (Err (InvalidOrderStatus invalidMsg))
  else if negb (CanTransition (o_Status order) to) then Ret (Err (InvalidOrderStatus invalidMsg))
  else
    _ <-! call (Repo (UpdateStatus id to)) catch (fun err => Err (mapOrderRepoErr err)) ;;
    now <- call Now ;;
    Ret (Ok (toOutput (set_UpdatedAt now (set_Status to order)) found.2)).

Definition Cancel (id : uuid) : order_prog (res OrderOutput) :=
  transition id StatusCanceled StatusCreated "only CREATED orders can be canceled".

Definition Ship (id : uuid) : order_prog (res OrderOutput) :=
  transition id StatusShipped StatusPaid "only PAID orders can be shipped".

(** ** FindByID, List *)
Definition FindOrder (id : uuid) : order_prog (res OrderOutput) :=
  found <-! call (Repo (FindByID id)) catch (fun err => Err (mapOrderRepoErr err)) ;;
  Ret (Ok (toOutput found.1 found.2)).

(** The defaults for an omitted page and page size, then the bounds. *)
Definition with_page_defaults (filter : OrderFilter) : OrderFilter :=
  mkOrderFilter (f_CustomerID filter) (f_Status filter) (f_StartDate filter) (f_EndDate filter)
    (if f_Page filter =? 0 then 1 else f_Page filter)
    (if f_PageSize filter =? 0 then DefaultPageSize else f_PageSize filter).

Definition validate_page (page pageSize : Z) : option error :=
  if page <? 1 then Some (Validation "page must be greater than zero")
  else if pageSize <? 1 then Some (Validation "page_size must be greater than zero")
  else if MaxPageSize <? pageSize then Some (Validation "page_size exceeds the maximum of 100")
  else None.

Definition list_item (acc : list OrderOutput) (o : Order) : order_prog (res (list OrderOutput)) :=
  found <-! call (Repo (FindByID (o_ID o))) catch (fun err => Err (mapOrderRepoErr err)) ;;
  Ret (Ok (acc ++ [toOutput o found.2])).

Definition ListService (filter : OrderFilter) : order_prog (res (Page OrderOutput)) :=
  let filter := with_page_defaults filter in
  match validate_page (f_Page filter) (f_PageSize filter) with
  | Some e => Ret (Err e)
  | None =>
      page <-! call (Repo (ListOrders filter))
        catch (fun err => Err (Internal "could not list orders" err)) ;;
      its <-! for_res list_item (pg_Items page) [] ;;
      Ret (Ok (mkPage its (pg_Page page) (pg_PageSize page) (pg_Total page) (pg_TotalPages page)))
  end.

(** ** Well-formed orders *)

(** A line item as the service prices it. *)
Definition item_wf (orderID : uuid) (it : OrderItem) : Prop :=
  i_OrderID it = orderID /\ i_ProductID it <> uuid_Nil /\ 1 <= i_Quantity it /\
  i_TotalPrice it = ItemTotal (i_UnitPrice it) (i_Quantity it).

(** An order with its items: it has items, they are its own and priced, and its
    total is their sum (BR-ORD-002, 003, 004). *)
Definition order_wf (o : Order) (its : list OrderItem) : Prop :=
  its <> [] /\ Forall (item_wf (o_ID o)) its /\ o_TotalAmount o = OrderTotal (i_TotalPrice <$> its).

(** ** Lemmas on validation and pricing *)
Lemma validate_items_None l :
  validate_items l = None ->
  Forall (fun i => 1 <= ii_Quantity i /\ ii_ProductID i <> uuid_Nil) l.
Proof.
  induction l as [|i l IH]; cbn; [constructor|]. unfold validate_item.
  case_match eqn:Hi; [done|]. intros Hl. constructor; [|by apply IH].
  revert Hi. case_match; [done|]. case_bool_decide; [done|]. intros _. split; [lia|done].
Qed.

Lemma validate_input_None input :
  validate_input input = None ->
  in_CustomerID input <> uuid_Nil /\ in_Items input <> [] /\
  Forall (fun i => 1 <= ii_Quantity i /\ ii_ProductID i <> uuid_Nil) (in_Items input).
Proof.
  unfold validate_input. repeat case_bool_decide; try done. intros Hitems.
  repeat split; [done|done|]. by apply validate_items_None.
Qed.

(** What [price_line] makes of a line. *)
Definition priced (m : gmap uuid Product) (orderID : uuid) (line : CreateOrderItemInput)
    (it : OrderItem) : Prop :=
  exists p, m !! ii_ProductID line = Some p /\ p_Active p = true /\
    it = mkItem (i_ID it) orderID (ii_ProductID line) (ii_Quantity line) (p_Price p)
           (ItemTotal (p_Price p) (ii_Quantity line)).

Lemma priced_wf m orderID line it :
  1 <= ii_Quantity line /\ ii_ProductID line <> uuid_Nil ->
  priced m orderID line it -> item_wf orderID it.
Proof. intros [Hq Hp] (p & _ & _ & ->). by repeat split. Qed.

Lemma priced_all_wf m orderID lines its :
  Forall (fun i => 1 <= ii_Quantity i /\ ii_ProductID i <> uuid_Nil) lines ->
  Forall2 (priced m orderID) lines its -> Forall (item_wf orderID) its.
Proof.
  intros Hv Hp. revert Hv. induction Hp as [|line it lines its H1 _ IH]; [constructor|].
  intros [Hl Hv]%Forall_cons. constructor; [by eapply priced_wf|by apply IH].
Qed.

(** An error mapped by [mapOrderRepoErr] is an application error. *)
Lemma mapOrderRepoErr_app err : exists a, errors_As_AppError (mapOrderRepoErr err) = Some a.
Proof. unfold mapOrderRepoErr. case_match; eexists; reflexivity. Qed.
