(* ===== verification/OrderLifecycle.v ===== *)
(** OrderLifecycle: what every order use case guarantees about the stored orders,
    whatever the ports answer: the lifecycle of statuses, well-formedness and
    immutability, for one call at a time and for any interleaving of calls. *)
From S2P Require Import Prelude Errors Effects Uuid GoStrings Money Pagination OrderModel OrderRepo OrderService.

(** ** The world interface

    A state with a store of orders and the ids drawn so far, the representation
    invariant of its parts, and a possibly failing implementation of the ports. *)
Class OrderWorld (W : Type) := {
  ow_sem :: Sem orderE W;
  ow_store : W -> store;
  ow_issued : W -> gset uuid;
  ow_valid : W -> Prop;
}.

Definition is_repo {X} (e : orderE X) : bool := match e with Repo _ => true | _ => false end.

(** What the clients below rely on: the repository keeps its promise for the call as it
    stores it, the other ports leave the orders alone, [uuid.New] returns a fresh
    non-nil id, and the ids in the store were drawn. *)
Class OrderWorldLaws (W : Type) `{!OrderWorld W} := {
  ow_repo X (e : repoE X) w x w' :
    ow_valid w -> sem (Repo e) w x w' ->
    (exists e', stored_as e e' /\ repo_spec e' (ow_store w) x (ow_store w')) /\ ow_issued w' = ow_issued w;
  ow_frame X (e : orderE X) w x w' :
    ow_valid w -> sem e w x w' -> is_repo e = false ->
    ow_store w' = ow_store w /\ ow_issued w ⊆ ow_issued w';
  ow_fresh w u w' :
    ow_valid w -> sem NewUUID w u w' ->
    u <> uuid_Nil /\ u ∉ ow_issued w /\ u ∈ ow_issued w';
  ow_valid_step X (e : orderE X) w x w' : ow_valid w -> sem e w x w' -> ow_valid w';
}.

(** ** The lifecycle protocol

    [ls_known] is the status the program knows the order to have (it read or wrote
    it last); [ls_owned] the ids it drew and did not use yet. *)
Record lstate := mkL {
  ls_known : option (uuid * OrderStatus);
  ls_owned : gset uuid;
}.

Definition l_init : lstate := mkL None ∅.

(** A status write must be an allowed transition from the known status. *)
Definition write_allowed (s : lstate) (id : uuid) (st : OrderStatus) : Prop :=
  exists from, ls_known s = Some (id, from) /\ CanTransition from st = true.

Definition l_allowed {X} (s : lstate) (e : orderE X) : Prop :=
  match e with
  | Repo r =>
      match r with
      | CreateWithItems (Some o) its =>
          o_ID o ∈ ls_owned s /\ o_Status o = StatusCreated /\ order_wf o its
      | CreateWithItems None _ => False
      | UpdateStatus id st => write_allowed s id st
      | MarkProcessed id st _ => write_allowed s id st
      | _ => True
      end
  | _ => True
  end.

Definition l_possible {X} (s : lstate) (e : orderE X) : X -> Prop :=
  match e in orderE X return X -> Prop with
  | NewUUID => fun u => u <> uuid_Nil /\ u ∉ ls_owned s
  | _ => fun _ => True
  end.

Definition known_after_write (id : uuid) (st : OrderStatus) (x : res unit) : option (uuid * OrderStatus) :=
  match x with Ok _ => Some (id, st) | _ => None end.

Definition l_next {X} (s : lstate) (e : orderE X) : X -> lstate :=
  match e in orderE X return X -> lstate with
  | Repo r =>
      match r in repoE X return X -> lstate with
      | CreateWithItems (Some o) _ => fun _ => mkL None (ls_owned s ∖ {[o_ID o]})
      | FindByID id => fun x => match x with
                                | Ok (o, _) => mkL (Some (id, o_Status o)) (ls_owned s)
                                | _ => s
                                end
      | UpdateStatus id st => fun x => mkL (known_after_write id st x) (ls_owned s)
      | MarkProcessed id st _ => fun x => mkL (known_after_write id st x) (ls_owned s)
      | _ => fun _ => s
      end
  | NewUUID => fun u => mkL (ls_known s) ({[u]} ∪ ls_owned s)
  | _ => fun _ => s
  end.

Definition lifecycle : protocol orderE lstate :=
  mkProtocol (fun X => @l_allowed X) (fun X => @l_possible X) (fun X => @l_next X).

(** ** Every use case follows it *)
Definition follows {A} (p : prog orderE A) : Prop := conforms lifecycle l_init p (fun _ _ => True).

(** Step through the calls of a program: each call gives the obligation that it is
    allowed and, for every answer, the obligations of the rest. *)
Ltac conf_step :=
  match goal with
  | |- True => exact I
  | |- conforms _ _ (if ?b then _ else _) _ => destruct b eqn:?
  | |- conforms _ _ (match ?x with _ => _ end) _ => destruct x eqn:?
  | |- _ /\ conforms _ _ _ _ => split
  | |- _ /\ (forall x, _) => split
  | |- forall x, _ => intros ?
  | |- _ => progress cbn
  end.

Ltac solve_write :=
  repeat match goal with a : (_ * _)%type |- _ => destruct a end; cbn in *;
  eexists; split; [reflexivity|]; first [done | by apply negb_false_iff].

Lemma conf_Process id : follows (Process id).
Proof. unfold follows, Process. repeat conf_step; solve_write. Qed.

Lemma conf_transition id to required msg : follows (transition id to required msg).
Proof. unfold follows, transition. repeat conf_step; solve_write. Qed.

Lemma conf_FindOrder id : follows (FindOrder id).
Proof. unfold follows, FindOrder. repeat conf_step. Qed.

Lemma conf_ListService f : follows (ListService f).
Proof.
  unfold follows, ListService. case_match; [done|].
  apply conforms_bind_err, conforms_call; [exact I|]. intros [page|e|m] _; [|done..].
  apply conforms_bind_res.
  apply (conforms_for_res _ (fun _ _ _ => True)); [|by repeat conf_step|done].
  intros pre o post s acc _ _. unfold list_item. repeat conf_step.
Qed.

(** The invariant of the pricing loop: the order id is still owned and the
    accumulators are the priced lines and their totals. *)
Definition pricing_inv (m : gmap uuid Product) (orderID : uuid)
    (pre : list CreateOrderItemInput) (s : lstate) (acc : list Money * list OrderItem) : Prop :=
  orderID ∈ ls_owned s /\ acc.1 = i_TotalPrice <$> acc.2 /\ Forall2 (priced m orderID) pre acc.2.

Lemma conf_price_line m orderID pre line s acc :
  pricing_inv m orderID pre s acc ->
  conforms lifecycle s (price_line m orderID acc line)
    (fun s' r => match r with Ok acc' => pricing_inv m orderID (pre ++ [line]) s' acc' | _ => True end).
Proof.
  intros (Hown & Htot & Hpr). unfold price_line.
  destruct (m !! ii_ProductID line) as [p|] eqn:Hp; [|done].
  destruct (p_Active p) eqn:Hact; [|done]. cbn. split; [done|]. intros u _.
  split; [set_solver|]. cbn. split.
  - by rewrite Htot, fmap_app.
  - apply Forall2_app; [done|]. constructor; [|done]. exists p. repeat split; done.
Qed.

Lemma conf_Create createdBy input : follows (Create createdBy input).
Proof.
  unfold follows, Create. destruct (validate_input input) eqn:Hv; [done|].
  apply validate_input_None in Hv as (_ & Hne & Hitems).
  apply conforms_bind_err, conforms_call; [exact I|]. intros [c|e|m] _; [|done..].
  cbv beta iota. destruct (c_Active c); cbn [negb]; [|done].
  apply conforms_bind_err, conforms_call; [exact I|]. intros [loaded|e|m] _; [|done..].
  cbv beta iota zeta.
  apply conforms_bind, conforms_call; [exact I|]. intros now _.
  apply conforms_bind, conforms_call; [exact I|]. intros orderID _.
  apply conforms_bind_res.
  apply (conforms_for_res _ (pricing_inv (index_products loaded) orderID)).
  - intros pre line post s acc _ HI. eapply conforms_mono; [|by apply conf_price_line].
    by intros s' [acc'|e|m].
  - intros s [tots its] (Hown & Htot & Hpr). cbn in *. split.
    + split; [done|]. split; [done|]. repeat split; cbn.
      * intros ->. apply Forall2_nil_inv_r in Hpr. done.
      * by eapply priced_all_wf.
      * by rewrite Htot.
    + repeat conf_step.
  - split; cbn; [set_solver|]. by split.
Qed.

(** The use cases of the service with their results forgotten, as the requests and
    workers run them. *)
Inductive request :=
| RCreate (createdBy : uuid) (input : CreateOrderInput)
| RProcess (orderID : uuid)
| RCancel (id : uuid)
| RShip (id : uuid)
| RFind (id : uuid)
| RList (filter : OrderFilter).

Definition forget {A} (p : prog orderE (res A)) : prog orderE unit := bind p (fun _ => Ret tt).

Definition serve (r : request) : prog orderE unit :=
  match r with
  | RCreate by_ input => forget (Create by_ input)
  | RProcess id => forget (Process id)
  | RCancel id => forget (Cancel id)
  | RShip id => forget (Ship id)
  | RFind id => forget (FindOrder id)
  | RList f => forget (ListService f)
  end.

Lemma conf_forget {A} (p : prog orderE (res A)) : follows p -> follows (forget p).
Proof.
  intros Hp. unfold follows, forget. apply conforms_bind. eapply conforms_mono; [|exact Hp]. done.
Qed.

Lemma conf_serve r : follows (serve r).
Proof.
  destruct r; unfold serve; apply conf_forget;
    [apply conf_Create|apply conf_Process|apply conf_transition|apply conf_transition
    |apply conf_FindOrder|apply conf_ListService].
Qed.

#[export] Hint Resolve conf_serve conf_forget conf_Create conf_Process conf_transition
  conf_FindOrder conf_ListService : go_inv.

(** ** One call at a time *)

(** How the stored orders may have changed: none removed, items and identity kept,
    statuses moved along allowed transitions. *)
Definition same_identity (o o' : Order) : Prop :=
  o_ID o' = o_ID o /\ o_CustomerID o' = o_CustomerID o /\ o_TotalAmount o' = o_TotalAmount o /\
  o_CreatedBy o' = o_CreatedBy o /\ o_CreatedAt o' = o_CreatedAt o.

#[export] Instance same_identity_preorder : PreOrder same_identity.
Proof.
  split; [by intros o|]. unfold same_identity. intros a b c Hab Hbc.
  destruct_and!. repeat split; congruence.
Qed.

Definition transitions : relation OrderStatus := rtc (fun a b => CanTransition a b = true).

(** Nothing known about the statuses. *)
Definition any_status : relation OrderStatus := fun _ _ => True.

#[export] Instance any_status_preorder : PreOrder any_status.
Proof. by split. Qed.

(** [R] relates the status before and after. *)
Definition evolves (R : relation OrderStatus) (s s' : store) : Prop :=
  forall id o its, s !! id = Some (o, its) ->
    exists o', s' !! id = Some (o', its) /\ same_identity o o' /\ R (o_Status o) (o_Status o').

#[export] Instance evolves_preorder R `{!PreOrder R} : PreOrder (evolves R).
Proof.
  split.
  - intros s id o its Ho. exists o. by repeat split.
  - intros s1 s2 s3 H12 H23 id o its Ho.
    destruct (H12 _ _ _ Ho) as (o2 & Ho2 & Hi2 & Hr2).
    destruct (H23 _ _ _ Ho2) as (o3 & Ho3 & Hi3 & Hr3).
    exists o3. split; [done|]. split; [by etrans|by etrans].
Qed.

(** An order that was added was added as CREATED and moved along [R] since. *)
Definition born (R : relation OrderStatus) (s s' : store) : Prop :=
  forall id en, s !! id = None -> s' !! id = Some en -> R StatusCreated (o_Status en.1).

(** How a store may change: [evolves] and [born] together. *)
Definition lawful (R : relation OrderStatus) (s s' : store) : Prop := evolves R s s' /\ born R s s'.

#[export] Instance lawful_preorder R `{!PreOrder R} : PreOrder (lawful R).
Proof.
  split.
  - intros s. split; [reflexivity|]. intros id en Hn Hs. congruence.
  - intros s1 s2 s3 [He12 Hb12] [He23 Hb23]. split; [by etrans|].
    intros id en Hn Hs3. destruct (s2 !! id) as [[o its]|] eqn:Hs2.
    + destruct (He23 _ _ _ Hs2) as (o3 & Ho3 & _ & Hr). simplify_eq.
      etrans; [|exact Hr]. by apply (Hb12 id (o, its)).
    + by apply (Hb23 id).
Qed.

(** An order is well formed as it is stored when it was as it is created. *)
Lemma order_wf_stored o its o' its' : same_order o o' -> its ≡ₚ its' -> order_wf o its -> order_wf o' its'.
Proof.
  intros (Hid & _ & _ & Htot & _) Hp (Hne & Hits & Ht). unfold order_wf. rewrite Hid, Htot, Ht. split_and!.
  - intros ->. by apply Permutation_nil_r in Hp.
  - by rewrite <- Hp.
  - by rewrite Hp.
Qed.

(** Every stored order is well formed and kept under its id. *)
Definition store_wf (s : store) : Prop := map_Forall (fun id en => o_ID en.1 = id /\ order_wf en.1 en.2) s.

Lemma store_update_lookup id f s s' :
  store_update id f s = Some s' ->
  exists o its, s !! id = Some (o, its) /\ s' = <[id := (f o, its)]> s.
Proof. unfold store_update. case_match; [|done]. case_match. intros [= <-]. eauto. Qed.

(** An in-place update that keeps identity and moves the status along [R]. *)
Lemma store_update_lawful (R : relation OrderStatus) `{!PreOrder R} id f s s' :
  store_update id f s = Some s' ->
  (forall o its, s !! id = Some (o, its) -> same_identity o (f o) /\ R (o_Status o) (o_Status (f o))) ->
  lawful R s s'.
Proof.
  intros (o & its & Ho & ->)%store_update_lookup Hf. split; intros id' en'; [intros its' Ho'|].
  all: destruct (decide (id = id')) as [<-|Hne].
  3, 4: rewrite ?lookup_insert_ne by done; congruence.
  - rename en' into o'. rewrite Ho in Ho'. simplify_eq. exists (f o'). rewrite lookup_insert_eq. split; [done|]. eauto.
  - exists en'. rewrite lookup_insert_ne by done. by repeat split.
Qed.

Lemma store_update_wf id f s s' :
  (forall o, same_identity o (f o)) -> store_wf s ->
  store_update id f s = Some s' -> store_wf s'.
Proof.
  intros Hf Hs (o & its & Ho & ->)%store_update_lookup. apply map_Forall_insert_2; [|done].
  destruct (Hs _ _ Ho) as [Hid (Hne & Hitems & Htot)]. cbn in *.
  destruct (Hf o) as (Hi & _ & Ht & _ & _). split; [congruence|].
  unfold order_wf. rewrite Hi, Ht. done.
Qed.

Lemma store_create_lawful (R : relation OrderStatus) `{!PreOrder R} (s : store) (o : Order) its :
  s !! o_ID o = None -> o_Status o = StatusCreated -> lawful R s (<[o_ID o := (o, its)]> s).
Proof.
  intros Hn Hst. split.
  - intros id o' its' Ho'. exists o'. rewrite lookup_insert_ne by congruence. by repeat split.
  - intros id en Hid. destruct (decide (o_ID o = id)) as [<-|Hne].
    + rewrite lookup_insert_eq. intros [= <-]. cbn. by rewrite Hst.
    + rewrite lookup_insert_ne by done. congruence.
Qed.

Lemma status_update_identity st t o : same_identity o (status_update st t o).
Proof. done. Qed.
Lemma processed_update_identity st t o : same_identity o (processed_update st t o).
Proof. done. Qed.
#[export] Hint Resolve status_update_identity processed_update_identity : go_inv.

(** A write answers with the old store, or with the written one. *)
Lemma write_spec_cases s target nf x s' :
  write_spec s target nf x s' ->
  (s' = s /\ (forall u, x <> Ok u)) \/ (target = Some s').
Proof. intros [(e & -> & _ & [->| ?])|[[-> ?]|(_ & -> & _ & ->)]]; naive_solver. Qed.

(** ** Invariants of the world *)
Section world.
Context {W : Type} `{!OrderWorld W, !OrderWorldLaws W}.

(** Stored orders are well formed and their ids were drawn. *)
Definition world_ok (w : W) : Prop :=
  ow_valid w /\ store_wf (ow_store w) /\ dom (ow_store w) ⊆ ow_issued w.

(** Ids a program owns were drawn and are not in the store. *)
Definition owns (s : lstate) (w : W) : Prop :=
  ls_owned s ⊆ ow_issued w /\ ls_owned s ## dom (ow_store w).

(** What the program knows of a stored status is still true. *)
Definition knows (s : lstate) (w : W) : Prop :=
  forall id st, ls_known s = Some (id, st) ->
    exists en, ow_store w !! id = Some en /\ o_Status en.1 = st.

(** How the store may move in one call of a program in typestate [s]: nothing is
    removed or rewritten, well-formedness is kept, and only an owned id is added. *)
Definition store_step (s : lstate) (w w' : W) (R : relation OrderStatus) : Prop :=
  lawful R (ow_store w) (ow_store w') /\ world_ok w' /\ ow_issued w ⊆ ow_issued w' /\
  dom (ow_store w') ⊆ dom (ow_store w) ∪ ls_owned s.

Lemma evolves_dom R s s' : evolves R s s' -> dom s ⊆ dom s'.
Proof.
  intros H id. rewrite !elem_of_dom. intros [[o its] Ho].
  destruct (H _ _ _ Ho) as (o' & Ho' & _). eauto.
Qed.

Lemma update_dom id f s s' : store_update id f s = Some s' -> dom s' = dom s.
Proof.
  intros (o & its & Ho & ->)%store_update_lookup. rewrite dom_insert_L.
  apply elem_of_dom_2 in Ho. set_solver.
Qed.

(** An update of one row, whatever the answer. *)
Lemma store_step_update R `{!PreOrder R} s w w' id f nf x :
  world_ok w -> ow_valid w' -> ow_issued w' = ow_issued w ->
  (forall o, same_identity o (f o)) ->
  (forall o its, ow_store w !! id = Some (o, its) -> R (o_Status o) (o_Status (f o))) ->
  write_spec (ow_store w) (store_update id f (ow_store w)) nf x (ow_store w') ->
  store_step s w w' R.
Proof.
  intros (_ & Hwf & Hdom) Hv Hiss Hf HR Hw. unfold store_step, world_ok. rewrite Hiss.
  destruct (write_spec_cases _ _ _ _ _ Hw) as [[-> _]|Ht].
  - split; [reflexivity|]. split; [done|]. set_solver.
  - rewrite (update_dom _ _ _ _ Ht). split; [|split; [|set_solver]].
    + eapply (store_update_lawful R); eauto.
    + split; [done|]. split; [|done]. eapply store_update_wf; eauto.
Qed.

Lemma store_step_create R `{!PreOrder R} s w w' o its x :
  world_ok w -> ow_valid w' -> owns s w -> ow_issued w' = ow_issued w ->
  o_ID o ∈ ls_owned s -> o_Status o = StatusCreated -> order_wf o its ->
  write_spec (ow_store w) (Some (<[o_ID o := (o, its)]> (ow_store w))) false x (ow_store w') ->
  store_step s w w' R.
Proof.
  intros (_ & Hwf & Hdom) Hv [Hown Hdisj] Hiss Ho Hst Howf Hw. unfold store_step, world_ok. rewrite Hiss.
  destruct (write_spec_cases _ _ _ _ _ Hw) as [[-> _]|[= <-]].
  - split; [reflexivity|]. split; [done|]. set_solver.
  - assert (Hfresh : ow_store w !! o_ID o = None).
    { apply not_elem_of_dom. set_solver. }
    split; [by apply store_create_lawful|]. rewrite dom_insert_L.
    split; [|split; [done|set_solver]]. split; [done|]. split; [|set_solver].
    by apply map_Forall_insert_2.
Qed.

Lemma store_step_same R `{!PreOrder R} s w w' :
  world_ok w -> ow_valid w' -> ow_store w' = ow_store w -> ow_issued w ⊆ ow_issued w' ->
  store_step s w w' R.
Proof.
  intros (_ & Hwf & Hdom) Hv Hst Hiss. unfold store_step, world_ok. rewrite Hst.
  split; [reflexivity|]. split; [split; [done|]; split; [done|set_solver]|]. set_solver.
Qed.

(** The call as it is stored, for each call. *)
Ltac stored_cases He Hspec :=
  cbn in He;
  lazymatch type of He with
  | @ex Order _ => destruct He as (o' & its' & -> & Hsame & Hperm)
  | @ex _ _ => destruct He as [t' ->]
  | _ => subst
  end; cbn in Hspec.

(** One allowed call moves the store as [store_step] says.  [R] is either the full
    relation, or the transition relation when the known status is accurate. *)
Lemma call_store_step (R : relation OrderStatus) `{!PreOrder R} s w X (e : orderE X) x w' :
  (forall a b, CanTransition a b = true -> R a b) ->
  knows s w \/ (forall a b, R a b) ->
  world_ok w -> owns s w -> l_allowed s e -> sem e w x w' -> store_step s w w' R.
Proof.
  intros HRt Hk Hok Hown Hal Hsem. pose proof (ow_valid_step _ _ _ _ _ (proj1 Hok) Hsem) as Hv.
  destruct (is_repo e) eqn:Hrepo;
    [|destruct (ow_frame _ _ _ _ _ (proj1 Hok) Hsem Hrepo); by apply store_step_same].
  destruct e as [X r| | | | | | | | | | | |]; try done. clear Hrepo.
  destruct (ow_repo _ _ _ _ _ (proj1 Hok) Hsem) as [(e' & He & Hspec) Hiss].
  assert (Hstatus : forall id st o its, write_allowed s id st ->
            ow_store w !! id = Some (o, its) -> R (o_Status o) st).
  { intros id st o its (from & Hkn & Ht) Ho. destruct Hk as [Hk|Hk]; [|done].
    destruct (Hk _ _ Hkn) as (en & Hen & <-). rewrite Ho in Hen. simplify_eq. by apply HRt. }
  destruct r as [[o|] its|id|id st|id st t|f]; cbn in Hal; stored_cases He Hspec.
  - destruct Hal as (Ho & Hst & Hwf). pose proof Hsame as (Hid & _ & Hst' & _).
    apply (store_step_create R s w w' o' its' x); [done..| | | |done]; [congruence..|by eapply order_wf_stored].
  - done.
  - destruct Hspec as [Hst _]. apply store_step_same; [done..|set_solver].
  - destruct Hspec as [t Hspec].
    apply (store_step_update R s w w' id (status_update st t) true x); eauto with go_inv.
  - apply (store_step_update R s w w' id (processed_update st t') true x); eauto with go_inv.
  - destruct Hspec as [Hst _]. apply store_step_same; [done..|set_solver].
Qed.

(** The ids owned after a call, by its program and by the others. *)
Lemma owns_next s w X (e : orderE X) x w' :
  world_ok w -> owns s w -> l_allowed s e -> sem e w x w' -> owns (l_next s e x) w'.
Proof.
  intros Hok Hown Hal Hsem.
  assert (Hstep : store_step s w w' any_status).
  { eapply (call_store_step any_status); eauto; [done|by right]. }
  destruct Hstep as (_ & _ & Hiss & Hdom). destruct Hown as [Hown Hdisj].
  destruct (is_repo e) eqn:Hrepo.
  - destruct e as [X r| | | | | | | | | | | |]; try done.
    destruct (ow_repo _ _ _ _ _ (proj1 Hok) Hsem) as [(e' & He & Hspec) _].
    destruct r as [[o|] its|id|id st|id st t|f]; cbn in Hal, Hiss, Hdom; stored_cases He Hspec.
    + destruct Hsame as (Hid & _). split; cbn; [set_solver|].
      destruct (write_spec_cases _ _ _ _ _ Hspec) as [[-> _]|[= <-]]; [set_solver|].
      rewrite dom_insert_L, Hid. set_solver.
    + done.
    + destruct Hspec as [Hst _]. unfold owns. rewrite Hst.
      destruct x as [[]| |]; split; set_solver.
    + destruct Hspec as [t Hspec]. split; cbn; [set_solver|].
      destruct (write_spec_cases _ _ _ _ _ Hspec) as [[-> _]|Ht]; [done|].
      by rewrite (update_dom _ _ _ _ Ht).
    + split; cbn; [set_solver|].
      destruct (write_spec_cases _ _ _ _ _ Hspec) as [[-> _]|Ht]; [done|].
      by rewrite (update_dom _ _ _ _ Ht).
    + destruct Hspec as [Hst _]. unfold owns. rewrite Hst. split; set_solver.
  - destruct (ow_frame _ _ _ _ _ (proj1 Hok) Hsem Hrepo) as [Hst Hiss'].
    assert (Hsame : owns s w') by (unfold owns; rewrite Hst; split; [by etrans|done]).
    destruct e; try done; try exact Hsame. destruct Hsame as [Hs1 Hs2].
    destruct (ow_fresh _ _ _ (proj1 Hok) Hsem) as (Hnil & Hnew & Hin).
    destruct Hok as (_ & _ & Hdom'). rewrite <- Hst in Hdom'. split; cbn; [set_solver|].
    apply disjoint_union_l. split; [|done]. apply disjoint_singleton_l. set_solver.
Qed.

(** The ids a program owns next are the old ones and at most a new one. *)
Lemma owned_next s w X (e : orderE X) x w' :
  world_ok w -> sem e w x w' -> ls_owned (l_next s e x) ⊆ ls_owned s ∪ (ow_issued w' ∖ ow_issued w).
Proof.
  intros Hok Hsem. destruct (decide (is_repo e = true)) as [Hrepo|Hrepo].
  - destruct e as [X r| | | | | | | | | | | |]; try done.
    destruct r as [[o|] its|id|id st|id st t|f]; cbn; try set_solver.
    destruct x as [[]| |]; set_solver.
  - destruct e; try done; try apply union_subseteq_l. cbn.
    destruct (ow_fresh _ _ _ (proj1 Hok) Hsem) as (_ & Hnew & Hin). set_solver.
Qed.

(** What a program running alone knows stays accurate. *)
Lemma knows_next s w X (e : orderE X) x w' :
  world_ok w -> knows s w -> l_allowed s e -> sem e w x w' -> knows (l_next s e x) w'.
Proof.
  intros Hok Hk Hal Hsem. destruct (is_repo e) eqn:Hrepo.
  - destruct e as [X r| | | | | | | | | | | |]; try done.
    destruct (ow_repo _ _ _ _ _ (proj1 Hok) Hsem) as [(e' & He & Hspec) _].
    assert (Hw : forall id f x' st, (forall o, o_Status (f o) = st) ->
              write_spec (ow_store w) (store_update id f (ow_store w)) true x' (ow_store w') ->
              knows (mkL (known_after_write id st x') (ls_owned s)) w').
    { intros id f x' st Hf Hws id' st'. destruct x' as [[]|er|m]; [|done..]. intros [= <- <-].
      destruct (write_spec_cases _ _ _ _ _ Hws) as [[_ Hne]|Ht]; [by destruct (Hne tt)|].
      apply store_update_lookup in Ht as (o & its & _ & ->).
      rewrite lookup_insert_eq. eexists. split; [done|]. apply Hf. }
    destruct r as [[o|] its|id|id st|id st t|f]; cbn in Hal; stored_cases He Hspec; cbn.
    + by intros id st.
    + done.
    + destruct Hspec as [Hst Hx]. unfold knows. rewrite Hst. destruct x as [[o its]|er|m]; [|exact Hk..].
      intros id' st'. intros [= <- <-].
      destruct Hx as [(en & Hen & [= <-])|[[_ [=]]|(er & _ & [=])]]. eauto.
    + destruct Hspec as [t Hspec]. by eapply (Hw id (status_update st t)).
    + by eapply (Hw id (processed_update st t')).
    + destruct Hspec as [Hst _]. unfold knows. by rewrite Hst.
  - destruct (ow_frame _ _ _ _ _ (proj1 Hok) Hsem Hrepo) as [Hst _]. unfold knows. rewrite Hst.
    by destruct e.
Qed.

(** The answers of the world are the ones the protocol expects. *)
Lemma world_possible s w X (e : orderE X) x w' :
  world_ok w -> owns s w -> sem e w x w' -> l_possible s e x.
Proof.
  intros Hok [Hown _] Hsem. destruct e; try done.
  destruct (ow_fresh _ _ _ (proj1 Hok) Hsem) as (Hnil & Hnew & _). split; [done|set_solver].
Qed.

(** ** Requests served one after the other *)
Definition alone (w0 : W) (s : lstate) (w : W) : Prop :=
  world_ok w /\ owns s w /\ knows s w /\ lawful transitions (ow_store w0) (ow_store w).

Lemma owns_init w : owns l_init w.
Proof. split; cbn; set_solver. Qed.

Lemma knows_init w : knows l_init w.
Proof. by intros id st. Qed.

Lemma alone_step w0 s X (e : orderE X) w x w' :
  alone w0 s w -> l_allowed s e -> sem e w x w' -> l_possible s e x /\ alone w0 (l_next s e x) w'.
Proof.
  intros (Hok & Hown & Hk & Hlaw) Hal Hsem. split; [by eapply world_possible|].
  assert (Hst : store_step s w w' transitions).
  { eapply (call_store_step transitions); eauto. intros a b Hab. by apply rtc_once. }
  destruct Hst as (Hl & Hok' & _). split; [done|].
  split; [by apply (owns_next s w)|]. split; [by apply (knows_next s w)|by etrans].
Qed.

Lemma serve_alone r w a w' :
  world_ok w -> exec (serve r) w a w' -> world_ok w' /\ lawful transitions (ow_store w) (ow_store w').
Proof.
  intros Hok Hex.
  destruct (conforms_exec lifecycle (alone w) ltac:(intros; by eapply alone_step) _ _
              l_init w a w' _ (conf_serve r)) as (s' & _ & Hok' & _ & _ & Hl); [|done|done].
  split; [done|]. split; [apply owns_init|]. split; [apply knows_init|reflexivity].
Qed.

Fixpoint serve_all (rs : list request) : prog orderE unit :=
  match rs with
  | [] => Ret tt
  | r :: rs' => serve r ;;; serve_all rs'
  end.

Lemma serve_all_alone rs w a w' :
  world_ok w -> exec (serve_all rs) w a w' ->
  world_ok w' /\ lawful transitions (ow_store w) (ow_store w').
Proof.
  revert w. induction rs as [|r rs IH]; intros w Hok.
  - intros [_ ->]. by split.
  - cbn [serve_all]. intros (u & w1 & Hr & Hrs)%exec_bind.
    destruct (serve_alone _ _ _ _ Hok Hr) as [Hok1 Hl1].
    destruct (IH _ Hok1 Hrs) as [Hok' Hl']. split; [done|by etrans].
Qed.

(** ** Requests served concurrently *)
Definition apart (ss : list lstate) : Prop :=
  forall i j s s', i <> j -> ss !! i = Some s -> ss !! j = Some s' -> ls_owned s ## ls_owned s'.

Definition together (w0 : W) (ss : list lstate) (w : W) : Prop :=
  world_ok w /\ Forall (fun s => owns s w) ss /\ apart ss /\
  lawful any_status (ow_store w0) (ow_store w).

Lemma together_step w0 ss w i s X (e : orderE X) x w' :
  ss !! i = Some s -> together w0 ss w -> l_allowed s e -> sem e w x w' ->
  together w0 (<[i := l_next s e x]> ss) w'.
Proof.
  intros Hi (Hok & Hown & Hap & Hlaw) Hal Hsem. rewrite Forall_lookup in Hown.
  assert (Hst : store_step s w w' any_status).
  { eapply (call_store_step any_status); eauto; [done|by right]. }
  destruct Hst as (Hl & Hok' & Hiss & Hdom).
  pose proof (owned_next s _ _ _ _ _ Hok Hsem) as Hnext.
  assert (Hothers : forall j s', i <> j -> ss !! j = Some s' -> ls_owned (l_next s e x) ## ls_owned s').
  { intros j s' Hij Hj. destruct (Hown _ _ Hj) as [Hs' _]. specialize (Hap _ _ _ _ Hij Hi Hj). set_solver. }
  split; [done|]. split; [|split; [|by etrans]].
  - apply Forall_lookup. intros j s' [(<- & <- & _)|[Hij Hj]]%list_lookup_insert_Some.
    { by apply (owns_next s w); [|apply (Hown i)|..]. }
    destruct (Hown _ _ Hj) as [Hs' Hd]. specialize (Hap _ _ _ _ Hij Hi Hj). split; set_solver.
  - intros j k s1 s2 Hjk. rewrite !list_lookup_insert_Some.
    intros [(<- & <- & _)|[Hij Hj]] [(<- & <- & _)|[Hik Hk]]; [done|by eapply Hothers|..].
    + symmetry. by eapply Hothers.
    + by apply (Hap j k).
Qed.

Lemma together_possible w0 ss w i s X (e : orderE X) x w' :
  ss !! i = Some s -> together w0 ss w -> l_allowed s e -> sem e w x w' -> l_possible s e x.
Proof.
  intros Hi (Hok & Hown & _) _ Hsem. rewrite Forall_lookup in Hown. eapply world_possible; eauto.
Qed.

Lemma together_init w (ps : list request) :
  world_ok w -> together w (replicate (length ps) l_init) w.
Proof.
  intros Hok. split; [done|]. split; [|split; [|reflexivity]].
  - apply Forall_replicate, owns_init.
  - intros i j s s' _ [-> _]%lookup_replicate [-> _]%lookup_replicate. set_solver.
Qed.

Lemma serve_together rs w c :
  world_ok w -> pool_steps (serve <$> rs, w) c ->
  world_ok c.2 /\ lawful any_status (ow_store w) (ow_store c.2).
Proof.
  intros Hok Hsteps.
  destruct (pool_conforms lifecycle (together w)
              ltac:(intros; by eapply together_possible) ltac:(intros; by eapply together_step)
              (fun _ _ => True) _ _ (replicate (length rs) l_init) Hsteps) as (ss & _ & Hok' & _ & _ & Hl).
  - cbn. clear Hsteps. induction rs as [|r rs IH]; [constructor|]. cbn.
    constructor; [apply conf_serve|apply IH].
  - by apply together_init.
  - done.
Qed.
End world.
