(* ===== verification/OrderProtocol.v ===== *)
(** OrderProtocol: the order in which [Create] and [Process] call their ports, for
    every answer the ports may give: commit before publish, payment only after the
    order is PROCESSING, and each outcome recorded once. *)
From S2P Require Import Prelude Errors Effects Uuid GoStrings Money Pagination OrderModel OrderRepo OrderService.

(** ** Create: load, price, commit, publish, count (BR-ORD-001..006) *)

(** How far the call got. *)
Inductive cphase :=
| Loading
| CommitFailed (err : error)
| Committed (o : Order) (its : list OrderItem)
| PublishFailed (o : Order) (its : list OrderItem) (err : error)
| Logged (o : Order) (its : list OrderItem) (err : error)
| Published (o : Order) (its : list OrderItem)
| Counted (o : Order) (its : list OrderItem)
| Crashed.

Record cstate := mkC {
  cs_customer : option Customer;
  cs_products : option (list Product);
  cs_phase : cphase;
}.

Definition c_init : cstate := mkC None None Loading.

Section create.
Context (createdBy : uuid) (input : CreateOrderInput).

(** A request that may become an order: it names a customer (BR-ORD-001), has a line
    (BR-ORD-002), and each line names a product and asks for one at least (BR-ORD-003). *)
Definition acceptable : Prop :=
  in_CustomerID input <> uuid_Nil /\ in_Items input <> [] /\
  Forall (fun i => 1 <= ii_Quantity i /\ ii_ProductID i <> uuid_Nil) (in_Items input).

(** The order that may be committed: of an acceptable request, for the customer that was
    loaded and is active, with one item per requested line, priced from the loaded,
    active products, and with the sum of the line totals (BR-ORD-004, BR-ORD-005). *)
Definition committable (s : cstate) (o : Order) (its : list OrderItem) : Prop :=
  acceptable /\ exists c ps now,
    cs_customer s = Some c /\ c_Active c = true /\ cs_products s = Some ps /\
    Forall2 (priced (index_products ps) (o_ID o)) (in_Items input) its /\
    o = mkOrder (o_ID o) (in_CustomerID input) StatusCreated (OrderTotal (i_TotalPrice <$> its))
          createdBy now now None.

Definition c_allowed {X} (s : cstate) (e : orderE X) : Prop :=
  match e with
  | FindCustomer id => cs_phase s = Loading /\ acceptable /\ id = in_CustomerID input
  | FindProducts ids =>
      cs_phase s = Loading /\ (exists c, cs_customer s = Some c /\ c_Active c = true) /\
      ids = ii_ProductID <$> in_Items input
  | Now | NewUUID => cs_phase s = Loading /\ is_Some (cs_products s)
  | Repo (CreateWithItems (Some o) its) => cs_phase s = Loading /\ committable s o its
  | PublishOrderCreated msg =>
      exists o its, cs_phase s = Committed o its /\
        msg = mkMessage (o_ID o) OrderCreatedEvent (o_CreatedAt o) 0
  | LogPublishFailureAfterCommit id err =>
      exists o its, cs_phase s = PublishFailed o its err /\ id = o_ID o
  | IncOrdersCreated => exists o its, cs_phase s = Published o its
  | _ => False
  end.

Definition c_next {X} (s : cstate) (e : orderE X) : X -> cstate :=
  match e in orderE X return X -> cstate with
  | FindCustomer id => fun x =>
      match x with Ok c => mkC (Some c) (cs_products s) (cs_phase s) | _ => s end
  | FindProducts ids => fun x =>
      match x with Ok ps => mkC (cs_customer s) (Some ps) (cs_phase s) | _ => s end
  | Repo r =>
      match r in repoE X return X -> cstate with
      | CreateWithItems (Some o) its => fun x =>
          mkC (cs_customer s) (cs_products s)
            match x with Ok _ => Committed o its | Err e => CommitFailed e | Panic _ => Crashed end
      | _ => fun _ => s
      end
  | PublishOrderCreated msg => fun x =>
      mkC (cs_customer s) (cs_products s)
        match cs_phase s, x with
        | Committed o its, Ok _ => Published o its
        | Committed o its, Err e => PublishFailed o its e
        | _, _ => Crashed
        end
  | LogPublishFailureAfterCommit id err => fun _ =>
      mkC (cs_customer s) (cs_products s)
        match cs_phase s with PublishFailed o its e => Logged o its e | ph => ph end
  | IncOrdersCreated => fun _ =>
      mkC (cs_customer s) (cs_products s)
        match cs_phase s with Published o its => Counted o its | ph => ph end
  | _ => fun _ => s
  end.

Definition create_protocol : protocol orderE cstate :=
  mkProtocol (fun X => @c_allowed X) (fun X s e x => True) (fun X => @c_next X).

(** Why nothing was committed: the request was not acceptable and no port was called, or
    an acceptable one names what is unknown or inactive, or a load failed. *)
Definition refusal (s : cstate) (e : error) : Prop :=
  (~ acceptable /\ s = c_init /\ exists msg, e = Validation msg) \/
  (acceptable /\ exists a, errors_As_AppError e = Some a /\
     ae_Code a ∈ [CodeNotFound; CodeInactiveCustomer; CodeInactiveProduct; CodeInternal]).

(** How a call may end. *)
Definition create_post (s : cstate) (r : res OrderOutput) : Prop :=
  match r with
  | Ok out => exists o its, cs_phase s = Counted o its /\ out = toOutput o its
  | Err e =>
      (cs_phase s = Loading /\ refusal s e) \/
      (exists err, cs_phase s = CommitFailed err /\ e = Internal "could not create order" err) \/
      (exists o its err, cs_phase s = Logged o its err /\
         e = Internal "order was created but could not be queued for processing" err)
  | Panic _ => True
  end.

Lemma validate_items_refuses l e :
  validate_items l = Some e ->
  ~ Forall (fun i => 1 <= ii_Quantity i /\ ii_ProductID i <> uuid_Nil) l /\ exists msg, e = Validation msg.
Proof.
  induction l as [|i l IH]; cbn; [done|]. rewrite Forall_cons. unfold validate_item.
  destruct (ii_Quantity i <? 1) eqn:Hq; [intros [= <-]; split; [lia|eauto]|].
  case_bool_decide; [intros [= <-]; split; [tauto|eauto]|]. intros [Hn Hm]%IH. split; [tauto|done].
Qed.

Lemma validate_input_refuses e :
  validate_input input = Some e -> ~ acceptable /\ exists msg, e = Validation msg.
Proof.
  unfold validate_input, acceptable. case_bool_decide; [intros [= <-]; split; [tauto|eauto]|].
  case_bool_decide; [intros [= <-]; split; [tauto|eauto]|]. intros [Hn Hm]%validate_items_refuses.
  split; [tauto|done].
Qed.

(** A request that passed the validation is refused by its references only. *)
Lemma refused s e a :
  acceptable -> errors_As_AppError e = Some a ->
  ae_Code a ∈ [CodeNotFound; CodeInactiveCustomer; CodeInactiveProduct; CodeInternal] ->
  cs_phase s = Loading -> create_post s (Err e).
Proof. intros. left. split; [done|]. right. eauto. Qed.

(** The pricing loop: nothing is committed, and the accumulator is the priced part. *)
Definition pricing_done (c : Customer) (ps : list Product) (orderID : uuid)
    (pre : list CreateOrderItemInput) (s : cstate) (acc : list Money * list OrderItem) : Prop :=
  s = mkC (Some c) (Some ps) Loading /\ acc.1 = i_TotalPrice <$> acc.2 /\
  Forall2 (priced (index_products ps) orderID) pre acc.2.

Lemma create_price_line c ps orderID pre line s acc :
  acceptable -> pricing_done c ps orderID pre s acc ->
  conforms create_protocol s (price_line (index_products ps) orderID acc line)
    (fun s' r => match r with
                 | Ok acc' => pricing_done c ps orderID (pre ++ [line]) s' acc'
                 | Err e => create_post s' (Err e)
                 | Panic _ => True
                 end).
Proof.
  intros Hok (-> & Htot & Hpr). unfold price_line.
  destruct (index_products ps !! ii_ProductID line) as [p|] eqn:Hp;
    [|by eapply refused; [done|reflexivity|set_solver|]].
  destruct (p_Active p) eqn:Hact; [|by eapply refused; [done|reflexivity|set_solver|]].
  apply conforms_bind, conforms_call; [split; [done|by eexists]|]. intros u _. split; [done|]. cbn. split.
  - by rewrite Htot, fmap_app.
  - apply Forall2_app; [done|]. constructor; [|done]. exists p. repeat split; done.
Qed.

Lemma create_commit c ps orderID now s tots its :
  acceptable -> c_Active c = true -> pricing_done c ps orderID (in_Items input) s (tots, its) ->
  conforms create_protocol s
    (persist_and_publish (mkOrder orderID (in_CustomerID input) StatusCreated (OrderTotal tots)
       createdBy now now None) its) create_post.
Proof.
  intros Hok Hact (-> & Htot & Hpr). cbn in Htot. unfold persist_and_publish.
  apply conforms_bind_err, conforms_call.
  { split; [done|]. split; [done|]. exists c, ps, now. cbn. by rewrite Htot. }
  intros [[]|e|m] _; [|right; left; cbn; eauto|done].
  apply conforms_bind, conforms_call; [cbn; eauto|]. intros [[]|e|m] _; [| |done].
  - apply conforms_bind, conforms_call; [cbn; eauto|]. intros [] _. cbn. eauto.
  - apply conforms_bind, conforms_call; [cbn; eauto|]. intros [] _. right; right. cbn. eauto 6.
Qed.

Lemma create_conforms : conforms create_protocol c_init (Create createdBy input) create_post.
Proof.
  unfold Create. destruct (validate_input input) eqn:Hv.
  { left. split; [done|]. left. by apply validate_input_refuses in Hv as [Hn Hm]. }
  assert (Hok : acceptable) by by apply validate_input_None.
  apply conforms_bind_err, conforms_call; [done|].
  intros [c|e|m] _; [|by case_match; (eapply refused; [done|reflexivity|set_solver|])|done].
  cbv beta iota. destruct (c_Active c) eqn:Hact; cbn [negb]; [|by eapply refused; [done|reflexivity|set_solver|]].
  apply conforms_bind_err, conforms_call; [by split; [|split; [eexists|]]|].
  intros [loaded|e|m] _; [|by eapply refused; [done|reflexivity|set_solver|]|done].
  cbv beta iota zeta.
  apply conforms_bind, conforms_call; [split; [done|by eexists]|]. intros now _.
  apply conforms_bind, conforms_call; [split; [done|by eexists]|]. intros orderID _.
  apply conforms_bind_res, (conforms_for_res _ (pricing_done c loaded orderID)).
  - intros pre line post s acc _ HI. by apply create_price_line.
  - intros s [tots its] HI. by eapply create_commit.
  - repeat split; constructor.
Qed.
End create.

(** ** Process: load, claim, pay, record *)
Inductive pphase :=
| Idle
| Loaded (o : Order)
| Claimed (o : Order)
| Paid (o : Order) (outcome : option error)
| Recorded (outcome : option error)
| Reported (outcome : option error)
| WriteFailed (err : error)
| Halted.

Section process.
Context (orderID : uuid).

Definition outcome_status (outcome : option error) : OrderStatus :=
  match outcome with None => StatusPaid | Some _ => StatusFailed end.

Definition p_allowed {X} (s : pphase) (e : orderE X) : Prop :=
  match e with
  | Repo (FindByID id) => s = Idle /\ id = orderID
  | Repo (UpdateStatus id st) =>
      id = orderID /\ st = StatusProcessing /\ exists o, s = Loaded o /\ o_Status o = StatusCreated
  | ProcessPayment o => s = Claimed o
  | Repo (MarkProcessed id st t) =>
      id = orderID /\ exists o outcome, s = Paid o outcome /\ st = outcome_status outcome
  | IncOrdersProcessed => s = Recorded None
  | IncOrdersFailed => exists e, s = Recorded (Some e)
  | RecordProcessingDuration _ => s = Reported None
  | Now => match s with Claimed _ | Paid _ _ | Halted => True | _ => False end
  | ProcessLog _ _ _ => match s with Idle | Reported _ => True | _ => False end
  | _ => False
  end.

Definition p_next {X} (s : pphase) (e : orderE X) : X -> pphase :=
  match e in orderE X return X -> pphase with
  | Repo r =>
      match r in repoE X return X -> pphase with
      | FindByID id => fun x => match x with Ok (o, _) => Loaded o | Err _ => Idle | Panic _ => Halted end
      | UpdateStatus id st => fun x =>
          match s, x with
          | Loaded o, Ok _ => Claimed o
          | _, Err e => WriteFailed e
          | _, _ => Halted
          end
      | MarkProcessed id st t => fun x =>
          match s, x with
          | Paid _ outcome, Ok _ => Recorded outcome
          | _, Err e => WriteFailed e
          | _, _ => Halted
          end
      | _ => fun _ => s
      end
  | ProcessPayment o => fun x =>
      match x with Ok _ => Paid o None | Err e => Paid o (Some e) | Panic _ => Halted end
  | IncOrdersProcessed => fun _ => Reported None
  | IncOrdersFailed => fun _ => match s with Recorded outcome => Reported outcome | _ => s end
  | _ => fun _ => s
  end.

Definition process_protocol : protocol orderE pphase :=
  mkProtocol (fun X => @p_allowed X) (fun X s e x => True) (fun X => @p_next X).

(** A nil result means: nothing to do, or the outcome of the payment was recorded.
    An error means: the order could not be read, or a write failed. *)
Definition process_post (s : pphase) (r : res unit) : Prop :=
  match r with
  | Ok _ => s = Idle \/ (exists o, s = Loaded o /\ o_Status o <> StatusCreated) \/
            (exists outcome, s = Reported outcome)
  | Err e => (exists err, s = Idle /\ e = Internal "could not load order for processing" err) \/
             (exists err, s = WriteFailed err /\ e = mapOrderRepoErr err)
  | Panic _ => True
  end.

Lemma process_conforms : conforms process_protocol Idle (Process orderID) process_post.
Proof.
  unfold Process. case_bool_decide as Hnil; [split; [exact I|]; intros [] _; by left|].
  apply conforms_bind, conforms_call; [done|]. intros [[o its]|e|m] _; [| |done].
  2: { cbv beta iota. case_match; [|left; eauto]. split; [exact I|]. intros [] _. by left. }
  cbv beta iota. case_bool_decide as Hst; cbn [negb]; [|right; left; eauto].
  rewrite Hst. change (CanTransition StatusCreated StatusProcessing) with true. cbn [negb].
  unfold pay. apply conforms_bind_err, conforms_call; [cbn; eauto|].
  intros [[]|e|m] _; [|right; cbn; eauto|done]. cbv beta iota.
  apply conforms_bind, conforms_call; [done|]. intros start _.
  apply conforms_bind, conforms_call; [done|]. intros pr _.
  apply conforms_bind, conforms_call; [by destruct pr|]. intros stop _.
  destruct pr as [[]|e|m]; [| |done].
  - apply conforms_bind, conforms_call; [done|]. intros t _.
    apply conforms_bind_err, conforms_call; [cbn; eauto 6|].
    intros [[]|e|m] _; [|right; cbn; eauto|done]. cbv beta iota.
    repeat (apply conforms_bind, conforms_call; [done|]; intros [] _). right; right. cbn. eauto.
  - apply conforms_bind, conforms_call; [done|]. intros t _.
    apply conforms_bind_err, conforms_call; [cbn; eauto 6|].
    intros [[]|e'|m] _; [|right; cbn; eauto|done]. cbv beta iota.
    apply conforms_bind, conforms_call; [cbn; eauto|]. intros [] _.
    apply conforms_bind, conforms_call; [done|]. intros [] _. right; right. cbn. eauto.
Qed.
End process.

(** ** Properties *)

(** C3: whatever the ports answer, [Create] calls no port for a request that names no
    customer, has no line, or has a line without a product or with a quantity below one,
    and answers it with a validation error (BR-ORD-001 to BR-ORD-003).  It commits at
    most one order, only for the loaded active customer, in status CREATED, with every
    requested line priced from a loaded active product at its current price and the sum
    of the line totals (BR-ORD-004, BR-ORD-005); it publishes only after a successful
    commit, exactly one message, carrying that order's id and a zero retry count
    (BR-ORD-006); it counts the order only after a successful publish and logs the
    inconsistency exactly when the publish failed; it answers with the committed order
    when it was counted, and otherwise with an application error that says how far it
    got. *)
Theorem Create_follows_protocol (createdBy : uuid) (input : CreateOrderInput) :
  conforms (create_protocol createdBy input) c_init (Create createdBy input) (create_post input).
Proof. apply create_conforms. Qed.

(** C4: whatever the ports answer, [Process] pays at most once, only an order
    it read as CREATED and after the write to PROCESSING was acknowledged; it writes
    PAID exactly after a successful payment and FAILED exactly after a failed one;
    it counts and reports an outcome only after that write was acknowledged; and it
    returns nil only when there was nothing to do or the outcome was recorded. *)
Theorem Process_follows_protocol (orderID : uuid) :
  conforms (process_protocol orderID) Idle (Process orderID) process_post.
Proof. apply process_conforms. Qed.
