(* ===== verification/OrderQueue.v ===== *)
(** OrderQueue: the message ports of internal/order and their in-memory adapters
    (queue.go, processor.go, ports.go): producer, FIFO queue with blocking consumers,
    retry queue, payment processors and lookups. *)
From S2P Require Import Prelude Errors Effects Uuid Money OrderModel.

(** ** FakeProducer

    [OnPublish] is the test hook: [Some calls] when it is set. *)
Record FakeProducer := mkProducer {
  Messages : list OrderCreatedMessage;
  FailNext : bool;
  OnPublish : option (list OrderCreatedMessage);
}.

Definition fake_PublishOrderCreated (msg : OrderCreatedMessage) (p : FakeProducer)
    : res unit * FakeProducer :=
  if FailNext p then (Err (ErrNew "publish failed"), mkProducer (Messages p) false (OnPublish p))
  else (Ok tt, mkProducer (Messages p ++ [msg]) false ((fun calls => calls ++ [msg]) <$> OnPublish p)).

Definition LastMessage (p : FakeProducer) : option OrderCreatedMessage := last (Messages p).

(** ** FakeQueue

    [notify] is a channel of capacity one: whether it holds a token. *)
Record FakeQueue := mkQueue {
  q_msgs : list OrderCreatedMessage;
  q_notify : bool;
  q_closed : bool;
}.

Definition NewFakeQueue : FakeQueue := mkQueue [] false false.

(** The critical sections and channel operations of the queue's methods; each one
    is atomic, and a method is a sequence of them. *)
Inductive queueE : Type -> Type :=
| QPush (msg : OrderCreatedMessage) : queueE unit
| QSetClosed : queueE unit
| QTryNotify : queueE unit
| QPop : queueE (option (res OrderCreatedMessage))
| QWait : queueE (option error).

Definition Enqueue (msg : OrderCreatedMessage) : prog queueE unit :=
  call (QPush msg) ;;; call QTryNotify.

Definition Close : prog queueE unit :=
  call QSetClosed ;;; call QTryNotify.

(** The loop of [Dequeue] for at most [fuel] rounds; [None] is a call that has not
    returned yet. *)
Fixpoint Dequeue (fuel : nat) : prog queueE (option (res OrderCreatedMessage)) :=
  match fuel with
  | O => Ret None
  | S fuel' =>
      popped <- call QPop ;;
      match popped with
      | Some r => Ret (Some r)
      | None =>
          woken <- call QWait ;;
          match woken with
          | Some err => Ret (Some (Err err))
          | None => Dequeue fuel'
          end
      end
  end.

(** The shared state: the queue, whether the consumers' context is cancelled, and
    the history of messages put in and handed out. *)
Record qworld := mkQW {
  qw_queue : FakeQueue;
  qw_cancelled : bool;
  qw_in : list OrderCreatedMessage;
  qw_out : list OrderCreatedMessage;
}.

Definition ErrQueueClosed : error := ErrVar OrderErrQueueClosed.

(** The locked section of [Dequeue]. *)
Definition q_pop (q : FakeQueue) : option (res OrderCreatedMessage) * FakeQueue :=
  match q_msgs q with
  | msg :: rest => (Some (Ok msg), mkQueue rest (q_notify q) (q_closed q))
  | [] => if q_closed q then (Some (Err ErrQueueClosed), q) else (None, q)
  end.

(** What each atomic action may do.  [QWait] is the [select]: it takes the token, or
    sees the cancelled context; with neither there is no step and the caller is
    blocked. *)
Definition queue_sem : Sem queueE qworld :=
  fun X e =>
  match e in queueE X return qworld -> X -> qworld -> Prop with
  | QPush msg => fun w _ w' =>
      let q := qw_queue w in
      w' = mkQW (mkQueue (q_msgs q ++ [msg]) (q_notify q) (q_closed q)) (qw_cancelled w)
             (qw_in w ++ [msg]) (qw_out w)
  | QSetClosed => fun w _ w' =>
      let q := qw_queue w in
      w' = mkQW (mkQueue (q_msgs q) (q_notify q) true) (qw_cancelled w) (qw_in w) (qw_out w)
  | QTryNotify => fun w _ w' =>
      let q := qw_queue w in
      w' = mkQW (mkQueue (q_msgs q) true (q_closed q)) (qw_cancelled w) (qw_in w) (qw_out w)
  | QPop => fun w x w' =>
      let '(r, q') := q_pop (qw_queue w) in
      x = r /\ w' = mkQW q' (qw_cancelled w) (qw_in w)
                      (qw_out w ++ match r with Some (Ok msg) => [msg] | _ => [] end)
  | QWait => fun w x w' =>
      let q := qw_queue w in
      (qw_cancelled w = true /\ x = Some (ErrVar CtxCanceled) /\ w' = w) \/
      (q_notify q = true /\ x = None /\
       w' = mkQW (mkQueue (q_msgs q) false (q_closed q)) (qw_cancelled w) (qw_in w) (qw_out w))
  end.

#[export] Existing Instance queue_sem.

(** ** FakeRetryQueue

    [r_queue] is the linked processing queue, when there is one. *)
Record FakeRetryQueue := mkRetry {
  Requeued : list OrderCreatedMessage;
  DeadLettered : list OrderCreatedMessage;
  ProcessingQueue : option FakeQueue;
  FailRequeue : bool;
  FailDeadLetter : bool;
}.

Definition NewFakeRetryQueue (processing : option FakeQueue) : FakeRetryQueue :=
  mkRetry [] [] processing false false.

(** [Enqueue] run to its end. *)
Definition enqueue_now (msg : OrderCreatedMessage) (q : FakeQueue) : FakeQueue :=
  mkQueue (q_msgs q ++ [msg]) true (q_closed q).

Definition fake_Requeue (msg : OrderCreatedMessage) (f : FakeRetryQueue)
    : res unit * FakeRetryQueue :=
  if FailRequeue f then (Err (ErrNew "requeue failed"), f)
  else (Ok tt, mkRetry (Requeued f ++ [msg]) (DeadLettered f)
                 (enqueue_now msg <$> ProcessingQueue f) (FailRequeue f) (FailDeadLetter f)).

Definition fake_DeadLetter (msg : OrderCreatedMessage) (f : FakeRetryQueue)
    : res unit * FakeRetryQueue :=
  if FailDeadLetter f then (Err (ErrNew "dead-letter failed"), f)
  else (Ok tt, mkRetry (Requeued f) (DeadLettered f ++ [msg])
                 (ProcessingQueue f) (FailRequeue f) (FailDeadLetter f)).

Definition RequeueCount (f : FakeRetryQueue) : Z := Z.of_nat (length (Requeued f)).
Definition DeadLetterCount (f : FakeRetryQueue) : Z := Z.of_nat (length (DeadLettered f)).

(** ** Payment processors

    [FailFor] maps an order id to the error configured for it, which may be nil;
    [OnProcess] is the test hook.  The [BlockUntil] channel only delays the call. *)
Record FakePaymentProcessor := mkProcessor {
  FailFor : gmap uuid (option error);
  OnProcess : option (list uuid);
}.

Definition fake_ProcessPayment (order : Order) (p : FakePaymentProcessor)
    : res unit * FakePaymentProcessor :=
  (match FailFor p !! o_ID order with
   | Some (Some err) => Err err
   | _ => Ok tt
   end,
   mkProcessor (FailFor p) ((fun calls => calls ++ [o_ID order]) <$> OnProcess p)).

Definition SetFailure (orderID : uuid) (err : option error) (p : FakePaymentProcessor)
    : FakePaymentProcessor :=
  mkProcessor (<[orderID := err]> (FailFor p)) (OnProcess p).

Definition AlwaysFail_ProcessPayment (order : Order) : res unit := Err (ErrNew "payment failed").

(** ** Lookups *)
Definition fake_FindCustomer (customers : gmap uuid Customer) (id : uuid) : res Customer :=
  match customers !! id with
  | Some c => Ok c
  | None => Err (ErrVar OrderErrNotFound)
  end.

Definition fake_FindManyByID (products : gmap uuid Product) (ids : list uuid) : res (list Product) :=
  Ok (omap (fun id => products !! id) ids).

(** ** The queue hands out what was put in, once and in order *)

(** Handed out, then still queued. *)
Definition fifo (w : qworld) : Prop := qw_in w = qw_out w ++ q_msgs (qw_queue w).

Lemma fifo_step X (e : queueE X) w x w' : fifo w -> sem e w x w' -> fifo w'.
Proof.
  unfold fifo. intros Hw. destruct e; cbn.
  - intros ->. cbn. by rewrite Hw, <- app_assoc.
  - by intros ->.
  - by intros ->.
  - unfold q_pop. destruct (q_msgs (qw_queue w)) as [|msg rest] eqn:Hq.
    + destruct (q_closed (qw_queue w)); intros [-> ->]; cbn; by rewrite Hq, !app_nil_r in *.
    + intros [-> ->]. cbn. by rewrite <- app_assoc.
  - by intros [(_ & _ & ->)|(_ & _ & ->)].
Qed.

(** The messages consumers returned with. *)
Definition delivered (rs : list (option (res OrderCreatedMessage))) : list OrderCreatedMessage :=
  omap (fun r => match r with Some (Ok msg) => Some msg | _ => None end) rs.

(** The callers of the queue, with their results forgotten to one type. *)
Definition producer (msg : OrderCreatedMessage) : prog queueE (option (res OrderCreatedMessage)) :=
  Enqueue msg ;;; Ret None.
Definition closer : prog queueE (option (res OrderCreatedMessage)) := Close ;;; Ret None.

(** C25: however any number of producers, consumers and closers interleave, at the
    level of the queue's critical sections and channel operations, the messages
    handed to consumers followed by those still queued are exactly the messages
    enqueued, in order: none is lost, duplicated or reordered. *)
Theorem FakeQueue_fifo (ts ts' : list (prog queueE (option (res OrderCreatedMessage)))) (w w' : qworld) :
  qw_in w = qw_out w ++ q_msgs (qw_queue w) ->
  pool_steps (ts, w) (ts', w') ->
  qw_in w' = qw_out w' ++ q_msgs (qw_queue w').
Proof. intros Hw Hsteps. exact (pool_invariant fifo fifo_step _ _ _ Hsteps Hw). Qed.

(** One call of the program at index [i], as a step of the pool. *)
Lemma pool_step_at {A X} (ts ts' : list (prog queueE A)) w w' i (e : queueE X) k x :
  ts !! i = Some (Vis e k) -> sem e w x w' -> ts' = <[i := k x]> ts ->
  pool_step (ts, w) (ts', w').
Proof. intros Hi Hs ->. eapply pool_call; [exact Hi|]. by exists x. Qed.

(** Let the program at index [i] make the call [e], answered by [x]. *)
Tactic Notation "advance" uconstr(i) uconstr(e) uconstr(x) :=
  eapply rtc_l;
  [eapply (pool_step_at _ _ _ _ i e _ x);
   [reflexivity|first [reflexivity|split; reflexivity|right; repeat split]|reflexivity]|].

Definition msg1 : OrderCreatedMessage := mkMessage 1 OrderCreatedEvent 0 0.

(** A consumer that blocks on the empty queue and is woken by a producer. *)
Definition blocked_world : qworld := mkQW NewFakeQueue false [] [].
Definition woken_world : qworld := mkQW NewFakeQueue false [msg1] [msg1].

Lemma woken_run :
  pool_steps ([Dequeue 2; producer msg1], blocked_world)
             ([Ret (Some (Ok msg1)); Ret None], woken_world).
Proof.
  advance 0%nat QPop None.
  advance 1%nat (QPush msg1) tt.
  advance 1%nat QTryNotify tt.
  advance 0%nat QWait None.
  advance 0%nat QPop (Some (Ok msg1)).
  reflexivity.
Qed.

Lemma FakeQueue_fifo_witness :
  qw_in woken_world = qw_out woken_world ++ q_msgs (qw_queue woken_world).
Proof. exact (FakeQueue_fifo _ _ blocked_world woken_world eq_refl woken_run). Defined.

(** [Close] leaves one token on the notify channel, so with two consumers
    blocked in [Dequeue] only one of them is woken: there is a run after which the
    queue is closed, one consumer has returned [ErrQueueClosed], and the other is
    still blocked with no step left for anybody, unless its context is cancelled. *)
Theorem Close_wakes_one_consumer :
  exists (k : option error -> prog queueE (option (res OrderCreatedMessage))) (w' : qworld),
    pool_steps ([Dequeue 2; Dequeue 2; closer], blocked_world)
      ([Ret (Some (Err ErrQueueClosed)); Vis QWait k; Ret None], w') /\
    q_closed (qw_queue w') = true /\
    forall c, ~ pool_step ([Ret (Some (Err ErrQueueClosed)); Vis QWait k; Ret None], w') c.
Proof.
  exists (fun woken => match woken with Some err => Ret (Some (Err err)) | None => Dequeue 1 end),
    (mkQW (mkQueue [] false true) false [] []).
  split; [|split].
  - advance 0%nat QPop None.
    advance 1%nat QPop None.
    advance 2%nat QSetClosed tt.
    advance 2%nat QTryNotify tt.
    advance 0%nat QWait None.
    advance 0%nat QPop (Some (Err ErrQueueClosed)).
    reflexivity.
  - reflexivity.
  - intros c Hstep. inversion Hstep as [ts w i p p' w' Hi Hp]; subst.
    destruct i as [|[|[|i]]]; cbn in Hi; try discriminate; injection Hi as <-; try done.
    destruct Hp as (x & Hsem & _). cbn in Hsem. naive_solver.
Qed.
