(* ===== verification/QueueDrain.v ===== *)
(** QueueDrain: looping consumers over the in-memory queue of internal/order/queue.go:
    every schedule of producers and consumers ends, and ends with the queue empty; and
    what the one-token notify channel does to callers that do not loop. *)
From S2P Require Import Prelude Errors Effects Uuid Money OrderModel OrderQueue.

(** ** The places of a caller

    A worker goroutine is about to enter the locked section of [Dequeue], blocked in
    its [select], handling the message it got, or has left its loop with an error. *)
Inductive place :=
| AtPop
| AtWait
| Busy
| Stopped.

Inductive producer_place :=
| ToPush (msg : OrderCreatedMessage)
| ToNotify
| Returned.

(** The rest of the method at each place. *)
Definition consumer_rest (fuel : nat) (p : place) : prog queueE (option (res OrderCreatedMessage)) :=
  match p with
  | AtPop => Dequeue (S fuel)
  | AtWait =>
      woken <- call QWait ;;
      match woken with Some err => Ret (Some (Err err)) | None => Dequeue fuel end
  | Busy | Stopped => Ret None
  end.

Definition producer_rest (p : producer_place) : prog queueE unit :=
  match p with
  | ToPush msg => Enqueue msg
  | ToNotify => call QTryNotify
  | Returned => Ret tt
  end.

(** ** One step of the system *)
Record system := mkSystem {
  consumers : list place;
  producers : list producer_place;
  shared : qworld;
}.

Inductive system_step : system -> system -> Prop :=
| step_got cs ps w w' i msg :
    cs !! i = Some AtPop -> sem QPop w (Some (Ok msg)) w' ->
    system_step (mkSystem cs ps w) (mkSystem (<[i := Busy]> cs) ps w')
| step_closed cs ps w w' i err :
    cs !! i = Some AtPop -> sem QPop w (Some (Err err)) w' ->
    system_step (mkSystem cs ps w) (mkSystem (<[i := Stopped]> cs) ps w')
| step_empty cs ps w w' i :
    cs !! i = Some AtPop -> sem QPop w None w' ->
    system_step (mkSystem cs ps w) (mkSystem (<[i := AtWait]> cs) ps w')
| step_woken cs ps w w' i :
    cs !! i = Some AtWait -> sem QWait w None w' ->
    system_step (mkSystem cs ps w) (mkSystem (<[i := AtPop]> cs) ps w')
| step_cancelled cs ps w w' i err :
    cs !! i = Some AtWait -> sem QWait w (Some err) w' ->
    system_step (mkSystem cs ps w) (mkSystem (<[i := Stopped]> cs) ps w')
| step_handled cs ps w i :
    cs !! i = Some Busy -> system_step (mkSystem cs ps w) (mkSystem (<[i := AtPop]> cs) ps w)
| step_push cs ps w w' j msg :
    ps !! j = Some (ToPush msg) -> sem (QPush msg) w tt w' ->
    system_step (mkSystem cs ps w) (mkSystem cs (<[j := ToNotify]> ps) w')
| step_notify cs ps w w' j :
    ps !! j = Some ToNotify -> sem QTryNotify w tt w' ->
    system_step (mkSystem cs ps w) (mkSystem cs (<[j := Returned]> ps) w').

(** The places follow the methods: a call of the code is the step of its place. *)
Lemma producer_follows p w q w' :
  prog_step (producer_rest p) w q w' ->
  exists p', q = producer_rest p' /\
    system_step (mkSystem [] [p] w) (mkSystem [] [p'] w').
Proof.
  destruct p as [msg| |]; cbn; [| |done]; intros ([] & Hs & ->).
  - exists ToNotify. split; [done|]. by apply (step_push [] [ToPush msg] w w' 0 msg).
  - exists Returned. split; [done|]. by apply (step_notify [] [ToNotify] w w' 0).
Qed.

Lemma consumer_follows fuel p w q w' :
  prog_step (consumer_rest fuel p) w q w' ->
  exists p', system_step (mkSystem [p] [] w) (mkSystem [p'] [] w') /\
    (q = consumer_rest fuel p' \/ p' = AtPop /\ q = Dequeue fuel \/
     (exists msg, p' = Busy /\ q = Ret (Some (Ok msg))) \/
     exists err, p' = Stopped /\ q = Ret (Some (Err err))).
Proof.
  destruct p; cbn [consumer_rest prog_step Dequeue bind call]; [| |done..].
  - intros ([[msg|err|why]|] & Hs & ->).
    + exists Busy. split; [by apply (step_got [AtPop] [] w w' 0 msg)|]. right. right. left. by exists msg.
    + exists Stopped. split; [by apply (step_closed [AtPop] [] w w' 0 err)|]. right. right. right. by exists err.
    + exfalso. cbn in Hs. unfold q_pop in Hs. by repeat case_match; destruct Hs.
    + exists AtWait. split; [by apply (step_empty [AtPop] [] w w' 0)|]. by left.
  - intros ([err|] & Hs & ->).
    + exists Stopped. split; [by apply (step_cancelled [AtWait] [] w w' 0 err)|]. right. right. right. by exists err.
    + exists AtPop. split; [by apply (step_woken [AtWait] [] w w' 0)|]. right. by left.
Qed.

(** ** Every step uses something up *)
Definition place_weight (p : place) : nat :=
  match p with AtPop => 2 | Busy => 3 | AtWait => 1 | Stopped => 0 end.

Definition producer_weight (p : producer_place) : nat :=
  match p with ToPush _ => 6 | ToNotify => 3 | Returned => 0 end.

Definition weight (s : system) : nat :=
  let q := qw_queue (shared s) in
  sum_list_with place_weight (consumers s) + sum_list_with producer_weight (producers s)
  + 2 * length (q_msgs q) + (if q_notify q then 2 else 0).

Lemma sum_insert {A} (f : A -> nat) l i x y :
  l !! i = Some x -> (sum_list_with f (<[i := y]> l) + f x = sum_list_with f l + f y)%nat.
Proof.
  revert i. induction l as [|z l IH]; intros [|i] Hi; [done..| |].
  - injection Hi as ->. cbn. lia.
  - specialize (IH i Hi). change (<[S i := y]> (z :: l)) with (z :: <[i := y]> l).
    cbn [sum_list_with]. lia.
Qed.

(** ** What the locked section and the [select] do *)
Lemma pop_got w msg w' :
  sem QPop w (Some (Ok msg)) w' ->
  exists rest, q_msgs (qw_queue w) = msg :: rest /\
    w' = mkQW (mkQueue rest (q_notify (qw_queue w)) (q_closed (qw_queue w)))
           (qw_cancelled w) (qw_in w) (qw_out w ++ [msg]).
Proof.
  cbn. unfold q_pop. destruct (q_msgs (qw_queue w)) as [|m rest].
  - destruct (q_closed (qw_queue w)); by intros [? ?].
  - intros [[= ->] ->]. by exists rest.
Qed.

Lemma pop_idle w x w' :
  sem QPop w x w' -> (forall msg, x <> Some (Ok msg)) ->
  q_msgs (qw_queue w) = [] /\ w' = w /\ (is_Some x -> q_closed (qw_queue w) = true).
Proof.
  cbn. unfold q_pop. destruct w as [[msgs tok closed] can ins outs]; cbn.
  destruct msgs as [|m rest]; [destruct closed|]; intros [-> ->] Hx; [..|by destruct (Hx m)].
  - by rewrite app_nil_r.
  - rewrite app_nil_r. split_and!; [done..|]. by intros [? ?].
Qed.

Lemma wait_woken w w' :
  sem QWait w None w' ->
  q_notify (qw_queue w) = true /\
  w' = mkQW (mkQueue (q_msgs (qw_queue w)) false (q_closed (qw_queue w)))
         (qw_cancelled w) (qw_in w) (qw_out w).
Proof. cbn. naive_solver. Qed.

Lemma wait_cancelled w err w' :
  sem QWait w (Some err) w' -> qw_cancelled w = true /\ w' = w.
Proof. cbn. naive_solver. Qed.

(** The case analysis of a step, with each action's effect on the shared state. *)
Ltac step_cases Hs :=
  destruct Hs as [cs ps w w' i msg Hi Hsem|cs ps w w' i err Hi Hsem|cs ps w w' i Hi Hsem
    |cs ps w w' i Hi Hsem|cs ps w w' i err Hi Hsem|cs ps w i Hi|cs ps w w' j msg Hj Hsem|cs ps w w' j Hj Hsem];
  [ apply pop_got in Hsem as (? & Hmsgs & ->)
  | apply pop_idle in Hsem as (Hmsgs & -> & Hclosed); [|done]
  | apply pop_idle in Hsem as (Hmsgs & -> & _); [|done]
  | apply wait_woken in Hsem as (Htoken & ->)
  | apply wait_cancelled in Hsem as (Hcancel & ->)
  | | cbn in Hsem; subst w' | cbn in Hsem; subst w' ].

Lemma weight_decreases s s' : system_step s s' -> (weight s' < weight s)%nat.
Proof.
  intros Hs. unfold weight. step_cases Hs; cbn [consumers producers shared qw_queue q_msgs q_notify];
    try (pose proof (sum_insert place_weight cs i _ Busy Hi); pose proof (sum_insert place_weight cs i _ Stopped Hi);
         pose proof (sum_insert place_weight cs i _ AtWait Hi); pose proof (sum_insert place_weight cs i _ AtPop Hi));
    try (pose proof (sum_insert producer_weight ps j _ ToNotify Hj);
         pose proof (sum_insert producer_weight ps j _ Returned Hj));
    try rewrite Hmsgs; try rewrite Htoken; rewrite ?length_app; cbn in *; try case_match; lia.
Qed.

Lemma steps_bounded n s s' : nsteps system_step n s s' -> (n + weight s' <= weight s)%nat.
Proof.
  induction 1 as [s|n s1 s2 s3 Hstep _ IH]; [lia|]. apply weight_decreases in Hstep. lia.
Qed.

(** ** No message is forgotten *)
Definition pending (p : producer_place) : option OrderCreatedMessage :=
  match p with ToPush msg => Some msg | _ => None end.

(** Somebody is going to look at the queue: a consumer that has not blocked, a
    producer that has not notified yet, or the token itself. *)
Definition attended (s : system) : Prop :=
  q_notify (qw_queue (shared s)) = true \/ AtPop ∈ consumers s \/ Busy ∈ consumers s \/
  ToNotify ∈ producers s.

Record draining (l : list OrderCreatedMessage) (k : nat) (s : system) : Prop := {
  running : Stopped ∉ consumers s /\ length (consumers s) = k;
  open : q_closed (qw_queue (shared s)) = false /\ qw_cancelled (shared s) = false;
  in_order : qw_in (shared s) = qw_out (shared s) ++ q_msgs (qw_queue (shared s));
  all_sent : qw_in (shared s) ++ omap pending (producers s) ≡ₚ l;
  looked_at : q_msgs (qw_queue (shared s)) <> [] -> attended s;
}.

Lemma elem_insert_new {A} (l : list A) i x y : l !! i = Some x -> y ∈ <[i := y]> l.
Proof. intros Hi. eapply list_elem_of_lookup_2, list_lookup_insert_eq, lookup_lt_Some, Hi. Qed.

Lemma elem_insert_old {A} (l : list A) i x y z :
  l !! i = Some x -> z <> x -> z ∈ l -> z ∈ <[i := y]> l.
Proof.
  intros Hi Hne [j Hj]%list_elem_of_lookup. apply (list_elem_of_lookup_2 _ j).
  rewrite list_lookup_insert_ne; [done|]. intros ->. congruence.
Qed.

Lemma elem_insert_inv {A} (l : list A) i y z : z ∈ <[i := y]> l -> z = y \/ z ∈ l.
Proof.
  intros [j Hj]%list_elem_of_lookup. destruct (decide (i = j)) as [->|Hne].
  - apply list_lookup_insert_Some in Hj as [(_ & <- & _)|(? & _)]; [by left|done].
  - rewrite list_lookup_insert_ne in Hj by done. right. by eapply list_elem_of_lookup_2.
Qed.

Lemma omap_insert_pending ps j p q :
  ps !! j = Some p -> pending q = None ->
  omap pending ps ≡ₚ option_list (pending p) ++ omap pending (<[j := q]> ps).
Proof.
  revert j. induction ps as [|p0 ps IH]; intros [|j] Hj Hq; [done..| |].
  - injection Hj as ->. cbn. rewrite Hq. by destruct (pending p).
  - specialize (IH j Hj Hq). change (<[S j := q]> (p0 :: ps)) with (p0 :: <[j := q]> ps).
    cbn. destruct (pending p0) as [m|]; [|done]. rewrite IH. destruct (pending p); cbn; [constructor|done].
Qed.

Lemma consumers_keep cs i p k :
  p <> Stopped -> Stopped ∉ cs /\ length cs = k -> Stopped ∉ <[i := p]> cs /\ length (<[i := p]> cs) = k.
Proof.
  intros Hp [Hrun <-]. split; [|apply length_insert]. by intros [<-|?]%elem_insert_inv.
Qed.

Lemma system_step_draining l k s s' : draining l k s -> system_step s s' -> draining l k s'.
Proof.
  intros [Hrun [Hopen Hlive] Hfifo Hsent Hatt] Hs. revert Hrun Hopen Hlive Hfifo Hsent Hatt.
  step_cases Hs; cbn [consumers producers shared qw_queue qw_cancelled qw_in qw_out q_msgs q_closed];
    intros Hrun Hopen Hlive Hfifo Hsent Hatt; try (rewrite Hclosed in Hopen by done; discriminate);
    try congruence; split; cbn [consumers producers shared qw_queue qw_cancelled qw_in qw_out q_msgs q_closed];
    try done; try (by apply consumers_keep); unfold attended; cbn [consumers producers shared qw_queue q_notify].
  - by rewrite Hfifo, Hmsgs, <- app_assoc.
  - intros _. right. right. left. by eapply elem_insert_new.
  - intros _. right. left. by eapply elem_insert_new.
  - intros _. right. left. by eapply elem_insert_new.
  - by rewrite Hfifo, app_assoc.
  - rewrite <- Hsent, (omap_insert_pending ps j _ ToNotify Hj eq_refl). cbn. by rewrite <- app_assoc.
  - intros _. right. right. right. by eapply elem_insert_new.
  - by rewrite <- Hsent, (omap_insert_pending ps j _ Returned Hj eq_refl).
  - intros _. by left.
Qed.

Lemma nsteps_draining l k n s s' :
  draining l k s -> nsteps system_step n s s' -> draining l k s'.
Proof. intros Hs Hn. induction Hn; eauto using system_step_draining. Qed.

(** ** A system with no step left *)
Lemma pop_enabled w : exists x w', sem QPop w x w' /\ forall why, x <> Some (Panic why).
Proof.
  cbn. unfold q_pop. destruct (q_msgs (qw_queue w)); [destruct (q_closed (qw_queue w))|]; by repeat eexists.
Qed.

Lemma stuck_places s :
  (forall s', ~ system_step s s') -> q_closed (qw_queue (shared s)) = false ->
  AtPop ∉ consumers s /\ Busy ∉ consumers s /\ (forall p, p ∈ producers s -> p = Returned) /\
  (AtWait ∈ consumers s -> q_notify (qw_queue (shared s)) = false).
Proof.
  destruct s as [cs ps w]. cbn. intros Hstuck Hopen. split_and!.
  - intros [i Hi]%list_elem_of_lookup. destruct (pop_enabled w) as ([[msg|err|why]|] & w' & Hsem & Hno).
    + eapply Hstuck, step_got; eauto.
    + eapply Hstuck, step_closed; eauto.
    + by destruct (Hno why).
    + eapply Hstuck, step_empty; eauto.
  - intros [i Hi]%list_elem_of_lookup. eapply Hstuck, step_handled; eauto.
  - intros [msg| |] [j Hj]%list_elem_of_lookup; [| |done]; exfalso.
    + eapply Hstuck, (step_push cs ps w _ j msg Hj). reflexivity.
    + eapply Hstuck, (step_notify cs ps w _ j Hj). reflexivity.
  - intros [i Hi]%list_elem_of_lookup. destruct (q_notify (qw_queue w)) eqn:Htok; [|done].
    exfalso. eapply Hstuck, (step_woken cs ps w _ i Hi). cbn. right. by split_and!.
Qed.

Lemma pending_none ps : (forall p, p ∈ ps -> p = Returned) -> omap pending ps = [].
Proof.
  induction ps as [|p ps IH]; intros Hall; [done|]. cbn. rewrite (Hall p) by set_solver. cbn.
  apply IH. set_solver.
Qed.

(** [k] looping consumers and one producer per message, on an open empty queue. *)
Definition drain_start (k : nat) (l : list OrderCreatedMessage) : system :=
  mkSystem (replicate k AtPop) (ToPush <$> l) (mkQW NewFakeQueue false [] []).

Lemma drain_start_draining k l : draining l k (drain_start k l).
Proof.
  split; cbn; try done.
  - rewrite length_replicate. split; [|done]. intros [? _]%elem_of_replicate. done.
  - by induction l as [|msg l IH]; cbn; [|rewrite IH].
Qed.

Lemma drain_start_weight k l : weight (drain_start k l) = (2 * k + 6 * length l)%nat.
Proof.
  unfold weight, drain_start. cbn.
  assert (sum_list_with place_weight (replicate k AtPop) = 2 * k)%nat as -> by (induction k; cbn; lia).
  assert (sum_list_with producer_weight (ToPush <$> l) = 6 * length l)%nat as -> by (induction l; cbn in *; lia).
  lia.
Qed.

Lemma drained k l s :
  k <> 0%nat -> draining l k s -> (forall s', ~ system_step s s') ->
  q_msgs (qw_queue (shared s)) = [] /\ qw_out (shared s) = qw_in (shared s) /\
  qw_out (shared s) ≡ₚ l /\ consumers s = replicate k AtWait.
Proof.
  intros Hk [[Hrun Hlen] [Hopen _] Hfifo Hsent Hatt] Hstuck.
  destruct (stuck_places s Hstuck Hopen) as (Hpop & Hbusy & Hps & Htok).
  assert (Hwait : forall p, p ∈ consumers s -> p = AtWait) by (intros []; naive_solver).
  assert (Hc : consumers s = replicate k AtWait).
  { symmetry. apply replicate_as_elem_of. by split. }
  assert (Hempty : q_msgs (qw_queue (shared s)) = []).
  { destruct (q_msgs (qw_queue (shared s))) eqn:Hm; [done|]. exfalso.
    destruct Hatt as [Ht|[?|[?|Hn]]]; [done| |done..|].
    - rewrite Htok in Ht; [done|]. rewrite Hc. destruct k; [done|]. left.
    - by apply Hps in Hn. }
  rewrite Hempty, app_nil_r in Hfifo. rewrite (pending_none _ Hps), app_nil_r in Hsent.
  split_and!; [done|congruence| |done]. by rewrite <- Hfifo.
Qed.

(** C26: Every schedule of [k] looping workers and any number of producers over the
    in-memory queue ends, after at most [2 * k + 6 * length l] atomic actions, and when no
    action is left every message has been handed out, in the order it was put in, each
    exactly once, and the workers wait: although the notify channel holds one token and
    wake-ups merge, no message is left behind as long as workers call [Dequeue] again. *)
Theorem consumers_drain_queue (k : nat) (l : list OrderCreatedMessage) (n : nat) (s : system) :
  k <> 0%nat ->
  nsteps system_step n (drain_start k l) s ->
  (n <= 2 * k + 6 * length l)%nat /\
  ((forall s', ~ system_step s s') ->
   q_msgs (qw_queue (shared s)) = [] /\ qw_out (shared s) = qw_in (shared s) /\
   qw_out (shared s) ≡ₚ l /\ consumers s = replicate k AtWait).
Proof.
  intros Hk Hn. split.
  - apply steps_bounded in Hn. rewrite drain_start_weight in Hn. lia.
  - intros Hstuck. apply drained; [done| |done].
    eapply nsteps_draining; [apply drain_start_draining|exact Hn].
Qed.

(** One worker and one producer: the worker finds the queue empty and blocks, is woken,
    takes the message, handles it and blocks again. *)
Definition drain_end : system :=
  mkSystem [AtWait] [Returned] (mkQW NewFakeQueue false [msg1] [msg1]).

Lemma drain_run : nsteps system_step 7 (drain_start 1 [msg1]) drain_end.
Proof.
  eapply nsteps_l; [eapply (step_empty _ _ _ _ 0); [reflexivity|by split]|].
  eapply nsteps_l; [eapply (step_push _ _ _ _ 0); [reflexivity|reflexivity]|].
  eapply nsteps_l; [eapply (step_notify _ _ _ _ 0); [reflexivity|reflexivity]|].
  eapply nsteps_l; [eapply (step_woken _ _ _ _ 0); [reflexivity|right; by split_and!]|].
  eapply nsteps_l; [eapply (step_got _ _ _ _ 0); [reflexivity|by split]|].
  eapply nsteps_l; [eapply (step_handled _ _ _ 0); reflexivity|].
  eapply nsteps_l; [eapply (step_empty _ _ _ _ 0); [reflexivity|by split]|].
  apply nsteps_O.
Qed.

Lemma consumers_drain_queue_witness :
  (7 <= 2 * 1 + 6 * length [msg1])%nat /\
  ((forall s', ~ system_step drain_end s') ->
   q_msgs (qw_queue (shared drain_end)) = [] /\ qw_out (shared drain_end) = qw_in (shared drain_end) /\
   qw_out (shared drain_end) ≡ₚ [msg1] /\ consumers drain_end = replicate 1 AtWait).
Proof. exact (consumers_drain_queue 1 [msg1] 7 drain_end ltac:(done) drain_run). Defined.

(** ** Wake-ups merge

    Two callers that each call [Dequeue] once and two producers: both consumers block,
    both messages go in, and the second notify finds the channel full.  One consumer is
    woken and returns; the other stays blocked although a message is waiting. *)
Definition msg2 : OrderCreatedMessage := mkMessage 2 OrderCreatedEvent 0 0.

Lemma wakeups_merge :
  exists (k : option error -> prog queueE (option (res OrderCreatedMessage))) (w : qworld),
    pool_steps ([Dequeue 2; Dequeue 2; producer msg1; producer msg2], blocked_world)
      ([Ret (Some (Ok msg1)); Vis QWait k; Ret None; Ret None], w) /\
    q_msgs (qw_queue w) = [msg2] /\
    forall c, ~ pool_step ([Ret (Some (Ok msg1)); Vis QWait k; Ret None; Ret None], w) c.
Proof.
  exists (fun woken => match woken with Some err => Ret (Some (Err err)) | None => Dequeue 1 end),
    (mkQW (mkQueue [msg2] false false) false [msg1; msg2] [msg1]).
  split; [|split].
  - advance 0%nat QPop None.
    advance 1%nat QPop None.
    advance 2%nat (QPush msg1) tt.
    advance 2%nat QTryNotify tt.
    advance 3%nat (QPush msg2) tt.
    advance 3%nat QTryNotify tt.
    advance 0%nat QWait None.
    advance 0%nat QPop (Some (Ok msg1)).
    reflexivity.
  - reflexivity.
  - intros c Hstep. inversion Hstep as [ts w i p p' w' Hi Hp]; subst.
    destruct i as [|[|[|[|i]]]]; cbn in Hi; try discriminate; injection Hi as <-; try done.
    destruct Hp as (x & Hsem & _). cbn in Hsem. naive_solver.
Qed.
