(* ===== verification/RedisQueue.v ===== *)
(** RedisQueue: the Redis adapters of internal/queue (producer.go, consumer.go,
    retry.go, redis.go): the message ports as Redis list commands, and the proof that
    they implement a shared FIFO channel with a dead-letter list. *)
From S2P Require Import Prelude Errors Effects GoStrings Uuid Calendar Json JsonText JsonDecode OrderModel.

(** ** The Redis client

    The go-redis commands the adapters issue.  [BRPop] answers the pair of the list
    name and the popped payload. *)
Inductive redisE : Type -> Type :=
| LPush (key payload : string) : redisE (res unit)
| BRPop (key : string) : redisE (res (list string))
| Ping : redisE (res unit)
| CloseClient : redisE unit.

(** [NewRedisClient]: connect, ping, and close the client when the ping fails. *)
Definition NewRedisClient : prog redisE (res unit) :=
  pinged <- call Ping ;;
  match pinged with
  | Err err => call CloseClient ;;; Ret (Err (ErrWrap ("queue: ping redis: " +:+ Error err) err))
  | r => Ret r
  end.

Section adapters.
Context `{!UuidText, !LocalZone}.

(** ** The JSON text of a message

    The tagged fields of [OrderCreatedMessage]. *)
Definition message_json (m : OrderCreatedMessage) : json :=
  JObj [("order_id", JUuid (m_OrderID m)); ("event", JStr (m_Event m));
        ("created_at", JTime (m_CreatedAt m)); ("retry_count", JInt (m_RetryCount m))].

Definition dec_message : jval -> OrderCreatedMessage -> option OrderCreatedMessage := dec_struct [
  field "order_id" dec_uuid m_OrderID
    (fun x m => mkMessage x (m_Event m) (m_CreatedAt m) (m_RetryCount m));
  field "event" dec_string m_Event
    (fun x m => mkMessage (m_OrderID m) x (m_CreatedAt m) (m_RetryCount m));
  field "created_at" dec_time m_CreatedAt
    (fun x m => mkMessage (m_OrderID m) (m_Event m) x (m_RetryCount m));
  field "retry_count" dec_int m_RetryCount
    (fun x m => mkMessage (m_OrderID m) (m_Event m) (m_CreatedAt m) x)].

(** [json.Marshal] fails on an instant whose year does not have four digits. *)
Definition json_Marshal (m : OrderCreatedMessage) : res string :=
  match render (message_json m) with
  | Some text => Ok (of_bytes text)
  | None => Err json_error
  end.

(** The zero [time.Time] is the first instant of year 1. *)
Definition zero_time : time := -62135596800 * 1000000000.

Definition json_Unmarshal (payload : string) : res OrderCreatedMessage :=
  unmarshal_res dec_message (mkMessage uuid_Nil "" zero_time 0) (to_bytes payload).

(** A message that survives the trip: a 64-bit retry count, an ASCII event name and an
    instant RFC 3339 can write. *)
Definition encodable (m : OrderCreatedMessage) : Prop :=
  is_ascii (m_Event m) /\ in_int64 (m_RetryCount m) /\ is_Some (format_rfc3339 (m_CreatedAt m)).

Lemma json_roundtrip m :
  encodable m -> exists payload, json_Marshal m = Ok payload /\ json_Unmarshal payload = Ok m.
Proof.
  intros (He & Hr & [text Ht]). unfold json_Marshal.
  assert (Hrender : exists l, render (message_json m) = Some l).
  { unfold message_json. cbn [render mapM fst snd]. rewrite Ht. cbn [fmap option_fmap option_map mbind option_bind mret option_ret]. by eexists. }
  destruct Hrender as [l Hl]. rewrite Hl. eexists. split; [reflexivity|].
  unfold json_Unmarshal, unmarshal_res. rewrite to_of_bytes, (Unmarshal_render _ _ (message_json m)) by done.
  unfold dec_message, message_json. select_fields. rewrite of_to_bytes, uuid_Parse_String. cbn [option_map].
  rewrite Ht. cbn [default from_option id]. rewrite (parse_format_rfc3339 _ _ Ht). cbn [option_map].
  rewrite ParseInt_fmt_d, valid_utf8_ascii, of_to_bytes by done. by destruct m.
Qed.

(** ** producer.go, consumer.go, retry.go *)
Definition OrderQueueName : string := "orders:processing".
Definition OrderDeadLetterQueueName : string := "orders:dead-letter".

(** [payload, err := json.Marshal(msg)] and one LPUSH. *)
Definition push_message (key : string) (msg : OrderCreatedMessage) : prog redisE (res unit) :=
  match json_Marshal msg with
  | Ok payload => call (LPush key payload)
  | Err err => Ret (Err err)
  | Panic why => Ret (Panic why)
  end.

Definition PublishOrderCreated (queue : string) (msg : OrderCreatedMessage) : prog redisE (res unit) :=
  push_message queue msg.

Definition Dequeue (queue : string) : prog redisE (res OrderCreatedMessage) :=
  r <-! call (BRPop queue) ;;
  match r !! 1%nat with
  | Some payload => Ret (json_Unmarshal payload)
  | None => Ret (Panic "index out of range")
  end.

Definition Requeue (msg : OrderCreatedMessage) : prog redisE (res unit) :=
  push_message OrderQueueName msg.

Definition DeadLetter (msg : OrderCreatedMessage) : prog redisE (res unit) :=
  push_message OrderDeadLetterQueueName msg.

(** ** The contract: a shared channel

    The messages waiting, oldest first, and the dead letters, oldest first. *)
Record channel := mkChannel {
  ch_waiting : list OrderCreatedMessage;
  ch_dead : list OrderCreatedMessage;
}.

Inductive channelE : Type -> Type :=
| ChPublish (msg : OrderCreatedMessage) : channelE (res unit)
| ChRequeue (msg : OrderCreatedMessage) : channelE (res unit)
| ChDeadLetter (msg : OrderCreatedMessage) : channelE (res unit)
| ChDequeue : channelE (res OrderCreatedMessage).

(** A command that reports an error may still have taken effect on the server: a
    failed send delivers at most once, a failed dequeue may lose the oldest message. *)
Definition sent (x : res unit) (before after l : list OrderCreatedMessage) : Prop :=
  l = after \/ (x <> Ok tt /\ l = before).

#[export] Instance channel_spec : Sem channelE channel :=
  fun X e =>
  match e in channelE X return channel -> X -> channel -> Prop with
  | ChPublish msg | ChRequeue msg => fun c x c' =>
      sent x (ch_waiting c) (ch_waiting c ++ [msg]) (ch_waiting c') /\ ch_dead c' = ch_dead c
  | ChDeadLetter msg => fun c x c' =>
      sent x (ch_dead c) (ch_dead c ++ [msg]) (ch_dead c') /\ ch_waiting c' = ch_waiting c
  | ChDequeue => fun c x c' =>
      ch_dead c' = ch_dead c /\
      match x with
      | Ok msg => ch_waiting c = msg :: ch_waiting c'
      | _ => ch_waiting c' = ch_waiting c \/ exists msg, ch_waiting c = msg :: ch_waiting c'
      end
  end.

(** The Redis implementation of the channel. *)
Definition redis_channel (X : Type) (e : channelE X) : prog redisE X :=
  match e in channelE X return prog redisE X with
  | ChPublish msg => PublishOrderCreated OrderQueueName msg
  | ChRequeue msg => Requeue msg
  | ChDeadLetter msg => DeadLetter msg
  | ChDequeue => Dequeue OrderQueueName
  end.

(** Clients send encodable messages, given that the ones they receive are. *)
Definition sends_encodable : protocol channelE unit := mkProtocol
  (fun X _ e => match e with
                | ChPublish msg | ChRequeue msg | ChDeadLetter msg => encodable msg
                | ChDequeue => True
                end)
  (fun X _ e => match e in channelE X return X -> Prop with
                | ChDequeue => fun x => match x with Ok msg => encodable msg | _ => True end
                | _ => fun _ => True
                end)
  (fun X _ _ _ => tt).

Definition client {A} (p : prog channelE A) : Prop := conforms sends_encodable tt p (fun _ _ => True).
End adapters.

(** Beyond this point only [json_roundtrip] is needed of the text. *)
#[global] Opaque json_Marshal json_Unmarshal encodable.

(** ** The documented behaviour of Redis lists

    LPUSH adds at the head, BRPOP removes the tail (and has no step on an empty
    list: the caller is blocked), and neither touches another list. *)
Class RedisLists (W : Type) := {
  redis_sem :: Sem redisE W;
  list_at : W -> string -> list string;
  lpush_law key payload w x w' : sem (LPush key payload) w x w' ->
    (list_at w' key = payload :: list_at w key \/ x <> Ok tt /\ list_at w' key = list_at w key) /\
    forall other, other <> key -> list_at w' other = list_at w other;
  brpop_law key w x w' : sem (BRPop key) w x w' ->
    match x with
    | Ok r => exists payload, r = [key; payload] /\ list_at w key = list_at w' key ++ [payload]
    | _ => list_at w' key = list_at w key \/
           exists payload, list_at w key = list_at w' key ++ [payload]
    end /\
    forall other, other <> key -> list_at w' other = list_at w other;
}.

Section refinement.
Context {W : Type} `{!UuidText, !LocalZone, !RedisLists W}.

(** The payloads of a list, oldest first, are the texts of these messages. *)
Definition texts_of (l : list string) (msgs : list OrderCreatedMessage) : Prop :=
  Forall2 (fun payload msg => json_Unmarshal payload = Ok msg /\ encodable msg) (reverse l) msgs.

Definition holds (w : W) (c : channel) : Prop :=
  texts_of (list_at w OrderQueueName) (ch_waiting c) /\
  texts_of (list_at w OrderDeadLetterQueueName) (ch_dead c).

Lemma texts_push l msgs payload msg :
  texts_of l msgs -> json_Unmarshal payload = Ok msg -> encodable msg ->
  texts_of (payload :: l) (msgs ++ [msg]).
Proof.
  intros Hl Hp He. unfold texts_of. rewrite reverse_cons.
  apply Forall2_app; [exact Hl|]. by constructor.
Qed.

Lemma texts_pop l payload msgs :
  texts_of (l ++ [payload]) msgs ->
  exists msg msgs', msgs = msg :: msgs' /\ texts_of l msgs' /\
    json_Unmarshal payload = Ok msg /\ encodable msg.
Proof.
  unfold texts_of. rewrite reverse_snoc. intros Hall.
  apply Forall2_cons_inv_l in Hall as (msg & msgs' & [Hp He] & Hl & ->). by exists msg, msgs'.
Qed.

(** One send on one of the two lists. *)
Lemma push_message_step key msg {A} (k : res unit -> prog redisE A) w p' w' :
  encodable msg ->
  prog_step (bind (push_message key msg) k) w p' w' ->
  exists x, p' = k x /\
    (forall other, other <> key -> list_at w' other = list_at w other) /\
    forall msgs, texts_of (list_at w key) msgs ->
      exists msgs', sent x msgs (msgs ++ [msg]) msgs' /\ texts_of (list_at w' key) msgs'.
Proof.
  intros He. destruct (json_roundtrip msg He) as (payload & Hm & Hu).
  unfold push_message. rewrite Hm. cbn. intros (x & Hs & ->). exists x. split; [done|].
  destruct (lpush_law _ _ _ _ _ Hs) as [Hkey Hother]. split; [exact Hother|].
  intros msgs Hmsgs. destruct Hkey as [Hk|[Hx Hk]]; rewrite Hk.
  - exists (msgs ++ [msg]). split; [by left|]. by apply texts_push.
  - exists msgs. split; [by right|done].
Qed.

(** One dequeue. *)
Lemma Dequeue_step {A} (k : res OrderCreatedMessage -> prog redisE A) w p' w' msgs :
  texts_of (list_at w OrderQueueName) msgs ->
  prog_step (bind (Dequeue OrderQueueName) k) w p' w' ->
  exists x msgs', p' = k x /\ texts_of (list_at w' OrderQueueName) msgs' /\
    match x with
    | Ok msg => msgs = msg :: msgs' /\ encodable msg
    | _ => msgs' = msgs \/ exists msg, msgs = msg :: msgs'
    end /\
    forall other, other <> OrderQueueName -> list_at w' other = list_at w other.
Proof.
  intros Hmsgs. cbn. intros (r & Hs & ->).
  destruct (brpop_law _ _ _ _ Hs) as [Hr Hother].
  assert (Hlost : (exists payload, list_at w OrderQueueName = list_at w' OrderQueueName ++ [payload]) \/
                  list_at w' OrderQueueName = list_at w OrderQueueName ->
                  exists msgs', texts_of (list_at w' OrderQueueName) msgs' /\
                    (msgs' = msgs \/ exists msg, msgs = msg :: msgs')).
  { intros [[payload Hp]|Hp].
    - rewrite Hp in Hmsgs. destruct (texts_pop _ _ _ Hmsgs) as (msg & msgs' & -> & Hl & _). eauto.
    - rewrite Hp. eauto. }
  destruct r as [r|e|why]; cbn.
  - destruct Hr as (payload & -> & Hp). cbn. rewrite Hp in Hmsgs.
    destruct (texts_pop _ _ _ Hmsgs) as (msg & msgs' & -> & Hl & Hu & He).
    rewrite Hu. by exists (Ok msg), msgs'.
  - destruct Hlost as (msgs' & Hl & Hcase); [tauto|]. by exists (Err e), msgs'.
  - destruct Hlost as (msgs' & Hl & Hcase); [tauto|]. by exists (Panic why), msgs'.
Qed.

(** Every Redis command of a client is one step of the channel. *)
Lemma redis_call_refines {X A} (e : channelE X) (k : X -> prog channelE A) w c p' w' :
  client (Vis e k) -> holds w c ->
  prog_step (interp redis_channel (Vis e k)) w p' w' ->
  exists x c', p' = interp redis_channel (k x) /\ sem e c x c' /\ holds w' c' /\ client (k x).
Proof.
  intros [Hal Hk] [Hw Hd] Hstep. destruct e as [msg|msg|msg|]; cbn in Hal; cbn [interp redis_channel] in Hstep.
  1,2: destruct (push_message_step _ _ _ _ _ _ Hal Hstep) as (x & -> & Hother & Hsend);
       destruct (Hsend _ Hw) as (msgs' & Hsent & Htexts);
       exists x, (mkChannel msgs' (ch_dead c)); split_and!; [done|exact (conj Hsent eq_refl)| |by apply Hk];
       split; [exact Htexts|]; cbn; by rewrite Hother.
  - destruct (push_message_step _ _ _ _ _ _ Hal Hstep) as (x & -> & Hother & Hsend).
    destruct (Hsend _ Hd) as (msgs' & Hsent & Htexts).
    exists x, (mkChannel (ch_waiting c) msgs'). split_and!; [done|done| |by apply Hk].
    split; cbn; [|done]. by rewrite Hother.
  - destruct (Dequeue_step _ _ _ _ _ Hw Hstep) as (x & msgs' & -> & Htexts & Hx & Hother).
    exists x, (mkChannel msgs' (ch_dead c)). split_and!; [done| | |].
    + split; [done|]. by destruct x; [destruct Hx|..].
    + split; cbn; [done|]. by rewrite Hother.
    + apply Hk. by destruct x as [msg| |]; [destruct Hx|..].
Qed.

(** C13: whatever clients share the Redis server (API processes publishing, worker
    goroutines dequeuing, requeuing and dead-lettering, messages whose texts JSON can
    carry), every interleaving of their
    Redis commands is an interleaving of the same clients over one shared FIFO
    channel whose messages are exactly the payloads of the two lists: a message is
    received as it was sent, in order, by one consumer, and no list ever holds a
    payload the consumer cannot decode. *)
Theorem redis_queue_refines_channel {A} (ps : list (prog channelE A)) ts' w w' c :
  Forall client ps ->
  holds w c ->
  pool_steps (interp redis_channel <$> ps, w) (ts', w') ->
  exists ps' c', ts' = interp redis_channel <$> ps' /\ Forall client ps' /\ holds w' c' /\
    pool_steps (ps, c) (ps', c').
Proof.
  intros Hps Hh Hsteps.
  remember (interp redis_channel <$> ps, w) as s0 eqn:Es0. remember (ts', w') as s1 eqn:Es1.
  revert ps w c Hps Hh Es0. induction Hsteps as [s|s s2 s3 Hstep _ IH]; intros ps w c Hps Hh Es0; subst.
  - injection Es0 as -> ->. exists ps, c. by split_and!.
  - inversion Hstep as [ts w0 i p p' w1 Hi Hp]; subst; clear Hstep.
    rewrite list_lookup_fmap in Hi. destruct (ps !! i) as [q|] eqn:Hq; [|done].
    injection Hi as <-. destruct q as [a|X e k]; [done|].
    destruct (redis_call_refines e k w c p' w1) as (x & c1 & -> & Hsem & Hh1 & Hk); [|done|done|].
    { by eapply Forall_lookup_1 in Hq. }
    rewrite <- list_fmap_insert in IH.
    destruct (IH eq_refl (<[i := k x]> ps) w1 c1) as (ps' & c' & -> & Hps' & Hh' & Hrest);
      [by apply Forall_insert|done|done|].
    exists ps', c'. split_and!; [done..|]. eapply rtc_l; [|exact Hrest].
    eapply pool_call; [exact Hq|]. by exists x.
Qed.
End refinement.

(** ** A concrete instance *)
Definition demo_list (w : gmap string (list string)) (key : string) : list string :=
  default [] (w !! key).

Definition demo_redis_sem : Sem redisE (gmap string (list string)) :=
  fun X e =>
  match e in redisE X return gmap string (list string) -> X -> gmap string (list string) -> Prop with
  | LPush key payload => fun w x w' => x = Ok tt /\ w' = <[key := payload :: demo_list w key]> w
  | BRPop key => fun w x w' => exists payload rest,
      demo_list w key = rest ++ [payload] /\ x = Ok [key; payload] /\ w' = <[key := rest]> w
  | Ping => fun w x w' => x = Ok tt /\ w' = w
  | CloseClient => fun w _ w' => w' = w
  end.

Lemma demo_list_insert w key l : demo_list (<[key := l]> w) key = l.
Proof. unfold demo_list. by rewrite lookup_insert_eq. Qed.

Lemma demo_list_other w key l other : other <> key -> demo_list (<[key := l]> w) other = demo_list w other.
Proof. intros Hne. unfold demo_list. by rewrite lookup_insert_ne. Qed.

Definition demo_redis : RedisLists (gmap string (list string)).
Proof.
  refine {| redis_sem := demo_redis_sem; list_at := demo_list |}.
  - intros key payload w x w' [-> ->]. split; [left; by rewrite demo_list_insert|].
    intros other Hne. by apply demo_list_other.
  - intros key w x w' (payload & rest & Hl & -> & ->). split.
    + exists payload. by rewrite demo_list_insert.
    + intros other Hne. by apply demo_list_other.
Defined.

#[local] Existing Instance bit_text.
#[local] Existing Instance UTC.
#[local] Existing Instance demo_redis.

Definition hello : OrderCreatedMessage := mkMessage 7 OrderCreatedEvent 5 0.

Definition hello_payload : string := match json_Marshal hello with Ok payload => payload | _ => "" end.

(** An API process that publishes, and a worker that dequeues and requeues. *)
Definition demo_clients : list (prog channelE (res unit)) :=
  [call (ChPublish hello);
   (msg <-! call ChDequeue ;; call (ChRequeue msg))].

Definition demo_final : gmap string (list string) :=
  <[OrderQueueName := [hello_payload]]>
    (<[OrderQueueName := []]> (<[OrderQueueName := [hello_payload]]> ∅)).

#[local] Transparent encodable.
Lemma hello_encodable : encodable hello.
Proof.
  split; [apply (bool_decide_unpack (is_ascii OrderCreatedEvent)); by vm_compute|].
  split; [by apply in_int64b_spec|]. destruct (format_rfc3339 (m_CreatedAt hello)) eqn:Ht; [by eexists|].
  vm_compute in Ht. discriminate.
Qed.
#[local] Opaque encodable.

Lemma hello_text : json_Marshal hello = Ok hello_payload /\ json_Unmarshal hello_payload = Ok hello.
Proof. unfold hello_payload. by destruct (json_roundtrip hello hello_encodable) as (payload & -> & Hu). Qed.

Lemma demo_send w (k : res unit -> prog redisE (res unit)) :
  prog_step (bind (push_message OrderQueueName hello) k) w (k (Ok tt))
    (<[OrderQueueName := hello_payload :: demo_list w OrderQueueName]> w).
Proof. unfold push_message. rewrite (proj1 hello_text). exists (Ok tt). by split. Qed.

Lemma demo_redis_run :
  pool_steps (interp redis_channel <$> demo_clients, ∅)
    ([Ret (Ok tt); Ret (Ok tt)], demo_final).
Proof.
  eapply rtc_l; [eapply (pool_call _ _ 0%nat); [reflexivity|exact (demo_send _ _)]|].
  eapply rtc_l; [eapply (pool_call _ _ 1%nat); [reflexivity|]|].
  { exists (Ok [OrderQueueName; hello_payload]). split; [by exists hello_payload, []|reflexivity]. }
  cbn. rewrite (proj2 hello_text).
  eapply rtc_l; [eapply (pool_call _ _ 1%nat); [reflexivity|exact (demo_send _ _)]|].
  reflexivity.
Qed.

Lemma demo_clients_ok : Forall client demo_clients.
Proof.
  pose proof hello_encodable. repeat constructor; cbn; [done..|]. by intros [msg| |].
Qed.

Lemma redis_queue_refines_channel_witness :
  exists ps' c', [Ret (Ok tt); Ret (Ok tt)] = interp redis_channel <$> ps' /\ Forall client ps' /\
    holds demo_final c' /\ pool_steps (demo_clients, mkChannel [] []) (ps', c').
Proof.
  apply (redis_queue_refines_channel demo_clients _ ∅ demo_final (mkChannel [] [])).
  - exact demo_clients_ok.
  - split; constructor.
  - exact demo_redis_run.
Defined.
