(* ===== verification/OrderSystem.v ===== *)
(** OrderSystem: the order service composed with the other components over the in-memory
    adapters, as the tests compose it: the in-memory repositories, the customer and
    product services behind the lookup adapters of cmd/api/adapters.go, the fake queue
    producer, the metrics and the logs; and the properties of the whole.  Its first
    theorem holds for any adapters that meet their contracts. *)
From S2P Require Import Prelude Errors Effects GoStrings Uuid Money Pagination Catalog Customer Product OrderModel OrderRepo OrderService OrderLifecycle OrderQueue.

(** ** The lookup adapters (cmd/api/adapters.go) *)

(** [errors.As(err, &appErr) && appErr.Code == CodeNotFound]. *)
Definition is_not_found (err : error) : bool :=
  match errors_As_AppError err with
  | Some a => bool_decide (ae_Code a = CodeNotFound)
  | None => false
  end.

Definition customerLookup_FindByID (id : uuid) : prog customer.customerE (res Customer) :=
  out <-! customer.FindByID id
      catch (fun err => if is_not_found err then Err (ErrVar OrderErrNotFound) else Err err) ;;
  Ret (Ok (mkCustomer (customer.co_ID out) (customer.co_Active out))).

Definition productLookup_FindManyByID (ids : list uuid) : prog product.productE (res (list Product)) :=
  loaded <-! product.FindManyByID ids ;;
  Ret (Ok (list_fmap _ _ (fun p => mkProduct (product.po_ID p) (product.po_Price p) (product.po_Active p)) loaded)).

#[export] Existing Instances customer.mem_handler product.mem_handler.

(** ** The composed state *)

(** What reached the metrics recorder and the two loggers. *)
Inductive record :=
| MCreated | MProcessed | MFailed
| MDuration (nanoseconds : Z)
| LPublishFailure (orderID : uuid) (err : error)
| LProcess (msg : string) (orderID : option uuid) (err : option error).

Record World := mkWorld {
  w_orders : InMemoryRepository;
  w_customers : customer.world;
  w_products : product.world;
  w_producer : FakeProducer;
  w_processor : FakePaymentProcessor;
  w_records : list record;
  w_source : oracle;
}.

Definition set_orders (r : InMemoryRepository) (w : World) : World :=
  mkWorld r (w_customers w) (w_products w) (w_producer w) (w_processor w) (w_records w) (w_source w).
Definition set_customers (c : customer.world) (w : World) : World :=
  mkWorld (w_orders w) c (w_products w) (w_producer w) (w_processor w) (w_records w) (w_source w).
Definition set_products (p : product.world) (w : World) : World :=
  mkWorld (w_orders w) (w_customers w) p (w_producer w) (w_processor w) (w_records w) (w_source w).
Definition set_producer (p : FakeProducer) (w : World) : World :=
  mkWorld (w_orders w) (w_customers w) (w_products w) p (w_processor w) (w_records w) (w_source w).
Definition set_processor (p : FakePaymentProcessor) (w : World) : World :=
  mkWorld (w_orders w) (w_customers w) (w_products w) (w_producer w) p (w_records w) (w_source w).
Definition add_record (r : record) (w : World) : World :=
  mkWorld (w_orders w) (w_customers w) (w_products w) (w_producer w) (w_processor w)
    (w_records w ++ [r]) (w_source w).
Definition set_source (o : oracle) (w : World) : World :=
  mkWorld (w_orders w) (w_customers w) (w_products w) (w_producer w) (w_processor w) (w_records w) o.

Section system.
Context `{!UuidText, !CaseTables}.

(** Only [UpdateStatus] reads the clock inside the repository. *)
Definition repo_call {X} (e : repoE X) (w : World) : X * World :=
  let o := w_source w in
  let '(x, r) := mem_handle e (clock o (ticks o)) (w_orders w) in
  (x, set_source (match e with UpdateStatus _ _ => (tick o).2 | _ => o end) (set_orders r w)).

#[export] Instance world_handler : Handler orderE World :=
  fun X e =>
  match e in orderE X return World -> X * World with
  | Repo r => repo_call r
  | FindCustomer id => fun w =>
      let '(x, c) := run (customerLookup_FindByID id) (w_customers w) in (x, set_customers c w)
  | FindProducts ids => fun w =>
      let '(x, p) := run (productLookup_FindManyByID ids) (w_products w) in (x, set_products p w)
  | PublishOrderCreated msg => fun w =>
      let '(x, p) := fake_PublishOrderCreated msg (w_producer w) in (x, set_producer p w)
  | LogPublishFailureAfterCommit id err => fun w => (tt, add_record (LPublishFailure id err) w)
  | IncOrdersCreated => fun w => (tt, add_record MCreated w)
  | IncOrdersProcessed => fun w => (tt, add_record MProcessed w)
  | IncOrdersFailed => fun w => (tt, add_record MFailed w)
  | RecordProcessingDuration d => fun w => (tt, add_record (MDuration d) w)
  | ProcessLog msg id err => fun w => (tt, add_record (LProcess msg id err) w)
  | Now => fun w => let '(t, o) := tick (w_source w) in (t, set_source o w)
  | NewUUID => fun w => let '(u, o) := fresh_id (w_source w) in (u, set_source o w)
  | ProcessPayment o => fun w =>
      let '(x, p) := fake_ProcessPayment o (w_processor w) in (x, set_processor p w)
  end.

(** ** The composed state is an [OrderWorld] *)
Definition issued (o : oracle) : gset uuid := list_to_set (draw o <$> seq 0 (drawn o)).

#[global] Arguments issued o : simpl never.

#[export] Instance world_order_world : OrderWorld World := {
  ow_sem := sem_of_handler world_handler;
  ow_store w := mem_store (w_orders w);
  ow_issued w := issued (w_source w);
  ow_valid w := mem_ok (w_orders w) /\ good_ids (w_source w);
}.

Lemma elem_of_issued u o : u ∈ issued o <-> exists i, (i < drawn o)%nat /\ draw o i = u.
Proof.
  unfold issued. rewrite elem_of_list_to_set, list_elem_of_fmap. setoid_rewrite elem_of_seq.
  naive_solver lia.
Qed.

(** A call that is not a repository call leaves the orders alone, and the ids drawn. *)
Lemma world_frame {X} (e : orderE X) w :
  is_repo e = false ->
  w_orders (handle e w).2 = w_orders w /\
  draw (w_source (handle e w).2) = draw (w_source w) /\
  (drawn (w_source w) <= drawn (w_source (handle e w).2))%nat.
Proof.
  destruct e; intros Hr; try done; cbn; repeat case_match; simplify_eq/=; repeat split; lia.
Qed.

Lemma issued_mono o o' : draw o' = draw o -> (drawn o <= drawn o')%nat -> issued o ⊆ issued o'.
Proof.
  intros Hd Hn u. rewrite !elem_of_issued, Hd. intros (i & Hi & Hu). exists i. split; [lia|done].
Qed.

#[export] Instance world_order_laws : OrderWorldLaws World.
Proof.
  constructor.
  - intros X e w x w' [Hok _] Hsem. unfold sem, ow_sem, world_order_world, sem_of_handler in Hsem.
    cbn in Hsem. unfold repo_call in Hsem.
    pose proof (mem_refines e (clock (w_source w) (ticks (w_source w))) (w_orders w) Hok) as [Hspec _].
    destruct (mem_handle e _ (w_orders w)) as [y r]. simplify_eq.
    split; [|cbn; by destruct e]. exists e. split; [apply stored_as_refl|exact Hspec].
  - intros X e w x w' _ Hsem Hr. unfold sem, ow_sem, world_order_world, sem_of_handler in Hsem.
    destruct (world_frame e w Hr) as (Ho & Hd & Hn). rewrite Hsem in Ho, Hd, Hn. cbn in *.
    split; [by rewrite Ho|]. by apply issued_mono.
  - intros w u w' [_ [Hinj Hnil]] Hsem. cbn in Hsem. injection Hsem as <- <-. cbn.
    split; [apply Hnil|]. rewrite !elem_of_issued. split.
    + intros (i & Hi & Hu). apply Hinj in Hu. lia.
    + exists (drawn (w_source w)). split; [cbn; lia|done].
  - intros X e w x w' [Hok Hgood] Hsem. unfold sem, ow_sem, world_order_world, sem_of_handler in Hsem.
    destruct (is_repo e) eqn:Hr.
    + destruct e as [X r| | | | | | | | | | | |]; try done. cbn in Hsem. unfold repo_call in Hsem.
      pose proof (mem_refines r (clock (w_source w) (ticks (w_source w))) (w_orders w) Hok) as [_ Hok'].
      destruct (mem_handle r _ (w_orders w)) as [y r']. simplify_eq. split; [exact Hok'|].
      cbn. by destruct r.
    + destruct (world_frame e w Hr) as (Ho & Hd & Hn). rewrite Hsem in Ho, Hd, Hn. cbn in *.
      split; [by rewrite Ho|]. unfold good_ids in *. by rewrite Hd.
Qed.
End system.

(** ** A concrete system: one active customer, one active product *)
Definition demo_customers : customer.world :=
  customer.mkWorld {[100%N := customer.mkCustomer 100 "Ann" "123" "ann@x" "" true 0 0]} demo_oracle.
Definition demo_products : product.world :=
  product.mkWorld {[200%N := product.mkProduct 200 "Pen" "P-1" (mkMoney 150) true 0 0]} demo_oracle.
Definition demo_world : World :=
  mkWorld NewInMemoryRepository demo_customers demo_products (mkProducer [] false None)
    (mkProcessor ∅ None) [] demo_oracle.

Definition demo_input : CreateOrderInput := mkOrderInput 100 [mkItemInput 200 3].

#[local] Existing Instances bit_text no_tables.

Lemma demo_world_ok : world_ok demo_world.
Proof.
  split; [split; [apply map_Forall_empty|apply good_ids_demo]|].
  cbn. unfold mem_store. cbn. split; [|set_solver].
  intros i en. by rewrite map_lookup_imap, lookup_empty.
Qed.

(** The system after the order 1 was created. *)
Definition one_order : World := (run (Create 9 demo_input) demo_world).2.

Example one_order_created :
  (run (Create 9 demo_input) demo_world).1 =
    Ok (mkOrderOutput 1 100 StatusCreated (mkMoney 450)
          [mkItemOutput 200 3 (mkMoney 150) (mkMoney 450)] 0) /\
  Messages (w_producer one_order) = [mkMessage 1 OrderCreatedEvent 0 0] /\
  w_records one_order = [MCreated].
Proof. vm_compute. repeat split. Qed.

(** ** Properties *)

(** C1: for every implementation of the ports that keeps the promises of
    [OrderWorldLaws] - it may fail any call, and even apply a write whose
    acknowledgement is lost - requests and queue messages served one after the other
    move every stored order only along allowed transitions, add orders only as
    CREATED, never remove an order or change its items, total, customer or creator,
    and keep every order well formed. *)
Theorem served_orders_follow_lifecycle {W : Type} `{!OrderWorld W, !OrderWorldLaws W}
    (rs : list request) (w w' : W) :
  world_ok w -> exec (serve_all rs) w tt w' ->
  world_ok w' /\ lawful transitions (ow_store w) (ow_store w').
Proof. apply serve_all_alone. Qed.

Definition demo_requests : list request := [RCreate 9 demo_input; RProcess 1; RShip 1; RCancel 1].

Lemma served_orders_follow_lifecycle_witness :
  let w' := (run (serve_all demo_requests) demo_world).2 in
  world_ok w' /\ lawful transitions (ow_store demo_world) (ow_store w') /\
  o_Status <$> orders (w_orders w') !! 1%N = Some StatusShipped.
Proof.
  cbv zeta.
  assert (H : exec (serve_all demo_requests) demo_world tt (run (serve_all demo_requests) demo_world).2).
  { pose proof (run_exec world_handler (serve_all demo_requests) demo_world) as Hr.
    destruct (run (serve_all demo_requests) demo_world).1. exact Hr. }
  destruct (served_orders_follow_lifecycle demo_requests demo_world _ demo_world_ok H) as [H1 H2].
  split; [exact H1|]. split; [exact H2|]. vm_compute. reflexivity.
Defined.

(** Under every interleaving, call by call, of any number of requests and
    queue messages over such an implementation, no stored order is ever removed or
    overwritten by another one, no order's items, total, customer, creator or
    creation time ever changes, and every stored order is well formed: it has items,
    each priced quantity times unit price, and its total is their sum. *)
Theorem concurrent_requests_keep_orders {W : Type} `{!OrderWorld W, !OrderWorldLaws W}
    (rs : list request) (ps : list (prog orderE unit)) (w w' : W) :
  world_ok w -> pool_steps (serve <$> rs, w) (ps, w') ->
  world_ok w' /\ lawful any_status (ow_store w) (ow_store w').
Proof. intros Hw Hsteps. exact (serve_together rs w (ps, w') Hw Hsteps). Qed.

Definition demo_schedule : list nat := [0; 1; 0; 1; 1; 0; 0; 1; 0; 1; 0; 1; 0; 1; 0; 1]%nat.
Definition demo_pool : list request := [RCreate 9 demo_input; RCreate 8 demo_input].

Lemma concurrent_requests_keep_orders_witness :
  let c := run_schedule world_handler demo_schedule (serve <$> demo_pool) demo_world in
  world_ok c.2 /\ lawful any_status (ow_store demo_world) (ow_store c.2) /\
  size (orders (w_orders c.2)) = 2%nat.
Proof.
  cbv zeta.
  pose proof (run_schedule_steps world_handler demo_schedule (serve <$> demo_pool) demo_world) as H.
  destruct (run_schedule world_handler demo_schedule (serve <$> demo_pool) demo_world) as [ps w'] eqn:Hrun.
  destruct (concurrent_requests_keep_orders demo_pool ps demo_world w' demo_world_ok H) as [H1 H2].
  split; [exact H1|]. split; [exact H2|].
  change (size (orders (w_orders (ps, w').2)) = 2%nat). rewrite <- Hrun. vm_compute. reflexivity.
Defined.

(** [Cancel] and [Process] as members of one pool. *)
Inductive answer := ACancel (r : res OrderOutput) | AProcess (r : res unit).
Definition canceler (id : uuid) : prog orderE answer := r <- Cancel id ;; Ret (ACancel r).
Definition processor (id : uuid) : prog orderE answer := r <- Process id ;; Ret (AProcess r).

Definition canceled_output : OrderOutput :=
  mkOrderOutput 1 100 StatusCanceled (mkMoney 450) [mkItemOutput 200 3 (mkMoney 150) (mkMoney 450)] 0.

(** C20: [Cancel] and [Process] check the status and write it in separate calls.
    A client can be told that its order is CANCELED while the order ends PAID; and a
    payment can be taken and recorded while the order ends CANCELED - two
    transitions the table forbids. *)
Theorem cancel_races_with_processing :
  (exists out w',
     pool_steps ([canceler 1; processor 1], one_order)
       ([Ret (ACancel (Ok out)); Ret (AProcess (Ok tt))], w') /\
     oo_Status out = StatusCanceled /\
     o_Status <$> orders (w_orders w') !! 1%N = Some StatusPaid) /\
  (exists out w',
     pool_steps ([canceler 1; processor 1], one_order)
       ([Ret (ACancel (Ok out)); Ret (AProcess (Ok tt))], w') /\
     In MProcessed (w_records w') /\
     o_Status <$> orders (w_orders w') !! 1%N = Some StatusCanceled).
Proof.
  assert (Hrun : forall sched ps, (run_schedule world_handler sched [canceler 1; processor 1] one_order).1 = ps ->
            pool_steps ([canceler 1; processor 1], one_order)
              (ps, (run_schedule world_handler sched [canceler 1; processor 1] one_order).2)).
  { intros sched ps <-. rewrite <- surjective_pairing. apply run_schedule_steps. }
  split.
  - exists canceled_output. eexists. split; [|split]; [|reflexivity|].
    + apply (Hrun [1; 0; 0; 0; 1; 1; 1; 1; 1; 1; 1; 1]%nat). vm_compute. reflexivity.
    + vm_compute. reflexivity.
  - exists canceled_output. eexists. split; [|split].
    + apply (Hrun [0; 1; 1; 1; 1; 1; 1; 1; 1; 1; 0; 0]%nat). vm_compute. reflexivity.
    + vm_compute. tauto.
    + vm_compute. reflexivity.
Qed.
