(* ===== verification/Metrics.v ===== *)
(** Metrics: the Prometheus collector of internal/metrics behind the metrics port, and
    the agreement of its counters with the stored orders. *)
From S2P Require Import Prelude Errors Effects GoStrings Uuid Money Pagination Catalog Customer Product OrderModel OrderRepo OrderService OrderLifecycle OrderQueue OrderSystem.

(** ** The client library

    The instruments of prometheus/client_golang, with what its documentation says: a
    new instrument is empty, [Inc] adds one, [Observe] adds one sample, and
    [MustRegister] panics exactly when a name is malformed or already registered.
    A sample is given in nanoseconds; the code converts them to float seconds. *)
Class Prometheus := {
  Counter : Type;
  Histogram : Type;
  Registry : Type;
  NewCounter : string -> string -> Counter;
  NewHistogram : string -> string -> Histogram;
  NewRegistry : Registry;
  MustRegister : list string -> Registry -> res Registry;
  Inc : Counter -> Counter;
  Observe : Z -> Histogram -> Histogram;
  counter_value : Counter -> Z;
  sample_count : Histogram -> Z;
  registered : Registry -> list string;
}.

(** [a-zA-Z_:] then [a-zA-Z0-9_:]*. *)
Definition name_start (c : ascii) : bool :=
  let n := Ascii.N_of_ascii c in
  ((65 <=? n) && (n <=? 90) || (97 <=? n) && (n <=? 122) || (n =? 95) || (n =? 58))%N.

Definition valid_metric_name (name : string) : bool :=
  match name with
  | EmptyString => false
  | String c rest =>
      name_start c &&
      forallb (fun d => let n := Ascii.N_of_ascii d in (name_start d || (48 <=? n) && (n <=? 57))%N)
        (String.list_ascii_of_string rest)
  end.

Class PrometheusLaws `{!Prometheus} := {
  new_counter name help : counter_value (NewCounter name help) = 0;
  new_histogram name help : sample_count (NewHistogram name help) = 0;
  inc_value c : counter_value (Inc c) = counter_value c + 1;
  observe_count d h : sample_count (Observe d h) = sample_count h + 1;
  new_registry : registered NewRegistry = [];
  must_register names r :
    NoDup (registered r ++ names) -> Forall (fun n => valid_metric_name n = true) names ->
    exists r', MustRegister names r = Ok r' /\ registered r' = registered r ++ names;
}.

(** ** Collector (collector.go) *)
Section collector.
Context `{!Prometheus}.

Record Collector := mkCollector {
  reg : Registry;
  ordersCreated : Counter;
  ordersProcessed : Counter;
  ordersFailed : Counter;
  duration : Histogram;
}.

Definition NewCollector : res Collector :=
  let created := NewCounter "orders_created_total" "Total number of orders created." in
  let processed := NewCounter "orders_processed_total" "Total number of orders processed successfully." in
  let failed := NewCounter "orders_failed_total" "Total number of orders that failed processing." in
  let histogram := NewHistogram "orders_processing_duration_seconds" "Order processing duration in seconds." in
  match MustRegister ["orders_created_total"; "orders_processed_total"; "orders_failed_total";
                      "orders_processing_duration_seconds"] NewRegistry with
  | Ok r => Ok (mkCollector r created processed failed histogram)
  | Err e => Err e
  | Panic why => Panic why
  end.

Definition collector_IncOrdersCreated (c : Collector) : Collector :=
  mkCollector (reg c) (Inc (ordersCreated c)) (ordersProcessed c) (ordersFailed c) (duration c).
Definition collector_IncOrdersProcessed (c : Collector) : Collector :=
  mkCollector (reg c) (ordersCreated c) (Inc (ordersProcessed c)) (ordersFailed c) (duration c).
Definition collector_IncOrdersFailed (c : Collector) : Collector :=
  mkCollector (reg c) (ordersCreated c) (ordersProcessed c) (Inc (ordersFailed c)) (duration c).
Definition collector_RecordProcessingDuration (d : Z) (c : Collector) : Collector :=
  mkCollector (reg c) (ordersCreated c) (ordersProcessed c) (ordersFailed c) (Observe d (duration c)).

(** The collector after the recorded calls of the metrics port. *)
Definition collect_record (c : Collector) (r : record) : Collector :=
  match r with
  | MCreated => collector_IncOrdersCreated c
  | MProcessed => collector_IncOrdersProcessed c
  | MFailed => collector_IncOrdersFailed c
  | MDuration d => collector_RecordProcessingDuration d c
  | LPublishFailure _ _ | LProcess _ _ _ => c
  end.

Definition collect (l : list record) (c : Collector) : Collector := fold_left collect_record l c.
End collector.

(** How often a kind of record occurs. *)
Definition is_created (r : record) : bool := match r with MCreated => true | _ => false end.
Definition is_processed (r : record) : bool := match r with MProcessed => true | _ => false end.
Definition is_failed (r : record) : bool := match r with MFailed => true | _ => false end.
Definition is_duration (r : record) : bool := match r with MDuration _ => true | _ => false end.
Definition is_publish_failure (r : record) : bool := match r with LPublishFailure _ _ => true | _ => false end.

Definition occurrences (p : record -> bool) (l : list record) : nat := length (List.filter p l).

(** How many stored orders have a status. *)
Definition tally (p : OrderStatus -> bool) (m : gmap uuid Order) : nat :=
  size (filter (fun kv : uuid * Order => p (o_Status kv.2) = true) m).

Definition paid (st : OrderStatus) : bool := bool_decide (st = StatusPaid) || bool_decide (st = StatusShipped).
Definition failed (st : OrderStatus) : bool := bool_decide (st = StatusFailed).

#[global] Arguments occurrences p l : simpl never.
#[global] Arguments tally p m : simpl never.

Lemma occurrences_snoc p l r : occurrences p (l ++ [r]) = (occurrences p l + Nat.b2n (p r))%nat.
Proof. unfold occurrences. rewrite List.filter_app, length_app. cbn. by destruct (p r). Qed.

Section counters.
Context `{!Prometheus, !PrometheusLaws}.

Lemma NewCollector_starts_empty :
  exists c, NewCollector = Ok c /\ counter_value (ordersCreated c) = 0 /\ counter_value (ordersProcessed c) = 0 /\
    counter_value (ordersFailed c) = 0 /\ sample_count (duration c) = 0.
Proof.
  unfold NewCollector. edestruct must_register as (r & -> & _).
  - rewrite new_registry. apply (bool_decide_unpack _). by vm_compute.
  - repeat constructor.
  - eexists. split; [done|]. cbn. by rewrite !new_counter, new_histogram.
Qed.

Lemma collect_counts l c :
  let c' := collect l c in
  counter_value (ordersCreated c') = counter_value (ordersCreated c) + Z.of_nat (occurrences is_created l) /\
  counter_value (ordersProcessed c') = counter_value (ordersProcessed c) + Z.of_nat (occurrences is_processed l) /\
  counter_value (ordersFailed c') = counter_value (ordersFailed c) + Z.of_nat (occurrences is_failed l) /\
  sample_count (duration c') = sample_count (duration c) + Z.of_nat (occurrences is_duration l).
Proof.
  cbn zeta. induction l as [|r l IH] using rev_ind; [unfold occurrences; cbn; lia|].
  unfold collect in *. rewrite fold_left_app, !occurrences_snoc. cbn [fold_left].
  destruct r; cbn; rewrite ?inc_value, ?observe_count; lia.
Qed.
End counters.

(** ** What the service still has to record

    The protocol of the metrics port: which counter call a successful write makes due. *)
Inductive debt := Settled | OweCreated | OwePaid | OweFailed | OweSample.

Definition a_allowed {X} (d : debt) (e : orderE X) : Prop :=
  match e with
  | Repo (CreateWithItems _ _) => d = Settled
  | Repo (UpdateStatus _ st) => st <> StatusPaid /\ st <> StatusFailed
  | Repo (MarkProcessed _ st _) => d = Settled /\ (st = StatusPaid \/ st = StatusFailed)
  | IncOrdersCreated | LogPublishFailureAfterCommit _ _ => d = OweCreated
  | IncOrdersProcessed => d = OwePaid
  | IncOrdersFailed => d = OweFailed
  | RecordProcessingDuration _ => d = OweSample
  | _ => True
  end.

Definition not_panic {A} (x : res A) : Prop := forall why, x <> Panic why.

Definition a_possible {X} (d : debt) (e : orderE X) : X -> Prop :=
  match e in orderE X return X -> Prop with
  | PublishOrderCreated _ => not_panic
  | _ => fun _ => True
  end.

Definition due (st : OrderStatus) (x : res unit) (d : debt) : debt :=
  match x with Ok _ => if bool_decide (st = StatusPaid) then OwePaid else OweFailed | _ => d end.

Definition a_next {X} (d : debt) (e : orderE X) : X -> debt :=
  match e in orderE X return X -> debt with
  | Repo r =>
      match r in repoE X return X -> debt with
      | CreateWithItems _ _ => fun x => match x with Ok _ => OweCreated | _ => d end
      | MarkProcessed _ st _ => fun x => due st x d
      | _ => fun _ => d
      end
  | IncOrdersCreated => fun _ => Settled
  | LogPublishFailureAfterCommit _ _ => fun _ => Settled
  | IncOrdersProcessed => fun _ => OweSample
  | IncOrdersFailed => fun _ => Settled
  | RecordProcessingDuration _ => fun _ => Settled
  | _ => fun _ => d
  end.

Definition accounting : protocol orderE debt :=
  mkProtocol (fun X => @a_allowed X) (fun X => @a_possible X) (fun X => @a_next X).

Definition settles {A} (p : prog orderE A) : Prop := conforms accounting Settled p (fun d _ => d = Settled).

Lemma settles_Process id : settles (Process id).
Proof.
  unfold settles, Process. repeat conf_step; try done; try tauto; try (by left); try (by right).
Qed.

Lemma settles_transition id to required msg :
  to <> StatusPaid -> to <> StatusFailed -> settles (transition id to required msg).
Proof. intros Hp Hf. unfold settles, transition. by repeat conf_step. Qed.

Lemma settles_FindOrder id : settles (FindOrder id).
Proof. unfold settles, FindOrder. by repeat conf_step. Qed.

Lemma settles_ListService f : settles (ListService f).
Proof.
  unfold settles, ListService. case_match; [done|].
  apply conforms_bind_err, conforms_call; [exact I|]. intros [page|e|m] _; [|done..].
  apply conforms_bind_res.
  apply (conforms_for_res _ (fun _ d _ => d = Settled)); [|by repeat conf_step|done].
  intros pre o post s acc _ ->. unfold list_item. by repeat conf_step.
Qed.

Lemma settles_persist order its : settles (persist_and_publish order its).
Proof.
  unfold settles, persist_and_publish. repeat conf_step; try done.
  match goal with H : not_panic (Panic ?why) |- _ => by destruct (H why) end.
Qed.

Lemma settles_Create by_ input : settles (Create by_ input).
Proof.
  unfold settles, Create. destruct (validate_input input); [done|].
  apply conforms_bind_err, conforms_call; [exact I|]. intros [c|e|m] _; [|done..].
  cbv beta iota. destruct (c_Active c); cbn [negb]; [|done].
  apply conforms_bind_err, conforms_call; [exact I|]. intros [loaded|e|m] _; [|done..].
  cbv beta iota zeta.
  apply conforms_bind, conforms_call; [exact I|]. intros now _.
  apply conforms_bind, conforms_call; [exact I|]. intros orderID _.
  apply conforms_bind_res.
  apply (conforms_for_res _ (fun _ d _ => d = Settled)); [|intros d [tots its] ->; apply settles_persist|done].
  intros pre line post d acc _ ->. unfold price_line. by repeat conf_step.
Qed.

Lemma settles_serve r : settles (serve r).
Proof.
  assert (Hf : forall A (p : prog orderE (res A)), settles p -> settles (forget p)).
  { intros A p Hp. apply conforms_bind. eapply conforms_mono; [|exact Hp]. done. }
  destruct r; cbn [serve]; apply Hf;
    auto using settles_Create, settles_Process, settles_FindOrder, settles_ListService; by apply settles_transition.
Qed.

(** ** Counting stored orders *)
Lemma tally_insert_fresh p m id o :
  m !! id = None -> tally p (<[id := o]> m) = (tally p m + Nat.b2n (p (o_Status o)))%nat.
Proof.
  intros Hid. unfold tally. destruct (p (o_Status o)) eqn:Hp.
  - rewrite map_filter_insert_True, map_size_insert_None; [cbn; lia| |done].
    apply map_lookup_filter_None. by left.
  - rewrite map_filter_insert_not'; [cbn; lia|cbn; congruence|]. intros o'. congruence.
Qed.

Lemma tally_insert p m id o o' :
  m !! id = Some o ->
  (tally p (<[id := o']> m) + Nat.b2n (p (o_Status o)) = tally p m + Nat.b2n (p (o_Status o')))%nat.
Proof.
  intros Hid. rewrite <- (insert_delete_id m id o Hid) at 2. rewrite <- insert_delete_eq.
  rewrite !tally_insert_fresh by apply lookup_delete_eq. lia.
Qed.

Lemma tally_move p m id o o' :
  m !! id = Some o -> p (o_Status o') = p (o_Status o) -> tally p (<[id := o']> m) = tally p m.
Proof. intros Hid Hp. pose proof (tally_insert p m id o o' Hid) as H. rewrite Hp in H. lia. Qed.

(** ** The accounts: what was recorded, what is due, what is stored *)
#[export] Instance debt_eq_dec : EqDecision debt.
Proof. solve_decision. Defined.

Definition owes (d d' : debt) : nat := Nat.b2n (bool_decide (d = d')).

Definition accounts (d : debt) (w : World) : Prop :=
  let recs := w_records w in
  let os := orders (w_orders w) in
  (occurrences is_created recs + occurrences is_publish_failure recs + owes d OweCreated = size os /\
   occurrences is_processed recs + owes d OwePaid = tally paid os /\
   occurrences is_failed recs + owes d OweFailed = tally failed os /\
   occurrences is_duration recs + owes d OwePaid + owes d OweSample = tally paid os)%nat.

(** Evaluate the closed counts of a debt or a status. *)
Ltac compute_count t := let v := eval vm_compute in t in change t with v in *.

Ltac compute_counts :=
  repeat match goal with
  | |- context [owes ?d ?d'] => compute_count (owes d d')
  | _ : context [owes ?d ?d'] |- _ => compute_count (owes d d')
  | |- context [Nat.b2n (?p ?st)] => compute_count (Nat.b2n (p st))
  | _ : context [Nat.b2n (?p ?st)] |- _ => compute_count (Nat.b2n (p st))
  end.

Section accounts.
Context `{!UuidText, !CaseTables}.

(** What the service knows of an order is what the repository holds. *)
Lemma known_order ls (w : World) id st :
  knows ls w -> write_allowed ls id st ->
  exists o, orders (w_orders w) !! id = Some o /\ CanTransition (o_Status o) st = true.
Proof.
  intros Hk (from & Hls & Hc). destruct (Hk id from Hls) as (en & Hen & <-).
  cbn [ow_store world_order_world] in Hen. rewrite mem_store_lookup in Hen.
  destruct (orders (w_orders w) !! id) as [o|]; [|done]. cbn in Hen. simplify_eq. by exists o.
Qed.

Lemma accounts_create ls d w o its x r :
  d = Settled -> owns ls w -> o_ID o ∈ ls_owned ls -> o_Status o = StatusCreated ->
  mem_CreateWithItems (Some o) its (w_orders w) = (x, r) -> accounts d w ->
  accounts (match x with Ok _ => OweCreated | _ => d end) (set_orders r w).
Proof.
  intros -> [_ Hdisj] Ho Hst Hmem (Hc & Hp & Hf & Hd). unfold mem_CreateWithItems in Hmem.
  assert (Hnew : orders (w_orders w) !! o_ID o = None).
  { assert (Hn : ow_store w !! o_ID o = None) by (apply not_elem_of_dom; set_solver).
    cbn [ow_store world_order_world] in Hn. rewrite mem_store_lookup in Hn. by destruct (orders (w_orders w) !! o_ID o). }
  repeat case_match; simplify_eq; try done.
  unfold accounts; cbn. rewrite map_size_insert_None, !tally_insert_fresh, Hst by done.
  compute_counts. lia.
Qed.

(** A status write that keeps the two counted classes. *)
Lemma accounts_move d w id o o' :
  orders (w_orders w) !! id = Some o ->
  paid (o_Status o') = paid (o_Status o) -> failed (o_Status o') = failed (o_Status o) ->
  accounts d w -> accounts d (set_orders (mem_set_order id o' (w_orders w)) w).
Proof.
  intros Ho Hp Hf Hacc. unfold accounts in *; cbn in *.
  rewrite (map_size_insert_Some id o') by (by exists o).
  by rewrite !(tally_move _ _ _ _ _ Ho) by done.
Qed.

Lemma accounts_outcome w id o o' :
  orders (w_orders w) !! id = Some o -> o_Status o = StatusProcessing ->
  o_Status o' = StatusPaid \/ o_Status o' = StatusFailed ->
  accounts Settled w ->
  accounts (due (o_Status o') (Ok tt) Settled) (set_orders (mem_set_order id o' (w_orders w)) w).
Proof.
  intros Ho Hst Hst' Hacc. unfold accounts in *; cbn in *.
  rewrite (map_size_insert_Some id o') by (by exists o).
  pose proof (tally_insert paid _ id o o' Ho) as Hp. pose proof (tally_insert failed _ id o o' Ho) as Hf.
  rewrite Hst in Hp, Hf.
  destruct Hst' as [Hs|Hs]; rewrite Hs in *; cbn [due]; case_bool_decide; try done; compute_counts; lia.
Qed.

Lemma outcome_source st st' :
  CanTransition st st' = true -> st' = StatusPaid \/ st' = StatusFailed -> st = StatusProcessing.
Proof.
  intros [[_ [-> | ->]]|[[-> _]|[_ ->]]]%CanTransition_inv; [| |done|]; intros [Hst|Hst]; by vm_compute in Hst.
Qed.

Lemma other_source st st' :
  CanTransition st st' = true -> st' <> StatusPaid /\ st' <> StatusFailed ->
  paid st' = paid st /\ failed st' = failed st.
Proof.
  intros [[-> [-> | ->]]|[[-> [-> | ->]]|[-> ->]]]%CanTransition_inv [Hp Hf]; by vm_compute.
Qed.

Lemma accounts_repo w0 ls d w X (r : repoE X) :
  alone w0 ls w -> accounts d w -> l_allowed ls (Repo r) -> a_allowed d (Repo r) ->
  accounts (a_next d (Repo r) (repo_call r w).1) (repo_call r w).2.
Proof.
  intros (Hok & Hown & Hk & _) Hacc Hal Haa. unfold repo_call.
  assert (Hsrc : forall o w1, accounts d w1 -> accounts d (set_source o w1)) by done.
  destruct r as [[o|] its|id|id st|id st t|f]; cbn [mem_handle]; cbn in Hal, Haa; try done.
  - destruct Hal as (Ho & Hst & _).
    destruct (mem_CreateWithItems (Some o) its (w_orders w)) as [x r] eqn:Hm.
    by eapply (accounts_create ls d w o its x r).
  - destruct (known_order _ _ _ _ Hk Hal) as (o & Ho & Hc).
    destruct (other_source _ _ Hc Haa) as [Hp Hf].
    unfold mem_UpdateStatus. rewrite Ho. by eapply (accounts_move d w id o).
  - destruct (known_order _ _ _ _ Hk Hal) as (o & Ho & Hc). destruct Haa as [-> Hst].
    pose proof (outcome_source _ _ Hc Hst) as Hs.
    unfold mem_MarkProcessed. rewrite Ho. by apply (accounts_outcome w id o).
Qed.

(** A counter call pays the debt it is due for. *)
Ltac settle Hsem Haa :=
  injection Hsem as <- <-; cbn in Haa; subst; split; [done|];
  unfold accounts in *; cbn [w_records add_record a_next w_orders] in *; rewrite !occurrences_snoc;
  cbn [is_created is_processed is_failed is_duration is_publish_failure Nat.b2n]; compute_counts; lia.

Lemma accounts_step w0 ls d w X (e : orderE X) x w' :
  alone w0 ls w -> accounts d w -> l_allowed ls e -> a_allowed d e -> sem e w x w' ->
  a_possible d e x /\ accounts (a_next d e x) w'.
Proof.
  intros Hal Hacc Hla Haa Hsem. unfold sem in Hsem. cbn [ow_sem world_order_world] in Hsem.
  unfold sem_of_handler in Hsem.
  destruct e as [X r|id|ids|msg|id err| | | |dur|msg id err| | |o]; cbn [handle world_handler] in Hsem.
  - split; [done|]. pose proof (accounts_repo w0 ls d w X r Hal Hacc Hla Haa) as Hrepo. by rewrite Hsem in Hrepo.
  - destruct (run _ _) as [y c]. by simplify_eq.
  - destruct (run _ _) as [y c]. by simplify_eq.
  - unfold fake_PublishOrderCreated in Hsem. destruct (FailNext _); by simplify_eq.
  - settle Hsem Haa.
  - settle Hsem Haa.
  - settle Hsem Haa.
  - settle Hsem Haa.
  - settle Hsem Haa.
  - injection Hsem as <- <-. split; [done|]. unfold accounts in *; cbn. rewrite !occurrences_snoc. cbn. lia.
  - by injection Hsem as <- <-.
  - by injection Hsem as <- <-.
  - destruct (fake_ProcessPayment _ _). by simplify_eq.
Qed.

(** Between requests nothing is due. *)
Lemma serve_settled r (w : World) w' :
  world_ok w -> accounts Settled w -> exec (serve r) w tt w' -> world_ok w' /\ accounts Settled w'.
Proof.
  intros Hok Hacc Hex.
  destruct (conforms_exec (both lifecycle accounting)
              (fun s w1 => (exists w0 : World, alone w0 s.1 w1) /\ accounts s.2 w1))
    with (p := serve r) (s := (l_init, Settled)) (w := w) (a := tt) (w' := w')
         (Q := fun (t : lstate * debt) (_ : unit) => t.2 = Settled) as (s' & Hs' & [(w0 & Hok' & _) Hacc']).
  - intros [ls d] X e w1 x w2 [[w0 Hal] Hacc1] [Hla Haa] Hsem.
    destruct (alone_step w0 ls X e w1 x w2 Hal Hla Hsem) as [Hp Hal'].
    destruct (accounts_step w0 ls d w1 X e x w2 Hal Hacc1 Hla Haa Hsem) as [Hp' Hacc2].
    split; [by split|]. split; [by exists w0|done].
  - eapply conforms_mono; [|apply conforms_both; [apply conf_serve|apply settles_serve]]. by intros [] [] [].
  - split; [|done]. exists w. split; [done|]. split; [apply owns_init|]. split; [apply knows_init|reflexivity].
  - done.
  - rewrite Hs' in Hacc'. by split.
Qed.

Lemma serve_all_settled rs (w w' : World) :
  world_ok w -> accounts Settled w -> exec (serve_all rs) w tt w' -> world_ok w' /\ accounts Settled w'.
Proof.
  revert w. induction rs as [|r rs IH]; intros w Hok Hacc.
  - by intros [_ ->].
  - cbn [serve_all]. intros ([] & w1 & Hr & Hrs)%exec_bind.
    destruct (serve_settled r w w1 Hok Hacc Hr) as [Hok1 Hacc1]. by apply (IH w1).
Qed.
End accounts.

(** ** Properties *)

(** C19: over the in-memory adapters, whose repository calls never fail, the counters tell
    the truth about the orders.  Starting with no orders and a new
    collector, after any sequence of requests and queue messages served one after the
    other, orders_processed_total is the number of stored orders that are PAID or SHIPPED,
    orders_failed_total the number of FAILED ones, the duration histogram has one sample
    per processed order, and orders_created_total counts every stored order except those
    whose message could not be published, for which the inconsistency log has an entry.
    Nothing is said of adapters whose calls fail. *)
Theorem metrics_match_orders `{!UuidText, !CaseTables, !Prometheus, !PrometheusLaws}
    (rs : list request) (w w' : World) (c : Collector) :
  world_ok w -> orders (w_orders w) = ∅ -> w_records w = [] -> NewCollector = Ok c ->
  exec (serve_all rs) w tt w' ->
  let m := collect (w_records w') c in
  let os := orders (w_orders w') in
  counter_value (ordersProcessed m) = Z.of_nat (tally paid os) /\
  counter_value (ordersFailed m) = Z.of_nat (tally failed os) /\
  sample_count (duration m) = counter_value (ordersProcessed m) /\
  counter_value (ordersCreated m) + Z.of_nat (occurrences is_publish_failure (w_records w')) = Z.of_nat (size os).
Proof.
  intros Hok Hos Hrec Hc Hex. cbn zeta.
  destruct NewCollector_starts_empty as (c0 & Hc0 & Hc1 & Hc2 & Hc3 & Hc4). rewrite Hc in Hc0. injection Hc0 as <-.
  assert (Hacc : accounts Settled w) by (unfold accounts; rewrite Hos, Hrec; by vm_compute).
  destruct (serve_all_settled rs w w' Hok Hacc Hex) as [_ (A1 & A2 & A3 & A4)].
  destruct (collect_counts (w_records w') c) as (B1 & B2 & B3 & B4).
  compute_counts. lia.
Qed.

(** A Prometheus client that keeps its numbers, its name clashes panicking. *)
#[local] Instance demo_prometheus : Prometheus := {|
  Counter := Z; Histogram := list Z; Registry := list string;
  NewCounter _ _ := 0; NewHistogram _ _ := []; NewRegistry := [];
  MustRegister names r :=
    if bool_decide (NoDup (r ++ names)) && forallb valid_metric_name names then Ok (r ++ names)
    else Panic "duplicate metrics collector registration attempted";
  Inc c := c + 1; Observe d h := d :: h;
  counter_value c := c; sample_count h := Z.of_nat (length h); registered r := r
|}.

#[local] Instance demo_prometheus_laws : PrometheusLaws.
Proof.
  constructor; try done.
  - intros d h. cbn. lia.
  - intros names r Hnd Hv. exists (r ++ names). split; [|done]. cbn.
    rewrite bool_decide_true by done. cbn.
    replace (forallb valid_metric_name names) with true; [done|]. symmetry.
    apply forallb_forall. by apply List.Forall_forall.
Qed.

#[local] Existing Instances bit_text no_tables.

Lemma metrics_match_orders_witness :
  exists c, NewCollector = Ok c /\
  let w' := (run (serve_all demo_requests) demo_world).2 in
  let m := collect (w_records w') c in
  counter_value (ordersProcessed m) = 1 /\ sample_count (duration m) = 1 /\
  counter_value (ordersCreated m) + Z.of_nat (occurrences is_publish_failure (w_records w'))
    = Z.of_nat (size (orders (w_orders w'))).
Proof.
  assert (Hc : exists c, NewCollector = Ok c) by (eexists; vm_compute; reflexivity).
  destruct Hc as [c Hc]. exists c. split; [exact Hc|]. cbv zeta.
  assert (Hex : exec (serve_all demo_requests) demo_world tt (run (serve_all demo_requests) demo_world).2).
  { pose proof (run_exec world_handler (serve_all demo_requests) demo_world) as Hr.
    destruct (run (serve_all demo_requests) demo_world).1. exact Hr. }
  destruct (metrics_match_orders demo_requests demo_world _ c demo_world_ok eq_refl eq_refl Hc Hex) as (Hp & _ & Hd & Hcr).
  split; [|split; [|exact Hcr]].
  - rewrite Hp. by vm_compute.
  - rewrite Hd, Hp. by vm_compute.
Defined.
