(* ===== verification/Worker.v ===== *)
(** Worker: the worker pool of internal/worker, with the payment simulation and the
    transient-failure decorator of cmd/worker: retries, dead-lettering, and what a
    failing write does to a message. *)
From S2P Require Import Prelude Errors Effects GoStrings Uuid Money Pagination OrderModel OrderRepo OrderService OrderQueue OrderSystem.

(** ** The pool (order_worker.go) *)

Inductive level := LevelWarn | LevelError.

(** What the worker calls: its queues, its logger, and through the order service
    the ports of the service. *)
Inductive workerE : Type -> Type :=
| QDequeue : workerE (res OrderCreatedMessage)
| QRequeue (msg : OrderCreatedMessage) : workerE (res unit)
| QDeadLetter (msg : OrderCreatedMessage) : workerE (res unit)
| WLog (l : level) (text : string) (workerID : Z) (orderID : uuid) (retryCount : Z)
    (err : option error) : workerE unit
| Service {X : Type} (e : orderE X) : workerE X.

Definition with_RetryCount (n : Z) (m : OrderCreatedMessage) : OrderCreatedMessage :=
  mkMessage (m_OrderID m) (m_Event m) (m_CreatedAt m) n.

(** How a worker goroutine ends: not yet, its loop returned, or a panic. *)
Inductive loop_end := Running | Returned | Crash (why : string).

Section worker.
Context (maxRetries : Z) (workerID : Z).

Definition handleProcessError (msg : OrderCreatedMessage) (processErr : error)
    : prog workerE (res unit) :=
  call (WLog LevelError "worker failed to process message" workerID (m_OrderID msg)
          (m_RetryCount msg) (Some processErr)) ;;;
  if m_RetryCount msg <? maxRetries then
    let retryMsg := with_RetryCount (wrap64 (m_RetryCount msg + 1)) msg in
    requeued <- call (QRequeue retryMsg) ;;
    match requeued with
    | Err err =>
        call (WLog LevelError "failed to requeue message after transient failure" workerID
                (m_OrderID msg) (m_RetryCount retryMsg) (Some err)) ;;;
        Ret (Ok tt)
    | Panic why => Ret (Panic why)
    | Ok _ =>
        call (WLog LevelWarn "requeued message after transient failure" workerID
                (m_OrderID msg) (m_RetryCount retryMsg) None) ;;;
        Ret (Ok tt)
    end
  else
    dead <- call (QDeadLetter msg) ;;
    match dead with
    | Err err =>
        call (WLog LevelError "failed to move message to dead-letter queue" workerID
                (m_OrderID msg) (m_RetryCount msg) (Some err)) ;;;
        Ret (Ok tt)
    | Panic why => Ret (Panic why)
    | Ok _ =>
        call (WLog LevelError "message moved to dead-letter queue after exhausting retries" workerID
                (m_OrderID msg) (m_RetryCount msg) None) ;;;
        Ret (Ok tt)
    end.

(** The order service is run inside the worker. *)
Definition service {A} (p : prog orderE A) : prog workerE A :=
  interp (fun X e => call (Service e)) p.

(** One delivered message. *)
Definition deliver (msg : OrderCreatedMessage) : prog workerE (res unit) :=
  processed <- service (Process (m_OrderID msg)) ;;
  match processed with
  | Err err => handleProcessError msg err
  | r => Ret r
  end.

(** The loop, for at most [fuel] messages. *)
Fixpoint runLoop (fuel : nat) : prog workerE loop_end :=
  match fuel with
  | O => Ret Running
  | S fuel' =>
      next <- call QDequeue ;;
      match next with
      | Err _ => Ret Returned
      | Panic why => Ret (Crash why)
      | Ok msg =>
          handled <- deliver msg ;;
          match handled with
          | Panic why => Ret (Crash why)
          | _ => runLoop fuel'
          end
      end
  end.
End worker.

(** The goroutines [Run] starts; it returns when all of them have. *)
Definition Run (maxRetries workers : Z) (fuel : nat) : list (prog workerE loop_end) :=
  (fun workerID => runLoop maxRetries workerID fuel) <$> seqZ 0 workers.

(** ** Payment simulation and transient failures (cmd/worker) *)
Definition failureTotal : Money :=
  match ParseString "13.37" with Ok m => m | _ => mkMoney 0 end.

Definition simulated_ProcessPayment (o : Order) : res unit :=
  if bool_decide (o_TotalAmount o = failureTotal) then Err (ErrNew "simulated payment failure")
  else Ok tt.

Definition transient_UpdateStatus (sentinel : Money) (id : uuid) (status : OrderStatus)
    : prog repoE (res unit) :=
  if bool_decide (status = StatusProcessing) then
    found <- call (FindByID id) ;;
    match found with
    | Ok (o, _) =>
        if cents (o_TotalAmount o) =? cents sentinel
        then Ret (Err (ErrNew "simulated transient infrastructure failure"))
        else call (UpdateStatus id status)
    | Err _ => call (UpdateStatus id status)
    | Panic why => Ret (Panic why)
    end
  else call (UpdateStatus id status).

(** The other methods are the embedded repository's. *)
Definition transient_repo (sentinel : Money) (X : Type) (e : repoE X) : prog repoE X :=
  match e in repoE X return prog repoE X with
  | UpdateStatus id st => transient_UpdateStatus sentinel id st
  | e' => call e'
  end.

(** ** A worker over a linked queue

    [S] is any state with an implementation of the service's ports.  The retry queue
    is linked to the processing queue, which the worker also consumes; a dequeue on
    an empty queue that is not closed waits, until the context is cancelled. *)
Record worker_world (S : Type) := mkWorker {
  ww_service : S;
  ww_retry : FakeRetryQueue;
  ww_log : list (level * string * Z);
}.
Arguments mkWorker {S} _ _ _.
Arguments ww_service {S} _.
Arguments ww_retry {S} _.
Arguments ww_log {S} _.

Definition set_queue (q : FakeQueue) (f : FakeRetryQueue) : FakeRetryQueue :=
  mkRetry (Requeued f) (DeadLettered f) (Some q) (FailRequeue f) (FailDeadLetter f).

Definition worker_dequeue (f : FakeRetryQueue) : res OrderCreatedMessage * FakeRetryQueue :=
  match ProcessingQueue f with
  | None => (Err (ErrVar CtxCanceled), f)
  | Some q =>
      match q_pop q with
      | (Some r, q') => (r, set_queue q' f)
      | (None, _) => (Err (ErrVar CtxCanceled), f)
      end
  end.

#[export] Instance worker_handler {S} `{!Handler orderE S} : Handler workerE (worker_world S) :=
  fun X e =>
  match e in workerE X return worker_world S -> X * worker_world S with
  | QDequeue => fun w =>
      let '(x, f) := worker_dequeue (ww_retry w) in (x, mkWorker (ww_service w) f (ww_log w))
  | QRequeue msg => fun w =>
      let '(x, f) := fake_Requeue msg (ww_retry w) in (x, mkWorker (ww_service w) f (ww_log w))
  | QDeadLetter msg => fun w =>
      let '(x, f) := fake_DeadLetter msg (ww_retry w) in (x, mkWorker (ww_service w) f (ww_log w))
  | WLog l text _ _ n _ => fun w =>
      (tt, mkWorker (ww_service w) (ww_retry w) (ww_log w ++ [(l, text, n)]))
  | Service e => fun w =>
      let '(x, s) := handle e (ww_service w) in (x, mkWorker s (ww_retry w) (ww_log w))
  end.

Section facts.
Context {S : Type} `{!Handler orderE S}.

(** The service runs in the worker as it runs alone. *)
Lemma run_service {A} (p : prog orderE A) (w : worker_world S) :
  run (service p) w =
  let '(a, s) := run p (ww_service w) in (a, mkWorker s (ww_retry w) (ww_log w)).
Proof.
  revert w. induction p as [a|X e k IH]; intros w; [by destruct w|].
  cbn [service interp]. rewrite run_bind, run_call. cbn.
  destruct (handle e (ww_service w)) as [x s]. fold (service (k x)). by rewrite IH.
Qed.

(** [n] consecutive deliveries of the order fail, taking the service from [s] to [s']. *)
Fixpoint attempts (id : uuid) (n : nat) (s s' : S) : Prop :=
  match n with
  | O => s' = s
  | Datatypes.S n' => exists err s1, run (Process id) s = (Err err, s1) /\ attempts id n' s1 s'
  end.

(** The linked queue holding exactly [msgs], closed, and the two records. *)
Definition retry_state (msgs req dead : list OrderCreatedMessage) (tok : bool) : FakeRetryQueue :=
  mkRetry req dead (Some (mkQueue msgs tok true)) false false.

(** The worker, up to its log. *)
Definition worker_at (s : S) (f : FakeRetryQueue) (w : worker_world S) : Prop :=
  ww_service w = s /\ ww_retry w = f.

Lemma run_dequeue msg rest req dead tok s w :
  worker_at s (retry_state (msg :: rest) req dead tok) w ->
  exists w', run (call QDequeue) w = (Ok msg, w') /\ worker_at s (retry_state rest req dead tok) w'.
Proof.
  intros [Hs Hf]. rewrite run_call. cbn. rewrite Hf. cbn. eexists. split; [reflexivity|].
  by split.
Qed.

Lemma run_dequeue_closed req dead tok s w :
  worker_at s (retry_state [] req dead tok) w ->
  exists w', run (call QDequeue) w = (Err ErrQueueClosed, w') /\ worker_at s (retry_state [] req dead tok) w'.
Proof.
  intros [Hs Hf]. rewrite run_call. cbn. rewrite Hf. cbn. eexists. split; [reflexivity|].
  by split.
Qed.

(** A failed delivery below the limit: one requeue, one more on the count. *)
Lemma deliver_retry maxRetries workerID msg req dead tok s err s1 w :
  worker_at s (retry_state [] req dead tok) w ->
  run (Process (m_OrderID msg)) s = (Err err, s1) ->
  0 <= m_RetryCount msg < maxRetries -> maxRetries <= int64_max ->
  let retryMsg := with_RetryCount (m_RetryCount msg + 1) msg in
  exists w', run (deliver maxRetries workerID msg) w = (Ok tt, w') /\
    worker_at s1 (retry_state [retryMsg] (req ++ [retryMsg]) dead true) w'.
Proof.
  intros [Hs Hf] Hp Hr Hm. cbv zeta. unfold deliver. rewrite run_bind, run_service, Hs, Hp.
  unfold handleProcessError. rewrite run_bind, run_call. cbn [handle worker_handler ww_service ww_retry ww_log].
  replace (m_RetryCount msg <? maxRetries) with true by lia. cbv zeta.
  rewrite wrap64_id by (unfold in_int64, int64_min in *; lia).
  rewrite run_bind, run_call. cbn. rewrite Hf. cbn. eexists. split; [reflexivity|]. by split.
Qed.

(** A failed delivery at the limit: one dead letter, unchanged. *)
Lemma deliver_dead maxRetries workerID msg req dead tok s err s1 w :
  worker_at s (retry_state [] req dead tok) w ->
  run (Process (m_OrderID msg)) s = (Err err, s1) ->
  maxRetries <= m_RetryCount msg ->
  exists w', run (deliver maxRetries workerID msg) w = (Ok tt, w') /\
    worker_at s1 (retry_state [] req (dead ++ [msg]) tok) w'.
Proof.
  intros [Hs Hf] Hp Hr. unfold deliver. rewrite run_bind, run_service, Hs, Hp.
  unfold handleProcessError. rewrite run_bind, run_call. cbn [handle worker_handler ww_service ww_retry ww_log].
  replace (m_RetryCount msg <? maxRetries) with false by lia.
  rewrite run_bind, run_call. cbn. rewrite Hf. cbn. eexists. split; [reflexivity|]. by split.
Qed.

(** A delivery that returns nil consumes the message. *)
Lemma deliver_done maxRetries workerID msg f s s1 w :
  worker_at s f w -> run (Process (m_OrderID msg)) s = (Ok tt, s1) ->
  exists w', run (deliver maxRetries workerID msg) w = (Ok tt, w') /\ worker_at s1 f w'.
Proof.
  intros [Hs Hf] Hp. unfold deliver. rewrite run_bind, run_service, Hs, Hp. cbn.
  eexists. split; [reflexivity|]. by split.
Qed.

(** The copies a message is requeued as, from count [c] on. *)
Definition copies (c : Z) (n : nat) (msg : OrderCreatedMessage) : list OrderCreatedMessage :=
  (fun i => with_RetryCount i msg) <$> seqZ (c + 1) (Z.of_nat n).

Lemma copies_S c n msg :
  copies c (Datatypes.S n) msg =
  with_RetryCount (c + 1) msg :: copies (c + 1) n (with_RetryCount (c + 1) msg).
Proof.
  unfold copies. rewrite seqZ_cons by lia. rewrite fmap_cons. do 2 f_equal.
  replace (Z.pred (Z.of_nat (Datatypes.S n))) with (Z.of_nat n) by lia.
  by replace (Z.succ (c + 1)) with (c + 1 + 1) by lia.
Qed.

Lemma runLoop_step maxRetries workerID fuel msg rest req dead tok s w :
  worker_at s (retry_state (msg :: rest) req dead tok) w ->
  exists w', worker_at s (retry_state rest req dead tok) w' /\
    run (runLoop maxRetries workerID (Datatypes.S fuel)) w =
    match run (deliver maxRetries workerID msg) w' with
    | (Panic why, w1) => (Crash why, w1)
    | (_, w1) => run (runLoop maxRetries workerID fuel) w1
    end.
Proof.
  intros Hw. destruct (run_dequeue _ _ _ _ _ _ _ Hw) as (w' & Hd & Hw'). exists w'. split; [done|].
  cbn [runLoop]. rewrite run_bind, Hd, run_bind.
  by destruct (run (deliver maxRetries workerID msg) w') as [[[]|e|why] w1].
Qed.

Lemma runLoop_end maxRetries workerID fuel req dead tok s w :
  worker_at s (retry_state [] req dead tok) w ->
  exists w', run (runLoop maxRetries workerID (Datatypes.S fuel)) w = (Returned, w') /\
    worker_at s (retry_state [] req dead tok) w'.
Proof.
  intros Hw. destruct (run_dequeue_closed _ _ _ _ _ Hw) as (w' & Hd & Hw'). exists w'.
  cbn [runLoop]. by rewrite run_bind, Hd.
Qed.

(** [n] failing deliveries, within the limit. *)
Lemma runLoop_retries maxRetries workerID n : forall fuel msg req dead tok s s' w,
  worker_at s (retry_state [msg] req dead tok) w ->
  attempts (m_OrderID msg) n s s' ->
  0 <= m_RetryCount msg -> m_RetryCount msg + Z.of_nat n <= maxRetries -> maxRetries <= int64_max ->
  exists w' tok', run (runLoop maxRetries workerID (n + fuel)) w = run (runLoop maxRetries workerID fuel) w' /\
    worker_at s' (retry_state [with_RetryCount (m_RetryCount msg + Z.of_nat n) msg]
                    (req ++ copies (m_RetryCount msg) n msg) dead tok') w'.
Proof.
  induction n as [|n IH]; intros fuel msg req dead tok s s' w Hw Hat Hr Hn Hm.
  - cbn in Hat. subst s'. exists w, tok. split; [done|]. unfold copies. cbn.
    rewrite Z.add_0_r, app_nil_r. by destruct msg.
  - destruct Hat as (err & s1 & Hp & Hat).
    destruct (runLoop_step maxRetries workerID (n + fuel) _ _ _ _ _ _ _ Hw) as (w1 & Hw1 & Hrun).
    destruct (deliver_retry maxRetries workerID msg _ _ _ _ _ _ _ Hw1 Hp ltac:(lia) Hm) as (w2 & Hd & Hw2).
    cbn [Nat.add]. rewrite Hrun, Hd.
    destruct (IH fuel _ _ _ _ _ _ _ Hw2 Hat) as (w' & tok' & Hrun' & Hw'); [cbn; lia..|].
    exists w', tok'. split; [done|]. rewrite copies_S. cbn [m_RetryCount with_RetryCount] in Hw'.
    rewrite <- app_assoc in Hw'.
    by replace (m_RetryCount msg + Z.of_nat (Datatypes.S n)) with (m_RetryCount msg + 1 + Z.of_nat n) by lia.
Qed.
End facts.

(** ** Decorated implementations of the service's ports *)

(** The ports with the repository wrapped as cmd/worker wraps it. *)
Definition decorate (sentinel : Money) (X : Type) (e : orderE X) : prog orderE X :=
  match e in orderE X return prog orderE X with
  | Repo r => interp (fun X e => call (Repo e)) (transient_repo sentinel _ r)
  | e' => call e'
  end.

Definition transient_handler {S} (H : Handler orderE S) (sentinel : Money) : Handler orderE S :=
  fun X e s => run (decorate sentinel X e) s.

(** A repository whose outcome write keeps failing, with one error. *)
Definition broken_mark {S} (cause : error) (H : Handler orderE S) : Handler orderE S :=
  fun X e =>
  match e in orderE X return S -> X * S with
  | Repo r =>
      match r in repoE X return S -> X * S with
      | MarkProcessed _ _ _ => fun s => (Err cause, s)
      | r' => H _ (Repo r')
      end
  | e' => H _ e'
  end.

(** With it, a stored CREATED order is paid for once, processing fails, and the order is
    left PROCESSING, where processing it again does nothing. *)
Lemma run_Process_stranded `{!UuidText, !CaseTables} (cause : error) (id : uuid) (o : Order) (w : World) :
  orders (w_orders w) !! id = Some o -> o_ID o = id -> id <> uuid_Nil -> o_Status o = StatusCreated ->
  let H := broken_mark cause world_handler in
  exists err w' o', @run _ _ H _ (Process id) w = (Err err, w') /\
    orders (w_orders w') !! id = Some o' /\ o_Status o' = StatusProcessing /\
    OnProcess (w_processor w') = (fun calls => calls ++ [id]) <$> OnProcess (w_processor w) /\
    @run _ _ H _ (Process id) w' = (Ok tt, w').
Proof.
  intros Ho Hid Hnil Hst. cbv zeta. unfold Process. rewrite bool_decide_eq_false_2 by done.
  destruct w as [r c p pr pay_ rec src]. cbn in Ho |- *.
  unfold repo_call. cbn. unfold mem_FindByID. rewrite Ho, Hst, bool_decide_eq_true_2 by done.
  change (CanTransition StatusCreated StatusProcessing) with true. cbn. unfold repo_call. cbn.
  unfold mem_UpdateStatus. rewrite Ho. cbn. rewrite Hid.
  destruct (FailFor pay_ !! id) as [[e|]|]; cbn;
    (eexists _, _, _; split; [reflexivity|]; cbn; split; [apply lookup_insert_eq|]; split; [reflexivity|]; split; [reflexivity|];
     rewrite lookup_insert_eq; reflexivity).
Qed.

Definition connection_reset : error := ErrNew "connection reset".

Definition msg_one : OrderCreatedMessage := mkMessage 1 OrderCreatedEvent 0 0.
Definition queued (s : World) (msgs : list OrderCreatedMessage) : worker_world World :=
  mkWorker s (retry_state msgs [] [] false) [].

(** ** Properties *)

(** C16: a message whose processing fails on every delivery is tried exactly
    [maxRetries] + 1 times: it is requeued with the counts 1, ..., [maxRetries] and
    then moved once to the dead-letter queue, carrying [maxRetries]; the worker goes
    on and finds the queue empty.  This holds for every implementation of the
    service's ports and every retry limit an int can hold. *)
Theorem failing_message_is_dead_lettered {S} `{!Handler orderE S} (maxRetries workerID : Z)
    (msg : OrderCreatedMessage) (fuel : nat) (s s' : S) (w : worker_world S) :
  0 <= maxRetries <= int64_max -> m_RetryCount msg = 0 ->
  worker_at s (retry_state [msg] [] [] false) w ->
  attempts (m_OrderID msg) (Datatypes.S (Z.to_nat maxRetries)) s s' ->
  exists w' tok,
    run (runLoop maxRetries workerID (Z.to_nat maxRetries + 2 + fuel)) w = (Returned, w') /\
    worker_at s' (retry_state [] ((fun n => with_RetryCount n msg) <$> seqZ 1 maxRetries)
                    [with_RetryCount maxRetries msg] tok) w'.
Proof.
  intros Hm Hr Hw Hat.
  assert (Hsplit : exists s1 err s2, attempts (m_OrderID msg) (Z.to_nat maxRetries) s s1 /\
            run (Process (m_OrderID msg)) s1 = (Err err, s2) /\ s2 = s').
  { clear -Hat. revert s Hat. generalize (Z.to_nat maxRetries) as n. induction n as [|n IH]; intros s.
    - intros (err & s1 & Hp & ->). by exists s, err, s1.
    - intros (err & s1 & Hp & Hat). destruct (IH _ Hat) as (s2 & e2 & s3 & H1 & H2 & H3).
      exists s2, e2, s3. split; [|done]. cbn. eauto. }
  destruct Hsplit as (s1 & err & s2 & Hat1 & Hp & ->).
  destruct (runLoop_retries maxRetries workerID _ (2 + fuel) msg _ _ _ _ _ _ Hw Hat1)
    as (w1 & tok1 & Hrun1 & Hw1); [lia..|].
  rewrite Hr, Z.add_0_l, Z2Nat.id in Hw1 by lia.
  destruct (runLoop_step maxRetries workerID (Datatypes.S fuel) _ _ _ _ _ _ _ Hw1) as (w2 & Hw2 & Hrun2).
  destruct (deliver_dead maxRetries workerID (with_RetryCount maxRetries msg) _ _ _ _ _ _ _ Hw2 Hp)
    as (w3 & Hd & Hw3); [cbn; lia|].
  destruct (runLoop_end maxRetries workerID fuel _ _ _ _ _ Hw3) as (w4 & Hend & Hw4).
  exists w4, tok1. rewrite <- Nat.add_assoc, Hrun1. cbn [Nat.add]. rewrite Hrun2, Hd. split; [exact Hend|].
  unfold copies in Hw4. by rewrite Z2Nat.id in Hw4 by lia.
Qed.

#[local] Existing Instances bit_text no_tables.

(** The sentinel of the decorator is the total of the one order. *)
Definition flaky : Handler orderE World := transient_handler world_handler (mkMoney 450).

Lemma failing_message_is_dead_lettered_witness :
  exists w' tok,
    @run workerE (worker_world World) (@worker_handler World flaky) _ (runLoop 2 0 4) (queued one_order [msg_one]) =
      (Returned, w') /\
    worker_at one_order (retry_state [] [mkMessage 1 OrderCreatedEvent 0 1; mkMessage 1 OrderCreatedEvent 0 2]
                           [mkMessage 1 OrderCreatedEvent 0 2] tok) w'.
Proof.
  apply (@failing_message_is_dead_lettered World flaky 2 0 msg_one 0 one_order one_order).
  - unfold int64_max. lia.
  - reflexivity.
  - split; reflexivity.
  - do 3 (eexists _, _; split; [vm_compute; reflexivity|]). vm_compute. reflexivity.
Defined.

(** C17: a message whose processing fails [n] times, at most [maxRetries], and
    then returns nil is delivered [n] + 1 times and never dead-lettered. *)
Theorem recovering_message_is_not_dead_lettered {S} `{!Handler orderE S} (maxRetries workerID : Z)
    (n : nat) (msg : OrderCreatedMessage) (fuel : nat) (s s1 s' : S) (w : worker_world S) :
  Z.of_nat n <= maxRetries <= int64_max -> m_RetryCount msg = 0 ->
  worker_at s (retry_state [msg] [] [] false) w ->
  attempts (m_OrderID msg) n s s1 -> run (Process (m_OrderID msg)) s1 = (Ok tt, s') ->
  exists w' tok,
    run (runLoop maxRetries workerID (n + 2 + fuel)) w = (Returned, w') /\
    worker_at s' (retry_state [] ((fun i => with_RetryCount i msg) <$> seqZ 1 (Z.of_nat n)) [] tok) w'.
Proof.
  intros Hm Hr Hw Hat Hp.
  destruct (runLoop_retries maxRetries workerID _ (2 + fuel) msg _ _ _ _ _ _ Hw Hat)
    as (w1 & tok1 & Hrun1 & Hw1); [lia..|]. rewrite Hr in Hw1.
  destruct (runLoop_step maxRetries workerID (Datatypes.S fuel) _ _ _ _ _ _ _ Hw1) as (w2 & Hw2 & Hrun2).
  destruct (deliver_done maxRetries workerID (with_RetryCount (0 + Z.of_nat n) msg) _ _ _ _ Hw2 Hp)
    as (w3 & Hd & Hw3).
  destruct (runLoop_end maxRetries workerID fuel _ _ _ _ _ Hw3) as (w4 & Hend & Hw4).
  exists w4, tok1. rewrite <- Nat.add_assoc, Hrun1. cbn [Nat.add]. by rewrite Hrun2, Hd.
Qed.

Lemma recovering_message_is_not_dead_lettered_witness :
  exists s' w' tok,
    @run workerE (worker_world World) (@worker_handler World (broken_mark connection_reset world_handler)) _
      (runLoop 3 0 3) (queued one_order [msg_one]) = (Returned, w') /\
    worker_at s' (retry_state [] [mkMessage 1 OrderCreatedEvent 0 1] [] tok) w'.
Proof.
  pose (H := broken_mark connection_reset world_handler).
  pose (s1 := (@run _ _ H _ (Process 1) one_order).2).
  exists s1.
  apply (@recovering_message_is_not_dead_lettered World H 3 0 1 msg_one 0 one_order s1 s1).
  - unfold int64_max. lia.
  - reflexivity.
  - split; reflexivity.
  - exists (mapOrderRepoErr connection_reset), s1. split; [vm_compute; reflexivity|].
    vm_compute. reflexivity.
  - vm_compute. reflexivity.
Defined.

(** C18: when writing the outcome of a payment fails, the retry does not repair the
    order.  Over the in-memory adapters with an outcome write that fails, with any error:
    for every CREATED order that is stored under a non-nil id, whatever its payment
    answers, and every message for it that may still be retried, alone in the queue, the
    payment is made once, the message is requeued, and its second delivery finds the
    order PROCESSING and returns nil: the message is consumed, nothing is dead-lettered,
    and the order stays PROCESSING, where no later message for it has any effect. *)
Theorem failed_outcome_write_strands_order `{!UuidText, !CaseTables} (cause : error) (maxRetries workerID : Z)
    (fuel : nat) (msg : OrderCreatedMessage) (o : Order) (s : World) (w : worker_world World)
    (req dead : list OrderCreatedMessage) (tok : bool) :
  let H := broken_mark cause world_handler in
  let id := m_OrderID msg in
  0 <= m_RetryCount msg < maxRetries -> maxRetries <= int64_max ->
  orders (w_orders s) !! id = Some o -> o_ID o = id -> id <> uuid_Nil -> o_Status o = StatusCreated ->
  worker_at s (retry_state [msg] req dead tok) w ->
  exists s' o' w' tok',
    @run workerE (worker_world World) (@worker_handler World H) _ (runLoop maxRetries workerID (3 + fuel)) w =
      (Returned, w') /\
    worker_at s' (retry_state [] (req ++ [with_RetryCount (m_RetryCount msg + 1) msg]) dead tok') w' /\
    orders (w_orders s') !! id = Some o' /\ o_Status o' = StatusProcessing /\
    OnProcess (w_processor s') = (fun calls => calls ++ [id]) <$> OnProcess (w_processor s) /\
    @run _ _ H _ (Process id) s' = (Ok tt, s').
Proof.
  cbv zeta. intros Hr Hm Ho Hid Hnil Hst Hw. set (B := broken_mark cause world_handler).
  destruct (run_Process_stranded cause _ o s Ho Hid Hnil Hst) as (err & s1 & o' & Hp1 & Ho' & Hst' & Hpaid & Hp2).
  fold B in Hp1, Hp2.
  destruct (@runLoop_step World B maxRetries workerID (2 + fuel) _ _ _ _ _ _ _ Hw) as (w1 & Hw1 & Hrun1).
  destruct (@deliver_retry World B maxRetries workerID msg _ _ _ _ err s1 _ Hw1 Hp1 Hr Hm) as (w2 & Hd2 & Hw2).
  destruct (@runLoop_step World B maxRetries workerID (Datatypes.S fuel) _ _ _ _ _ _ _ Hw2) as (w3 & Hw3 & Hrun3).
  destruct (@deliver_done World B maxRetries workerID (with_RetryCount (m_RetryCount msg + 1) msg) _ _ s1 _ Hw3 Hp2)
    as (w4 & Hd4 & Hw4).
  destruct (@runLoop_end World B maxRetries workerID fuel _ _ _ _ _ Hw4) as (w5 & Hend & Hw5).
  exists s1, o', w5, true. split; [etrans; [exact Hrun1|]; by rewrite Hd2; cbn [Nat.add]; rewrite Hrun3, Hd4|].
  by split.
Qed.

Lemma failed_outcome_write_strands_order_witness :
  let H := broken_mark connection_reset world_handler in
  exists s' o' w' tok',
    @run workerE (worker_world World) (@worker_handler World H) _ (runLoop 3 0 3) (queued one_order [msg_one]) =
      (Returned, w') /\
    worker_at s' (retry_state [] [mkMessage 1 OrderCreatedEvent 0 1] [] tok') w' /\
    orders (w_orders s') !! 1%N = Some o' /\ o_Status o' = StatusProcessing /\
    OnProcess (w_processor s') = (fun calls => calls ++ [1%N]) <$> OnProcess (w_processor one_order) /\
    @run _ _ H _ (Process 1) s' = (Ok tt, s').
Proof.
  assert (Ho : exists o, orders (w_orders one_order) !! 1%N = Some o /\ o_ID o = 1%N /\ o_Status o = StatusCreated)
    by (eexists; split; [vm_compute; reflexivity|by split]).
  destruct Ho as (o & Ho & Hid & Hst).
  apply (failed_outcome_write_strands_order connection_reset 3 0 0 msg_one o one_order (queued one_order [msg_one]) [] [] false);
    [cbn; lia|unfold int64_max; lia|exact Ho|exact Hid|done|exact Hst|by split].
Defined.
