(* ===== verification/Delivery.v ===== *)
(** Delivery: API requests and workers together over one order store and one pair of
    queues: where an order that still waits for its payment is to be found. *)
From S2P Require Import Prelude Errors Effects Uuid GoStrings Money Pagination Catalog RedisQueue OrderModel OrderRepo OrderService OrderLifecycle OrderQueue OrderSystem Worker.

(** ** The system

    The order store and the ports of the service are any lawful world; the processing
    queue and the dead-letter queue are lists of messages. *)
Class DeliveryWorld (W : Type) `{!OrderWorld W} := {
  dw_sem :: Sem workerE W;
  dw_queue : W -> list OrderCreatedMessage;
  dw_dead : W -> list OrderCreatedMessage;
}.

(** A send that fails may have gone through. *)
Definition sent_to (msg : OrderCreatedMessage) (q : list OrderCreatedMessage) (x : res unit) q' : Prop :=
  match x with
  | Ok _ => q' = q ++ [msg]
  | Err _ => q' = q \/ q' = q ++ [msg]
  | Panic _ => False
  end.

Definition taken_from (q : list OrderCreatedMessage) (msg : OrderCreatedMessage) q' : Prop :=
  exists q1 q2, q = q1 ++ msg :: q2 /\ q' = q1 ++ q2.

Definition publishes {X} (e : orderE X) : bool := match e with PublishOrderCreated _ => true | _ => false end.

(** The service's calls are those of the world; only the producer and the workers touch
    the queues; a dequeue that fails may lose the message it took. *)
Class DeliveryLaws (W : Type) `{!OrderWorld W, !DeliveryWorld W} := {
  dw_service X (e : orderE X) (w : W) x w' : sem (Service e) w x w' -> sem e w x w';
  dw_quiet X (e : orderE X) (w : W) x w' :
    sem (Service e) w x w' -> publishes e = false -> dw_queue w' = dw_queue w /\ dw_dead w' = dw_dead w;
  dw_publish msg (w : W) x w' :
    sem (Service (PublishOrderCreated msg)) w x w' ->
    sent_to msg (dw_queue w) x (dw_queue w') /\ dw_dead w' = dw_dead w;
  dw_outside X (e : workerE X) (w : W) x w' :
    sem e w x w' -> (forall (e' : orderE X), e <> Service e') -> ow_valid w ->
    ow_store w' = ow_store w /\ ow_valid w';
  dw_dequeue (w : W) x w' :
    sem QDequeue w x w' ->
    dw_dead w' = dw_dead w /\
    match x with
    | Ok msg => taken_from (dw_queue w) msg (dw_queue w')
    | _ => dw_queue w' = dw_queue w \/ exists msg, taken_from (dw_queue w) msg (dw_queue w')
    end;
  dw_requeue msg (w : W) x w' :
    sem (QRequeue msg) w x w' -> sent_to msg (dw_queue w) x (dw_queue w') /\ dw_dead w' = dw_dead w;
  dw_dead_letter msg (w : W) x w' :
    sem (QDeadLetter msg) w x w' -> sent_to msg (dw_dead w) x (dw_dead w') /\ dw_queue w' = dw_queue w;
  dw_log l text i id n err (w : W) x w' :
    sem (WLog l text i id n err) w x w' -> dw_queue w' = dw_queue w /\ dw_dead w' = dw_dead w;
}.

(** ** The record of what was called and answered *)
Record event := Ev { ev_type : Type; ev_call : workerE ev_type; ev_answer : ev_type }.
Arguments Ev {ev_type} _ _.

#[export] Instance recorded {W} `{S : !Sem workerE W} : Sem workerE (W * list event) := fun X e w x w' =>
  S X e w.1 x w'.1 /\ w'.2 = w.2 ++ [Ev e x].

Definition requeue_failed : string := "failed to requeue message after transient failure".
Definition dead_letter_failed : string := "failed to move message to dead-letter queue".
Definition empty_order_id : string := "ignoring queue message with empty order id".

(** The program has said that it could not deliver the order: the creation was answered
    with an error, the inconsistency was logged, or a worker logged that it could not
    pass the message on. *)
Inductive reports (id : uuid) : event -> Prop :=
| reports_creation o its err : o_ID o = id -> reports id (Ev (Service (Repo (CreateWithItems (Some o) its))) (Err err))
| reports_publication err : reports id (Ev (Service (LogPublishFailureAfterCommit id err)) tt)
| reports_requeue l i n err : reports id (Ev (WLog l requeue_failed i id n err) tt)
| reports_dead_letter l i n err : reports id (Ev (WLog l dead_letter_failed i id n err) tt)
| reports_empty oid err : id = uuid_Nil -> reports id (Ev (Service (ProcessLog empty_order_id oid err)) tt).

(** The dequeues that failed, each of which may have lost one message. *)
Definition failed_dequeue (ev : event) : bool :=
  match ev_call ev in workerE X return X -> bool with
  | QDequeue => fun x => match x with Ok _ => false | _ => true end
  | _ => fun _ => false
  end (ev_answer ev).

Definition failed_dequeues (h : list event) : nat := length (base.filter (fun ev => failed_dequeue ev = true) h).

Lemma failed_dequeues_snoc h ev :
  failed_dequeues (h ++ [ev]) = (failed_dequeues h + if failed_dequeue ev then 1 else 0)%nat.
Proof.
  unfold failed_dequeues. rewrite filter_app, length_app, filter_cons, filter_nil.
  destruct (failed_dequeue ev); [by rewrite decide_True|by rewrite decide_False].
Qed.

(** ** The protocol

    A thread carries at most one order: the one it created and has not published, or the
    one whose message it holds. *)
Definition release (id : uuid) (s : option uuid) : option uuid := if decide (s = Some id) then None else s.

Definition d_allowed {X} (s : option uuid) (e : orderE X) : Prop :=
  match e with
  | Repo r =>
      match r with
      | CreateWithItems (Some _) _ => s = None
      | CreateWithItems None _ => False
      | UpdateStatus _ st => st <> StatusCreated
      | MarkProcessed _ st _ => st <> StatusCreated
      | _ => True
      end
  | PublishOrderCreated msg => s = Some (m_OrderID msg)
  | _ => True
  end.

Definition no_panic {A} (x : res A) : Prop := match x with Panic _ => False | _ => True end.

Definition d_possible {X} (s : option uuid) (e : orderE X) : X -> Prop :=
  match e in orderE X return X -> Prop with
  | Repo r =>
      match r in repoE X return X -> Prop with
      | CreateWithItems _ _ => no_panic
      | FindByID _ => no_panic
      | UpdateStatus _ _ => no_panic
      | MarkProcessed _ _ _ => no_panic
      | ListOrders _ => fun _ => True
      end
  | PublishOrderCreated _ => no_panic
  | _ => fun _ => True
  end.

Definition after_write (id : uuid) (s : option uuid) (x : res unit) : option uuid :=
  match x with Ok _ => release id s | _ => s end.

Definition d_next {X} (s : option uuid) (e : orderE X) : X -> option uuid :=
  match e in orderE X return X -> option uuid with
  | Repo r =>
      match r in repoE X return X -> option uuid with
      | CreateWithItems (Some o) _ => fun x => match x with Ok _ => Some (o_ID o) | _ => None end
      | CreateWithItems None _ => fun _ => s
      | FindByID id => fun x =>
          match x with
          | Ok (o, _) => if decide (o_Status o = StatusCreated) then s else release id s
          | Err e => if errors_Is e OrderErrOrderNotFound then release id s else s
          | Panic _ => s
          end
      | UpdateStatus id _ => after_write id s
      | MarkProcessed id _ _ => after_write id s
      | ListOrders _ => fun _ => s
      end
  | PublishOrderCreated msg => after_write (m_OrderID msg) s
  | LogPublishFailureAfterCommit id _ => fun _ => release id s
  | ProcessLog text _ _ => fun _ => if decide (text = empty_order_id) then release uuid_Nil s else s
  | _ => fun _ => s
  end.

Definition d_received (x : res OrderCreatedMessage) : option uuid :=
  match x with Ok msg => Some (m_OrderID msg) | _ => None end.

Definition on_service : protocol orderE (option uuid) :=
  mkProtocol (fun X => @d_allowed X) (fun X => @d_possible X) (fun X => @d_next X).

Definition delivery : protocol workerE (option uuid) :=
  mkProtocol
    (fun X s e => match e with
                  | Service e => d_allowed s e
                  | QDequeue => s = None
                  | QRequeue msg => s = None \/ s = Some (m_OrderID msg)
                  | QDeadLetter msg => s = None \/ s = Some (m_OrderID msg)
                  | WLog _ _ _ _ _ _ => True
                  end)
    (fun X s e => match e in workerE X return X -> Prop with
                  | Service e => d_possible s e
                  | QDequeue => fun _ => True
                  | QRequeue _ => no_panic
                  | QDeadLetter _ => no_panic
                  | WLog _ _ _ _ _ _ => fun _ => True
                  end)
    (fun X s e => match e in workerE X return X -> option uuid with
                  | Service e => d_next s e
                  | QDequeue => fun x => d_received x
                  | QRequeue msg => after_write (m_OrderID msg) s
                  | QDeadLetter msg => after_write (m_OrderID msg) s
                  | WLog _ text _ id _ _ => fun _ =>
                      if decide (text = requeue_failed \/ text = dead_letter_failed) then release id s else s
                  end).

Lemma release_None id : release id None = None.
Proof. done. Qed.
Lemma release_same id : release id (Some id) = None.
Proof. unfold release. by rewrite decide_True. Qed.

Lemma conforms_service s {A} (p : prog orderE A) Q : conforms on_service s p Q -> conforms delivery s (service p) Q.
Proof.
  revert s. induction p as [a|X e k IH]; intros s; cbn; [done|]. intros [He Hk]. split; [exact He|].
  intros x Hx. apply IH, Hk, Hx.
Qed.

(** ** Every thread follows it *)
#[local] Tactic Notation "call_and" simple_intropattern(x) simple_intropattern(H) :=
  apply conforms_call; [first [exact I|reflexivity|discriminate|done]|intros x H].

Definition free {A} (s : option uuid) (_ : A) : Prop := s = None.

(** A delivered order is carried until it is no longer CREATED, or the message is passed
    on for it. *)
Definition carried (s0 s : option uuid) (x : res unit) : Prop :=
  match x with Err _ => s = None \/ s = s0 | _ => s = None end.

Lemma released id s : s = None \/ s = Some id -> release id s = None.
Proof. intros [->| ->]; [apply release_None|apply release_same]. Qed.

Lemma mark_carried s0 id st (rest : prog orderE (res unit)) :
  st <> StatusCreated -> conforms on_service None rest (carried s0) ->
  conforms on_service None
    (processedAt <- call Now ;;
     _ <-! call (Repo (MarkProcessed id st processedAt)) catch (fun err => Err (mapOrderRepoErr err)) ;; rest)
    (carried s0).
Proof.
  intros Hst Hrest. apply conforms_bind. call_and t Ht. apply conforms_bind_err. call_and x Hx.
  destruct x as [[]|e|why]; [exact Hrest|by left|done].
Qed.

Lemma finish_failed_carried s0 id e : conforms on_service None (finish_failed id e) (carried s0).
Proof. apply mark_carried; [discriminate|]. by repeat (split; [done|intros ? _]). Qed.

Lemma finish_paid_carried s0 id d : conforms on_service None (finish_paid id d) (carried s0).
Proof. apply mark_carried; [discriminate|]. by repeat (split; [done|intros ? _]). Qed.

Lemma Process_carried id s :
  s = None \/ s = Some id -> conforms on_service s (Process id) (carried s).
Proof.
  intros Hs. unfold Process. case_bool_decide as Hid.
  { subst id. cbn. split; [done|]. intros _ _. by apply released. }
  apply conforms_bind. call_and found Hf. destruct found as [[o its]|e|why]; [| |done].
  - cbn [next on_service d_next]. destruct (decide (o_Status o = StatusCreated)) as [Ho|Ho].
    2: { rewrite bool_decide_eq_false_2 by done. cbn. by apply released. }
    rewrite bool_decide_eq_true_2 by done. cbn [negb]. destruct (CanTransition (o_Status o) StatusProcessing); cbn [negb]; [|by right].
    unfold pay. apply conforms_bind_err. call_and x Hx. destruct x as [[]|e|why]; [|by right|done].
    cbn [next on_service d_next after_write]. rewrite (released _ _ Hs).
    apply conforms_bind. call_and start Hstart. apply conforms_bind. call_and paid Hpaid. apply conforms_bind. call_and stop Hstop.
    destruct paid as [[]|e|why]; [apply finish_paid_carried|apply finish_failed_carried|done].
  - cbn. destruct (errors_Is e OrderErrOrderNotFound); cbn; [|by right]. rewrite (released id s Hs). split; [done|]. by intros _ _.
Qed.

Lemma transition_free id to required msg :
  to <> StatusCreated -> conforms on_service None (transition id to required msg) free.
Proof.
  intros Hto. unfold transition. apply conforms_bind_err. call_and found Hf.
  destruct found as [[o its]|e|why]; [|cbn; by destruct (errors_Is e _)|done].
  cbn [next on_service d_next fst]. rewrite release_None.
  replace (if decide (o_Status o = StatusCreated) then None else None) with (@None uuid) by by case_decide.
  destruct (negb _); [done|]. destruct (negb _); [done|]. apply conforms_bind_err. call_and x Hx. by destruct x as [[]|e|why].
Qed.

Lemma FindOrder_free id : conforms on_service None (FindOrder id) free.
Proof.
  unfold FindOrder. apply conforms_bind_err. call_and found Hf.
  destruct found as [[o its]|e|why]; cbn; [by case_decide|by destruct (errors_Is e _)|done].
Qed.

Lemma List_free f : conforms on_service None (ListService f) free.
Proof.
  unfold ListService. destruct (validate_page _ _); [done|].
  apply conforms_bind_err. call_and page Hp. destruct page as [page|e|why]; [|done..].
  apply conforms_bind_res, (conforms_for_res _ (fun _ s _ => s = None)); [|by intros s acc ->|done].
  intros pre o post s acc _ ->. unfold list_item. apply conforms_bind_err. call_and found Hf.
  destruct found as [[o' its]|e|why]; cbn; [by case_decide|by destruct (errors_Is e _)|done].
Qed.

Lemma Create_free by_ input : conforms on_service None (Create by_ input) free.
Proof.
  unfold Create. destruct (validate_input input); [done|].
  apply conforms_bind_err. call_and c Hc. destruct c as [c|e|why]; [|done..]. destruct (negb _); [done|].
  apply conforms_bind_err. call_and loaded Hl. destruct loaded as [loaded|e|why]; [|done..].
  apply conforms_bind. call_and now Hn. apply conforms_bind. call_and orderID Ho.
  apply conforms_bind_res, (conforms_for_res _ (fun _ s _ => s = None)); [| |done].
  - intros pre line post s acc _ ->. unfold price_line. destruct (_ !! _) as [p|]; [|done]. destruct (negb _); [done|].
    apply conforms_bind. by call_and u Hu.
  - intros s priced ->. unfold persist_and_publish. apply conforms_bind_err. call_and x Hx. destruct x as [[]|e|why]; [|done..].
    apply conforms_bind. call_and y Hy. cbn [next on_service d_next].
    destruct y as [[]|e|why]; cbn; rewrite ?release_same; [by split|by split|done].
Qed.

Lemma serve_free r : conforms on_service None (serve r) free.
Proof.
  destruct r; cbn [serve]; unfold forget; apply conforms_bind; (eapply conforms_mono;
    [|first [apply Create_free|apply Process_carried; by left|apply transition_free; discriminate|apply FindOrder_free|apply List_free]]);
    intros s x Hx; [exact Hx| |exact Hx..].
  destruct x as [[]|e|why]; [exact Hx|by destruct Hx|exact Hx].
Qed.

Lemma handle_free maxRetries i msg e s :
  s = None \/ s = Some (m_OrderID msg) -> conforms delivery s (handleProcessError maxRetries i msg e) free.
Proof.
  intros Hs. unfold handleProcessError. apply conforms_bind. call_and u Hu. cbn [next delivery].
  rewrite decide_False by (intros [H|H]; discriminate). clear u Hu. destruct (_ <? _).
  - apply conforms_bind, conforms_call; [exact Hs|]. intros [[]|err|why] Hx; [| |done].
    + cbn. rewrite (released _ _ Hs). by split.
    + cbn. split; [done|]. intros _ _. rewrite decide_True by by left. by apply released.
  - apply conforms_bind, conforms_call; [exact Hs|]. intros [[]|err|why] Hx; [| |done].
    + cbn. rewrite (released _ _ Hs). by split.
    + cbn. split; [done|]. intros _ _. rewrite decide_True by by right. by apply released.
Qed.

Lemma deliver_free maxRetries i msg :
  conforms delivery (Some (m_OrderID msg)) (deliver maxRetries i msg) free.
Proof.
  unfold deliver. apply conforms_bind, conforms_service. eapply conforms_mono; [|apply Process_carried; by right].
  intros s [[]|e|why] Hx; [exact Hx|by apply handle_free|exact Hx].
Qed.

Lemma runLoop_free maxRetries i fuel : conforms delivery None (runLoop maxRetries i fuel) free.
Proof.
  induction fuel as [|fuel IH]; [done|]. cbn [runLoop]. apply conforms_bind. call_and m Hm.
  destruct m as [msg|e|why]; [|done..]. apply conforms_bind. eapply conforms_mono; [|apply deliver_free].
  intros s [[]|e|why] ->; [exact IH|exact IH|done].
Qed.

(** The threads of the system: requests to the API and queue workers. *)
Inductive member :=
| Client (r : request)
| Consumer (maxRetries workerID : Z) (fuel : nat).

Definition run_member (m : member) : prog workerE unit :=
  match m with
  | Client r => service (serve r)
  | Consumer maxRetries workerID fuel => runLoop maxRetries workerID fuel ;;; Ret tt
  end.

Lemma member_free m : conforms delivery None (run_member m) free.
Proof.
  destruct m as [r|maxRetries i fuel]; cbn [run_member]; [apply conforms_service, serve_free|].
  apply conforms_bind. eapply conforms_mono; [|apply runLoop_free]. by intros s x ->.
Qed.

(** ** Where the orders are *)
Section system.
Context {W : Type} `{!OrderWorld W, !OrderWorldLaws W, !DeliveryWorld W, !DeliveryLaws W}.

(** The order is stored and still waits for its payment. *)
Definition waiting (w : W) (id : uuid) : Prop :=
  exists o its, ow_store w !! id = Some (o, its) /\ o_Status o = StatusCreated.

Definition holds (q : list OrderCreatedMessage) (id : uuid) : Prop := Exists (fun m => m_OrderID m = id) q.

(** A message for it is in a queue, a thread carries it, it was reported, or a failed
    dequeue lost it. *)
Definition accounted (ss : list (option uuid)) (lost : list uuid) (w : W * list event) (id : uuid) : Prop :=
  holds (dw_queue w.1) id \/ holds (dw_dead w.1) id \/ Some id ∈ ss \/ Exists (reports id) w.2 \/ id ∈ lost.

Definition all_accounted (ss : list (option uuid)) (w : W * list event) : Prop :=
  ow_valid w.1 /\ exists lost, (length lost <= failed_dequeues w.2)%nat /\
    forall id, waiting w.1 id -> accounted ss lost w id.

Lemma released_other id id' s : id <> id' -> s = Some id -> release id' s = Some id.
Proof. intros Hne ->. unfold release. rewrite decide_False; congruence. Qed.

Lemma waiting_store w w' id : ow_store w' = ow_store w -> waiting w' id -> waiting w id.
Proof. unfold waiting. by intros ->. Qed.

(** The status of one row is written: no order starts to wait, and that one does not. *)
Lemma waiting_update w w' id0 id f st nf x :
  (forall o, o_Status (f o) = st) -> st <> StatusCreated ->
  write_spec (ow_store w) (store_update id0 f (ow_store w)) nf x (ow_store w') ->
  waiting w' id -> waiting w id /\ (x = Ok tt -> id <> id0).
Proof.
  intros Hf Hst Hw Hwait. destruct (write_spec_cases _ _ _ _ _ Hw) as [[Hs Hx]|Ht].
  - split; [by eapply waiting_store|]. intros ->. by destruct (Hx tt).
  - apply store_update_lookup in Ht as (o & its & Ho & Hs). destruct Hwait as (o' & its' & Ho' & Hst').
    rewrite Hs in Ho'. destruct (decide (id0 = id)) as [<-|Hne].
    + rewrite lookup_insert_eq in Ho'. injection Ho' as <- <-. by rewrite Hf in Hst'.
    + rewrite lookup_insert_ne in Ho' by done. split; [by exists o', its'|congruence].
Qed.

(** What a call of the service does to an order that waits afterwards: it waited before,
    or the thread carries it now, or its creation was answered with an error; and a
    thread lets go of it only with a report. *)
Lemma repo_step s X (r : repoE X) w x w' id :
  ow_valid w -> d_allowed s (Repo r) -> sem (Repo r) w x w' -> waiting w' id ->
  let s1 := d_next s (Repo r) x in
  (waiting w id \/ s1 = Some id \/ reports id (Ev (Service (Repo r)) x)) /\ (s = Some id -> s1 = Some id).
Proof.
  intros Hv Hal Hsem Hwait. destruct (ow_repo _ _ _ _ _ Hv Hsem) as [(e' & He & Hspec) _].
  destruct r as [[o|] its|id0|id0 st|id0 st t|f]; cbn in Hal, He |- *; [|done|..].
  - subst s. destruct He as (o' & its' & -> & (Hid & _) & _). split; [|done].
    destruct (write_spec_cases _ _ _ _ _ Hspec) as [[Hs Hx]|[= Hs]]; [left; by eapply waiting_store|].
    destruct (decide (o_ID o = id)) as [Heq|Hne].
    + right. destruct Hspec as [(e & -> & _)|[[-> _]|[[=] _]]]; [right; by constructor|left; by rewrite Heq].
    + left. destruct Hwait as (o1 & its1 & Ho1 & Hst1). exists o1, its1. split; [|done].
      rewrite <- Hs in Ho1. by rewrite lookup_insert_ne in Ho1 by congruence.
  - subst e'. destruct Hspec as [Hs Hx]. apply (waiting_store w) in Hwait; [|exact Hs]. split; [by left|].
    intros ->. destruct (decide (id = id0)) as [<-|Hne].
    2: { destruct x as [[o its]|e|why]; [case_decide|destruct (errors_Is e _)|]; try done; by apply released_other. }
    destruct Hwait as (o & its & Ho & Hst).
    destruct Hx as [(en & Hen & ->)|[[Hn _]|(er & Her & ->)]]; [|congruence|by rewrite Her].
    rewrite Ho in Hen. injection Hen as <-. by rewrite decide_True.
  - subst e'. destruct Hspec as [t Hspec].
    apply (waiting_update w w' id0 id (status_update st t) st _ _ (fun _ => eq_refl) Hal Hspec) in Hwait as [Hwait Hne]. split; [by left|].
    intros ->. destruct x as [[]|e|why]; [|done..]. apply released_other; [by apply Hne|done].
  - destruct He as [t' ->].
    apply (waiting_update w w' id0 id (processed_update st t') st _ _ (fun _ => eq_refl) Hal Hspec) in Hwait as [Hwait Hne]. split; [by left|].
    intros ->. destruct x as [[]|e|why]; [|done..]. apply released_other; [by apply Hne|done].
  - destruct He as [f' ->]. destruct Hspec as [Hs _]. apply (waiting_store w) in Hwait; [|exact Hs]. split; [by left|done].
Qed.

(** The other ports of the service. *)
Lemma other_port_step s X (e : orderE X) w x w' id :
  ow_valid w -> is_repo e = false -> publishes e = false -> sem e w x w' -> waiting w' id ->
  let s1 := d_next s e x in
  waiting w id /\ (s = Some id -> s1 = Some id \/ reports id (Ev (Service e) x)).
Proof.
  intros Hv Hr Hp Hsem Hwait. destruct (ow_frame _ _ _ _ _ Hv Hsem Hr) as [Hs _].
  split; [by eapply waiting_store|]. intros ->. destruct e; try done; cbn; try by left.
  - destruct (decide (id = orderID)) as [<-|Hne]; [right; destruct x; constructor|left; by apply released_other].
  - case_decide as Ht; [subst msg|by left].
    destruct (decide (id = uuid_Nil)) as [->|Hne]; [right; destruct x; by constructor|left; by apply released_other].
Qed.

Lemma holds_sent msg q x q' id : sent_to msg q x q' -> holds q id -> holds q' id.
Proof.
  unfold holds. destruct x as [[]|e|why]; cbn; [intros ->|intros [->| ->]|done]; rewrite ?Exists_app; auto.
Qed.

Lemma holds_new msg q q' : sent_to msg q (Ok tt) q' -> holds q' (m_OrderID msg).
Proof. cbn. intros ->. unfold holds. apply Exists_app. right. by constructor. Qed.

(** The accounts after a step of thread [i]. *)
Lemma accounted_move ss lost lost' w h i s s1 w' ev id :
  ss !! i = Some s ->
  (holds (dw_queue w) id -> holds (dw_queue w') id \/ s1 = Some id \/ id ∈ lost') ->
  (holds (dw_dead w) id -> holds (dw_dead w') id) ->
  (s = Some id -> s1 = Some id \/ holds (dw_queue w') id \/ holds (dw_dead w') id \/ reports id ev) ->
  lost ⊆ lost' ->
  accounted ss lost (w, h) id \/ s1 = Some id \/ reports id ev ->
  accounted (<[i := s1]> ss) lost' (w', h ++ [ev]) id.
Proof.
  intros Hi Hq Hd Hs Hl Hold. unfold accounted. cbn [fst snd] in *. rewrite Exists_app, Exists_cons.
  assert (Hmine : s1 = Some id -> Some id ∈ <[i := s1]> ss).
  { intros <-. eapply list_elem_of_lookup_2, list_lookup_insert_eq, lookup_lt_Some, Hi. }
  destruct Hold as [[Hold|[Hold|[Hold|[Hold|Hold]]]]|[Hold|Hold]]; [| |..|by auto 7|by auto 7|by auto|by auto 7].
  - destruct (Hq Hold) as [H|[H|H]]; auto 7.
  - auto.
  - apply list_elem_of_lookup in Hold as (j & Hj). destruct (decide (i = j)) as [<-|Hne].
    + rewrite Hi in Hj. injection Hj as ->. destruct (Hs eq_refl) as [H|[H|[H|H]]]; auto 7.
    + right; right; left. apply list_elem_of_lookup. exists j. by rewrite list_lookup_insert_ne.
Qed.

Lemma delivery_possible ss w i s X (e : workerE X) x w' :
  ss !! i = Some s -> all_accounted ss w -> allowed delivery s e -> sem e w x w' -> possible delivery s e x.
Proof.
  intros _ [Hv _] Hal [Hsem _]. destruct e as [|msg|msg| |X e]; cbn; try done.
  - apply dw_requeue in Hsem as [Hsem _]. by destruct x.
  - apply dw_dead_letter in Hsem as [Hsem _]. by destruct x.
  - destruct e as [X r| |id|msg| | | | | | | | |]; try done; cbn.
    + apply dw_service, (ow_repo _ _ _ _ _ Hv) in Hsem as [(e' & He & Hspec) _].
      destruct r as [[o|] its|id|id st|id st t|f]; cbn in He, Hal |- *; [|done|..|done].
      * destruct He as (o' & its' & -> & _). destruct Hspec as [(? & -> & _)|[[-> _]|(_ & -> & _)]]; done.
      * subst e'. destruct Hspec as [_ [(? & _ & ->)|[[_ ->]|(? & _ & ->)]]]; done.
      * subst e'. destruct Hspec as [t [(? & -> & _)|[[-> _]|(_ & -> & _)]]]; done.
      * destruct He as [t' ->]. destruct Hspec as [(? & -> & _)|[[-> _]|(_ & -> & _)]]; done.
    + apply dw_publish in Hsem as [Hsem _]. by destruct x.
Qed.

(** A message sent on by the thread that carries its order. *)
Lemma sent_on msg s (x : res unit) q q' id :
  sent_to msg q x q' -> s = Some id -> after_write (m_OrderID msg) s x = Some id \/ holds q' id.
Proof.
  intros Hq ->. destruct x as [[]|e|why]; [|by left|by left].
  destruct (decide (id = m_OrderID msg)) as [->|Hne]; [right; by eapply holds_new|left; by apply released_other].
Qed.

Lemma service_accounted ss lost w h i s X (e : orderE X) x w' id :
  ss !! i = Some s -> ow_valid w -> (forall id, waiting w id -> accounted ss lost (w, h) id) -> d_allowed s e -> sem (Service e) w x w' -> waiting w' id ->
  accounted (<[i := d_next s e x]> ss) lost (w', h ++ [Ev (Service e) x]) id.
Proof.
  intros Hi Hv Hacc Hal Hsem Hwait. pose proof (dw_service _ _ _ _ _ Hsem) as Hsem'.
  destruct (publishes e) eqn:Hp.
  - destruct e as [X r| | |msg| | | | | | | | |]; try done. cbn in Hal.
    destruct (ow_frame _ _ _ _ _ Hv Hsem' eq_refl) as [Hs _]. apply dw_publish in Hsem as [Hq Hd].
    eapply (accounted_move ss lost lost w);
      [exact Hi|intros H; left; by eapply holds_sent|by rewrite Hd| |done|left; by apply Hacc, (waiting_store w w')].
    intros Hid. destruct (sent_on _ _ _ _ _ _ Hq Hid); auto.
  - apply dw_quiet in Hsem as [Hq Hd]; [|done].
    enough (Hstep : (waiting w id \/ d_next s e x = Some id \/ reports id (Ev (Service e) x)) /\
              (s = Some id -> d_next s e x = Some id \/ reports id (Ev (Service e) x))).
    { destruct Hstep as [Hold Hkeep]. eapply (accounted_move ss lost lost w); [exact Hi|rewrite Hq; by left|by rewrite Hd| |done|].
      - intros Hid. destruct (Hkeep Hid); auto.
      - destruct Hold as [Hold|Hold]; [left; by apply Hacc|by right]. }
    destruct (is_repo e) eqn:Hr.
    + destruct e as [X r| | | | | | | | | | | |]; try done.
      destruct (repo_step _ _ _ _ _ _ _ Hv Hal Hsem' Hwait) as [Hold Hkeep]. split; [exact Hold|]. intros Hid. left. by apply Hkeep.
    + destruct (other_port_step s _ _ _ _ _ _ Hv Hr Hp Hsem' Hwait) as [Hold Hkeep]. split; [by left|exact Hkeep].
Qed.

Lemma taken_holds q msg q' id : taken_from q msg q' -> holds q id -> holds q' id \/ m_OrderID msg = id.
Proof. intros (q1 & q2 & -> & ->). unfold holds. rewrite !Exists_app, Exists_cons. tauto. Qed.

(** What a call other than the service's does to the accounts. *)
Lemma outside_accounted ss lost w h i s X (e : workerE X) x w' :
  ss !! i = Some s -> allowed delivery s e -> (forall e' : orderE X, e <> Service e') -> sem e w x w' ->
  exists lost', (length lost' <= length lost + if failed_dequeue (Ev e x) then 1 else 0)%nat /\
    forall id, accounted ss lost (w, h) id -> accounted (<[i := next delivery s e x]> ss) lost' (w', h ++ [Ev e x]) id.
Proof.
  intros Hi Hal Hout Hsem.
  destruct e as [|msg|msg|l text j oid n err|Y e']; [..|by destruct (Hout e')]; cbn in Hal |- *.
  - subst s. destruct (dw_dequeue _ _ _ Hsem) as [Hd Hq].
    assert (Hmove : forall lost', lost ⊆ lost' ->
              (forall id, holds (dw_queue w) id -> holds (dw_queue w') id \/ d_received x = Some id \/ id ∈ lost') ->
              forall id, accounted ss lost (w, h) id -> accounted (<[i := d_received x]> ss) lost' (w', h ++ [Ev QDequeue x]) id).
    { intros lost' Hl Hq' id Hacc.
      eapply (accounted_move ss lost lost' w); [exact Hi|apply Hq'|by rewrite Hd|done|done|by left]. }
    destruct x as [msg|e|why].
    + exists lost. split; [cbn; lia|]. apply Hmove; [done|]. intros id Hid.
      destruct (taken_holds _ _ _ _ Hq Hid) as [H| <-]; auto.
    + destruct Hq as [Hq|[msg Hq]].
      * exists lost. split; [lia|]. apply Hmove; [done|]. rewrite Hq. by left.
      * exists (m_OrderID msg :: lost). split; [cbn; lia|]. apply Hmove; [by apply list_subseteq_cons|].
        intros id Hid. destruct (taken_holds _ _ _ _ Hq Hid) as [H| <-]; [by left|]. right; right. apply list_elem_of_here.
    + destruct Hq as [Hq|[msg Hq]].
      * exists lost. split; [lia|]. apply Hmove; [done|]. rewrite Hq. by left.
      * exists (m_OrderID msg :: lost). split; [cbn; lia|]. apply Hmove; [by apply list_subseteq_cons|].
        intros id Hid. destruct (taken_holds _ _ _ _ Hq Hid) as [H| <-]; [by left|]. right; right. apply list_elem_of_here.
  - apply dw_requeue in Hsem as [Hq Hd]. exists lost. split; [lia|]. intros id Hacc.
    eapply (accounted_move ss lost lost w); [exact Hi|intros H; left; by eapply holds_sent|by rewrite Hd| |done|by left].
    intros Hid. destruct (sent_on _ _ _ _ _ _ Hq Hid); auto.
  - apply dw_dead_letter in Hsem as [Hd Hq]. exists lost. split; [lia|]. intros id Hacc.
    eapply (accounted_move ss lost lost w); [exact Hi|rewrite Hq; by left|intros H; by eapply holds_sent| |done|by left].
    intros Hid. destruct (sent_on _ _ _ _ _ _ Hd Hid); auto.
  - apply dw_log in Hsem as [Hq Hd]. exists lost. split; [lia|]. intros id Hacc.
    eapply (accounted_move ss lost lost w); [exact Hi|rewrite Hq; by left|by rewrite Hd| |done|by left].
    intros ->. case_decide as Ht; [|by left]. destruct (decide (id = oid)) as [<-|Hne]; [|left; by apply released_other].
    right; right; right. destruct x. destruct Ht as [->| ->]; constructor.
Qed.

Lemma delivery_step ss w i s X (e : workerE X) x w' :
  ss !! i = Some s -> all_accounted ss w -> allowed delivery s e -> sem e w x w' ->
  all_accounted (<[i := next delivery s e x]> ss) w'.
Proof.
  destruct w as [w h], w' as [w' h']. intros Hi (Hv & lost & Hlen & Hacc) Hal [Hsem Hh]. cbn [fst snd] in *. subst h'.
  assert (Hserv : (exists e' : orderE X, e = Service e') \/ (forall e' : orderE X, e <> Service e')).
  { destruct e; [by right..|left; by eexists]. }
  unfold all_accounted. cbn [fst snd]. rewrite failed_dequeues_snoc. destruct Hserv as [[e' ->]|Hout].
  - split; [eapply ow_valid_step; [exact Hv|by eapply dw_service]|]. exists lost. split; [lia|].
    intros id Hwait. by eapply (service_accounted ss lost w h i s).
  - destruct (dw_outside _ _ _ _ _ Hsem Hout Hv) as [Hs Hv']. split; [done|].
    destruct (outside_accounted ss lost w h i s X e x w' Hi Hal Hout Hsem) as (lost' & Hlen' & Hacc').
    exists lost'. split; [lia|]. intros id Hwait%(waiting_store w); [|exact Hs]. by apply Hacc', Hacc.
Qed.

Lemma all_together ms w c :
  ow_valid w -> (forall id, waiting w id -> holds (dw_queue w) id \/ holds (dw_dead w) id) ->
  pool_steps (run_member <$> ms, (w, [])) c ->
  exists ss, Forall2 (fun s p => conforms delivery s p free) ss c.1 /\ all_accounted ss c.2.
Proof.
  intros Hv Hw Hsteps.
  eapply (pool_conforms delivery all_accounted delivery_possible delivery_step);
    [exact Hsteps| |split; [exact Hv|exists []; split; [done|intros id Hid; destruct (Hw id Hid); unfold accounted; cbn; auto]]].
  cbn [fst]. instantiate (1 := replicate (length ms) None).
  apply (Forall2_same_length_lookup_2 _ (replicate (length ms) None)).
  { by rewrite length_replicate, length_fmap. }
  intros i s p [-> _]%lookup_replicate Hp. apply list_lookup_fmap_Some in Hp as (r & -> & _). apply member_free.
Qed.
End system.

(** ** The queues of production

    Any lawful store beside the channel that the Redis lists implement (RedisQueue), as
    long as no command panics. *)
Section channel.
Context {W : Type} `{!OrderWorld W, !OrderWorldLaws W}.

#[export] Instance channel_order_world : OrderWorld (W * channel) := {
  ow_sem := fun X e w x w' => sem e w.1 x w'.1;
  ow_store w := ow_store w.1;
  ow_issued w := ow_issued w.1;
  ow_valid w := ow_valid w.1;
}.

#[export] Instance channel_order_laws : OrderWorldLaws (W * channel).
Proof.
  constructor; unfold sem, ow_sem, ow_store, ow_issued, ow_valid, channel_order_world; intros *;
    [apply ow_repo|apply ow_frame|apply ow_fresh|apply ow_valid_step].
Qed.

(** What a service call does to the channel. *)
Definition producer_step {X} (e : orderE X) (c : channel) : X -> channel -> Prop :=
  match e in orderE X return X -> channel -> Prop with
  | PublishOrderCreated msg => fun x c' => no_panic x /\ sem (ChPublish msg) c x c'
  | _ => fun _ c' => c' = c
  end.

#[export] Instance channel_delivery_world : DeliveryWorld (W * channel) := {
  dw_sem := fun X e w x w' =>
    match e in workerE X return X -> Prop with
    | QDequeue => fun x => w'.1 = w.1 /\ sem ChDequeue w.2 x w'.2
    | QRequeue msg => fun x => w'.1 = w.1 /\ no_panic x /\ sem (ChRequeue msg) w.2 x w'.2
    | QDeadLetter msg => fun x => w'.1 = w.1 /\ no_panic x /\ sem (ChDeadLetter msg) w.2 x w'.2
    | WLog _ _ _ _ _ _ => fun _ => w' = w
    | Service e => fun x => sem e w.1 x w'.1 /\ producer_step e w.2 x w'.2
    end x;
  dw_queue w := ch_waiting w.2;
  dw_dead w := ch_dead w.2;
}.

Lemma channel_sent msg q (x : res unit) q' : no_panic x -> sent x q (q ++ [msg]) q' -> sent_to msg q x q'.
Proof. destruct x as [[]|e|why]; cbn; [|by intros _ [?|[_ ?]]; auto|done]. by intros _ [?|[? _]]. Qed.

#[export] Instance channel_delivery_laws : DeliveryLaws (W * channel).
Proof.
  constructor.
  - by intros X e w x w' [Hs _].
  - intros X e w x w' [_ Hc] Hp. cbn. destruct e; cbn in Hc; try done; by rewrite Hc.
  - intros msg w x w' [_ [Hn [Hc Hd]]]. split; [by apply channel_sent|exact Hd].
  - intros X e w x w' Hs Hout Hv. destruct e as [|msg|msg| |Y e']; [..|by destruct (Hout e')]; cbn in Hs |- *.
    + by destruct Hs as [-> _].
    + by destruct Hs as [-> _].
    + by destruct Hs as [-> _].
    + by subst w'.
  - intros w x w' [_ [Hd Hc]]. split; [exact Hd|]. cbn. unfold taken_from. destruct x as [msg|e|why].
    + by exists [], (ch_waiting w'.2).
    + destruct Hc as [Hc|[msg Hc]]; [by left|right]. by exists msg, [], (ch_waiting w'.2).
    + destruct Hc as [Hc|[msg Hc]]; [by left|right]. by exists msg, [], (ch_waiting w'.2).
  - intros msg w x w' [_ [Hn [Hc Hd]]]. split; [by apply channel_sent|exact Hd].
  - intros msg w x w' [_ [Hn [Hd Hc]]]. split; [by apply channel_sent|exact Hc].
  - intros l text i id n err w x w' Hs. cbn in Hs. by subst w'.
Qed.
End channel.

(** ** A concrete system: the in-memory world, with its producer linked to the queue *)
Record shop := mkShop {
  sh_world : World;
  sh_queue : list OrderCreatedMessage;
  sh_dead : list OrderCreatedMessage;
}.

Section shop.
Context `{!UuidText, !CaseTables}.

#[export] Instance shop_order_world : OrderWorld shop := {
  ow_sem := fun X e w x w' => sem e (sh_world w) x (sh_world w');
  ow_store w := ow_store (sh_world w);
  ow_issued w := ow_issued (sh_world w);
  ow_valid w := ow_valid (sh_world w);
}.

#[export] Instance shop_order_laws : OrderWorldLaws shop.
Proof.
  constructor; unfold sem, ow_sem, ow_store, ow_issued, ow_valid, shop_order_world; intros *;
    [apply ow_repo|apply ow_frame|apply ow_fresh|apply ow_valid_step].
Qed.

#[export] Instance shop_handler : Handler workerE shop := fun X e =>
  match e in workerE X return shop -> X * shop with
  | QDequeue => fun w =>
      match sh_queue w with
      | msg :: q => (Ok msg, mkShop (sh_world w) q (sh_dead w))
      | [] => (Err (ErrVar CtxCanceled), w)
      end
  | QRequeue msg => fun w => (Ok tt, mkShop (sh_world w) (sh_queue w ++ [msg]) (sh_dead w))
  | QDeadLetter msg => fun w => (Ok tt, mkShop (sh_world w) (sh_queue w) (sh_dead w ++ [msg]))
  | WLog _ _ _ _ _ _ => fun w => (tt, w)
  | Service e => fun w =>
      let '(x, o) := handle e (sh_world w) in
      (x, mkShop o (match e in orderE X return X -> list OrderCreatedMessage with
                    | PublishOrderCreated msg => fun x => match x with Ok _ => sh_queue w ++ [msg] | _ => sh_queue w end
                    | _ => fun _ => sh_queue w
                    end x) (sh_dead w))
  end.

#[export] Instance shop_delivery_world : DeliveryWorld shop := {
  dw_sem := sem_of_handler shop_handler;
  dw_queue := sh_queue;
  dw_dead := sh_dead;
}.

Lemma shop_service X (e : orderE X) w x w' :
  sem (Service e) w x w' -> handle e (sh_world w) = (x, sh_world w') /\ sh_dead w' = sh_dead w.
Proof.
  unfold sem, dw_sem, shop_delivery_world, sem_of_handler. unfold handle at 1. cbn [shop_handler].
  destruct (handle e (sh_world w)) as [y o]. by intros [= <- <-].
Qed.

#[export] Instance shop_delivery_laws : DeliveryLaws shop.
Proof.
  constructor.
  - intros X e w x w' [Hh _]%shop_service. exact Hh.
  - intros X e w x w' Hs Hp. split; [|by destruct (shop_service _ _ _ _ _ Hs)].
    cbn in Hs. unfold sem_of_handler in Hs. cbn in Hs. destruct (handle e (sh_world w)) as [y o]. injection Hs as _ <-. by destruct e.
  - intros msg w x w' Hs. split; [|by destruct (shop_service _ _ _ _ _ Hs)].
    cbn in Hs. unfold sem_of_handler in Hs. cbn in Hs. unfold fake_PublishOrderCreated in Hs.
    destruct (FailNext (w_producer (sh_world w))) as [e|]; injection Hs as <- <-; cbn; auto.
  - intros X e w x w' Hs Hout Hv. destruct e as [|msg|msg| |Y e']; [..|by destruct (Hout e')]; cbn in Hs;
      unfold sem_of_handler in Hs; cbn in Hs; [destruct (sh_queue w)|..]; by injection Hs as <- <-.
  - intros w x w' Hs. cbn in Hs. unfold sem_of_handler in Hs. cbn in Hs.
    destruct (sh_queue w) as [|msg q] eqn:Hq; injection Hs as <- <-; cbn; (split; [done|]); [by left|]. rewrite Hq. by exists [], q.
  - intros msg w x w' Hs. cbn in Hs. by injection Hs as <- <-.
  - intros msg w x w' Hs. cbn in Hs. by injection Hs as <- <-.
  - intros l text i id n err w x w' Hs. cbn in Hs. by injection Hs as <- <-.
Qed.
End shop.

Definition recording {W} (H : Handler workerE W) : Handler workerE (W * list event) := fun X e w =>
  let '(x, w') := handle e w.1 in (x, (w', w.2 ++ [Ev e x])).

(** ** Properties *)

(** C7: no order is lost.  API requests and queue workers run at the same time, their
    calls interleaved in any way, over an order store and queues whose every call may
    fail, also after taking effect.  At every moment each stored order that is still
    CREATED is accounted for: a message for it is in the processing queue or in the
    dead-letter queue; or it is carried by a thread that has not finished, of which each
    carries at most one order (the request that created it and is about to publish it, or
    the worker that took its message; the statement says that there is such an assignment
    of orders to unfinished threads); or the program reported it: its creation was answered with an
    error, or the failed publication, requeue or dead-lettering is in the log; or it is
    one of the orders whose message a failed dequeue took off the queue, at most as many
    as there were failed dequeues. *)
Theorem no_order_is_lost {W : Type} `{!OrderWorld W, !OrderWorldLaws W, !DeliveryWorld W, !DeliveryLaws W}
    (ms : list member) (w : W) (ps : list (prog workerE unit)) (w' : W) (h : list event) :
  ow_valid w -> (forall id, waiting w id -> holds (dw_queue w) id \/ holds (dw_dead w) id) ->
  pool_steps (run_member <$> ms, (w, [])) (ps, (w', h)) ->
  exists (carried : list (option uuid)) (lost : list uuid),
    length carried = length ps /\ (forall i, ps !! i = Some (Ret tt) -> carried !! i = Some None) /\
    (length lost <= failed_dequeues h)%nat /\
    forall id, waiting w' id ->
      holds (dw_queue w') id \/ holds (dw_dead w') id \/ Some id ∈ carried \/ Exists (reports id) h \/ id ∈ lost.
Proof.
  intros Hv Hw Hsteps.
  destruct (all_together ms w (ps, (w', h)) Hv Hw Hsteps) as (ss & Hall & _ & lost & Hlen & Hacc). cbn [fst snd] in *.
  exists ss, lost. split; [by eapply Forall2_length|]. split; [|split; [exact Hlen|exact Hacc]].
  intros i Hi. by destruct (Forall2_lookup_r _ _ _ _ _ Hall Hi) as (s & Hs & ->).
Qed.

#[local] Existing Instances bit_text no_tables.

Definition demo_members : list member :=
  [Client (RCreate 9 demo_input); Client (RCreate 9 demo_input); Client (RCreate 9 demo_input); Consumer 3 0 5].

(** The first publication fails. *)
Definition demo_shop : shop :=
  mkShop (set_producer (mkProducer [] true None) demo_world) [] [].

(** The first request is served to its end, then the second one; the worker takes its
    message and loads the order; the third request stops after its commit. *)
Definition demo_delivery_schedule : list nat :=
  (replicate 8 0 ++ replicate 8 1 ++ [3; 3] ++ replicate 6 2)%nat.

Definition demo_delivery : list (prog workerE unit) * (shop * list event) :=
  run_schedule (recording shop_handler) demo_delivery_schedule (run_member <$> demo_members) (demo_shop, []).

Lemma recording_sem X (e : workerE X) (w : shop * list event) x w' :
  handle (Handler := recording shop_handler) e w = (x, w') -> sem e w x w'.
Proof.
  unfold handle, recording. unfold sem, recorded, dw_sem, shop_delivery_world, sem_of_handler.
  destruct (handle e w.1) as [y w1] eqn:Hh. by intros [= <- <-].
Qed.

Lemma demo_delivery_reached : pool_steps (run_member <$> demo_members, (demo_shop, [])) demo_delivery.
Proof.
  apply (pool_steps_mono (sem_of_handler (recording shop_handler))); [|apply run_schedule_steps].
  intros X e w x w' Hs. by apply recording_sem.
Qed.

Lemma split_state {A B C} (c : A * (B * C)) : c = (c.1, (c.2.1, c.2.2)).
Proof. by destruct c as [a [b d]]. Qed.

Lemma demo_delivery_steps :
  pool_steps (run_member <$> demo_members, (demo_shop, [])) (demo_delivery.1, (demo_delivery.2.1, demo_delivery.2.2)).
Proof. rewrite <- split_state. exact demo_delivery_reached. Qed.

Lemma demo_queues : sh_queue demo_delivery.2.1 = [] /\ sh_dead demo_delivery.2.1 = [].
Proof. split; vm_compute; reflexivity. Qed.

(** Order 1 was reported, order 3 is held by the worker, order 5 by its request; the two
    threads that have finished carry nothing. *)
Lemma no_order_is_lost_witness :
  (exists carried : list (option uuid),
    length carried = 4%nat /\ carried !! 0%nat = Some None /\ carried !! 1%nat = Some None /\
    forall id, waiting demo_delivery.2.1 id -> Some id ∈ carried \/ Exists (reports id) demo_delivery.2.2) /\
  o_Status <$> orders (w_orders (sh_world demo_delivery.2.1)) !! 3%N = Some StatusCreated.
Proof.
  split; [|vm_compute; reflexivity].
  destruct (no_order_is_lost demo_members demo_shop demo_delivery.1 demo_delivery.2.1 demo_delivery.2.2)
    as (carried & lost & Hlen & Hdone & Hlost & Hacc).
  - split; [apply map_Forall_empty|apply good_ids_demo].
  - intros id (o & its & Ho & _). exfalso. cbn in Ho. unfold mem_store in Ho. cbn in Ho.
    by rewrite map_lookup_imap, lookup_empty in Ho.
  - apply demo_delivery_steps.
  - exists carried. split; [rewrite Hlen; vm_compute; reflexivity|].
    split; [apply Hdone; vm_compute; reflexivity|]. split; [apply Hdone; vm_compute; reflexivity|].
    intros id Hid. destruct (Hacc id Hid) as [H|[H|[H|[H|H]]]]; [| |by left|by right|]; exfalso.
    + change (holds (sh_queue demo_delivery.2.1) id) in H. rewrite (proj1 demo_queues) in H. inversion H.
    + change (holds (sh_dead demo_delivery.2.1) id) in H. rewrite (proj2 demo_queues) in H. inversion H.
    + assert (Hn : failed_dequeues demo_delivery.2.2 = 0%nat) by (vm_compute; reflexivity). rewrite Hn in Hlost.
      destruct lost; [by apply not_elem_of_nil in H|cbn in Hlost; lia].
Defined.
