(* ===== verification/Bodies.v ===== *)
(** Bodies: the request bodies of the endpoints: the tagged fields of the input DTOs of
    the order, customer, product and auth packages, decoded with the reader of Json. *)
From S2P Require Import Prelude Errors GoStrings Uuid Calendar Json JsonText JsonDecode Money Customer Product Auth OrderModel.

(** ** internal/auth/dto.go *)
Definition dec_login : jval -> auth.LoginRequest -> option auth.LoginRequest := dec_struct [
  field "email" dec_string auth.lr_Email (fun x r => auth.mkLogin x (auth.lr_Password r));
  field "password" dec_string auth.lr_Password (fun x r => auth.mkLogin (auth.lr_Email r) x)].

Definition decode_login (body : string) : option auth.LoginRequest :=
  Decode dec_login (auth.mkLogin "" "") body.

Definition dec_register : jval -> auth.RegisterRequest -> option auth.RegisterRequest := dec_struct [
  field "name" dec_string auth.rr_Name
    (fun x r => auth.mkRegister x (auth.rr_Email r) (auth.rr_Password r) (auth.rr_Role r));
  field "email" dec_string auth.rr_Email
    (fun x r => auth.mkRegister (auth.rr_Name r) x (auth.rr_Password r) (auth.rr_Role r));
  field "password" dec_string auth.rr_Password
    (fun x r => auth.mkRegister (auth.rr_Name r) (auth.rr_Email r) x (auth.rr_Role r));
  field "role" dec_string auth.rr_Role
    (fun x r => auth.mkRegister (auth.rr_Name r) (auth.rr_Email r) (auth.rr_Password r) x)].

Definition decode_register (body : string) : option auth.RegisterRequest :=
  Decode dec_register (auth.mkRegister "" "" "" "") body.

(** ** internal/customer/dto.go: both inputs have the same four fields *)
Record customer_fields := mkCustomerFields {
  cf_Name : string; cf_Document : string; cf_Email : string; cf_Phone : string;
}.

Definition dec_customer : jval -> customer_fields -> option customer_fields := dec_struct [
  field "name" dec_string cf_Name
    (fun x c => mkCustomerFields x (cf_Document c) (cf_Email c) (cf_Phone c));
  field "document" dec_string cf_Document
    (fun x c => mkCustomerFields (cf_Name c) x (cf_Email c) (cf_Phone c));
  field "email" dec_string cf_Email
    (fun x c => mkCustomerFields (cf_Name c) (cf_Document c) x (cf_Phone c));
  field "phone" dec_string cf_Phone
    (fun x c => mkCustomerFields (cf_Name c) (cf_Document c) (cf_Email c) x)].

Definition decode_customer (body : string) : option customer_fields :=
  Decode dec_customer (mkCustomerFields "" "" "" "") body.

Definition decode_create_customer (body : string) : option customer.CreateCustomerInput :=
  (fun c => customer.mkCreateInput (cf_Name c) (cf_Document c) (cf_Email c) (cf_Phone c)) <$> decode_customer body.

Definition decode_update_customer (body : string) : option customer.UpdateCustomerInput :=
  (fun c => customer.mkUpdateInput (cf_Name c) (cf_Document c) (cf_Email c) (cf_Phone c)) <$> decode_customer body.

(** ** internal/product/dto.go: both inputs have the same three fields *)
Record product_fields := mkProductFields { pf_Name : string; pf_SKU : string; pf_Price : Money }.

Definition dec_product : jval -> product_fields -> option product_fields := dec_struct [
  field "name" dec_string pf_Name (fun x p => mkProductFields x (pf_SKU p) (pf_Price p));
  field "sku" dec_string pf_SKU (fun x p => mkProductFields (pf_Name p) x (pf_Price p));
  field "price" dec_money pf_Price (fun x p => mkProductFields (pf_Name p) (pf_SKU p) x)].

Definition decode_product (body : string) : option product_fields :=
  Decode dec_product (mkProductFields "" "" (FromCents 0)) body.

Definition decode_create_product (body : string) : option product.CreateProductInput :=
  (fun p => product.mkCreateInput (pf_Name p) (pf_SKU p) (pf_Price p)) <$> decode_product body.

Definition decode_update_product (body : string) : option product.UpdateProductInput :=
  (fun p => product.mkUpdateInput (pf_Name p) (pf_SKU p) (pf_Price p)) <$> decode_product body.

(** ** internal/order/dto.go *)
Section order_body.
Context `{!UuidText}.

Definition dec_item : jval -> CreateOrderItemInput -> option CreateOrderItemInput := dec_struct [
  field "product_id" dec_uuid ii_ProductID (fun x i => mkItemInput x (ii_Quantity i));
  field "quantity" dec_int ii_Quantity (fun x i => mkItemInput (ii_ProductID i) x)].

Definition zero_item : CreateOrderItemInput := mkItemInput uuid_Nil 0.

(** The input while it is decoded, when [items] is a slice over its backing array. *)
Record order_fields := mkOrderFields { of_CustomerID : uuid; of_Items : slice CreateOrderItemInput }.

Definition dec_order : jval -> order_fields -> option order_fields := dec_struct [
  field "customer_id" dec_uuid of_CustomerID (fun x o => mkOrderFields x (of_Items o));
  field "items" (dec_slice zero_item dec_item) of_Items (fun x o => mkOrderFields (of_CustomerID o) x)].

Definition decode_order (body : string) : option CreateOrderInput :=
  (fun o => mkOrderInput (of_CustomerID o) (elements (of_Items o)))
    <$> Decode dec_order (mkOrderFields uuid_Nil no_elements) body.
End order_body.

(** ** What a client sends *)
Section client.
Context `{!UuidText}.

Definition item_input_json (i : CreateOrderItemInput) : json :=
  JObj [("product_id", JUuid (ii_ProductID i)); ("quantity", JInt (ii_Quantity i))].

Definition order_input_json (i : CreateOrderInput) : json :=
  JObj [("customer_id", JUuid (in_CustomerID i)); ("items", JArr (item_input_json <$> in_Items i))].
End client.


(** A literal with single quotes for the double ones. *)
Definition quoted (s : string) : string :=
  of_bytes ((fun c => if bool_decide (c = chr 39) then quote_chr else c) <$> to_bytes s).

Definition demo_order_body : string :=
  quoted "{'customer_id':'0','ITEMS':[{'quantity':2,'product_id':'1'}],'x':[]} tail".

(** Keys in another case, an unknown key and trailing text are accepted; a repeated
    array decodes into the elements of the first. *)
Example decode_examples :
  @decode_order bit_text demo_order_body = Some (mkOrderInput 1%N [mkItemInput 2%N 2]) /\
  @decode_order bit_text (quoted "{'items':[{'quantity':2},{'quantity':3}],'items':[{}],'items':[{},{}]}")
    = Some (mkOrderInput 0%N [mkItemInput 0%N 2; mkItemInput 0%N 3]) /\
  decode_login "null" = Some (auth.mkLogin "" "") /\
  decode_login "[]" = None /\
  decode_product (quoted "{'price':null}") = None.
Proof. split_and!; vm_compute; reflexivity. Qed.

(** ** Lemmas *)
Definition is_utf8 (s : string) : Prop := utf8 (to_bytes s).

Ltac each_field := repeat apply Forall_cons_2; try apply Forall_nil_2.

Lemma keeps_money : keeps money_ok dec_money.
Proof.
  intros v x y _ _. unfold dec_money. destruct (UnmarshalJSON v) as [m| |] eqn:Hm; [|done..].
  intros [= <-]. revert Hm. unfold UnmarshalJSON.
  repeat case_match; try done; apply ParseString_ok.
Qed.

Definition item_typed (i : CreateOrderItemInput) : Prop := in_int64 (ii_Quantity i).

Section order_typed.
Context `{!UuidText}.

Lemma keeps_item : keeps item_typed dec_item.
Proof.
  apply keeps_struct. each_field.
  - by apply (keeps_field _ (fun _ => True)); [apply keeps_any|..].
  - by apply (keeps_field _ in_int64); [apply keeps_int|..].
Qed.

Lemma keeps_order : keeps (fun o => Forall item_typed (sl_backing (of_Items o))) dec_order.
Proof.
  apply keeps_struct. each_field.
  - by apply (keeps_field _ (fun _ => True)); [apply keeps_any|..].
  - by apply (keeps_field _ (fun s => Forall item_typed (sl_backing s))); [apply keeps_slice, keeps_item|..].
Qed.

Lemma decode_order_typed body i : decode_order body = Some i -> Forall item_typed (in_Items i).
Proof.
  unfold decode_order. destruct (Decode _ _ body) as [o|] eqn:Ho; [|done]. intros [= <-].
  apply (Decode_keeps _ _ _ _ _ keeps_order) in Ho; [|constructor]. by apply Forall_take.
Qed.
End order_typed.

Lemma keeps_product :
  keeps (fun p => is_utf8 (pf_Name p) /\ is_utf8 (pf_SKU p) /\ money_ok (pf_Price p)) dec_product.
Proof.
  apply keeps_struct. each_field.
  - apply (keeps_field _ is_utf8); [apply keeps_string|naive_solver..].
  - apply (keeps_field _ is_utf8); [apply keeps_string|naive_solver..].
  - apply (keeps_field _ money_ok); [apply keeps_money|naive_solver..].
Qed.

Lemma keeps_customer :
  keeps (fun c => is_utf8 (cf_Name c) /\ is_utf8 (cf_Document c) /\ is_utf8 (cf_Email c) /\ is_utf8 (cf_Phone c))
    dec_customer.
Proof. apply keeps_struct. each_field; (apply (keeps_field _ is_utf8); [apply keeps_string|naive_solver..]). Qed.

Lemma keeps_login : keeps (fun r => is_utf8 (auth.lr_Email r) /\ is_utf8 (auth.lr_Password r)) dec_login.
Proof. apply keeps_struct. each_field; (apply (keeps_field _ is_utf8); [apply keeps_string|naive_solver..]). Qed.

Lemma keeps_register :
  keeps (fun r => is_utf8 (auth.rr_Name r) /\ is_utf8 (auth.rr_Email r) /\ is_utf8 (auth.rr_Password r) /\
                  is_utf8 (auth.rr_Role r)) dec_register.
Proof. apply keeps_struct. each_field; (apply (keeps_field _ is_utf8); [apply keeps_string|naive_solver..]). Qed.

Lemma decode_customer_typed body c :
  decode_customer body = Some c ->
  is_utf8 (cf_Name c) /\ is_utf8 (cf_Document c) /\ is_utf8 (cf_Email c) /\ is_utf8 (cf_Phone c).
Proof. by apply (Decode_keeps _ _ _ _ _ keeps_customer); repeat constructor. Qed.

Lemma decode_product_typed body p :
  decode_product body = Some p -> is_utf8 (pf_Name p) /\ is_utf8 (pf_SKU p) /\ money_ok (pf_Price p).
Proof. by apply (Decode_keeps _ _ _ _ _ keeps_product); repeat constructor. Qed.

(** Decoding what a client encodes. *)
Section order_read_back.
Context `{!UuidText, !LocalZone}.

Lemma dec_item_shape i zero : item_typed i -> dec_item (shape (item_input_json i)) zero = Some i.
Proof.
  intros Hi. unfold dec_item, item_input_json. select_fields.
  rewrite of_to_bytes, uuid_Parse_String. cbn [option_map]. rewrite ParseInt_fmt_d by done. by destruct i.
Qed.

Lemma dec_items_shape l :
  Forall item_typed l ->
  mapM (fun v => dec_item v zero_item) (shape <$> (item_input_json <$> l)) = Some l.
Proof.
  intros Hl. apply mapM_Some. induction Hl as [|i l Hi _ IH]; constructor; [|done]. by apply dec_item_shape.
Qed.

Lemma dec_order_shape i :
  Forall item_typed (in_Items i) ->
  exists s, dec_order (shape (order_input_json i)) (mkOrderFields uuid_Nil no_elements)
            = Some (mkOrderFields (in_CustomerID i) s) /\ elements s = in_Items i.
Proof.
  intros Hi. pose proof (dec_items_shape _ Hi) as Hm. rewrite <- (dec_elements_fresh zero_item dec_item) in Hm.
  unfold dec_order, order_input_json. select_fields. rewrite of_to_bytes, uuid_Parse_String. cbn [option_map].
  cbn [fmap option_fmap option_map mbind option_bind of_CustomerID of_Items]. unfold dec_slice.
  destruct i as [c [|x l]]; cbn [in_Items in_CustomerID] in *; [by eexists|].
  cbn [fmap list_fmap] in *. change (sl_backing no_elements) with (@nil CreateOrderItemInput). rewrite Hm.
  eexists. split; [reflexivity|]. unfold elements. cbn [sl_len sl_backing length].
  rewrite !length_fmap. by rewrite take_ge.
Qed.

Lemma render_items l :
  exists texts, mapM render (item_input_json <$> l) = Some texts.
Proof. induction l as [|i l [texts IH]]; [by exists []|]. cbn in IH |- *. rewrite IH. by eexists. Qed.

Lemma height_items l : fold_right Z.max 0 (height <$> (item_input_json <$> l)) <= 1.
Proof. induction l as [|i l IH]; cbn [fmap list_fmap fold_right]; [lia|]. cbn [item_input_json height fmap list_fmap fold_right snd] in *. lia. Qed.
End order_read_back.

(** ** Properties *)

(** C33: whatever bytes a client sends, an accepted body gives well-typed inputs: the
    quantities of an order fit an int64, a price is an int64 number of cents, and
    every text field is valid UTF-8. *)
Theorem decoded_bodies_typed `{!UuidText} (body : string) :
  (forall i, decode_order body = Some i -> Forall (fun x => in_int64 (ii_Quantity x)) (in_Items i)) /\
  (forall p, decode_create_product body = Some p ->
     is_utf8 (product.pi_Name p) /\ is_utf8 (product.pi_SKU p) /\ money_ok (product.pi_Price p)) /\
  (forall p, decode_update_product body = Some p ->
     is_utf8 (product.pu_Name p) /\ is_utf8 (product.pu_SKU p) /\ money_ok (product.pu_Price p)) /\
  (forall c, decode_create_customer body = Some c ->
     is_utf8 (customer.ci_Name c) /\ is_utf8 (customer.ci_Document c) /\
     is_utf8 (customer.ci_Email c) /\ is_utf8 (customer.ci_Phone c)) /\
  (forall c, decode_update_customer body = Some c ->
     is_utf8 (customer.ui_Name c) /\ is_utf8 (customer.ui_Document c) /\
     is_utf8 (customer.ui_Email c) /\ is_utf8 (customer.ui_Phone c)) /\
  (forall r, decode_login body = Some r -> is_utf8 (auth.lr_Email r) /\ is_utf8 (auth.lr_Password r)) /\
  (forall r, decode_register body = Some r ->
     is_utf8 (auth.rr_Name r) /\ is_utf8 (auth.rr_Email r) /\ is_utf8 (auth.rr_Password r) /\
     is_utf8 (auth.rr_Role r)).
Proof.
  split_and!.
  - apply decode_order_typed.
  - intros p Hp. apply fmap_Some in Hp as (f & Hf & ->). by apply (decode_product_typed body).
  - intros p Hp. apply fmap_Some in Hp as (f & Hf & ->). by apply (decode_product_typed body).
  - intros p Hp. apply fmap_Some in Hp as (f & Hf & ->). by apply (decode_customer_typed body).
  - intros p Hp. apply fmap_Some in Hp as (f & Hf & ->). by apply (decode_customer_typed body).
  - intros r Hr. apply (Decode_keeps _ _ _ _ _ keeps_login) in Hr; [done|by repeat constructor].
  - intros r Hr. apply (Decode_keeps _ _ _ _ _ keeps_register) in Hr; [done|by repeat constructor].
Qed.

Lemma decoded_bodies_typed_witness :
  Forall (fun x => in_int64 (ii_Quantity x)) [mkItemInput 2%N 2] /\
  is_utf8 "A" /\ is_utf8 "B" /\ money_ok (FromCents 150).
Proof.
  split.
  - apply (proj1 (@decoded_bodies_typed bit_text demo_order_body) (mkOrderInput 1%N [mkItemInput 2%N 2])).
    vm_compute. reflexivity.
  - apply (proj1 (proj2 (@decoded_bodies_typed bit_text (quoted "{'name':'A','Sku':'B','price':'1.5'}")))
             (product.mkCreateInput "A" "B" (FromCents 150))).
    vm_compute. reflexivity.
Defined.

(** C34: an order request written by [json.Marshal] is decoded to the order it was
    written from, whatever white space or text follows it in the body, as long as it
    does not continue with a digit or another number character. *)
Theorem order_body_roundtrip `{!UuidText, !LocalZone} (i : CreateOrderInput) :
  Forall (fun x => in_int64 (ii_Quantity x)) (in_Items i) ->
  exists text, render (order_input_json i) = Some text /\
  forall rest, delimited rest -> decode_order (of_bytes (text ++ rest)) = Some i.
Proof.
  intros Hi. destruct (render_items (in_Items i)) as [texts Ht].
  assert (Hr : exists text, render (order_input_json i) = Some text).
  { unfold order_input_json. cbn -[item_input_json]. rewrite Ht. by eexists. }
  destruct Hr as [text Hr]. exists text. split; [done|]. intros rest Hrest. unfold decode_order.
  rewrite (Decode_render dec_order _ (order_input_json i)) by
    (done || (pose proof (height_items (in_Items i)); cbn -[Z.max Z.add]; unfold maxNestingDepth; lia)).
  destruct (dec_order_shape i Hi) as (s & Hs & He). rewrite Hs. cbn. rewrite He. by destruct i.
Qed.

Lemma order_body_roundtrip_witness :
  exists text, @render bit_text UTC (@order_input_json (mkOrderInput 1%N [mkItemInput 2%N (-3)])) = Some text /\
  forall rest, delimited rest ->
    @decode_order bit_text (of_bytes (text ++ rest)) = Some (mkOrderInput 1%N [mkItemInput 2%N (-3)]).
Proof.
  apply (@order_body_roundtrip bit_text UTC (mkOrderInput 1%N [mkItemInput 2%N (-3)])).
  repeat constructor; by vm_compute.
Defined.
