(* ===== verification/Http.v ===== *)
(** Http: requests, responses and handlers as the HTTP components of the repository
    use them, the middleware of internal/middleware, and the JSON views of the DTOs. *)
From S2P Require Import Prelude Errors Effects GoStrings Uuid Money Pagination Catalog Customer Product Auth OrderModel OrderRepo OrderService.

(** ** Requests and handlers

    A request keeps the parts the handlers read: [Header.Get], [URL.Query().Get],
    [chi.URLParam], the body, and the context values.  The three context keys are
    values of two distinct Go types, so they never collide. *)
Record Context_ := mkCtx {
  cx_requestID : option string;
  cx_userID : option string;
  cx_role : option string;
}.

Record Request := mkRequest {
  rq_method : string;
  rq_path : string;
  rq_header : string -> string;
  rq_query : string -> string;
  rq_param : string -> string;
  rq_body : string;
  rq_ctx : Context_;
}.

Definition with_ctx (c : Context_) (r : Request) : Request :=
  mkRequest (rq_method r) (rq_path r) (rq_header r) (rq_query r) (rq_param r) (rq_body r) c.

(** The two records the middleware logs. *)
Inductive logrec :=
| RequestCompleted (request_id method path : string) (status_code duration_ms : Z)
| PanicRecovered (why request_id path : string).

(** What a handler calls: the token verifier, [uuid.NewString], the clock, the log,
    and the four services. *)
Inductive httpE : Type -> Type :=
| HVerify (token : string) : httpE (res auth.Claims)
| HNewString : httpE string
| HNow : httpE time
| HLog (r : logrec) : httpE unit
| HOrder {X : Type} (e : orderE X) : httpE X
| HCustomer {X : Type} (e : customer.customerE X) : httpE X
| HProduct {X : Type} (e : product.productE X) : httpE X
| HAuth {X : Type} (e : auth.authE X) : httpE X.

(** A handler answers once, at its end, or panics; [Err] is not used. *)
Abbreviation Handler := (Request -> prog httpE (res Response)) (only parsing).

Definition respond (r : Response) : prog httpE (res Response) := Ret (Ok r).

(** [out, err := p; if err != nil { apperrors.Write(w, err); return }; ok(out)]. *)
Definition answer {A} (p : prog httpE (res A)) (ok : A -> Response) : prog httpE (res Response) :=
  r <- p ;;
  Ret match r with
      | Ok a => Ok (ok a)
      | Err e => Ok (Write e)
      | Panic why => Panic why
      end.

Definition order_svc {A} (p : prog orderE A) : prog httpE A := interp (fun X e => call (HOrder e)) p.
Definition customer_svc {A} (p : prog customer.customerE A) : prog httpE A :=
  interp (fun X e => call (HCustomer e)) p.
Definition product_svc {A} (p : prog product.productE A) : prog httpE A :=
  interp (fun X e => call (HProduct e)) p.
Definition auth_svc {A} (p : prog auth.authE A) : prog httpE A := interp (fun X e => call (HAuth e)) p.

(** ** Request id (request_id.go) *)
Definition HeaderRequestID : string := "X-Request-Id".

Definition set_header (k v : string) (r : Response) : Response :=
  mkResponse (rs_status r) ((k, v) :: rs_headers r) (rs_body r).

Definition RequestID (next : Handler) : Handler := fun r =>
  id <- (if bool_decide (rq_header r HeaderRequestID = "") then call HNewString
         else Ret (rq_header r HeaderRequestID)) ;;
  let c := rq_ctx r in
  resp <-! next (with_ctx (mkCtx (Some id) (cx_userID c) (cx_role c)) r) ;;
  Ret (Ok (set_header HeaderRequestID id resp)).

Definition RequestIDFromContext (c : Context_) : string := default "" (cx_requestID c).

(** ** Recovery (recovery.go) *)
Definition Recovery (next : Handler) : Handler := fun r =>
  out <- next r ;;
  match out with
  | Panic why =>
      call (HLog (PanicRecovered why (RequestIDFromContext (rq_ctx r)) (rq_path r))) ;;;
      respond (Write (New CodeInternal "Internal server error" StatusInternalServerError None))
  | out => Ret out
  end.

(** ** Logging (logging.go): nothing is logged when the handler panics *)
Definition Logging (next : Handler) : Handler := fun r =>
  start <- call HNow ;;
  resp <-! next r ;;
  stop <- call HNow ;;
  call (HLog (RequestCompleted (RequestIDFromContext (rq_ctx r)) (rq_method r) (rq_path r)
                (rs_status resp) (Z.quot (stop - start) 1000000))) ;;;
  respond resp.

(** ** Authentication (auth.go) *)
Definition bearer_prefix : string := "Bearer ".

Definition bearerToken (r : Request) : option string :=
  let header := to_bytes (rq_header r "Authorization") in
  if Nat.leb (length header) 7
     || negb (EqualFold (of_bytes (take 7 header)) bearer_prefix)
  then None
  else let token := TrimSpace (of_bytes (drop 7 header)) in
       if bool_decide (token = "") then None else Some token.

Definition Authenticator (next : Handler) : Handler := fun r =>
  match bearerToken r with
  | None => respond (Write (Unauthorized "Authentication required"))
  | Some token =>
      claims <- call (HVerify token) ;;
      match claims with
      | Err _ => respond (Write (Unauthorized "Invalid or expired token"))
      | Panic why => Ret (Panic why)
      | Ok c =>
          next (with_ctx (mkCtx (cx_requestID (rq_ctx r)) (Some (auth.UserID c)) (Some (auth.CRole c))) r)
      end
  end.

Definition UserIDFromContext (c : Context_) : option string := cx_userID c.
Definition ContextWithUserID (c : Context_) (id : string) : Context_ :=
  mkCtx (cx_requestID c) (Some id) (cx_role c).
Definition RoleFromContext (c : Context_) : option string := cx_role c.

(** ** Authorization (authz.go) *)
Abbreviation Action := string (only parsing).
Definition ActionCreateUsers : Action := "create_users".
Definition ActionListUsers : Action := "list_users".
Definition ActionCreateCustomers : Action := "create_customers".
Definition ActionUpdateCustomers : Action := "update_customers".
Definition ActionCreateProducts : Action := "create_products".
Definition ActionUpdateProducts : Action := "update_products".
Definition ActionCreateOrders : Action := "create_orders".
Definition ActionCancelOrders : Action := "cancel_orders".
Definition ActionShipOrders : Action := "ship_orders".
Definition ActionViewMetrics : Action := "view_metrics".

Definition both_roles : gmap string bool :=
  <[auth.RoleAdmin := true]> (<[auth.RoleOperator := true]> ∅).
Definition admin_only : gmap string bool :=
  <[auth.RoleAdmin := true]> (<[auth.RoleOperator := false]> ∅).

Definition matrix : gmap string (gmap string bool) := list_to_map [
  (ActionCreateUsers, admin_only);
  (ActionListUsers, admin_only);
  (ActionCreateCustomers, both_roles);
  (ActionUpdateCustomers, both_roles);
  (ActionCreateProducts, both_roles);
  (ActionUpdateProducts, both_roles);
  (ActionCreateOrders, both_roles);
  (ActionCancelOrders, both_roles);
  (ActionShipOrders, both_roles);
  (ActionViewMetrics, admin_only)].

(** Reading a missing key of a Go map gives the zero value, [false]. *)
Definition Can (role : string) (action : Action) : bool :=
  default false (default ∅ (matrix !! action) !! role).

Definition permission_denied : Response :=
  Write (Forbidden "You do not have permission to perform this action").

Definition require (permitted : string -> bool) (next : Handler) : Handler := fun r =>
  match RoleFromContext (rq_ctx r) with
  | None => respond (Write (Unauthorized "Authentication required"))
  | Some role => if permitted role then next r else respond permission_denied
  end.

Definition RequireAnyRole (roles : list string) : Handler -> Handler :=
  require (fun role => bool_decide (role ∈ roles)).

Definition RequireAction (action : Action) : Handler -> Handler :=
  require (fun role => Can role action).

(** ** JSON views of the DTOs (the tagged structs) *)
Definition money_json (m : Money) : json := JToken (MarshalJSON m).

Definition order_item_json (i : OrderItemOutput) : json :=
  JObj [("product_id", JUuid (io_ProductID i)); ("quantity", JInt (io_Quantity i));
        ("unit_price", money_json (io_UnitPrice i)); ("total_price", money_json (io_TotalPrice i))].

Definition order_json (o : OrderOutput) : json :=
  JObj [("id", JUuid (oo_ID o)); ("customer_id", JUuid (oo_CustomerID o));
        ("status", JStr (oo_Status o)); ("total_amount", money_json (oo_TotalAmount o));
        ("items", JArr (order_item_json <$> oo_Items o)); ("created_at", JTime (oo_CreatedAt o))].

Definition customer_json (c : customer.CustomerOutput) : json :=
  JObj [("id", JUuid (customer.co_ID c)); ("name", JStr (customer.co_Name c));
        ("document", JStr (customer.co_Document c)); ("email", JStr (customer.co_Email c));
        ("phone", JStr (customer.co_Phone c)); ("active", JBool (customer.co_Active c));
        ("created_at", JTime (customer.co_CreatedAt c)); ("updated_at", JTime (customer.co_UpdatedAt c))].

Definition product_json (p : product.ProductOutput) : json :=
  JObj [("id", JUuid (product.po_ID p)); ("name", JStr (product.po_Name p));
        ("sku", JStr (product.po_SKU p)); ("price", money_json (product.po_Price p));
        ("active", JBool (product.po_Active p)); ("created_at", JTime (product.po_CreatedAt p));
        ("updated_at", JTime (product.po_UpdatedAt p))].

Definition page_json {A} (f : A -> json) (p : Page A) : json :=
  JObj [("items", JArr (f <$> pg_Items p)); ("page", JInt (pg_Page p));
        ("page_size", JInt (pg_PageSize p)); ("total", JInt (pg_Total p));
        ("total_pages", JInt (pg_TotalPages p))].

Definition token_json (t : auth.TokenResponse) : json :=
  JObj [("access_token", JStr (auth.AccessToken t)); ("token_type", JStr (auth.TokenType t));
        ("expires_in", JInt (auth.ExpiresIn t))].

Definition user_json (u : auth.UserResponse) : json :=
  JObj [("id", JStr (auth.ur_ID u)); ("name", JStr (auth.ur_Name u));
        ("email", JStr (auth.ur_Email u)); ("role", JStr (auth.ur_Role u))].
