(* ===== verification/Handlers.v ===== *)
(** Handlers: the HTTP handlers of the order, customer, product and auth packages:
    decode or parse, call the service, map the result. *)
From S2P Require Import Prelude Errors Effects GoStrings Uuid Calendar Json Money Pagination Catalog Customer Product Auth OrderModel OrderRepo OrderService Bodies Http.

(** The [decodeJSON] of every handler file: [json.NewDecoder(r.Body).Decode(&v)]. *)
Definition decodeJSON {A} (decode : string -> option A) (r : Request) : res A :=
  match decode (rq_body r) with
  | Some v => Ok v
  | None => Err (Validation "invalid request body")
  end.

(** Continue with the value, or write the error and return. *)
Definition or_write {A} (x : res A) (f : A -> prog httpE (res Response)) : prog httpE (res Response) :=
  match x with
  | Ok a => f a
  | Err e => respond (Write e)
  | Panic why => Ret (Panic why)
  end.

Definition parseIntParam (raw : string) : option Z :=
  if bool_decide (raw = "") then Some 0 else Atoi raw.

Definition page_params (r : Request) : res (Z * Z) :=
  match parseIntParam (rq_query r "page") with
  | None => Err (Validation "page must be an integer")
  | Some page =>
      match parseIntParam (rq_query r "page_size") with
      | None => Err (Validation "page_size must be an integer")
      | Some pageSize => Ok (page, pageSize)
      end
  end.

(** An optional query parameter: absent when empty. *)
Definition optional {A} (raw : string) (parse : string -> option A) (msg : string) : res (option A) :=
  if bool_decide (raw = "") then Ok None
  else match parse raw with
       | Some v => Ok (Some v)
       | None => Err (Validation msg)
       end.

Definition res_option {A} (x : res A) : option A := match x with Ok a => Some a | _ => None end.

Definition bind_ok {A B} (x : res A) (f : A -> res B) : res B :=
  match x with Ok a => f a | Err e => Err e | Panic why => Panic why end.

Definition path_id `{UuidText} (msg : string) (r : Request) : res uuid :=
  match uuid_Parse (rq_param r "id") with
  | Some id => Ok id
  | None => Err (Validation msg)
  end.

(** ** internal/order/handler.go *)
Module order_handler.
Section order_handler.
Context `{!UuidText, !CaseTables}.

Definition pathID (r : Request) : res uuid := path_id "invalid order id" r.

Definition parseFilter (r : Request) : res OrderFilter :=
  let q := rq_query r in
  bind_ok (optional (q "customer_id") uuid_Parse "customer_id must be a valid uuid") (fun customerID =>
  bind_ok (optional (q "status") (fun raw => res_option (ParseOrderStatus raw))
             "status must be a valid order status") (fun status =>
  bind_ok (optional (q "start_date") ParseDate "start_date must be YYYY-MM-DD") (fun startDate =>
  bind_ok (optional (q "end_date") ParseDate "end_date must be YYYY-MM-DD") (fun endDate =>
  bind_ok (page_params r) (fun p =>
  Ok (mkOrderFilter customerID status startDate endDate p.1 p.2)))))).

Definition Create : Handler := fun r =>
  match UserIDFromContext (rq_ctx r) with
  | None => respond (Write (Unauthorized "Authentication required"))
  | Some rawID =>
      match uuid_Parse rawID with
      | None => respond (Write (Unauthorized "Invalid authenticated user"))
      | Some createdBy =>
          or_write (decodeJSON decode_order r) (fun input =>
            answer (order_svc (OrderService.Create createdBy input))
              (fun out => writeJSON StatusCreatedHTTP (order_json out)))
      end
  end.

Definition Get : Handler := fun r =>
  or_write (pathID r) (fun id =>
    answer (order_svc (FindOrder id)) (fun out => writeJSON StatusOK (order_json out))).

Definition List : Handler := fun r =>
  or_write (parseFilter r) (fun filter =>
    answer (order_svc (ListService filter)) (fun page => writeJSON StatusOK (page_json order_json page))).

Definition Cancel : Handler := fun r =>
  or_write (pathID r) (fun id =>
    answer (order_svc (OrderService.Cancel id)) (fun out => writeJSON StatusOK (order_json out))).

Definition Ship : Handler := fun r =>
  or_write (pathID r) (fun id =>
    answer (order_svc (OrderService.Ship id)) (fun out => writeJSON StatusOK (order_json out))).

(** Method and pattern of each route, under the mount point. *)
Definition Routes : list (string * string * Handler) :=
  [("POST", "/", Create); ("GET", "/", List); ("GET", "/{id}", Get);
   ("PATCH", "/{id}/cancel", Cancel); ("PATCH", "/{id}/ship", Ship)].
End order_handler.
End order_handler.

(** ** internal/customer/handler.go *)
Module customer_handler.
Section customer_handler.
Context `{!UuidText, !CaseTables}.

Definition pathID (r : Request) : res uuid := path_id "invalid customer id" r.

Definition parseFilter (r : Request) : res customer.CustomerFilter :=
  bind_ok (optional (rq_query r "active") ParseBool "active must be a boolean") (fun active =>
  bind_ok (page_params r) (fun p =>
  Ok (customer.mkFilter (rq_query r "name") (rq_query r "document") active p.1 p.2))).

Definition Create : Handler := fun r =>
  or_write (decodeJSON decode_create_customer r) (fun input =>
    answer (customer_svc (customer.Create input))
      (fun out => writeJSON StatusCreatedHTTP (customer_json out))).

Definition Update : Handler := fun r =>
  or_write (pathID r) (fun id =>
    or_write (decodeJSON decode_update_customer r) (fun input =>
      answer (customer_svc (customer.Update id input))
        (fun out => writeJSON StatusOK (customer_json out)))).

Definition Deactivate : Handler := fun r =>
  or_write (pathID r) (fun id =>
    answer (customer_svc (customer.Deactivate id)) (fun _ => mkResponse StatusNoContent [] NoBody)).

Definition Get : Handler := fun r =>
  or_write (pathID r) (fun id =>
    answer (customer_svc (customer.FindByID id)) (fun out => writeJSON StatusOK (customer_json out))).

Definition List : Handler := fun r =>
  or_write (parseFilter r) (fun filter =>
    answer (customer_svc (customer.List filter))
      (fun page => writeJSON StatusOK (page_json customer_json page))).

Definition Routes : list (string * string * Handler) :=
  [("GET", "/", List); ("POST", "/", Create); ("GET", "/{id}", Get); ("PUT", "/{id}", Update);
   ("PATCH", "/{id}/deactivate", Deactivate)].
End customer_handler.
End customer_handler.

(** ** internal/product/handler.go *)
Module product_handler.
Section product_handler.
Context `{!UuidText, !CaseTables}.

Definition pathID (r : Request) : res uuid := path_id "invalid product id" r.

Definition parseFilter (r : Request) : res product.ProductFilter :=
  bind_ok (optional (rq_query r "active") ParseBool "active must be a boolean") (fun active =>
  bind_ok (page_params r) (fun p =>
  Ok (product.mkFilter (rq_query r "name") (rq_query r "sku") active p.1 p.2))).

Definition Create : Handler := fun r =>
  or_write (decodeJSON decode_create_product r) (fun input =>
    answer (product_svc (product.Create input))
      (fun out => writeJSON StatusCreatedHTTP (product_json out))).

Definition Update : Handler := fun r =>
  or_write (pathID r) (fun id =>
    or_write (decodeJSON decode_update_product r) (fun input =>
      answer (product_svc (product.Update id input))
        (fun out => writeJSON StatusOK (product_json out)))).

Definition Deactivate : Handler := fun r =>
  or_write (pathID r) (fun id =>
    answer (product_svc (product.Deactivate id)) (fun _ => mkResponse StatusNoContent [] NoBody)).

Definition Get : Handler := fun r =>
  or_write (pathID r) (fun id =>
    answer (product_svc (product.FindByID id)) (fun out => writeJSON StatusOK (product_json out))).

Definition List : Handler := fun r =>
  or_write (parseFilter r) (fun filter =>
    answer (product_svc (product.List filter))
      (fun page => writeJSON StatusOK (page_json product_json page))).

Definition Routes : list (string * string * Handler) :=
  [("GET", "/", List); ("POST", "/", Create); ("GET", "/{id}", Get); ("PUT", "/{id}", Update);
   ("PATCH", "/{id}/deactivate", Deactivate)].
End product_handler.
End product_handler.

(** ** internal/auth/handler.go *)
Module auth_handler.
Section auth_handler.
Context `{!UuidText, !CaseTables, !LocalZone} (m : auth.TokenManager).

Definition Login : Handler := fun r =>
  or_write (decodeJSON decode_login r) (fun req =>
    answer (auth_svc (auth.Login m req)) (fun resp => writeJSON StatusOK (token_json resp))).

Definition Register : Handler := fun r =>
  or_write (decodeJSON decode_register r) (fun req =>
    answer (auth_svc (auth.Register req)) (fun resp => writeJSON StatusCreatedHTTP (user_json resp))).

Definition Routes : list (string * string * Handler) :=
  [("POST", "/login", Login); ("POST", "/register", Register)].
End auth_handler.
End auth_handler.

(** ** Lemmas *)
Section filter_facts.
Context `{!UuidText, !CaseTables}.

(** A parsed optional parameter keeps what its test on a value keeps. *)
Lemma optional_meaning {A} (raw : string) (parse : string -> option A) msg (v : option A)
    (test : A -> bool) (P : A -> Prop) :
  optional raw parse msg = Ok v ->
  (forall a, test a = true <-> P a) ->
  match v with Some a => test a | None => true end = true <->
  raw = "" \/ exists a, parse raw = Some a /\ P a.
Proof.
  intros Hopt Htest. unfold optional in Hopt. case_bool_decide as Hraw.
  - injection Hopt as <-. tauto.
  - destruct (parse raw) as [a|] eqn:Ha; [|done]. injection Hopt as <-. rewrite Htest. naive_solver.
Qed.

Lemma parseFilter_fields r f :
  order_handler.parseFilter r = Ok f ->
  (exists msg, optional (rq_query r "customer_id") uuid_Parse msg = Ok (f_CustomerID f)) /\
  (exists msg, optional (rq_query r "status") (fun raw => res_option (ParseOrderStatus raw)) msg
               = Ok (f_Status f)) /\
  (exists msg, optional (rq_query r "start_date") ParseDate msg = Ok (f_StartDate f)) /\
  (exists msg, optional (rq_query r "end_date") ParseDate msg = Ok (f_EndDate f)).
Proof.
  unfold order_handler.parseFilter.
  destruct (optional (rq_query r "customer_id") _ _) as [c| |] eqn:Hc; [|done..].
  destruct (optional (rq_query r "status") _ _) as [s| |] eqn:Hs; [|done..].
  destruct (optional (rq_query r "start_date") _ _) as [a| |] eqn:Ha; [|done..].
  destruct (optional (rq_query r "end_date") _ _) as [b| |] eqn:Hb; [|done..].
  destruct (page_params r) as [p| |]; [|done..]. cbn. intros [= <-]; cbn. by split_and!; eexists.
Qed.

Lemma res_option_Some {A} (x : res A) a : res_option x = Some a <-> x = Ok a.
Proof. destruct x; cbn; naive_solver. Qed.

(** C36: a listing query selects exactly the orders of the given customer, in the
    given status, created at or after midnight of the start date and at or before
    midnight of the end date, each condition only when its parameter is present.
    In particular an order created during the end date, after its first instant, is
    not selected. *)
Theorem listing_query_semantics (r : Request) (f : OrderFilter) (o : Order) :
  order_handler.parseFilter r = Ok f ->
  (matchesOrder o f = true <->
   (rq_query r "customer_id" = "" \/
    exists c, uuid_Parse (rq_query r "customer_id") = Some c /\ o_CustomerID o = c) /\
   (rq_query r "status" = "" \/
    exists s, ParseOrderStatus (rq_query r "status") = Ok s /\ o_Status o = s) /\
   (rq_query r "start_date" = "" \/
    exists t, ParseDate (rq_query r "start_date") = Some t /\ t <= o_CreatedAt o) /\
   (rq_query r "end_date" = "" \/
    exists t, ParseDate (rq_query r "end_date") = Some t /\ o_CreatedAt o <= t)) /\
  (forall t n, rq_query r "end_date" <> "" -> ParseDate (rq_query r "end_date") = Some t ->
     0 < n < day_ns -> o_CreatedAt o = t + n -> matchesOrder o f = false).
Proof.
  intros Hf. destruct (parseFilter_fields _ _ Hf) as ([m1 Hc] & [m2 Hs] & [m3 Ha] & [m4 Hb]).
  assert (Hiff : matchesOrder o f = true <-> _) by (unfold matchesOrder; rewrite !andb_true_iff;
    rewrite (optional_meaning _ _ _ _ _ (fun c => o_CustomerID o = c) Hc)
      by (intros; apply bool_decide_eq_true);
    rewrite (optional_meaning _ _ _ _ _ (fun s => o_Status o = s) Hs)
      by (intros; apply bool_decide_eq_true);
    rewrite (optional_meaning _ _ _ _ _ (fun t => t <= o_CreatedAt o) Ha)
      by (intros; rewrite negb_true_iff, Z.ltb_ge; done);
    rewrite (optional_meaning _ _ _ _ _ (fun t => o_CreatedAt o <= t) Hb)
      by (intros; rewrite negb_true_iff, Z.ltb_ge; done);
    reflexivity).
  setoid_rewrite res_option_Some in Hiff. rewrite !Logic.and_assoc in Hiff. split; [exact Hiff|].
  intros t n Hne Ht Hn Ho. apply not_true_iff_false. rewrite Hiff.
  intros (_ & _ & _ & [?|(t' & Ht' & Hle)]); [done|]. assert (t' = t) by congruence. lia.
Qed.
End filter_facts.

Definition demo_query (key : string) : string :=
  if bool_decide (key = "status") then "paid" else if bool_decide (key = "end_date") then "2024-02-29" else "".
Definition demo_listing : Request :=
  mkRequest "GET" "/api/orders" (fun _ => "") demo_query (fun _ => "") "" (mkCtx None None None).
(** Created at noon of the end date. *)
Definition noon_order : Order :=
  mkOrder 1 100 StatusPaid (mkMoney 0) 9 (19782 * day_ns + 43200000000000) 0 None.

Lemma listing_query_semantics_witness :
  exists f, @order_handler.parseFilter bit_text no_tables demo_listing = Ok f /\ matchesOrder noon_order f = false.
Proof.
  assert (Hf : @order_handler.parseFilter bit_text no_tables demo_listing =
    Ok (mkOrderFilter None (Some StatusPaid) None (Some (19782 * day_ns)) 0 0)) by (vm_compute; reflexivity).
  eexists. split; [exact Hf|].
  refine (proj2 (@listing_query_semantics bit_text no_tables demo_listing _ noon_order Hf)
            (19782 * day_ns) 43200000000000 _ _ _ _).
  - discriminate.
  - vm_compute. reflexivity.
  - unfold day_ns, second_ns. lia.
  - reflexivity.
Defined.
