(* ===== verification/Server.v ===== *)
(** Server: the router of internal/server: the route table with its guards, the
    middleware chain around it, and what the chain guarantees for every handler,
    every token and every answer of the services. *)
From S2P Require Import Prelude Errors Effects GoStrings Uuid Calendar Money Pagination Catalog Customer Product Auth OrderModel OrderRepo OrderService Bodies Http Handlers.

(** ** Endpoints of the server itself (health.go, router.go, openapi) *)
Definition health : Handler := fun _ =>
  respond (mkResponse StatusOK [("Content-Type", "application/json")] (JsonBody (JObj [("status", JStr "ok")]))).

Definition listUsers : Handler := fun _ =>
  respond (mkResponse StatusOK [("Content-Type", "application/json")] (JsonBody (JObj [("users", JArr [])]))).

Definition SwaggerUIPath : string := "/swagger/index.html".

Definition swaggerHTML : string := quoted "<!DOCTYPE html>
<html lang='en'>
<head>
  <meta charset='UTF-8'>
  <title>Order Service API</title>
  <link rel='stylesheet' href='https://unpkg.com/swagger-ui-dist@5/swagger-ui.css'>
</head>
<body>
  <div id='swagger-ui'></div>
  <script src='https://unpkg.com/swagger-ui-dist@5/swagger-ui-bundle.js'></script>
  <script>
    window.onload = function () {
      window.ui = SwaggerUIBundle({ url: '/swagger/openapi.yaml', dom_id: '#swagger-ui' });
    };
  </script>
</body>
</html>".

Definition SwaggerUIHandler : Handler := fun _ =>
  respond (mkResponse StatusOK [("Content-Type", "text/html; charset=utf-8")] (TextBody swaggerHTML)).

Definition SpecHandler (specYAML : string) : Handler := fun _ =>
  respond (mkResponse StatusOK [("Content-Type", "application/yaml")] (TextBody specYAML)).

(** ** Routes *)
Inductive guard :=
| AnyRole (roles : list string)
| HasAction (action : Action).

Definition guarded (g : option guard) (h : Handler) : Handler :=
  match g with
  | None => h
  | Some (AnyRole roles) => Authenticator (RequireAnyRole roles h)
  | Some (HasAction a) => Authenticator (RequireAction a h)
  end.

Record route := mkRoute {
  rt_method : option string;
  rt_pattern : string;
  rt_guard : option guard;
  rt_handler : Handler;
}.

Definition mount (prefix : string) (g : option guard) (rs : list (string * string * Handler)) : list route :=
  (fun x => mkRoute (Some x.1.1) (prefix +:+ x.1.2) g x.2) <$> rs.

(** What the router package and the assets provide: the index of the route a request
    is dispatched to, the answers for unmatched requests, the metrics exposition and
    the embedded API document. *)
Class Platform := {
  dispatch : list (option string * string) -> Request -> option nat;
  unmatched : Request -> Response;
  metrics_exposition : Response;
  spec_yaml : string;
}.

Section server.
Context `{!UuidText, !CaseTables, !LocalZone, !Platform} (m : auth.TokenManager).

Definition staff : guard := AnyRole [auth.RoleAdmin; auth.RoleOperator].

Definition public_routes : list route :=
  [mkRoute (Some "GET") "/health" None health;
   mkRoute None "/metrics" None (fun _ => respond metrics_exposition);
   mkRoute (Some "GET") SwaggerUIPath None SwaggerUIHandler;
   mkRoute (Some "GET") "/swagger/openapi.yaml" None (SpecHandler spec_yaml)]
  ++ mount "/api/auth" None (auth_handler.Routes m).

Definition protected_routes : list route :=
  mkRoute (Some "GET") "/api/users" (Some (HasAction ActionListUsers)) listUsers
  :: mount "/api/customers" (Some staff) customer_handler.Routes
  ++ mount "/api/products" (Some staff) product_handler.Routes
  ++ mount "/api/orders" (Some staff) order_handler.Routes.

Definition routes : list route := public_routes ++ protected_routes.

(** A mounted subrouter answers what none of its routes matches, after the middleware of
    its mount. *)
Definition fallback (prefix : string) (g : option guard) : route :=
  mkRoute None (prefix +:+ "/*") g (fun r => respond (unmatched r)).

Definition fallbacks : list route :=
  [fallback "/api/auth" None; fallback "/api/customers" (Some staff);
   fallback "/api/products" (Some staff); fallback "/api/orders" (Some staff)].

(** What chi is given: the endpoints and the mounts. *)
Definition table : list route := routes ++ fallbacks.

Definition router : Handler := fun r =>
  match dispatch ((fun rt => (rt_method rt, rt_pattern rt)) <$> table) r with
  | Some i =>
      match table !! i with
      | Some rt => guarded (rt_guard rt) (rt_handler rt) r
      | None => respond (unmatched r)
      end
  | None => respond (unmatched r)
  end.

Definition New : Handler := RequestID (Recovery (Logging router)).
End server.

(** ** The gate: no service call of a customer, product or order without a verified
    token of a permitted role

    [token] is the bearer token of the request that is served; the only token ever
    verified is that one. *)
Section gate.
Context (token : option string).

Definition gate_allowed {X} (s : option auth.Claims) (e : httpE X) : Prop :=
  match e with
  | HOrder _ | HCustomer _ | HProduct _ =>
      exists c, s = Some c /\ auth.CRole c ∈ [auth.RoleAdmin; auth.RoleOperator]
  | HVerify t => token = Some t
  | _ => True
  end.

Definition gate_next {X} (s : option auth.Claims) (e : httpE X) : X -> option auth.Claims :=
  match e in httpE X return X -> option auth.Claims with
  | HVerify _ => fun x => match x with Ok c => Some c | _ => None end
  | _ => fun _ => s
  end.

Definition gate : protocol httpE (option auth.Claims) :=
  mkProtocol (fun X => @gate_allowed X) (fun X s e x => True) (fun X => @gate_next X).
End gate.

(** A handler answers or panics. *)
Definition no_err (x : res Response) : Prop := match x with Err _ => False | _ => True end.

(** A handler that may run in state [s], whatever the request with this token. *)
Definition runs_in (token : option string) (s : option auth.Claims) (h : Handler) : Prop :=
  forall r, bearerToken r = token -> conforms (gate token) s (h r) (fun _ => no_err).

Section gate_rules.
Context (token : option string).
#[local] Abbreviation gate := (gate token) (only parsing).

Lemma conforms_answer {A} s (p : prog httpE (res A)) ok :
  conforms gate s p (fun _ _ => True) -> conforms gate s (answer p ok) (fun _ => no_err).
Proof. intros Hp. apply conforms_bind. eapply conforms_mono; [|exact Hp]. by intros s' [a|e|why]. Qed.

Lemma conforms_or_write {A} s (x : res A) f :
  (forall a, conforms gate s (f a) (fun _ => no_err)) ->
  conforms gate s (or_write x f) (fun _ => no_err).
Proof. intros Hf. destruct x as [a|e|why]; [apply Hf|done..]. Qed.

Definition permitted_state (s : option auth.Claims) : Prop :=
  exists c, s = Some c /\ auth.CRole c ∈ [auth.RoleAdmin; auth.RoleOperator].

Lemma conforms_order_svc {A} s (p : prog orderE A) :
  permitted_state s -> conforms gate s (order_svc p) (fun _ _ => True).
Proof. intros Hs. eapply conforms_mono; [|apply conforms_plug]; [done|]. by split. Qed.
Lemma conforms_customer_svc {A} s (p : prog customer.customerE A) :
  permitted_state s -> conforms gate s (customer_svc p) (fun _ _ => True).
Proof. intros Hs. eapply conforms_mono; [|apply conforms_plug]; [done|]. by split. Qed.
Lemma conforms_product_svc {A} s (p : prog product.productE A) :
  permitted_state s -> conforms gate s (product_svc p) (fun _ _ => True).
Proof. intros Hs. eapply conforms_mono; [|apply conforms_plug]; [done|]. by split. Qed.
Lemma conforms_auth_svc {A} s (p : prog auth.authE A) :
  conforms gate s (auth_svc p) (fun _ _ => True).
Proof. eapply conforms_mono; [|apply conforms_plug]; [done|]. by split. Qed.

End gate_rules.

#[export] Hint Resolve conforms_answer conforms_or_write conforms_order_svc conforms_customer_svc
  conforms_product_svc conforms_auth_svc : go_inv.

Section gate_facts.
Context `{!UuidText, !CaseTables, !LocalZone, !Platform} (m : auth.TokenManager) (token : option string).

Lemma Forall_mount (P : option guard -> Handler -> Prop) prefix g rs :
  Forall (fun x => P g x.2) rs -> Forall (fun rt => P (rt_guard rt) (rt_handler rt)) (mount prefix g rs).
Proof. intros Hrs. unfold mount. apply Forall_fmap. exact Hrs. Qed.

Lemma Can_list_users role : Can role ActionListUsers = true -> role = auth.RoleAdmin.
Proof.
  unfold Can. replace (matrix !! ActionListUsers) with (Some admin_only) by reflexivity. cbn.
  unfold admin_only. destruct (decide (role = auth.RoleAdmin)) as [->|Ha]; [done|].
  destruct (decide (role = auth.RoleOperator)) as [->|Ho]; [by vm_compute|].
  by rewrite !lookup_insert_ne by done.
Qed.

Lemma guarded_runs g h s :
  (forall s', permitted_state s' -> runs_in token s' h) ->
  match g with AnyRole roles => roles = [auth.RoleAdmin; auth.RoleOperator] | HasAction a => a = ActionListUsers end ->
  runs_in token s (guarded (Some g) h).
Proof.
  intros Hh Hg r Ht. destruct g as [roles|a]; subst roles || subst a; cbn; unfold Authenticator;
    (destruct (bearerToken r) as [t|] eqn:Hr; [|done]);
    (apply conforms_bind, conforms_call; [cbn; congruence|]; intros [c|e|why] _; [|done..]);
    unfold RequireAnyRole, RequireAction, require; cbn.
  - case_bool_decide as Hrole; [|done]. apply Hh; [by exists c|by etrans; [exact Hr|]].
  - destruct (Can (auth.CRole c) ActionListUsers) eqn:Hcan; [|done]. apply Hh; [|by etrans; [exact Hr|]]. exists c. split; [done|].
    apply Can_list_users in Hcan as ->. set_solver.
Qed.

Lemma staff_runs prefix (rs : list (string * string * Handler)) s :
  (forall s', permitted_state s' -> Forall (fun x => runs_in token s' x.2) rs) ->
  Forall (fun rt => runs_in token s (guarded (rt_guard rt) (rt_handler rt))) (mount prefix (Some staff) rs).
Proof.
  intros Hrs. unfold mount. apply Forall_fmap, Forall_forall. intros x Hx. cbn.
  apply (guarded_runs staff); [|done]. intros s' Hs'. specialize (Hrs s' Hs').
  rewrite Forall_forall in Hrs. by apply Hrs.
Qed.

(** Walk through a handler down to the service call it makes. *)
Ltac handler_runs :=
  intros ? _; cbv beta delta [order_handler.Create order_handler.Get order_handler.List
    order_handler.Cancel order_handler.Ship customer_handler.Create customer_handler.Update
    customer_handler.Deactivate customer_handler.Get customer_handler.List product_handler.Create
    product_handler.Update product_handler.Deactivate product_handler.Get product_handler.List
    auth_handler.Login auth_handler.Register];
  repeat first [progress cbv beta | apply conforms_or_write; intros ? | apply conforms_answer
               | apply conforms_order_svc | apply conforms_customer_svc | apply conforms_product_svc
               | apply conforms_auth_svc | assumption | exact I | case_match].

Lemma orders_run s : permitted_state s -> Forall (fun x => runs_in token s x.2) order_handler.Routes.
Proof. intros Hs. repeat constructor; cbn; handler_runs. Qed.
Lemma customers_run s : permitted_state s -> Forall (fun x => runs_in token s x.2) customer_handler.Routes.
Proof. intros Hs. repeat constructor; cbn; handler_runs. Qed.
Lemma products_run s : permitted_state s -> Forall (fun x => runs_in token s x.2) product_handler.Routes.
Proof. intros Hs. repeat constructor; cbn; handler_runs. Qed.
Lemma auth_run s : Forall (fun x => runs_in token s x.2) (auth_handler.Routes m).
Proof. repeat constructor; cbn; handler_runs. Qed.

Lemma routes_run s : Forall (fun rt => runs_in token s (guarded (rt_guard rt) (rt_handler rt))) (routes m).
Proof.
  unfold routes, public_routes, protected_routes. repeat apply Forall_app_2.
  - by repeat constructor.
  - unfold mount. apply Forall_fmap. apply auth_run.
  - constructor; [|repeat apply Forall_app_2].
    + apply (guarded_runs (HasAction ActionListUsers)); [|done]. by intros s' _ r _.
    + apply staff_runs, customers_run.
    + apply staff_runs, products_run.
    + apply staff_runs, orders_run.
Qed.

Lemma fallbacks_run s : Forall (fun rt => runs_in token s (guarded (rt_guard rt) (rt_handler rt))) fallbacks.
Proof.
  unfold fallbacks, fallback. constructor; [by intros r _|].
  repeat (constructor; [apply (guarded_runs staff); [by intros s' _ r _|done]|]). constructor.
Qed.

Lemma router_runs s : runs_in token s (router m).
Proof.
  intros r Ht. unfold router. destruct (dispatch _ r) as [i|]; [|done].
  destruct (table m !! i) as [rt|] eqn:Hrt; [|done].
  pose proof (Forall_app_2 _ _ _ (routes_run s) (fallbacks_run s)) as Hall.
  rewrite Forall_lookup in Hall. by apply (Hall i rt).
Qed.

(** Every request gets an answer that carries its request id. *)
Definition answered (r : Request) (x : res Response) : Prop :=
  exists resp id, x = Ok resp /\ (HeaderRequestID, id) ∈ rs_headers resp /\
    (rq_header r HeaderRequestID <> "" -> id = rq_header r HeaderRequestID).

Lemma logging_runs s : runs_in token s (Logging (router m)).
Proof.
  intros r Ht. unfold Logging. apply conforms_bind, conforms_call; [exact I|]. intros start _.
  apply conforms_bind_res. eapply conforms_mono; [|by apply router_runs].
  intros s' [resp|e|why] Hx; [|done..].
  apply conforms_bind, conforms_call; [exact I|]. intros stop _.
  apply conforms_bind, conforms_call; [exact I|]. by intros [] _.
Qed.

Lemma recovery_answers s r :
  bearerToken r = token ->
  conforms (gate token) s (Recovery (Logging (router m)) r) (fun _ x => exists resp, x = Ok resp).
Proof.
  intros Ht. unfold Recovery. apply conforms_bind. eapply conforms_mono; [|by apply logging_runs].
  intros s' [resp|e|why] Hx; [cbn; eauto|done|].
  apply conforms_bind, conforms_call; [exact I|]. intros [] _. cbn. eauto.
Qed.

Lemma New_conforms r : bearerToken r = token -> conforms (gate token) None (New m r) (fun _ x => answered r x).
Proof.
  intros Ht. unfold New, RequestID. apply conforms_bind.
  eapply conforms_mono with (Q := fun s id => s = None /\
    (rq_header r HeaderRequestID <> "" -> id = rq_header r HeaderRequestID)).
  - intros s id [-> Hid]. apply conforms_bind_res. eapply conforms_mono; [|by apply recovery_answers].
    intros s' x [resp ->]. exists (set_header HeaderRequestID id resp), id.
    split; [done|]. split; [left|done].
  - case_bool_decide as Hid; [|by split]. split; [exact I|]. by intros id _.
Qed.
End gate_facts.

(** ** Properties *)

(** C9: for every request, token verifier, router decision and answer of the
    services, the only token that is verified is the bearer token of this very request,
    and a customer, product or order service is called only after it verified to claims
    whose role is ADMIN or OPERATOR; the response is complete - no handler panic
    escapes - and carries the request id, the inbound one when there was one. *)
Theorem New_is_gated `{!UuidText, !CaseTables, !LocalZone, !Platform}
    (m : auth.TokenManager) (r : Request) :
  conforms (gate (bearerToken r)) None (New m r)
    (fun _ x => exists resp id, x = Ok resp /\ (HeaderRequestID, id) ∈ rs_headers resp /\
       (rq_header r HeaderRequestID <> "" -> id = rq_header r HeaderRequestID)).
Proof. by apply New_conforms. Qed.
