(* ===== verification/OpenApi.v ===== *)
(** OpenApi: the API document internal/openapi/openapi.yaml as data, its schemas as
    types of JSON texts, and the proof that every documented operation only sends the
    documented statuses with bodies of the documented types and, in an error, only texts
    meant for clients. *)
From S2P Require Import Prelude Errors Effects GoStrings Uuid Calendar Json JsonText JsonDecode Money Pagination Catalog Customer Product Auth OrderModel OrderRepo OrderService Bodies Http Handlers Server.

(** ** Schemas *)
Inductive schema :=
| TString
| TUuid
| TEmail
| TDateTime
| TEnum (l : list string)
| TInteger
| TNumber
| TBoolean
| TArray (s : schema)
| TObject (fields : list (string * schema)).

Definition ErrorResponse : schema := TObject [("error", TObject [
  ("code", TEnum ["VALIDATION_ERROR"; "UNAUTHORIZED"; "FORBIDDEN"; "RESOURCE_NOT_FOUND"; "DUPLICATE_RESOURCE";
                  "INVALID_ORDER_STATUS"; "INACTIVE_CUSTOMER"; "INACTIVE_PRODUCT"; "INTERNAL_ERROR"]);
  ("message", TString)])].

Definition HealthResponse : schema := TObject [("status", TString)].

Definition TokenResponse : schema :=
  TObject [("access_token", TString); ("token_type", TString); ("expires_in", TInteger)].

Definition UserResponse : schema :=
  TObject [("id", TUuid); ("name", TString); ("email", TEmail); ("role", TString)].

(** What the registration sends: its service does not look at the format of the e-mail. *)
Definition UserView : schema :=
  TObject [("id", TUuid); ("name", TString); ("email", TString); ("role", TString)].

Definition CustomerResponse : schema := TObject [
  ("id", TUuid); ("name", TString); ("document", TString); ("email", TString); ("phone", TString);
  ("active", TBoolean); ("created_at", TDateTime); ("updated_at", TDateTime)].

Definition page_of (item : schema) : schema := TObject [
  ("items", TArray item); ("page", TInteger); ("page_size", TInteger); ("total", TInteger);
  ("total_pages", TInteger)].

Definition CustomerPage : schema := page_of CustomerResponse.

Definition ProductResponse : schema := TObject [
  ("id", TUuid); ("name", TString); ("sku", TString); ("price", TNumber); ("active", TBoolean);
  ("created_at", TDateTime); ("updated_at", TDateTime)].

Definition ProductPage : schema := page_of ProductResponse.

Definition OrderStatusSchema : schema :=
  TEnum ["CREATED"; "PROCESSING"; "PAID"; "SHIPPED"; "CANCELED"; "FAILED"].

Definition OrderItemResponse : schema := TObject [
  ("product_id", TUuid); ("quantity", TInteger); ("unit_price", TNumber); ("total_price", TNumber)].

Definition OrderResponse : schema := TObject [
  ("id", TUuid); ("customer_id", TUuid); ("status", OrderStatusSchema); ("total_amount", TNumber);
  ("items", TArray OrderItemResponse); ("created_at", TDateTime)].

Definition OrderPage : schema := page_of OrderResponse.

(** ** Operations: method, path and the documented responses

    GET /metrics is left out: the Prometheus client library writes its answer. *)
Inductive media :=
| NoContent
| Json (s : schema)
| Html.

Record operation := mkOperation {
  op_method : string;
  op_path : string;
  op_responses : list (Z * media);
}.

Definition failures (statuses : list Z) : list (Z * media) := (fun s => (s, Json ErrorResponse)) <$> statuses.

Definition operations : list operation := [
  mkOperation "GET" "/health" [(200, Json HealthResponse)];
  mkOperation "GET" "/swagger/index.html" [(200, Html)];
  mkOperation "POST" "/api/auth/login" ((200, Json TokenResponse) :: failures [400; 401; 500]);
  mkOperation "POST" "/api/auth/register" ((201, Json UserResponse) :: failures [400; 409; 500]);
  mkOperation "GET" "/api/customers" ((200, Json CustomerPage) :: failures [400; 401; 403; 500]);
  mkOperation "POST" "/api/customers" ((201, Json CustomerResponse) :: failures [400; 401; 403; 409; 500]);
  mkOperation "GET" "/api/customers/{id}" ((200, Json CustomerResponse) :: failures [400; 401; 403; 404; 500]);
  mkOperation "PUT" "/api/customers/{id}" ((200, Json CustomerResponse) :: failures [400; 401; 403; 404; 409; 500]);
  mkOperation "PATCH" "/api/customers/{id}/deactivate" ((204, NoContent) :: failures [400; 401; 403; 404; 500]);
  mkOperation "GET" "/api/products" ((200, Json ProductPage) :: failures [400; 401; 403; 500]);
  mkOperation "POST" "/api/products" ((201, Json ProductResponse) :: failures [400; 401; 403; 409; 500]);
  mkOperation "GET" "/api/products/{id}" ((200, Json ProductResponse) :: failures [400; 401; 403; 404; 500]);
  mkOperation "PUT" "/api/products/{id}" ((200, Json ProductResponse) :: failures [400; 401; 403; 404; 409; 500]);
  mkOperation "PATCH" "/api/products/{id}/deactivate" ((204, NoContent) :: failures [400; 401; 403; 404; 500]);
  mkOperation "GET" "/api/orders" ((200, Json OrderPage) :: failures [400; 401; 403; 500]);
  mkOperation "POST" "/api/orders" ((201, Json OrderResponse) :: failures [400; 401; 403; 404; 500]);
  mkOperation "GET" "/api/orders/{id}" ((200, Json OrderResponse) :: failures [400; 401; 403; 404; 500]);
  mkOperation "PATCH" "/api/orders/{id}/cancel" ((200, Json OrderResponse) :: failures [400; 401; 403; 404; 500]);
  mkOperation "PATCH" "/api/orders/{id}/ship" ((200, Json OrderResponse) :: failures [400; 401; 403; 404; 500])].

(** [RequiredPaths] of spec.go, and [Load] over the parser and the validator of the
    OpenAPI library. *)
Definition RequiredPaths : list string := [
  "/api/auth/login"; "/api/auth/register"; "/api/customers"; "/api/customers/{id}";
  "/api/customers/{id}/deactivate"; "/api/products"; "/api/products/{id}";
  "/api/products/{id}/deactivate"; "/api/orders"; "/api/orders/{id}"; "/api/orders/{id}/cancel";
  "/api/orders/{id}/ship"].

Definition Load {T} (LoadFromData : string -> res T) (Validate : T -> res unit) (specYAML : string) : res T :=
  match LoadFromData specYAML with
  | Ok doc =>
      match Validate doc with
      | Ok _ => Ok doc
      | Err err => Err (ErrWrap ("validate openapi spec: " +:+ Error err) err)
      | Panic why => Panic why
      end
  | Err err => Err (ErrWrap ("parse openapi spec: " +:+ Error err) err)
  | Panic why => Panic why
  end.

Lemma required_paths_documented : Forall (fun path => path ∈ op_path <$> operations) RequiredPaths.
Proof. apply (bool_decide_unpack _). vm_compute. reflexivity. Qed.

(** ** What an error may say

    The message texts of the source, and the text about an unknown role, which quotes
    the role of the request.  None is the text of an internal error. *)
Definition client_texts : list string := [
  "Authentication required";
  "Email already registered";
  "Internal server error";
  "Invalid authenticated user";
  "Invalid credentials";
  "Invalid or expired token";
  "You do not have permission to perform this action";
  "a customer with this document already exists";
  "a product with this sku already exists";
  "active must be a boolean";
  "could not create customer";
  "could not create order";
  "could not create product";
  "could not create user";
  "could not hash password";
  "could not issue token";
  "could not list customers";
  "could not list orders";
  "could not list products";
  "could not load customer";
  "could not load order for processing";
  "could not load products";
  "could not load user";
  "could not verify document uniqueness";
  "could not verify sku uniqueness";
  "customer document is required";
  "customer name is required";
  "customer not found";
  "customer_id is required";
  "customer_id must be a valid uuid";
  "email is required";
  "end_date must be YYYY-MM-DD";
  "inactive customers cannot create new orders";
  "inactive products cannot be used in new orders";
  "invalid customer id";
  "invalid order id";
  "invalid product id";
  "invalid request body";
  "item quantity must be greater than zero";
  "name is required";
  "order cannot enter processing from its current status";
  "order must have at least one item";
  "order not found";
  "order was created but could not be queued for processing";
  "page must be an integer";
  "page must be greater than zero";
  "page_size exceeds the maximum of 100";
  "page_size must be an integer";
  "page_size must be greater than zero";
  "password must be at least 6 characters";
  "password must be at most 72 bytes";
  "product name is required";
  "product not found";
  "product price must be greater than zero";
  "product sku is required";
  "product_id is required";
  "repository error";
  "start_date must be YYYY-MM-DD";
  "status must be a valid order status";
  "only CREATED orders can be canceled";
  "only PAID orders can be shipped"].

Definition client_text `{!CaseTables} (message : string) : Prop :=
  message ∈ client_texts \/ exists role, message = Error (auth.role_error role).

(** An error body only carries such a text. *)
Definition no_leak `{!CaseTables} (r : Response) : Prop :=
  forall code message, rs_body r = JsonBody (errorResponse code message) -> client_text message.

(** ** What it means for a text to have a schema *)
Definition integer_literal (lit : bytes) : bool :=
  isValidNumber lit && forallb (fun c => bool_decide (is_Some (digit_val c)) || bool_decide (c = minus_chr)) lit.

Definition member (key : string) (ms : list (bytes * jval)) : option jval :=
  snd <$> head (filter (fun m => bool_decide (m.1 = to_bytes key) = true) ms).

(** The format [email], a mailbox of RFC 5321 (section 4.1.2): atoms separated by dots,
    an at sign, and a domain of labels.  Quoted local parts and address literals, which
    the grammar also has, are not counted. *)
Definition alphanumeric (c : ascii) : bool :=
  let z := byte_of c in ((48 <=? z) && (z <=? 57)) || ((65 <=? z) && (z <=? 90)) || ((97 <=? z) && (z <=? 122)).

Definition atext (c : ascii) : bool := alphanumeric c || bool_decide (c ∈ to_bytes "!#$%&'*+-/=?^_`{|}~").
Definition label_char (c : ascii) : bool := alphanumeric c || bool_decide (c ∈ to_bytes "-").

Definition dotted (ok : ascii -> bool) (l : bytes) : bool :=
  forallb (fun part => bool_decide (part <> []) && forallb ok part) (split_on dot_chr l).

Definition email_format (s : string) : bool :=
  match split_on (chr 64) (to_bytes s) with
  | [local; domain] => bool_decide (is_ascii s) && dotted atext local && dotted label_char domain
  | _ => false
  end.

Example email_formats :
  email_format "bob.smith@x-1.io" = true /\ email_format "bob" = false /\ email_format "bob@" = false /\
  email_format "bob smith@x.io" = false /\ email_format "a@b@c" = false.
Proof. split_and!; vm_compute; reflexivity. Qed.

Lemma email_format_ascii s : email_format s = true -> is_ascii s.
Proof.
  unfold email_format. destruct (split_on _ _) as [|l [|d [|]]]; try done.
  rewrite !andb_true_iff. intros [[H _] _]. by apply bool_decide_eq_true in H.
Qed.

Section typing.
Context `{!UuidText, !LocalZone, !CaseTables}.

Fixpoint jval_has (s : schema) (v : jval) : bool :=
  match s, v with
  | TString, JVStr _ _ => true
  | TUuid, JVStr _ text => bool_decide (is_Some (uuid_Parse (of_bytes text)))
  | TEmail, JVStr _ text => email_format (of_bytes text)
  | TDateTime, JVStr raw _ => bool_decide (is_Some (parse_rfc3339 raw))
  | TEnum l, JVStr _ text => bool_decide (of_bytes text ∈ l)
  | TInteger, JVNum lit => integer_literal lit
  | TNumber, JVNum lit => isValidNumber lit
  | TBoolean, JVBool _ => true
  | TArray s, JVArr vs => forallb (jval_has s) vs
  | TObject ss, JVObj ms =>
      forallb (fun ks => match member ks.1 ms with Some v => jval_has ks.2 v | None => false end) ss
  | _, _ => false
  end.

(** A response answers one of the documented ones.  The bytes of a JSON body are one
    value of the schema; they are missing when the encoder failed, which it does on
    the amount -2^63 cents and on an instant outside the years 0 to 9999.  An error
    says one of the texts above. *)
Definition documented (responses : list (Z * media)) (r : Response) : Prop :=
  exists m, (rs_status r, m) ∈ responses /\ no_leak r /\
  match m with
  | NoContent => rs_body r = NoBody
  | Html => exists s, rs_body r = TextBody s
  | Json s => exists v, rs_body r = JsonBody v /\
      match render v with
      | Some text => exists jv, unmarshal_value (body_text (rs_body r)) = Some jv /\ jval_has s jv = true
      | None => body_text (rs_body r) = []
      end
  end.
End typing.

(** ** Trees of a schema *)
Section trees.
Context `{!UuidText, !LocalZone}.

(** The keys of an object schema are distinct ASCII strings. *)
Definition keys_ok (keys : list string) : bool :=
  bool_decide (NoDup keys) && forallb (fun k => bool_decide (is_ascii k)) keys.

Inductive has_type : schema -> json -> Prop :=
| ty_string s : has_type TString (JStr s)
| ty_uuid u : has_type TUuid (JUuid u)
| ty_uuid_text u : has_type TUuid (JStr (uuid_String u))
| ty_email s : email_format s = true -> has_type TEmail (JStr s)
| ty_time t : has_type TDateTime (JTime t)
| ty_enum l s : s ∈ l -> Forall is_ascii l -> has_type (TEnum l) (JStr s)
| ty_int z : has_type TInteger (JInt z)
| ty_token s : has_type TNumber (JToken s)
| ty_bool b : has_type TBoolean (JBool b)
| ty_array s l : Forall (has_type s) l -> has_type (TArray s) (JArr l)
| ty_object ss fields :
    keys_ok ss.*1 = true ->
    Forall2 (fun ks kv => ks.1 = kv.1 /\ has_type ks.2 kv.2) ss fields -> has_type (TObject ss) (JObj fields).

Lemma integer_fmt_d z : integer_literal (fmt_d z) = true.
Proof.
  unfold integer_literal. rewrite isValidNumber_fmt_d. cbn [andb]. apply forallb_forall. intros c Hc.
  apply list_elem_of_In in Hc. apply orb_true_iff. rewrite !bool_decide_eq_true. revert Hc.
  assert (Hd : forall n, c ∈ digits n -> is_Some (digit_val c))
    by (intros n; pose proof (digits_digits n) as Hall; rewrite Forall_forall in Hall; apply Hall).
  unfold fmt_d. destruct (z <? 0); [|by left; eapply Hd].
  rewrite elem_of_cons. intros [->|Hc]; [by right|left; by eapply Hd].
Qed.

(** The member of a key, among fields in the order of the schema. *)
Lemma member_skip key k (v : jval) ms :
  is_ascii k -> k <> key -> member key ((valid_utf8 (to_bytes k), v) :: ms) = member key ms.
Proof.
  intros Hk Hne. unfold member. rewrite filter_cons. cbn [fst]. rewrite valid_utf8_ascii by done.
  rewrite bool_decide_eq_false_2; [by rewrite decide_False|].
  intros Heq. apply Hne. by rewrite <- (of_to_bytes k), Heq, of_to_bytes.
Qed.

Lemma member_head key (v : jval) ms :
  is_ascii key -> member key ((valid_utf8 (to_bytes key), v) :: ms) = Some v.
Proof.
  intros Hk. unfold member. rewrite filter_cons. cbn [fst]. rewrite valid_utf8_ascii by done.
  rewrite bool_decide_eq_true_2 by done. by rewrite decide_True.
Qed.

Lemma members_have (P : schema -> jval -> bool) ss fields :
  keys_ok ss.*1 = true ->
  Forall2 (fun ks kv => ks.1 = kv.1 /\ P ks.2 (shape kv.2) = true) ss fields ->
  forallb (fun ks => match member ks.1 ((fun kv => (valid_utf8 (to_bytes kv.1), shape kv.2)) <$> fields) with
                     | Some v => P ks.2 v | None => false end) ss = true.
Proof.
  intros Hkeys Hall. apply andb_true_iff in Hkeys as [Hnd Hasc]. apply bool_decide_eq_true in Hnd.
  rewrite forallb_forall in Hasc.
  assert (Hasc' : Forall is_ascii ss.*1).
  { apply Forall_forall. intros k Hk. apply list_elem_of_In, Hasc, bool_decide_eq_true in Hk. done. }
  clear Hasc. apply forallb_forall. intros ks Hks. apply list_elem_of_In in Hks. revert ks Hks.
  induction Hall as [|ks kv ss fields [Hk Hv] Hall IH]; intros ks' Hks; [by apply elem_of_nil in Hks|].
  rewrite fmap_cons, NoDup_cons in Hnd. destruct Hnd as [Hnin Hnd].
  rewrite fmap_cons, Forall_cons in Hasc'. destruct Hasc' as [Ha Hasc'].
  rewrite fmap_cons. destruct kv as [k v]. cbn [fst snd] in *. subst k.
  apply elem_of_cons in Hks as [->|Hks]; [by rewrite member_head|].
  rewrite member_skip; [by apply IH|done|]. intros Heq. apply Hnin. rewrite Heq.
  apply list_elem_of_fmap. by exists ks'.
Qed.

Lemma render_fields (fields : list (string * json)) text :
  render (JObj fields) = Some text -> Forall (fun kv => is_Some (render kv.2)) fields.
Proof.
  cbn [render]. destruct (mapM _ fields) as [texts|] eqn:Hm; [|done]. intros _.
  apply mapM_Some in Hm. induction Hm as [|kv t fields texts Hkv _ IH]; constructor; [|done].
  by destruct (render kv.2).
Qed.

Lemma render_array l text : render (JArr l) = Some text -> Forall (fun v => is_Some (render v)) l.
Proof.
  cbn [render]. destruct (mapM _ l) as [texts|] eqn:Hm; [|done]. intros _.
  apply mapM_Some in Hm. induction Hm; constructor; [by eexists|done].
Qed.

Fixpoint type_height (s : schema) : Z :=
  match s with
  | TArray s => 1 + Z.max 0 (type_height s)
  | TObject ss => 1 + fold_right Z.max 0 ((fun ks => type_height ks.2) <$> ss)
  | _ => 0
  end.

Lemma typed_height v : forall s, has_type s v -> height v <= type_height s.
Proof.
  induction v as [|b|z|str|str|u|t|l IH|fields IH] using json_nested_ind; intros s Hty; inversion Hty; subst; try done.
  - match goal with Hl : Forall (has_type _) l |- _ => rename Hl into Hall end. clear Hty.
    cbn [height type_height]. apply Z.add_le_mono_l.
    induction Hall as [|v l Hv _ IHl]; cbn [fmap list_fmap fold_right]; [lia|].
    inversion IH as [|? ? IH1 IH2]; subst. specialize (IHl IH2). specialize (IH1 _ Hv). lia.
  - match goal with Hl : Forall2 _ _ fields |- _ => rename Hl into Hall end. clear Hty.
    cbn [height type_height]. apply Z.add_le_mono_l. clear -IH Hall.
    induction Hall as [|ks kv ss fields [_ Hv] _ IHl]; cbn [fmap list_fmap fold_right]; [lia|].
    inversion IH as [|? ? IH1 IH2]; subst. specialize (IHl IH2). specialize (IH1 _ Hv). lia.
Qed.

Lemma typed_shape v : forall s, has_type s v -> is_Some (render v) -> jval_has s (shape v) = true.
Proof.
  induction v as [|b|z|str|str|u|t|l IH|fields IH] using json_nested_ind; intros s Hty Hr; inversion Hty; subst; cbn [shape jval_has].
  - done.
  - apply integer_fmt_d.
  - done.
  - apply bool_decide_eq_true_2. rewrite valid_utf8_ascii, of_to_bytes by apply uuid_String_ascii.
    rewrite uuid_Parse_String. by eexists.
  - rewrite valid_utf8_ascii, of_to_bytes by by apply email_format_ascii. done.
  - match goal with Hl : Forall is_ascii ?l, Hs : _ ∈ ?l |- _ => pose proof (proj1 (Forall_forall _ _) Hl _ Hs) end.
    apply bool_decide_eq_true_2. by rewrite valid_utf8_ascii, of_to_bytes.
  - destruct Hr as [text Hr]. cbn in Hr. by destruct (isValidNumber _).
  - apply bool_decide_eq_true_2. rewrite of_to_bytes, uuid_Parse_String. by eexists.
  - apply bool_decide_eq_true_2. destruct Hr as [text Hr]. cbn [render] in Hr.
    destruct (format_rfc3339 t) as [l|] eqn:Ht; [|done]. cbn. rewrite (parse_format_rfc3339 _ _ Ht). by eexists.
  - destruct Hr as [text Hr]. apply render_array in Hr. apply forallb_forall. intros v Hv.
    apply list_elem_of_In, list_elem_of_fmap in Hv as (w & -> & Hw).
    match goal with Hl : Forall (has_type _) _ |- _ => pose proof (proj1 (Forall_forall _ _) Hl _ Hw) end.
    rewrite Forall_forall in IH, Hr. by apply IH; [| |apply Hr].
  - destruct Hr as [text Hr]. apply render_fields in Hr. apply members_have; [done|].
    match goal with Hall : Forall2 _ _ _ |- _ => clear -IH Hr Hall; rename Hall into Hfields end.
    induction Hfields as [|ks kv ss fields [Hk Hv] Hall IHall]; constructor.
    + inversion IH; inversion Hr; subst. split; [done|]. auto.
    + inversion IH; inversion Hr; subst. auto.
Qed.
End trees.

(** ** The views have the documented types *)
Section views.
Context `{!UuidText, !LocalZone, !CaseTables}.

Ltac solve_view := apply ty_object; [vm_compute; reflexivity|]; repeat constructor.

Lemma customer_typed c : has_type CustomerResponse (customer_json c).
Proof. solve_view. Qed.

Lemma product_typed p : has_type ProductResponse (product_json p).
Proof. solve_view. Qed.

Lemma token_typed t : has_type TokenResponse (token_json t).
Proof. solve_view. Qed.

Lemma user_view_typed u : (exists id, auth.ur_ID u = uuid_String id) -> has_type UserView (user_json u).
Proof. intros [id Hid]. unfold user_json. rewrite Hid. solve_view. Qed.

Lemma user_typed u :
  (exists id, auth.ur_ID u = uuid_String id) -> email_format (auth.ur_Email u) = true ->
  has_type UserResponse (user_json u).
Proof. intros [id Hid] He. unfold user_json. rewrite Hid. solve_view. exact He. Qed.

Lemma order_item_typed i : has_type OrderItemResponse (order_item_json i).
Proof. solve_view. Qed.

Lemma order_typed o : oo_Status o ∈ allStatuses -> has_type OrderResponse (order_json o).
Proof.
  intros Hs. apply ty_object; [vm_compute; reflexivity|].
  repeat (apply Forall2_cons; split; [split; [done|]|]); try apply Forall2_nil_2; try by repeat constructor.
  - cbn. apply ty_enum; [exact Hs|]. apply (bool_decide_unpack (Forall is_ascii allStatuses)). by vm_compute.
  - cbn. apply ty_array, Forall_fmap, Forall_forall. intros i _. apply order_item_typed.
Qed.

Lemma page_typed {A} (f : A -> json) item p :
  Forall (fun a => has_type item (f a)) (pg_Items p) -> has_type (page_of item) (page_json f p).
Proof.
  intros Hf. apply ty_object; [vm_compute; reflexivity|].
  repeat (apply Forall2_cons; split; [split; [done|]|]); try apply Forall2_nil_2; try by repeat constructor.
  by apply ty_array, Forall_fmap.
Qed.

Lemma customer_page_typed p : has_type CustomerPage (page_json customer_json p).
Proof. apply page_typed, Forall_forall. intros c _. apply customer_typed. Qed.

Lemma product_page_typed p : has_type ProductPage (page_json product_json p).
Proof. apply page_typed, Forall_forall. intros c _. apply product_typed. Qed.

Lemma order_page_typed p :
  Forall (fun o => oo_Status o ∈ allStatuses) (pg_Items p) -> has_type OrderPage (page_json order_json p).
Proof. intros Hp. apply page_typed. eapply Forall_impl; [exact Hp|]. intros o. apply order_typed. Qed.

Lemma error_typed c m : has_type ErrorResponse (errorResponse c m).
Proof.
  apply ty_object; [vm_compute; reflexivity|]. apply Forall2_cons; split; [split; [done|]|by constructor].
  cbn. apply ty_object; [vm_compute; reflexivity|]. apply Forall2_cons; split; [split; [done|]|by repeat constructor].
  cbn. apply ty_enum; [apply (bool_decide_unpack (_ ∈ _)); by destruct c|].
  apply (bool_decide_unpack (Forall is_ascii _)). by vm_compute.
Qed.

Lemma health_typed : has_type HealthResponse (JObj [("status", JStr "ok")]).
Proof. solve_view. Qed.

(** The bytes of a typed body. *)
Lemma documented_json responses r s v :
  (rs_status r, Json s) ∈ responses -> rs_body r = JsonBody v -> has_type s v ->
  type_height s <= maxNestingDepth -> no_leak r -> documented responses r.
Proof.
  intros Hin Hb Hty Hh Hleak. exists (Json s). split; [done|]. split; [done|]. exists v. split; [done|]. rewrite Hb. cbn [body_text].
  destruct (render v) as [text|] eqn:Hr; [|done]. exists (shape v). split.
  - unfold unmarshal_value. by rewrite (decode_first_render v text [chr 10]) by (done || (etrans; [by apply typed_height|done])).
  - apply typed_shape; [done|]. by eexists.
Qed.
End views.

(** ** The answers of the services *)

(** What the ports answer: an order they return has one of the six statuses, and
    [uuid.NewString] returns the text of a uuid.  Errors are arbitrary. *)
Definition repo_answers {X} (e : repoE X) : X -> Prop :=
  match e in repoE X return X -> Prop with
  | FindByID _ => fun x => match x with Ok found => o_Status found.1 ∈ allStatuses | _ => True end
  | ListOrders _ => fun x =>
      match x with Ok page => Forall (fun o => o_Status o ∈ allStatuses) (pg_Items page) | _ => True end
  | _ => fun _ => True
  end.

Definition order_answers {X} (e : orderE X) : X -> Prop :=
  match e in orderE X return X -> Prop with Repo r => repo_answers r | _ => fun _ => True end.

Definition auth_answers `{!UuidText} {X} (e : auth.authE X) : X -> Prop :=
  match e in auth.authE X return X -> Prop with
  | auth.NewString => fun x => exists u, x = uuid_String u
  | _ => fun _ => True
  end.

Definition http_answers `{!UuidText} {X} (e : httpE X) : X -> Prop :=
  match e in httpE X return X -> Prop with
  | HOrder e => order_answers e
  | HAuth e => auth_answers e
  | _ => fun _ => True
  end.

(** Any call is allowed; only the answers are constrained. *)
Definition answering {E : Type -> Type} (ans : forall X, E X -> X -> Prop) : protocol E unit :=
  mkProtocol (fun X _ e => True) (fun X _ e x => ans X e x) (fun X _ e x => tt).

Definition any_answer {E : Type -> Type} : forall X, E X -> X -> Prop := fun _ _ _ => True.

(** A result that is fine, or an application error with one of these statuses and a text
    for clients. *)
Definition yields `{!CaseTables} {A} (statuses : list Z) (good : A -> Prop) (_ : unit) (x : res A) : Prop :=
  match x with
  | Ok a => good a
  | Err e => exists c m st cause, e = ErrApp c m st cause /\ st ∈ statuses /\ client_text m
  | Panic _ => True
  end.

Lemma conforms_svc {E : Type -> Type} `{!UuidText} (ans : forall X, E X -> X -> Prop)
    (f : forall X, E X -> httpE X) {A} (p : prog E A) Q :
  (forall X (e : E X) x, http_answers (f X e) x -> ans X e x) ->
  conforms (answering ans) tt p Q ->
  conforms (answering (@http_answers _)) tt (interp (fun X e => call (f X e)) p) Q.
Proof.
  intros Hans. induction p as [a|X e k IH]; cbn; [done|]. intros [_ Hk]. split; [done|]. intros x Hx.
  apply IH, Hk, Hans, Hx.
Qed.

Lemma yields_error `{!CaseTables} {A} statuses (good : A -> Prop) u c m st cause :
  st ∈ statuses -> client_text m -> yields statuses good u (Err (ErrApp c m st cause)).
Proof. intros Hst Hm. by exists c, m, st, cause. Qed.

(** Walk through a service method, call by call and branch by branch. *)
Ltac listed := apply (bool_decide_unpack (_ ∈ _)); vm_compute; exact I.
Ltac for_client :=
  lazymatch goal with
  | |- client_text (String _ _) => left; listed
  | |- client_text (Error (auth.role_error ?role)) => right; exists role; reflexivity
  | |- _ => assumption
  end.
Ltac app_error := refine (yields_error _ _ _ _ _ _ _ _ _); [listed|for_client].

Ltac walk :=
  repeat first
    [ exact I | app_error
    | apply conforms_bind_err | apply conforms_bind_res | apply conforms_bind
    | (apply conforms_call; [exact I|intros ? ?]) | case_match ].

Section customers.
Context `{!CaseTables}.
Abbreviation port := (answering (E := customer.customerE) any_answer).

Lemma customer_Create input : conforms port tt (customer.Create input) (yields [400; 409; 500] (fun _ => True)).
Proof. unfold customer.Create. walk. Qed.

Lemma customer_Update id input :
  conforms port tt (customer.Update id input) (yields [400; 404; 409; 500] (fun _ => True)).
Proof. unfold customer.Update, customer.mapRepoErr. walk. Qed.

Lemma customer_Deactivate id : conforms port tt (customer.Deactivate id) (yields [404; 500] (fun _ => True)).
Proof. unfold customer.Deactivate, customer.mapRepoErr. walk. Qed.

Lemma customer_FindByID id : conforms port tt (customer.FindByID id) (yields [404; 500] (fun _ => True)).
Proof. unfold customer.FindByID, customer.mapRepoErr. walk. Qed.

Lemma customer_List f : conforms port tt (customer.List f) (yields [400; 500] (fun _ => True)).
Proof. unfold customer.List. walk. Qed.
End customers.

Section products.
Context `{!CaseTables}.
Abbreviation port := (answering (E := product.productE) any_answer).

Lemma product_Create input : conforms port tt (product.Create input) (yields [400; 409; 500] (fun _ => True)).
Proof. unfold product.Create. walk. Qed.

Lemma product_Update id input :
  conforms port tt (product.Update id input) (yields [400; 404; 409; 500] (fun _ => True)).
Proof. unfold product.Update, product.mapRepoErr. walk. Qed.

Lemma product_Deactivate id : conforms port tt (product.Deactivate id) (yields [404; 500] (fun _ => True)).
Proof. unfold product.Deactivate, product.mapRepoErr. walk. Qed.

Lemma product_FindByID id : conforms port tt (product.FindByID id) (yields [404; 500] (fun _ => True)).
Proof. unfold product.FindByID, product.mapRepoErr. walk. Qed.

Lemma product_List f : conforms port tt (product.List f) (yields [400; 500] (fun _ => True)).
Proof. unfold product.List. walk. Qed.
End products.

Section users.
Context `{!UuidText, !LocalZone, !CaseTables} (m : auth.TokenManager).
Abbreviation port := (answering (E := auth.authE) (@auth_answers _)).

Lemma auth_Login req : conforms port tt (auth.Login m req) (yields [401; 500] (fun _ => True)).
Proof. unfold auth.Login. walk. Qed.

Lemma auth_Register req :
  conforms port tt (auth.Register req)
    (yields [400; 409; 500] (fun u => (exists id, auth.ur_ID u = uuid_String id) /\
                                      auth.ur_Email u = auth.normalizeEmail (auth.rr_Email req))).
Proof.
  unfold auth.Register, auth.validateRegister, auth.ParseRole. walk.
  all: simplify_eq; first [app_error | by split].
Qed.
End users.

Section orders.
Context `{!CaseTables}.
Abbreviation port := (answering (E := orderE) (@order_answers)).
Abbreviation known := (fun o => oo_Status o ∈ allStatuses).

Lemma validate_input_status input e :
  validate_input input = Some e -> exists m, e = Validation m /\ client_text m.
Proof.
  unfold validate_input. repeat case_match; intros; simplify_eq; try (eexists; split; [reflexivity|for_client]).
  match goal with H : validate_items ?l = Some _ |- _ => revert H; generalize l end.
  intros l. induction l as [|i l IH]; cbn; [done|]. unfold validate_item. repeat case_match; intros; simplify_eq; try (eexists; split; [reflexivity|for_client]); eauto.
Qed.

Lemma price_line_yields ans pm oid acc line :
  conforms (answering ans) tt (price_line pm oid acc line) (yields [400; 404; 500] (fun _ => True)).
Proof. unfold price_line. walk. Qed.

(** [Create] reads no order, so whatever its ports answer. *)
Lemma order_Create ans by_ input :
  conforms (answering ans) tt (OrderService.Create by_ input) (yields [400; 404; 500] known).
Proof.
  unfold OrderService.Create. destruct (validate_input input) as [e|] eqn:Hv.
  - apply validate_input_status in Hv as (msg & -> & Hmsg). app_error.
  - walk. apply (conforms_for_res _ (fun _ _ _ => True)); [|intros [] acc _|done].
    + intros ? ? ? [] acc _ _. eapply conforms_mono; [|apply price_line_yields]. by intros [] [].
    + unfold persist_and_publish. walk. cbn. apply (bool_decide_unpack (_ ∈ allStatuses)). by vm_compute.
Qed.

Lemma order_transition id to required msg :
  to ∈ allStatuses -> client_text msg -> conforms port tt (transition id to required msg) (yields [400; 404; 500] known).
Proof. intros Hto Hmsg. unfold transition, mapOrderRepoErr. walk. all: done. Qed.

Lemma order_Cancel id : conforms port tt (OrderService.Cancel id) (yields [400; 404; 500] known).
Proof. apply order_transition; [set_solver|for_client]. Qed.

Lemma order_Ship id : conforms port tt (OrderService.Ship id) (yields [400; 404; 500] known).
Proof. apply order_transition; [set_solver|for_client]. Qed.

Lemma order_Find id : conforms port tt (FindOrder id) (yields [404; 500] known).
Proof. unfold FindOrder, mapOrderRepoErr. walk. all: done. Qed.

Lemma order_List f :
  conforms port tt (ListService f) (yields [400; 404; 500] (fun page => Forall known (pg_Items page))).
Proof.
  unfold ListService, validate_page. walk. all: simplify_eq; try app_error.
  apply (conforms_for_res _ (fun _ _ acc => Forall known acc)); [|intros [] acc; exact id|constructor].
  intros pre o post [] acc Hl Hacc. unfold list_item, mapOrderRepoErr. walk. cbn.
  apply Forall_app; split; [done|]. constructor; [|constructor]. cbn.
  match goal with H : possible _ _ (Repo (ListOrders _)) _ |- _ => cbn in H; rewrite Forall_forall in H; apply H end.
  rewrite Hl. set_solver.
Qed.
End orders.

(** ** The handlers *)
Section handlers.
Context `{!UuidText, !LocalZone, !CaseTables}.
Abbreviation http := (answering (@http_answers _)).

(** The outcome of a handler; a panic becomes the 500 of the recovery middleware. *)
Definition answers_in (responses : list (Z * media)) (_ : unit) (x : res Response) : Prop :=
  match x with
  | Ok resp => documented responses resp
  | Err _ => False
  | Panic _ => (500, Json ErrorResponse) ∈ responses
  end.

Definition fails_with (responses : list (Z * media)) (statuses : list Z) : Prop :=
  Forall (fun st => (st, Json ErrorResponse) ∈ responses) statuses.

Lemma documented_error responses c m st cause :
  (st, Json ErrorResponse) ∈ responses -> client_text m ->
  documented responses (Write (ErrApp c m st cause)).
Proof.
  intros Hst Hm. eapply documented_json; [exact Hst|reflexivity|apply error_typed|done|].
  intros c' m' [= _ <-]. exact Hm.
Qed.

Lemma answer_documented {A} (p : prog httpE (res A)) ok statuses good responses :
  conforms http tt p (fun _ => yields statuses good tt) ->
  fails_with responses (500 :: statuses) ->
  (forall a, good a -> documented responses (ok a)) ->
  conforms http tt (answer p ok) (answers_in responses).
Proof.
  intros Hp Hf Hok. apply conforms_bind. eapply conforms_mono; [|exact Hp].
  apply Forall_cons in Hf as [H500 Hf]. rewrite Forall_forall in Hf.
  intros [] [a|e|why]; cbn; [apply Hok| |done].
  intros (c & m & st & cause & -> & Hst & Hm). apply documented_error; [by apply Hf|exact Hm].
Qed.

(** A request error: nothing but a validation error. *)
Definition rejects {A} (x : res A) : Prop :=
  match x with Ok _ => True | Err e => exists m, e = Validation m /\ client_text m | Panic _ => False end.

Lemma or_write_documented {A} (x : res A) f responses :
  rejects x -> (400, Json ErrorResponse) ∈ responses ->
  (forall a, x = Ok a -> conforms http tt (f a) (answers_in responses)) ->
  conforms http tt (or_write x f) (answers_in responses).
Proof.
  intros Hx H400 Hf. destruct x as [a|e|why]; cbn; [by apply Hf| |done].
  destruct Hx as (m & -> & Hm). by apply documented_error.
Qed.

Lemma rejects_decode {A} (dec : string -> option A) r : rejects (decodeJSON dec r).
Proof. unfold decodeJSON. case_match; cbn; [done|]. eexists; split; [reflexivity|for_client]. Qed.

Lemma rejects_path msg r : client_text msg -> rejects (path_id msg r).
Proof. unfold path_id. case_match; cbn; eauto. Qed.

Lemma rejects_optional {A} raw (parse : string -> option A) msg :
  client_text msg -> rejects (optional raw parse msg).
Proof. unfold optional. repeat case_match; cbn; eauto. Qed.

Lemma rejects_page r : rejects (page_params r).
Proof. unfold page_params. repeat case_match; cbn; [done|..]; eexists; (split; [reflexivity|for_client]). Qed.

Lemma rejects_bind {A B} (x : res A) (f : A -> res B) :
  rejects x -> (forall a, rejects (f a)) -> rejects (bind_ok x f).
Proof. destruct x; cbn; auto. Qed.

Lemma rejects_filters r :
  rejects (order_handler.parseFilter r) /\ rejects (customer_handler.parseFilter r) /\
  rejects (product_handler.parseFilter r).
Proof.
  split_and!; repeat first [(apply rejects_optional; for_client) | apply rejects_page | (apply rejects_bind; [|intros ?])];
    exact I.
Qed.

End handlers.

(** An error that is written at once. *)
Ltac refused := refine (documented_error _ _ _ _ _ _ _); [first [assumption | apply list_elem_of_In; cbn; tauto]|for_client].

(** The guards of a protected route. *)
Section guards.
Context `{!UuidText, !LocalZone, !CaseTables}.
Abbreviation http := (answering (@http_answers _)).

Lemma guarded_documented g h responses r :
  fails_with responses [401; 403; 500] ->
  (forall c, conforms http tt (h (with_ctx c r)) (answers_in responses)) ->
  conforms http tt (guarded (Some g) h r) (answers_in responses).
Proof.
  intros Hf Hh. repeat (apply Forall_cons in Hf as [? Hf]).
  destruct g as [roles|a]; cbn; unfold Authenticator;
    (destruct (bearerToken r) as [token|]; [|refused]);
    (apply conforms_bind, conforms_call; [exact I|]; intros [c|e|why] _; [|refused|done]);
    unfold RequireAnyRole, RequireAction, require; cbn.
  - case_bool_decide; [apply Hh|refused].
  - destruct (Can (auth.CRole c) a); [apply Hh|refused].
Qed.
End guards.

(** ** Every documented operation *)
Section conformance.
Context `{!UuidText, !LocalZone, !CaseTables, !Platform} (m : auth.TokenManager).

(** The path of a route: chi mounts a sub-router's [/] at the prefix itself. *)
Definition path_of (pattern : string) : string :=
  match reverse (to_bytes pattern) with
  | c :: d :: r => if bool_decide (c = chr 47) then of_bytes (reverse (d :: r)) else pattern
  | _ => pattern
  end.

Definition find_operation (method : option string) (pattern : string) : option operation :=
  head (filter (fun op => bool_decide (Some (op_method op) = method) && bool_decide (op_path op = path_of pattern) = true)
          operations).

(** Whether the e-mail address that a registration body gives, as the service stores it,
    has the documented format; a body that is no registration gives none. *)
Definition registers_mailbox (body : string) : bool :=
  match decode_register body with
  | Some req => email_format (auth.normalizeEmail (auth.rr_Email req))
  | None => true
  end.

(** The two answers the document does not list: listing orders loads each listed order
    again, and a missing one is a 404; and the registration of an address that is no
    mailbox is a 201 all the same. *)
Definition undocumented (mailbox : bool) (op : operation) : list (Z * media) :=
  if bool_decide (op_method op = "GET" /\ op_path op = "/api/orders") then failures [404]
  else if bool_decide (op_method op = "POST" /\ op_path op = "/api/auth/register") then
    if mailbox then [] else [(201, Json UserView)]
  else [].

Definition possible_responses (mailbox : bool) (op : operation) : list (Z * media) :=
  op_responses op ++ undocumented mailbox op.

(** The requests whose body gives a mailbox, or those whose body does not. *)
Context (mailbox : bool).

Definition stays_in (h : Handler) (responses : list (Z * media)) : Prop :=
  forall r, registers_mailbox (rq_body r) = mailbox ->
    conforms (answering (@http_answers _)) tt (h r) (answers_in responses).

(** An entry of a [Routes] table answers within these responses. *)
Definition handler_documented (x : string * string * Handler) (responses : list (Z * media)) : Prop :=
  stays_in x.2 responses.

(** From the service's statuses and the type of its view to the route. *)
Ltac among := repeat constructor; apply list_elem_of_In; cbn; tauto.
Ltac in_service lem := eapply answer_documented; [eapply conforms_svc; [|apply lem]; intros ? ? ? ?; (exact I || done)|among|].
Ltac json_of lem := intros ? ?; eapply documented_json; [|reflexivity|by apply lem|by vm_compute|by intros ? ?]; apply list_elem_of_In; cbn; tauto.
Ltac no_content := intros [] _; exists NoContent; split; [apply list_elem_of_In; cbn; tauto|by split].
Ltac reading_path := apply or_write_documented; [apply rejects_path; for_client|apply list_elem_of_In; cbn; tauto|intros ? _].
Ltac reading_body := apply or_write_documented; [apply rejects_decode|apply list_elem_of_In; cbn; tauto|intros ? _].
Ltac reading_filter := apply or_write_documented; [apply rejects_filters|apply list_elem_of_In; cbn; tauto|intros ? _].

Lemma customers_documented :
  Forall2 handler_documented customer_handler.Routes
    [(200, Json CustomerPage) :: failures [400; 401; 403; 500];
     (201, Json CustomerResponse) :: failures [400; 401; 403; 409; 500];
     (200, Json CustomerResponse) :: failures [400; 401; 403; 404; 500];
     (200, Json CustomerResponse) :: failures [400; 401; 403; 404; 409; 500];
     (204, NoContent) :: failures [400; 401; 403; 404; 500]].
Proof.
  repeat (apply Forall2_cons; split; [intros r Hbody; cbn [snd]|]); [..|constructor].
  - unfold customer_handler.List. reading_filter. in_service customer_List. json_of customer_page_typed.
  - unfold customer_handler.Create. reading_body. in_service customer_Create. json_of customer_typed.
  - unfold customer_handler.Get. reading_path. in_service customer_FindByID. json_of customer_typed.
  - unfold customer_handler.Update. reading_path. reading_body. in_service customer_Update. json_of customer_typed.
  - unfold customer_handler.Deactivate. reading_path. in_service customer_Deactivate. no_content.
Qed.

Lemma products_documented :
  Forall2 handler_documented product_handler.Routes
    [(200, Json ProductPage) :: failures [400; 401; 403; 500];
     (201, Json ProductResponse) :: failures [400; 401; 403; 409; 500];
     (200, Json ProductResponse) :: failures [400; 401; 403; 404; 500];
     (200, Json ProductResponse) :: failures [400; 401; 403; 404; 409; 500];
     (204, NoContent) :: failures [400; 401; 403; 404; 500]].
Proof.
  repeat (apply Forall2_cons; split; [intros r Hbody; cbn [snd]|]); [..|constructor].
  - unfold product_handler.List. reading_filter. in_service product_List. json_of product_page_typed.
  - unfold product_handler.Create. reading_body. in_service product_Create. json_of product_typed.
  - unfold product_handler.Get. reading_path. in_service product_FindByID. json_of product_typed.
  - unfold product_handler.Update. reading_path. reading_body. in_service product_Update. json_of product_typed.
  - unfold product_handler.Deactivate. reading_path. in_service product_Deactivate. no_content.
Qed.

Lemma orders_documented :
  Forall2 handler_documented order_handler.Routes
    [(201, Json OrderResponse) :: failures [400; 401; 403; 404; 500];
     ((200, Json OrderPage) :: failures [400; 401; 403; 500]) ++ failures [404];
     (200, Json OrderResponse) :: failures [400; 401; 403; 404; 500];
     (200, Json OrderResponse) :: failures [400; 401; 403; 404; 500];
     (200, Json OrderResponse) :: failures [400; 401; 403; 404; 500]].
Proof.
  repeat (apply Forall2_cons; split; [intros r Hbody; cbn [snd]|]); [..|constructor].
  - unfold order_handler.Create. case_match; [case_match|]; try refused.
    reading_body. in_service order_Create. json_of order_typed.
  - unfold order_handler.List. reading_filter. in_service order_List. json_of order_page_typed.
  - unfold order_handler.Get. reading_path. in_service order_Find. json_of order_typed.
  - unfold order_handler.Cancel. reading_path. in_service order_Cancel. json_of order_typed.
  - unfold order_handler.Ship. reading_path. in_service order_Ship. json_of order_typed.
Qed.

Lemma auth_documented :
  Forall2 handler_documented (auth_handler.Routes m)
    [(200, Json TokenResponse) :: failures [400; 401; 500]; ((201, Json UserResponse) :: failures [400; 409; 500]) ++ (if mailbox then [] else [(201, Json UserView)])].
Proof.
  repeat (apply Forall2_cons; split; [intros r Hbody; cbn [snd]|]); [..|constructor].
  - unfold auth_handler.Login. reading_body. in_service auth_Login. json_of token_typed.
  - unfold auth_handler.Register.
    apply or_write_documented; [apply rejects_decode|apply list_elem_of_In; cbn; tauto|intros req Hreq].
    unfold decodeJSON in Hreq. unfold registers_mailbox in Hbody.
    destruct (decode_register (rq_body r)) as [req'|]; [|done]. injection Hreq as ->.
    in_service auth_Register. intros u [Hid Hemail]. rewrite <- Hemail in Hbody. destruct mailbox.
    + eapply documented_json; [|reflexivity|by apply user_typed|by vm_compute|by intros ? ?]. apply list_elem_of_In; cbn; tauto.
    + eapply documented_json; [|reflexivity|by apply user_view_typed|by vm_compute|by intros ? ?]. apply list_elem_of_In; cbn; tauto.
Qed.

(** The responses of a route, when the document has its operation. *)
Definition route_responses (rt : route) : option (list (Z * media)) :=
  possible_responses mailbox <$> find_operation (rt_method rt) (rt_pattern rt).

Definition route_documented (rt : route) : Prop :=
  match route_responses rt with
  | Some responses => stays_in (guarded (rt_guard rt) (rt_handler rt)) responses
  | None => True
  end.

(** The operations found for a table of handlers mounted under a prefix. *)
Lemma mount_documented prefix g (table : list (string * string * Handler)) responses :
  Forall2 handler_documented table responses ->
  (fun x => possible_responses mailbox <$> find_operation (Some x.1.1) (prefix +:+ x.1.2)) <$> table = Some <$> responses ->
  (forall rs, rs ∈ responses -> match g with Some _ => fails_with rs [401; 403; 500] | None => True end) ->
  Forall route_documented (mount prefix g table).
Proof.
  intros Ht. induction Ht as [|x rs table responses Hx _ IH]; intros Hops Hg; [constructor|].
  injection Hops as Hop Hops. constructor.
  - unfold route_documented, route_responses. cbn [rt_method rt_pattern rt_guard rt_handler]. rewrite Hop.
    intros r Hr. specialize (Hg rs ltac:(left)). destruct g as [g|]; [|exact (Hx r Hr)].
    apply guarded_documented; [done|]. intros c. by apply Hx.
  - apply IH; [done|]. intros rs' Hrs'. apply Hg. by right.
Qed.

Ltac all_among := intros rs Hrs; repeat (apply elem_of_cons in Hrs as [->|Hrs]); try (by apply elem_of_nil in Hrs); among.

Lemma routes_documented : Forall route_documented (routes m).
Proof.
  unfold routes, public_routes, protected_routes. repeat apply Forall_app_2.
  - repeat constructor; unfold route_documented, route_responses.
    + cbn. intros r _. apply (documented_json _ _ HealthResponse (JObj [("status", JStr "ok")]));
        [apply list_elem_of_In; cbn; tauto|done|apply health_typed|by vm_compute|by intros ? ?].
    + cbn. intros r _. exists Html. split; [apply list_elem_of_In; cbn; tauto|split; [done|by eexists]].
  - by eapply mount_documented; [apply auth_documented|vm_compute; reflexivity|].
  - constructor; [exact I|repeat apply Forall_app_2].
    + eapply mount_documented; [apply customers_documented|vm_compute; reflexivity|all_among].
    + eapply mount_documented; [apply products_documented|vm_compute; reflexivity|all_among].
    + eapply mount_documented; [apply orders_documented|vm_compute; reflexivity|all_among].
Qed.

(** ** The middleware around the router *)
Lemma documented_set_header responses k v resp :
  documented responses resp -> documented responses (set_header k v resp).
Proof. intros (media & Hin & Hm). by exists media. Qed.

Lemma table_documented : Forall route_documented (table m).
Proof.
  apply Forall_app_2; [apply routes_documented|]. unfold fallbacks, fallback. repeat constructor.
Qed.

Lemma conforms_router r i rt responses :
  dispatch ((fun rt => (rt_method rt, rt_pattern rt)) <$> table m) r = Some i -> table m !! i = Some rt ->
  registers_mailbox (rq_body r) = mailbox -> route_responses rt = Some responses ->
  conforms (answering (@http_answers _)) tt (router m r) (answers_in responses).
Proof.
  intros Hd Hi Hbody Hr. unfold router. rewrite Hd, Hi. pose proof table_documented as Hall.
  rewrite Forall_lookup in Hall. specialize (Hall i rt Hi). unfold route_documented in Hall. rewrite Hr in Hall.
  by apply Hall.
Qed.

Lemma conforms_chain r responses :
  conforms (answering (@http_answers _)) tt (router m r) (answers_in responses) ->
  conforms (answering (@http_answers _)) tt (Recovery (Logging (router m)) r)
    (fun _ x => exists resp, x = Ok resp /\ documented responses resp).
Proof.
  intros Hr. unfold Recovery. apply conforms_bind.
  eapply conforms_mono with (Q := answers_in responses).
  - intros [] [resp|e|why]; cbn; [eauto|done|]. intros H500. split; [done|]. intros [] _.
    eexists. split; [reflexivity|]. refused.
  - unfold Logging. apply conforms_bind, conforms_call; [exact I|]. intros start _.
    apply conforms_bind_res. eapply conforms_mono; [|exact Hr]. intros [] [resp|e|why] Hx; [|done..].
    apply conforms_bind, conforms_call; [exact I|]. intros stop _.
    apply conforms_bind, conforms_call; [exact I|]. by intros [] _.
Qed.

Lemma New_documented r i rt responses :
  (forall c, dispatch ((fun rt => (rt_method rt, rt_pattern rt)) <$> table m) (with_ctx c r) = Some i) ->
  table m !! i = Some rt -> registers_mailbox (rq_body r) = mailbox -> route_responses rt = Some responses ->
  conforms (answering (@http_answers _)) tt (New m r)
    (fun _ x => exists resp, x = Ok resp /\ documented responses resp).
Proof.
  intros Hd Hi Hbody Hr. unfold New, RequestID. apply conforms_bind.
  eapply conforms_mono with (Q := fun _ _ => True); [|by case_bool_decide].
  intros [] id _. apply conforms_bind_res. eapply conforms_mono; [|by eapply conforms_chain, conforms_router].
  intros [] x (resp & -> & Hdoc). eexists. split; [reflexivity|]. by apply documented_set_header.
Qed.
End conformance.

Example find_operation_examples :
  op_path <$> find_operation (Some "GET") "/api/customers/" = Some "/api/customers" /\
  op_path <$> find_operation (Some "PATCH") "/api/orders/{id}/ship" = Some "/api/orders/{id}/ship" /\
  find_operation (Some "GET") "/api/users" = None.
Proof. split_and!; vm_compute; reflexivity. Qed.

(** ** Properties *)

(** C10: every request that is dispatched to a documented operation is answered with
    one of the operation's documented statuses, the bytes of the body are one JSON
    value of the documented schema, with the formats [uuid], [date-time] and [email] of
    its strings (nothing at all for 204 and when the encoder
    fails), and an error says one of the fixed texts of the source, or quotes the role
    of the request, so that no internal error text reaches a client: whatever the request, the token, and the answers of repositories, queue,
    bcrypt and clock, errors and panics included, given that stored orders have one of
    the six statuses and [uuid.NewString] returns uuids.  There are two exceptions, which
    the statement spells out: the 404 of the order listing, which the document does not
    list, and the 201 of a registration whose e-mail address is no mailbox, which has
    every documented member but not the documented format of that one. *)
Theorem responses_conform_to_openapi `{!UuidText, !LocalZone, !CaseTables, !Platform} (m : auth.TokenManager)
    (r : Request) (i : nat) (rt : route) (op : operation) :
  (forall c, dispatch ((fun rt => (rt_method rt, rt_pattern rt)) <$> table m) (with_ctx c r) = Some i) ->
  table m !! i = Some rt ->
  find_operation (rt_method rt) (rt_pattern rt) = Some op ->
  conforms (answering (@http_answers _)) tt (New m r)
    (fun _ x => exists resp, x = Ok resp /\
       documented (possible_responses (registers_mailbox (rq_body r)) op) resp).
Proof.
  intros Hd Hi Hop. eapply New_documented; [exact Hd|exact Hi|reflexivity|]. unfold route_responses. by rewrite Hop.
Qed.

Definition demo_platform : Platform := {|
  dispatch table r := fst <$> list_find (fun x => x.2 = rq_path r) table;
  unmatched _ := mkResponse 404 [] NoBody;
  metrics_exposition := mkResponse 200 [] (TextBody "");
  spec_yaml := "";
|}.

Definition demo_api_request (path body : string) : Request :=
  mkRequest "POST" path (fun _ => "") (fun _ => "") (fun _ => "") body (mkCtx None None None).

Definition demo_registration (email : string) : Request :=
  demo_api_request "/api/auth/register"
    (quoted "{'name':'Bob','email':'" +:+ email +:+ quoted "','password':'secret1','role':'OPERATOR'}").

#[local] Existing Instances bit_text UTC no_tables auth.demo_bcrypt auth.mem_handler demo_platform.

Definition demo_answered (r : Request) (responses : list (Z * media)) : Prop :=
  conforms (answering (@http_answers _)) tt (New auth.demo_manager r)
    (fun _ x => exists resp, x = Ok resp /\ documented responses resp).

(** A registration with a mailbox has exactly the documented answers, and one without may
    have the relaxed 201 as well; a creation of an order has the documented ones. *)
Lemma responses_conform_to_openapi_witness :
  demo_answered (demo_registration "bob@x.io") ((201, Json UserResponse) :: failures [400; 409; 500]) /\
  demo_answered (demo_registration "bob")
    ((201, Json UserResponse) :: failures [400; 409; 500] ++ [(201, Json UserView)]) /\
  demo_answered (demo_api_request "/api/orders/" "{}")
    ((201, Json OrderResponse) :: failures [400; 401; 403; 404; 500]).
Proof.
  assert (Hr : forall email, registers_mailbox (rq_body (demo_registration email)) = email_format email ->
    demo_answered (demo_registration email) (possible_responses (email_format email)
       (mkOperation "POST" "/api/auth/register" ((201, Json UserResponse) :: failures [400; 409; 500])))).
  { intros email He. rewrite <- He.
    apply (responses_conform_to_openapi auth.demo_manager (demo_registration email) 5
             (mkRoute (Some "POST") "/api/auth/register" None auth_handler.Register));
      [intros c; vm_compute; reflexivity|reflexivity|vm_compute; reflexivity]. }
  split_and!.
  - apply (Hr "bob@x.io"). vm_compute. reflexivity.
  - apply (Hr "bob"). vm_compute. reflexivity.
  - apply (responses_conform_to_openapi auth.demo_manager (demo_api_request "/api/orders/" "{}") 17
             (mkRoute (Some "POST") "/api/orders/" (Some staff) order_handler.Create)
             (mkOperation "POST" "/api/orders" ((201, Json OrderResponse) :: failures [400; 401; 403; 404; 500])));
      [intros c; vm_compute; reflexivity|reflexivity|vm_compute; reflexivity].
Defined.

(** The exception is real: the service registers the address "bob", and the body of its
    answer does not have the documented schema. *)
Example registration_of_no_mailbox :
  match (run (auth.Register (auth.mkRegister "Bob" "bob" "secret1" "OPERATOR")) auth.no_users).1 with
  | Ok u => jval_has UserView (shape (user_json u)) = true /\ jval_has UserResponse (shape (user_json u)) = false
  | _ => False
  end.
Proof. vm_compute. split; reflexivity. Qed.

(** The document and the router cover each other: every operation above has one route,
    and the routes without an operation above are the metrics exposition, which is
    documented but written by the client library, and the document itself and the user
    listing, which are not documented. *)
Lemma document_covers_router `{!UuidText, !LocalZone, !CaseTables, !Platform} (m : auth.TokenManager) :
  omap (fun rt => find_operation (rt_method rt) (rt_pattern rt)) (routes m) ≡ₚ operations /\
  omap (fun rt => match find_operation (rt_method rt) (rt_pattern rt) with
                  | Some _ => None | None => Some (rt_pattern rt) end) (routes m)
    = ["/metrics"; "/swagger/openapi.yaml"; "/api/users"].
Proof.
  split; [|vm_compute; reflexivity].
  transitivity (take 14 operations ++ [nth 15 operations (mkOperation "" "" []); nth 14 operations (mkOperation "" "" [])]
                  ++ drop 16 operations).
  - match goal with |- ?x ≡ₚ ?y => assert (x = y) as -> by (vm_compute; reflexivity) end. done.
  - change operations with (take 14 operations ++ [nth 14 operations (mkOperation "" "" []); nth 15 operations (mkOperation "" "" [])]
                  ++ drop 16 operations) at 5. apply Permutation_app_head. apply perm_swap.
Qed.
