(* ===== verification/EndToEnd.v ===== *)
(** EndToEnd: the API process and the worker together, from the bytes of a request to
    the bytes of a response: an order that is created over HTTP is processed by the
    worker and read back over HTTP.  Both run over the in-memory adapters of the
    packages (the repositories and fakes of their repository.go and queue.go files, which
    the tests wire the same way), whose calls do not fail.  [cmd/api/main.go] wires the
    PostgreSQL and Redis adapters: [PgSessions], [Production] and [Provenance] have those. *)
From S2P Require Import Prelude Errors Effects GoStrings Uuid Calendar JsonText JsonDecode Money Pagination Catalog Customer Product Auth OrderModel OrderRepo OrderService OrderLifecycle OrderQueue OrderSystem Worker Bodies Http Handlers Server OpenApi.

(** ** The API process over the in-memory adapters

    The order world holds the repositories of orders, customers and products; the
    users have their own; the middleware draws request ids and reads the clock. *)
Record api := mkApi {
  ap_world : World;
  ap_users : auth.world;
  ap_source : oracle;
  ap_log : list logrec;
}.

Definition set_world (w : World) (s : api) : api := mkApi w (ap_users s) (ap_source s) (ap_log s).
Definition set_users (u : auth.world) (s : api) : api := mkApi (ap_world s) u (ap_source s) (ap_log s).
Definition set_clock (o : oracle) (s : api) : api := mkApi (ap_world s) (ap_users s) o (ap_log s).
Definition add_log (l : logrec) (s : api) : api := mkApi (ap_world s) (ap_users s) (ap_source s) (ap_log s ++ [l]).

#[export] Existing Instance auth.mem_handler.

Section api.
Context `{!UuidText, !CaseTables, !LocalZone, !auth.Bcrypt, !Platform} (m : auth.TokenManager).

(** The services over one set of in-memory adapters. *)
Definition api_handler : Effects.Handler httpE api := fun X e =>
  match e in httpE X return api -> X * api with
  | HVerify token => fun s => let '(now, o) := tick (ap_source s) in (auth.Verify m now token, set_clock o s)
  | HNewString => fun s => let '(u, o) := fresh_id (ap_source s) in (uuid_String u, set_clock o s)
  | HNow => fun s => let '(now, o) := tick (ap_source s) in (now, set_clock o s)
  | HLog l => fun s => (tt, add_log l s)
  | HOrder e => fun s => let '(x, w) := handle e (ap_world s) in (x, set_world w s)
  | HCustomer e => fun s =>
      let '(x, c) := handle e (w_customers (ap_world s)) in (x, set_world (set_customers c (ap_world s)) s)
  | HProduct e => fun s =>
      let '(x, p) := handle e (w_products (ap_world s)) in (x, set_world (set_products p (ap_world s)) s)
  | HAuth e => fun s => let '(x, u) := handle e (ap_users s) in (x, set_users u s)
  end.
#[local] Existing Instance api_handler.

(** The order service runs in the process as it runs alone. *)
Lemma run_order_svc {A} (p : prog orderE A) s :
  run (order_svc p) s = let '(a, w) := run p (ap_world s) in (a, set_world w s).
Proof.
  revert s. induction p as [a|X e k IH]; intros s; [by destruct s|].
  cbn [order_svc interp]. rewrite run_bind, run_call. unfold handle at 1, api_handler. cbn [run].
  destruct (handle e (ap_world s)) as [x w]. fold (order_svc (k x)). by rewrite IH.
Qed.

(** ** The middleware around a route *)

(** The request is dispatched to this route. *)
Definition routed (r : Request) (rt : route) : Prop :=
  exists i, table m !! i = Some rt /\
    forall c, dispatch ((fun rt => (rt_method rt, rt_pattern rt)) <$> table m) (with_ctx c r) = Some i.

(** The clock reading at which the token of a request is verified: the first one of a
    request is the start of its log line. *)
Definition verify_time (s : api) : time := clock (ap_source s) (S (ticks (ap_source s))).

Definition internal_error : Response :=
  Write (Errors.New CodeInternal "Internal server error" StatusInternalServerError None).

(** Request id, recovery and logging leave the services alone and keep the status and
    the body of the route's answer; a panic becomes an internal error. *)
Lemma run_New r rt s :
  routed r rt ->
  exists c s0 s' h, ap_world s0 = ap_world s /\ (tick (ap_source s0)).1 = verify_time s /\
    let out := run (guarded (rt_guard rt) (rt_handler rt) (with_ctx c r)) s0 in
    run (New m r) s =
      (match out.1 with
       | Ok resp => Ok (set_header HeaderRequestID h resp)
       | Panic _ => Ok (set_header HeaderRequestID h internal_error)
       | Err e => Err e
       end, s') /\
    ap_world s' = ap_world out.2.
Proof.
  intros (i & Hi & Hd). unfold New, RequestID. rewrite run_bind.
  set (idp := if bool_decide _ then _ else _).
  assert (exists h s1, run idp s = (h, s1) /\ ap_world s1 = ap_world s /\
            clock (ap_source s1) = clock (ap_source s) /\ ticks (ap_source s1) = ticks (ap_source s))
    as (h & s1 & -> & Hw1 & Hc1 & Ht1).
  { unfold idp. case_bool_decide; [|by eexists _, s]. rewrite run_call. cbn. by eexists _, _. }
  set (c := mkCtx (Some h) (cx_userID (rq_ctx r)) (cx_role (rq_ctx r))).
  rewrite run_bind_res. unfold Recovery. rewrite run_bind. unfold Logging at 1. rewrite run_bind, run_call.
  cbn [handle api_handler].
  destruct (tick (ap_source s1)) as [t0 o0] eqn:Htick. injection Htick as <- <-. rewrite run_bind_res.
  assert (Hrouter : router m (with_ctx c r) = guarded (rt_guard rt) (rt_handler rt) (with_ctx c r)).
  { unfold router. by rewrite Hd, Hi. }
  rewrite Hrouter. set (o0 := mkOracle _ _ _ _). exists c, (set_clock o0 s1).
  destruct (run (guarded (rt_guard rt) (rt_handler rt) (with_ctx c r)) (set_clock o0 s1)) as [[resp|e|why] s2]; cbn.
  all: eexists _, h; split; [exact Hw1|]; split; [unfold verify_time; cbn; by rewrite Hc1, Ht1|]; split; reflexivity.
Qed.

Lemma Verify_answers now token why : auth.Verify m now token <> Panic why.
Proof.
  unfold auth.Verify, auth.verify_signature, auth.check_payload. repeat case_match; try done.
  all: unfold auth.ParseRole, auth.decode_header, auth.decode_payload, auth.decodeSegment, unmarshal_res in *;
    repeat case_match; done.
Qed.

(** Why a request for orders is turned away at an instant: it bears no token or one that
    does not verify (401), or the role of its token may not handle orders (403). *)
Definition refusal (now : time) (r : Request) : option Z :=
  match bearerToken r with
  | None => Some 401
  | Some token =>
      match auth.Verify m now token with
      | Ok claims => if bool_decide (auth.CRole claims ∈ [auth.RoleAdmin; auth.RoleOperator]) then None else Some 403
      | _ => Some 401
      end
  end.

(** The guard of the order routes refuses exactly these; the others pass to the handler
    with another context. *)
Lemma run_staff h r s :
  let out := run (guarded (Some staff) h r) s in
  match refusal (tick (ap_source s)).1 r with
  | Some st => exists resp s1, out = (Ok resp, s1) /\ rs_status resp = st /\ ap_world s1 = ap_world s
  | None => exists c s1, out = run (h (with_ctx c r)) s1 /\ ap_world s1 = ap_world s
  end.
Proof.
  cbv zeta. unfold refusal, guarded, staff, Authenticator. destruct (bearerToken r) as [token|].
  2: { by eexists _, s. }
  rewrite run_bind, run_call. cbn. pose proof (Verify_answers (clock (ap_source s) (ticks (ap_source s))) token) as Hv.
  destruct (auth.Verify m _ token) as [claims|e|why]; [| |by destruct (Hv why)].
  2: { by eexists _, _. }
  unfold RequireAnyRole, require. cbn [RoleFromContext cx_role rq_ctx with_ctx].
  case_bool_decide; by eexists _, _.
Qed.

Lemma refusal_status now r st : refusal now r = Some st -> st ∈ [401; 403].
Proof. unfold refusal. repeat case_match; intros [= <-]; set_solver. Qed.

(** ** The handlers of orders *)
Lemma run_Create_handler r s resp s' :
  run (order_handler.Create r) s = (Ok resp, s') -> rs_status resp = 201 ->
  exists by_ input out w', run (OrderService.Create by_ input) (ap_world s) = (Ok out, w') /\
    rs_body resp = JsonBody (order_json out) /\ ap_world s' = w'.
Proof.
  unfold order_handler.Create. destruct (UserIDFromContext (rq_ctx r)) as [raw|]; [|by intros [= <- <-]].
  destruct (uuid_Parse raw) as [by_|]; [|by intros [= <- <-]].
  unfold decodeJSON. destruct (decode_order (rq_body r)) as [input|]; [|by intros [= <- <-]]. cbn [or_write].
  unfold answer. rewrite run_bind, run_order_svc.
  destruct (run (OrderService.Create by_ input) (ap_world s)) as [[out|e|why] w'] eqn:Hrun; [| |done].
  - intros [= <- <-] _. by exists by_, input, out, w'.
  - intros [= <- <-] Hst.
    destruct (conforms_run (answering (@any_answer orderE)) ltac:(done) _ (OrderService.Create by_ input) tt (ap_world s) _
                (order_Create any_answer by_ input)) as (u & Hy).
    rewrite Hrun in Hy. destruct Hy as (c & msg & st & cause & He & Hin & _). rewrite He in Hst. cbn in Hst. set_solver.
Qed.

Lemma run_Get_handler r s id out w' :
  uuid_Parse (rq_param r "id") = Some id -> run (FindOrder id) (ap_world s) = (Ok out, w') ->
  exists resp s', run (order_handler.Get r) s = (Ok resp, s') /\ rs_status resp = 200 /\
    rs_body resp = JsonBody (order_json out).
Proof.
  intros Hid Hf. unfold order_handler.Get, order_handler.pathID, path_id. rewrite Hid. cbn [or_write].
  unfold answer. rewrite run_bind, run_order_svc, Hf. by eexists _, _.
Qed.

(** One request, served to its end. *)
Definition serve_http (r : Request) (s : api) : res Response * api := run (New m r) s.

(** The request is answered with this document, unless its token is refused. *)
Definition serves (r : Request) (s : api) (v : json) : Prop :=
  exists resp, (serve_http r s).1 = Ok resp /\
    match refusal (verify_time s) r with
    | Some st => rs_status resp = st
    | None => rs_status resp = 200 /\ rs_body resp = JsonBody v
    end.

Definition order_route (method suffix : string) (h : Request -> prog httpE (res Response)) : route :=
  mkRoute (Some method) ("/api/orders" +:+ suffix) (Some staff) h.

Lemma serves_order r s id out w' :
  routed r (order_route "GET" "/{id}" order_handler.Get) ->
  uuid_Parse (rq_param r "id") = Some id -> run (FindOrder id) (ap_world s) = (Ok out, w') ->
  serves r s (order_json out).
Proof.
  intros Hr Hid Hf. destruct (run_New r _ s Hr) as (c & s0 & s' & h & Hw0 & Ht & Hrun & _).
  unfold serves, serve_http. rewrite Hrun. cbn [rt_guard rt_handler order_route] in *.
  pose proof (run_staff order_handler.Get (with_ctx c r) s0) as Hg. cbv zeta in Hg. rewrite Ht in Hg.
  change (refusal (verify_time s) (with_ctx c r)) with (refusal (verify_time s) r) in Hg.
  destruct (refusal (verify_time s) r) as [st|]; [destruct Hg as (resp & s1 & -> & Hst & _)|destruct Hg as (c1 & s1 & -> & Hw1)].
  - eexists. split; [reflexivity|]. exact Hst.
  - destruct (run_Get_handler (with_ctx c1 (with_ctx c r)) s1 id out w') as (resp & s2 & -> & Hst & Hb);
      [exact Hid|by rewrite Hw1, Hw0|].
    eexists. split; [reflexivity|]. by split.
Qed.

Lemma created_by_service r s resp s' :
  routed r (order_route "POST" "/" order_handler.Create) ->
  serve_http r s = (Ok resp, s') -> rs_status resp = 201 ->
  exists by_ input out, run (OrderService.Create by_ input) (ap_world s) = (Ok out, ap_world s') /\
    rs_body resp = JsonBody (order_json out).
Proof.
  intros Hr. unfold serve_http. destruct (run_New r _ s Hr) as (c & s0 & s1 & h & Hw0 & _ & -> & Hw1).
  cbn [rt_guard rt_handler order_route] in *.
  pose proof (run_staff order_handler.Create (with_ctx c r) s0) as Hg. cbv zeta in Hg.
  destruct (refusal _ (with_ctx c r)) as [st|] eqn:Href;
    [destruct Hg as (resp' & s2 & Hout & Hst & _)|destruct Hg as (c1 & s2 & Hout & Hw2)]; rewrite Hout in *.
  - intros [= <- <-] Hst'. cbn in Hst'. rewrite Hst' in Hst. apply refusal_status in Href. set_solver.
  - destruct (run (order_handler.Create (with_ctx c1 (with_ctx c r))) s2) as [[resp'|e|why] s3] eqn:Hc; intros [= <- <-]; [|done].
    intros Hst. destruct (run_Create_handler _ _ _ _ Hc Hst) as (by_ & input & out & w' & Hrun & Hb & Hw3).
    exists by_, input, out. split; [|exact Hb]. rewrite <- Hw0, <- Hw2, Hw1. cbn. by rewrite Hw3.
Qed.
End api.

(** ** The order service over the process *)
Section service.
Context `{!UuidText, !CaseTables}.

Lemma run_persist_stored o its w out w' :
  run (persist_and_publish o its) w = (Ok out, w') ->
  orders (w_orders w') !! o_ID o = Some o /\ out = toOutput o (mem_items (w_orders w') (o_ID o)) /\
  LastMessage (w_producer w') = Some (mkMessage (o_ID o) OrderCreatedEvent (o_CreatedAt o) 0).
Proof.
  unfold persist_and_publish. rewrite run_bind_err, run_call. cbn.
  unfold repo_call. cbn. case_bool_decide; [done|]. destruct (forallb _ its); [|done]. cbn.
  unfold fake_PublishOrderCreated. destruct (FailNext (w_producer w)); [done|]. cbn. intros [= <- <-]. cbn.
  split; [apply lookup_insert_eq|]. split.
  - unfold mem_items. cbn. by rewrite lookup_insert_eq.
  - unfold LastMessage. cbn. apply last_snoc.
Qed.

(** A creation that succeeds stores the order it answers with, and publishes it. *)
Lemma run_Create_stored by_ input w out w' :
  run (OrderService.Create by_ input) w = (Ok out, w') ->
  exists o n, o_ID o = draw (w_source w) n /\ o_Status o = StatusCreated /\
    orders (w_orders w') !! o_ID o = Some o /\ out = toOutput o (mem_items (w_orders w') (o_ID o)) /\
    LastMessage (w_producer w') = Some (mkMessage (o_ID o) OrderCreatedEvent (o_CreatedAt o) 0).
Proof.
  unfold OrderService.Create. destruct (validate_input input); [done|].
  rewrite run_bind_err, run_call. destruct (world_frame (FindCustomer (in_CustomerID input)) w eq_refl) as (_ & Hd1 & _).
  destruct (handle (FindCustomer _) w) as [[c|e|why] w1]; [|done..]. destruct (negb (c_Active c)); [done|].
  rewrite run_bind_err, run_call.
  destruct (world_frame (FindProducts (ii_ProductID <$> in_Items input)) w1 eq_refl) as (_ & Hd2 & _).
  destruct (handle (FindProducts _) w1) as [[loaded|e|why] w2]; [|done..]. cbv zeta.
  rewrite run_bind, run_call. cbn [handle world_handler]. cbn [tick].
  rewrite run_bind, run_call. cbn [handle world_handler fresh_id set_source w_source drawn draw].
  rewrite run_bind_res. destruct (run (for_res _ _ _) _) as [[priced|e|why] w3]; [|done..].
  intros (Ho & Hout & Hlast)%run_persist_stored. cbn in Hd1, Hd2.
  eexists _, (drawn (w_source w2)). split; [|split; [|split; [exact Ho|split; [exact Hout|exact Hlast]]]]; [|done].
  cbn. by rewrite Hd2, Hd1.
Qed.

Definition with_status (st : OrderStatus) (out : OrderOutput) : OrderOutput :=
  mkOrderOutput (oo_ID out) (oo_CustomerID out) st (oo_TotalAmount out) (oo_Items out) (oo_CreatedAt out).

Lemma run_FindOrder_stored id o w :
  orders (w_orders w) !! id = Some o -> run (FindOrder id) w = (Ok (toOutput o (mem_items (w_orders w) id)), w).
Proof.
  intros Ho. unfold FindOrder. rewrite run_bind_err, run_call. cbn. unfold repo_call. cbn. unfold mem_FindByID.
  rewrite Ho. cbn. by destruct w.
Qed.

(** How a payment ends. *)
Definition payment_outcome (id : uuid) (w : World) : OrderStatus :=
  match FailFor (w_processor w) !! id with Some (Some _) => StatusFailed | _ => StatusPaid end.

Lemma run_Process_stored id o w :
  orders (w_orders w) !! id = Some o -> o_ID o = id -> id <> uuid_Nil -> o_Status o = StatusCreated ->
  exists o' w', run (Process id) w = (Ok tt, w') /\ orders (w_orders w') !! id = Some o' /\
    toOutput o' (mem_items (w_orders w') id) =
      with_status (payment_outcome id w) (toOutput o (mem_items (w_orders w) id)).
Proof.
  intros Ho Hid Hnil Hst. unfold Process. rewrite bool_decide_eq_false_2 by done.
  destruct w as [r c p pr pay_ rec src]. cbn in Ho |- *.
  unfold mem_FindByID. rewrite Ho, Hst, bool_decide_eq_true_2 by done.
  change (CanTransition StatusCreated StatusProcessing) with true. cbn. unfold repo_call. cbn.
  unfold mem_UpdateStatus. rewrite Ho. cbn. unfold payment_outcome. cbn. rewrite Hid.
  destruct (FailFor pay_ !! id) as [[e|]|]; cbn; unfold repo_call; cbn; unfold mem_MarkProcessed; cbn;
    rewrite lookup_insert_eq; cbn; (eexists _, _; split; [reflexivity|]; split; [apply lookup_insert_eq|reflexivity]).
Qed.
End service.

(** ** Properties *)

(** C2: an order created over HTTP is processed and served, by the handlers, middleware,
    services and worker over the in-memory adapters, whose calls never fail (over
    adapters that fail, see [OrderSystem], [Delivery] and [Worker]).  Whatever the POST request
    that is routed to the creation of orders, if it is answered with 201, then the body
    describes an order in status CREATED; the worker that takes the message published
    for it succeeds at the first delivery; and any GET request that is routed to this
    order is answered with status 200 and the same document before that delivery, and
    after it with the same document in status PAID, or FAILED when the payment is refused -
    unless its token is refused: exactly when it bears none or one that does not verify
    at the clock reading of this request (401), or the role in it may not handle orders
    (403). *)
Theorem created_order_is_processed_and_served
    `{!UuidText, !CaseTables, !LocalZone, !auth.Bcrypt, !Platform} (m : auth.TokenManager)
    (post get : Request) (s s1 : api) (resp : Response) (maxRetries workerID : Z) (f : FakeRetryQueue)
    (log : list (level * string * Z)) :
  good_ids (w_source (ap_world s)) ->
  routed m post (order_route "POST" "/" order_handler.Create) ->
  routed m get (order_route "GET" "/{id}" order_handler.Get) ->
  serve_http m post s = (Ok resp, s1) -> rs_status resp = 201 ->
  exists out msg w2,
    rs_body resp = JsonBody (order_json out) /\ oo_Status out = StatusCreated /\
    LastMessage (w_producer (ap_world s1)) = Some msg /\ m_OrderID msg = oo_ID out /\
    run (deliver maxRetries workerID msg) (mkWorker (ap_world s1) f log) = (Ok tt, mkWorker w2 f log) /\
    (uuid_Parse (rq_param get "id") = Some (oo_ID out) ->
     serves m get s1 (order_json out) /\
     serves m get (set_world w2 s1)
       (order_json (with_status (payment_outcome (oo_ID out) (ap_world s1)) out))).
Proof.
  intros [_ Hnil] Hpost Hget Hrun Hst.
  destruct (created_by_service m post s resp s1 Hpost Hrun Hst) as (by_ & input & out & Hc & Hb).
  destruct (run_Create_stored by_ input _ _ _ Hc) as (o & n & Hid & Hcr & Ho & -> & Hlast).
  destruct (run_Process_stored (o_ID o) o (ap_world s1) Ho eq_refl) as (o' & w2 & Hp & Ho' & Hout);
    [by rewrite Hid|exact Hcr|].
  eexists _, _, w2. split; [exact Hb|]. split; [exact Hcr|]. split; [exact Hlast|]. split; [reflexivity|]. split.
  - unfold deliver. rewrite run_bind, run_service. cbn [ww_service m_OrderID]. by rewrite Hp.
  - intros Hparse. split.
    + eapply serves_order; [exact Hget|exact Hparse|by apply run_FindOrder_stored].
    + change (oo_ID (toOutput o (mem_items (w_orders (ap_world s1)) (o_ID o)))) with (o_ID o).
      rewrite <- Hout. eapply serves_order; [exact Hget|exact Hparse|by apply run_FindOrder_stored].
Qed.

(** The clerk's requests to a process with one customer and one product, whose router
    knows the two routes. *)
Definition demo_dispatch : Platform := {|
  dispatch _ r := Some (if bool_decide (rq_method r = "POST") then 17 else 19)%nat;
  unmatched _ := mkResponse 404 [] NoBody;
  metrics_exposition := mkResponse 200 [] (TextBody "");
  spec_yaml := "";
|}.

#[local] Existing Instances bit_text no_tables UTC auth.demo_bcrypt demo_dispatch.

Definition demo_token : string := (auth.Issue auth.demo_manager 0 (uuid_String 9) auth.RoleOperator).1.

Definition demo_request (method path id body : string) : Request :=
  mkRequest method path (fun k => if bool_decide (k = "Authorization") then "Bearer " +:+ demo_token else "")
    (fun _ => "") (fun _ => id) body (mkCtx None None None).

Definition demo_post : Request :=
  demo_request "POST" "/api/orders/" ""
    (quoted "{'customer_id':'" +:+ uuid_String 100 +:+ quoted "','items':[{'product_id':'"
       +:+ uuid_String 200 +:+ quoted "','quantity':3}]}").

Definition demo_get : Request := demo_request "GET" "/api/orders/1" (uuid_String 1) "".

Definition demo_api : api := mkApi demo_world auth.no_users demo_oracle [].

Definition demo_answer : res Response * api := serve_http auth.demo_manager demo_post demo_api.

Definition demo_created : Response :=
  match demo_answer.1 with Ok resp => resp | _ => mkResponse 0 [] NoBody end.

(** The id in the document of an order. *)
Definition body_id (b : body) : option uuid :=
  match b with JsonBody (JObj ((_, JUuid u) :: _)) => Some u | _ => None end.

Lemma created_order_is_processed_and_served_witness :
  exists out w2,
    rs_body demo_created = JsonBody (order_json out) /\ oo_ID out = 1%N /\
    serves auth.demo_manager demo_get demo_answer.2 (order_json out) /\
    serves auth.demo_manager demo_get (set_world w2 demo_answer.2) (order_json (with_status StatusPaid out)) /\
    refusal auth.demo_manager (verify_time demo_answer.2) demo_get = None /\
    refusal auth.demo_manager (verify_time demo_answer.2 + 10 ^ 14) demo_get = Some 401.
Proof.
  destruct (created_order_is_processed_and_served auth.demo_manager demo_post demo_get demo_api demo_answer.2
              demo_created 3 0 (NewFakeRetryQueue None) []) as (out & msg & w2 & Hb & _ & _ & _ & _ & Hserves).
  - apply good_ids_demo.
  - exists 17%nat. split; reflexivity.
  - exists 19%nat. split; reflexivity.
  - assert (H : demo_answer.1 = Ok demo_created) by (vm_compute; reflexivity).
    unfold demo_answer in *. rewrite <- H. apply surjective_pairing.
  - vm_compute. reflexivity.
  - assert (Hid : oo_ID out = 1%N).
    { apply (f_equal body_id) in Hb. assert (H : body_id (rs_body demo_created) = Some 1%N) by (vm_compute; reflexivity).
      rewrite H in Hb. cbn in Hb. congruence. }
    rewrite Hid in Hserves. destruct Hserves as [H1 H2]; [vm_compute; reflexivity|].
    assert (Hpaid : payment_outcome 1 (ap_world demo_answer.2) = StatusPaid) by (vm_compute; reflexivity).
    rewrite Hpaid in H2. exists out, w2. split; [exact Hb|]. split; [exact Hid|]. split; [exact H1|].
    split; [exact H2|]. split; vm_compute; reflexivity.
Defined.
