(* ===== verification/Config.v ===== *)
(** Config: internal/config (environment loading and validation) and the level parser of
    internal/logger. *)
From S2P Require Import Prelude Errors GoStrings.

(** ** config.go *)
Record Config := mkConfig {
  AppEnv : string;
  HTTPPort : string;
  DatabaseURL : string;
  RedisAddr : string;
  RedisPassword : string;
  JWTSecret : string;
  JWTExpirationMinutes : Z;
  OrderWorkerCount : Z;
  OrderMaxRetries : Z;
  TransientFailureTotal : string;
  MetricsPort : string;
  LogLevel : string;
}.

Definition valueOr (getenv : string -> string) (key fallback : string) : string :=
  if bool_decide (getenv key = "") then fallback else getenv key.

(** The text of a conversion error is strconv's. *)
Definition intOr (getenv : string -> string) (key : string) (fallback : Z) : res Z :=
  if bool_decide (getenv key = "") then Ok fallback
  else match Atoi (getenv key) with
       | Some n => Ok n
       | None => Err (ErrWrap ("config: " +:+ key +:+ " must be an integer") (ErrNew "invalid syntax or range"))
       end.

Definition validLogLevel (level : string) : bool :=
  bool_decide (level ∈ ["debug"; "info"; "warn"; "error"]).

Definition missing (name : string) : error :=
  ErrNew ("config: required env var " +:+ name +:+ " is missing").

(** The loop over the required variables, in order. *)
Fixpoint check_required (l : list (string * string)) : option error :=
  match l with
  | [] => None
  | (name, value) :: l' => if bool_decide (value = "") then Some (missing name) else check_required l'
  end.

Definition bind_cfg {A B} (x : res A) (f : A -> res B) : res B :=
  match x with Ok a => f a | Err e => Err e | Panic why => Panic why end.

Definition Load `{CaseTables} (getenv : string -> string) : res Config :=
  let logLevel := valueOr getenv "LOG_LEVEL" "info" in
  match check_required [("DATABASE_URL", getenv "DATABASE_URL"); ("REDIS_ADDR", getenv "REDIS_ADDR");
                        ("JWT_SECRET", getenv "JWT_SECRET")] with
  | Some e => Err e
  | None =>
      bind_cfg (intOr getenv "JWT_EXPIRATION_MINUTES" 120) (fun jwtExp =>
      bind_cfg (intOr getenv "ORDER_WORKER_COUNT" 3) (fun workers =>
      bind_cfg (intOr getenv "ORDER_MAX_RETRIES" 3) (fun maxRetries =>
      if maxRetries <? 0 then Err (ErrNew "config: ORDER_MAX_RETRIES must be >= 0")
      else if negb (validLogLevel logLevel) then
        Err (ErrNew ("config: invalid LOG_LEVEL " +:+ Quote logLevel))
      else Ok (mkConfig (valueOr getenv "APP_ENV" "development") (valueOr getenv "HTTP_PORT" "8080")
                 (getenv "DATABASE_URL") (getenv "REDIS_ADDR") (getenv "REDIS_PASSWORD")
                 (getenv "JWT_SECRET") jwtExp workers maxRetries (getenv "ORDER_TRANSIENT_FAILURE_TOTAL")
                 (valueOr getenv "METRICS_PORT" "9090") logLevel))))
  end.

(** ** logger.go *)
Inductive slog_level := LevelDebug | LevelInfo | LevelWarn | LevelError.

Definition parseLevel (level : string) : slog_level :=
  if bool_decide (level = "debug") then LevelDebug
  else if bool_decide (level = "warn") then LevelWarn
  else if bool_decide (level = "error") then LevelError
  else LevelInfo.

(** slog's order of severities: a record is written when it is not below the level
    of the handler. *)
Definition severity (l : slog_level) : Z :=
  match l with LevelDebug => -4 | LevelInfo => 0 | LevelWarn => 4 | LevelError => 8 end.

Definition enabled (handler record : slog_level) : bool := severity handler <=? severity record.

(** ** Lemmas *)
Lemma check_required_None l : check_required l = None -> Forall (fun nv => nv.2 <> "") l.
Proof.
  induction l as [|[n v] l IH]; cbn; [constructor|]. case_bool_decide; [done|].
  constructor; [done|by apply IH].
Qed.

Lemma intOr_range getenv key fallback n :
  in_int64 fallback -> intOr getenv key fallback = Ok n -> in_int64 n.
Proof.
  intros Hf. unfold intOr. case_bool_decide; [intros [= <-]; done|].
  destruct (Atoi (getenv key)) eqn:Ha; [|done]. intros [= <-]. by eapply ParseInt_range.
Qed.

(** ** What the environment says, by name: a variable that is set, or its default *)
Definition set_or (getenv : string -> string) (key fallback value : string) : Prop :=
  (getenv key = "" /\ value = fallback) \/ (getenv key <> "" /\ value = getenv key).

Definition int_set_or (getenv : string -> string) (key : string) (fallback n : Z) : Prop :=
  (getenv key = "" /\ n = fallback) \/ (getenv key <> "" /\ Atoi (getenv key) = Some n).

Definition required (getenv : string -> string) (key value : string) : Prop :=
  value = getenv key /\ value <> "".

(** The configuration an environment gives, variable by variable. *)
Definition configured (getenv : string -> string) (cfg : Config) : Prop :=
  required getenv "DATABASE_URL" (DatabaseURL cfg) /\ required getenv "REDIS_ADDR" (RedisAddr cfg) /\
  required getenv "JWT_SECRET" (JWTSecret cfg) /\
  set_or getenv "APP_ENV" "development" (AppEnv cfg) /\ set_or getenv "HTTP_PORT" "8080" (HTTPPort cfg) /\
  set_or getenv "METRICS_PORT" "9090" (MetricsPort cfg) /\
  RedisPassword cfg = getenv "REDIS_PASSWORD" /\
  TransientFailureTotal cfg = getenv "ORDER_TRANSIENT_FAILURE_TOTAL" /\
  int_set_or getenv "JWT_EXPIRATION_MINUTES" 120 (JWTExpirationMinutes cfg) /\
  int_set_or getenv "ORDER_WORKER_COUNT" 3 (OrderWorkerCount cfg) /\
  int_set_or getenv "ORDER_MAX_RETRIES" 3 (OrderMaxRetries cfg) /\ 0 <= OrderMaxRetries cfg /\
  set_or getenv "LOG_LEVEL" "info" (LogLevel cfg) /\ LogLevel cfg ∈ ["debug"; "info"; "warn"; "error"].

Lemma valueOr_spec getenv key fallback value :
  valueOr getenv key fallback = value <-> set_or getenv key fallback value.
Proof. unfold valueOr, set_or. case_bool_decide; naive_solver. Qed.

Lemma intOr_spec getenv key fallback n :
  intOr getenv key fallback = Ok n <-> int_set_or getenv key fallback n.
Proof. unfold intOr, int_set_or. case_bool_decide; [naive_solver|]. destruct (Atoi _); naive_solver. Qed.

Lemma intOr_answers getenv key fallback why : intOr getenv key fallback <> Panic why.
Proof. unfold intOr. case_bool_decide; [done|]. by destruct (Atoi _). Qed.

Lemma check_required_spec l : check_required l = None <-> Forall (fun nv => nv.2 <> "") l.
Proof.
  split; [apply check_required_None|]. induction 1 as [|[n v] l Hv _ IH]; cbn; [done|].
  by rewrite bool_decide_eq_false_2.
Qed.

(** [Load] succeeds with exactly the configuration of the environment. *)
Lemma Load_configured `{CaseTables} getenv cfg : Load getenv = Ok cfg <-> configured getenv cfg.
Proof.
  unfold Load, configured, required. rewrite <- !valueOr_spec, <- !intOr_spec.
  set (l := [_; _; _]). destruct (check_required l) eqn:Hreq.
  { split; [done|]. intros ([-> Hd] & [-> Hr] & [-> Hj] & _).
    assert (check_required l = None) by (apply check_required_spec; by repeat constructor). congruence. }
  apply check_required_None in Hreq. unfold l in Hreq. rewrite !Forall_cons in Hreq. cbn in Hreq.
  destruct Hreq as (Hd & Hr & Hj & _).
  destruct (intOr getenv "JWT_EXPIRATION_MINUTES" 120) as [j|e|w]; [|naive_solver..].
  destruct (intOr getenv "ORDER_WORKER_COUNT" 3) as [k|e|w]; [|naive_solver..].
  destruct (intOr getenv "ORDER_MAX_RETRIES" 3) as [r|e|w]; [|naive_solver..]. cbn [bind_cfg].
  destruct (r <? 0) eqn:Hneg.
  { split; [done|]. intros (_ & _ & _ & _ & _ & _ & _ & _ & _ & _ & [= <-] & Hr0 & _). lia. }
  unfold validLogLevel. case_bool_decide as Hl; cbn [negb].
  - split.
    + intros [= <-]. cbn. split_and!; try done. lia.
    + intros ([Hd' _] & [Hr' _] & [Hj' _] & Ha & Hh & Hm & Hp & Ht & [= Hje] & [= Hke] & [= Hre] & _ & Hlog & _).
      destruct cfg. cbn in *. by subst.
  - split; [done|]. intros (_ & _ & _ & _ & _ & _ & _ & _ & _ & _ & _ & _ & <- & Hin). done.
Qed.

Lemma Load_answers `{CaseTables} getenv why : Load getenv <> Panic why.
Proof.
  unfold Load. destruct (check_required _); [done|].
  destruct (intOr getenv "JWT_EXPIRATION_MINUTES" 120) as [j|e|w] eqn:Hj; [|done|by destruct (intOr_answers _ _ _ _ Hj)].
  destruct (intOr getenv "ORDER_WORKER_COUNT" 3) as [k|e|w] eqn:Hk; [|done|by destruct (intOr_answers _ _ _ _ Hk)].
  destruct (intOr getenv "ORDER_MAX_RETRIES" 3) as [r|e|w] eqn:Hr; [|done|by destruct (intOr_answers _ _ _ _ Hr)].
  cbn. by repeat case_match.
Qed.

(** ** Properties *)

(** C40: [Load] returns a configuration exactly when the environment describes one, and
    then that one: the database URL, the Redis address and the JWT secret are set, and
    are the values of their own variables; APP_ENV, HTTP_PORT, METRICS_PORT and LOG_LEVEL
    have the values of their own variables or, unset, the documented defaults
    development, 8080, 9090 and info; the JWT expiration, the worker count and the retry
    limit are the integers their variables spell or 120, 3 and 3; the retry limit is not
    negative and the log level one of the four.  In every other case it returns an error,
    and names the first missing variable.  In a configuration the integers fit an int, and
    the logger parses the level to its own name. *)
Theorem Load_validates `{CaseTables} (getenv : string -> string) :
  (forall cfg, Load getenv = Ok cfg <-> configured getenv cfg) /\
  ((forall cfg, ~ configured getenv cfg) -> exists e, Load getenv = Err e) /\
  (getenv "DATABASE_URL" = "" -> Load getenv = Err (missing "DATABASE_URL")) /\
  (getenv "DATABASE_URL" <> "" -> getenv "REDIS_ADDR" = "" -> Load getenv = Err (missing "REDIS_ADDR")) /\
  (getenv "DATABASE_URL" <> "" -> getenv "REDIS_ADDR" <> "" -> getenv "JWT_SECRET" = "" ->
   Load getenv = Err (missing "JWT_SECRET")) /\
  (forall cfg, Load getenv = Ok cfg ->
   OrderMaxRetries cfg <= int64_max /\ in_int64 (OrderWorkerCount cfg) /\ in_int64 (JWTExpirationMinutes cfg) /\
   (LogLevel cfg, parseLevel (LogLevel cfg)) ∈
     [("debug", LevelDebug); ("info", LevelInfo); ("warn", LevelWarn); ("error", LevelError)]).
Proof.
  split; [apply Load_configured|]. split.
  { intros Hn. destruct (Load getenv) as [cfg|e|why] eqn:Hl; [|by eexists|by destruct (Load_answers _ _ Hl)].
    destruct (Hn cfg). by apply Load_configured. }
  split; [|split; [|split]].
  - intros Hd. unfold Load. cbn. by rewrite bool_decide_eq_true_2.
  - intros Hd Hr. unfold Load. cbn. by rewrite bool_decide_eq_false_2, bool_decide_eq_true_2.
  - intros Hd Hr Hj. unfold Load. cbn. rewrite (bool_decide_eq_false_2 (getenv "DATABASE_URL" = "")) by done.
    rewrite (bool_decide_eq_false_2 (getenv "REDIS_ADDR" = "")) by done. by rewrite bool_decide_eq_true_2.
  - intros cfg (_ & _ & _ & _ & _ & _ & _ & _ & Hj & Hk & Hr & _ & _ & Hlog)%Load_configured.
    rewrite <- !intOr_spec in *. split_and!.
    + by apply (intOr_range _ _ 3 _ ltac:(solve_int64)) in Hr as [_ Hr].
    + exact (intOr_range _ _ 3 _ ltac:(solve_int64) Hk).
    + exact (intOr_range _ _ 120 _ ltac:(solve_int64) Hj).
    + rewrite !elem_of_cons, elem_of_nil in Hlog. repeat destruct Hlog as [->|Hlog]; [..|done];
        rewrite !elem_of_cons; cbn; tauto.
Qed.

Definition demo_env (key : string) : string :=
  if bool_decide (key ∈ ["DATABASE_URL"; "REDIS_ADDR"; "JWT_SECRET"]) then "x"
  else if bool_decide (key = "ORDER_WORKER_COUNT") then "0" else "".

Lemma Load_validates_witness :
  @Load no_tables demo_env =
    Ok (mkConfig "development" "8080" "x" "x" "" "x" 120 0 3 "" "9090" "info") /\
  configured demo_env (mkConfig "development" "8080" "x" "x" "" "x" 120 0 3 "" "9090" "info") /\
  @Load no_tables (fun _ => "") = Err (missing "DATABASE_URL").
Proof.
  assert (H : @Load no_tables demo_env =
    Ok (mkConfig "development" "8080" "x" "x" "" "x" 120 0 3 "" "9090" "info")) by (vm_compute; reflexivity).
  split; [exact H|]. split.
  - by apply (@Load_validates no_tables demo_env).
  - by apply (@Load_validates no_tables (fun _ => "")).
Defined.
