(* ===== verification/Main.v ===== *)
(** Main: the three processes of cmd/ (api, worker, seed) and the connection pool
    constructor of internal/database: what each opens, in which order, and what it
    closes on every path. *)
From S2P Require Import Prelude Errors Effects GoStrings Uuid Base64 Money Auth Config.

(** ** What a process calls *)
Inductive mainE : Type -> Type :=
| PoolNew (dsn : string) : mainE (res unit)
| PoolPing : mainE (res unit)
| PoolClose : mainE unit
| RedisNew (addr password : string) : mainE unit
| RedisClose : mainE unit
| AuthCall {X : Type} (e : auth.authE X) : mainE X
| LogInfo (msg : string) : mainE unit
| Stderr (text : string) : mainE unit
| Listen (addr : string) : mainE unit
| StartWorkers (maxRetries workers : Z) (sentinel : option Money) : mainE unit
| AwaitStop : mainE (option error)
| ShutdownServer : mainE (res unit)
| AwaitWorkers : mainE unit.

Abbreviation main_prog := (prog mainE) (only parsing).

(** [defer cleanup()]: after the body, whether it returned or panicked. *)
Definition defer {A} (cleanup : main_prog unit) (body : main_prog (res A)) : main_prog (res A) :=
  r <- body ;; cleanup ;;; Ret r.

(** [NewPostgresPool] (database/postgres.go). *)
Definition NewPostgresPool (dsn : string) : main_prog (res unit) :=
  _ <-! call (PoolNew dsn)
    catch (fun err => Err (ErrWrap ("database: create pool: " +:+ Error err) err)) ;;
  pinged <- call PoolPing ;;
  match pinged with
  | Err err => call PoolClose ;;; Ret (Err (ErrWrap ("database: ping: " +:+ Error err) err))
  | r => Ret r
  end.

(** A pure fallible step. *)
Definition check {A B} (x : res A) (f : A -> main_prog (res B)) : main_prog (res B) :=
  bind_res (Ret x) f.

Definition minute : Z := 60000000000.

Section processes.
Context `{!CaseTables} (getenv : string -> string).

Definition seed_admin (log : bool) : main_prog (res unit) :=
  interp (fun X e => call (AuthCall e)) (auth.SeedDefaultAdmin log).

(** ** cmd/api

    [AwaitStop] is the [select]: the error of [ListenAndServe], or the signal. *)
Definition api_serve (cfg : Config) : main_prog (res unit) :=
  call (LogInfo "starting api server") ;;;
  call (Listen (":" +:+ HTTPPort cfg)) ;;;
  stopped <- call AwaitStop ;;
  match stopped with
  | Some err => Ret (Err err)
  | None =>
      call (LogInfo "shutdown signal received, draining") ;;;
      call ShutdownServer
  end.

Definition api_run : main_prog (res unit) :=
  check (Load getenv) (fun cfg =>
  _ <-! NewPostgresPool (DatabaseURL cfg) ;;
  defer (call PoolClose)
    (check (auth.NewTokenManager (JWTSecret cfg) (wrap64 (JWTExpirationMinutes cfg * minute))) (fun _ =>
     _ <-! seed_admin true ;;
     call (RedisNew (RedisAddr cfg) (RedisPassword cfg)) ;;;
     defer (call RedisClose) (api_serve cfg)))).

(** ** cmd/worker *)
Definition worker_sentinel (cfg : Config) : res (option Money) :=
  if bool_decide (TransientFailureTotal cfg = "") then Ok None
  else match ParseString (TransientFailureTotal cfg) with
       | Ok sentinel => Ok (Some sentinel)
       | Err err => Err (ErrWrap ("ORDER_TRANSIENT_FAILURE_TOTAL: " +:+ Error err) err)
       | Panic why => Panic why
       end.

Definition worker_serve (cfg : Config) (sentinel : option Money) : main_prog (res unit) :=
  call (Listen (":" +:+ MetricsPort cfg)) ;;;
  call (StartWorkers (OrderMaxRetries cfg) (OrderWorkerCount cfg) sentinel) ;;;
  stopped <- call AwaitStop ;;
  match stopped with
  | Some err => Ret (Err err)
  | None =>
      call (LogInfo "shutdown signal received, draining") ;;;
      _ <-! call ShutdownServer
        catch (fun err => Err (ErrWrap ("metrics server shutdown: " +:+ Error err) err)) ;;
      call AwaitWorkers ;;;
      Ret (Ok tt)
  end.

Definition worker_run : main_prog (res unit) :=
  check (Load getenv) (fun cfg =>
  _ <-! NewPostgresPool (DatabaseURL cfg) ;;
  defer (call PoolClose)
    (call (RedisNew (RedisAddr cfg) (RedisPassword cfg)) ;;;
     defer (call RedisClose) (check (worker_sentinel cfg) (worker_serve cfg)))).

(** The [main] of both: the exit status; a panic ends the process with status 2. *)
Definition exit_status (run : main_prog (res unit)) : main_prog Z :=
  r <- run ;;
  match r with
  | Err err => call (Stderr (Error err)) ;;; Ret 1
  | Panic why => call (Stderr why) ;;; Ret 2
  | Ok _ => Ret 0
  end.

(** ** cmd/seed: [os.Exit] runs no deferred call. *)
Definition seed_main : main_prog Z :=
  let dsn := getenv "DATABASE_URL" in
  if bool_decide (dsn = "") then call (Stderr "DATABASE_URL is required") ;;; Ret 1
  else
    opened <- NewPostgresPool dsn ;;
    match opened with
    | Err err => call (Stderr (Error err)) ;;; Ret 1
    | Panic why => call (Stderr why) ;;; Ret 2
    | Ok _ =>
        seeded <- seed_admin false ;;
        match seeded with
        | Err err => call (Stderr (Error err)) ;;; Ret 1
        | Panic why => call PoolClose ;;; call (Stderr why) ;;; Ret 2
        | Ok _ => call PoolClose ;;; Ret 0
        end
    end.
End processes.

(** ** The lifecycle of a process's resources *)
Inductive conn := Absent | Opening | Live | Closed.
Inductive serving := Off | Serving | Draining | Stopped | Broken.

#[export] Instance conn_eq_dec : EqDecision conn.
Proof. solve_decision. Defined.
#[export] Instance serving_eq_dec : EqDecision serving.
Proof. solve_decision. Defined.

(** The pool, the Redis client, the listener, whether the admin user is known to
    exist, and the worker goroutines. *)
Record mstate := mkM {
  ms_pool : conn;
  ms_redis : conn;
  ms_admin : bool;
  ms_listener : serving;
  ms_workers : serving;
}.

Definition m_init : mstate := mkM Absent Absent false Off Off.

Section lifecycle.
(** [admin_first]: the process must not listen before the admin exists. *)
Context (dsn0 : string) (admin_first : bool).

Definition m_allowed {X} (s : mstate) (e : mainE X) : Prop :=
  match e with
  | PoolNew dsn => ms_pool s = Absent /\ dsn = dsn0 /\ dsn0 <> ""
  | PoolPing => ms_pool s = Opening
  | PoolClose => (ms_pool s = Opening \/ ms_pool s = Live) /\ ms_redis s <> Live
  | RedisNew _ _ => ms_pool s = Live /\ ms_redis s = Absent
  | RedisClose => ms_redis s = Live /\ ms_listener s <> Serving
  | AuthCall _ => ms_pool s = Live /\ ms_listener s = Off
  | LogInfo _ | Stderr _ => True
  | Listen _ => ms_pool s = Live /\ ms_redis s = Live /\ ms_listener s = Off /\
                (admin_first = true -> ms_admin s = true)
  | StartWorkers _ _ _ => ms_pool s = Live /\ ms_redis s = Live /\ ms_workers s = Off
  | AwaitStop => ms_listener s = Serving
  | ShutdownServer => ms_listener s = Draining
  | AwaitWorkers => ms_listener s = Stopped /\ ms_workers s = Serving
  end.

Definition is_ok {A} (x : res A) : bool := match x with Ok _ => true | _ => false end.

(** The admin is known to exist once it was found, inserted, or reported taken. *)
Definition admin_known {X} (e : auth.authE X) : X -> bool :=
  match e in auth.authE X return X -> bool with
  | auth.FindByEmail email => fun x => is_ok x && bool_decide (email = auth.defaultAdminEmail)
  | auth.CreateUser user => fun x =>
      bool_decide (auth.Email user = auth.defaultAdminEmail) &&
      match x with Ok _ => true | Err err => errors_Is err AuthErrEmailTaken | Panic _ => false end
  | _ => fun _ => false
  end.

Definition m_next {X} (s : mstate) (e : mainE X) : X -> mstate :=
  let '(mkM p r a l w) := s in
  match e in mainE X return X -> mstate with
  | PoolNew _ => fun x => mkM (if is_ok x then Opening else Absent) r a l w
  | PoolPing => fun x => mkM (if is_ok x then Live else Opening) r a l w
  | PoolClose => fun _ => mkM Closed r a l w
  | RedisNew _ _ => fun _ => mkM p Live a l w
  | RedisClose => fun _ => mkM p Closed a l w
  | AuthCall e => fun x => mkM p r (a || admin_known e x) l w
  | Listen _ => fun _ => mkM p r a Serving w
  | StartWorkers _ _ _ => fun _ => mkM p r a l Serving
  | AwaitStop => fun x => mkM p r a (match x with Some _ => Broken | None => Draining end) w
  | ShutdownServer => fun x => mkM p r a (if is_ok x then Stopped else Broken) w
  | AwaitWorkers => fun _ => mkM p r a l Stopped
  | LogInfo _ | Stderr _ => fun _ => s
  end.

(** The libraries return errors; they do not panic. *)
Definition m_possible {X} (_ : mstate) (e : mainE X) : X -> Prop :=
  match e in mainE X return X -> Prop with
  | PoolNew _ | PoolPing | ShutdownServer => fun x => forall why, x <> Panic why
  | _ => fun _ => True
  end.

Definition process_protocol : protocol mainE mstate :=
  mkProtocol (fun _ => m_allowed) (fun _ => m_possible) (fun _ => m_next).
End lifecycle.

(** Everything that was opened is closed, and nothing is listening. *)
Definition released (s : mstate) : Prop :=
  (ms_pool s = Absent \/ ms_pool s = Closed) /\ (ms_redis s = Absent \/ ms_redis s = Closed) /\
  ms_listener s <> Serving.

Definition api_post (s : mstate) (r : res unit) : Prop :=
  released s /\ (r = Ok tt -> ms_listener s = Stopped /\ ms_admin s = true).

(** The worker goroutines are awaited on the clean exit only. *)
Definition worker_post (s : mstate) (r : res unit) : Prop :=
  released s /\ (r = Ok tt -> ms_listener s = Stopped /\ ms_workers s = Stopped).

(** A failed seed exits with the pool still open. *)
Definition seed_post (s : mstate) (code : Z) : Prop :=
  code = 0 -> ms_pool s = Closed /\ ms_admin s = true.

Section facts.
Context `{!CaseTables}.

Lemma Load_dsn getenv cfg :
  Load getenv = Ok cfg -> DatabaseURL cfg = getenv "DATABASE_URL" /\ getenv "DATABASE_URL" <> "".
Proof.
  unfold Load. destruct (check_required _) eqn:Hreq; [done|].
  apply check_required_None in Hreq. rewrite !Forall_cons in Hreq. destruct Hreq as (Hd & _).
  destruct (intOr getenv "JWT_EXPIRATION_MINUTES" 120) as [j|e|w]; [|done..].
  destruct (intOr getenv "ORDER_WORKER_COUNT" 3) as [k|e|w]; [|done..].
  destruct (intOr getenv "ORDER_MAX_RETRIES" 3) as [r|e|w]; [|done..]. cbn [bind_cfg].
  destruct (r <? 0); [done|]. destruct (validLogLevel _); [|done]. cbn [negb]. by intros [= <-].
Qed.

Context (dsn0 : string) (af : bool).
Abbreviation P := (process_protocol dsn0 af).

Lemma conforms_defer {A} s cleanup (body : main_prog (res A)) Q :
  conforms P s body (fun s' r => conforms P s' cleanup (fun s'' _ => Q s'' r)) ->
  conforms P s (defer cleanup body) Q.
Proof.
  intros Hb. unfold defer. apply conforms_bind. eapply conforms_mono; [|exact Hb].
  intros s' r Hc. apply conforms_bind. by eapply conforms_mono; [|exact Hc].
Qed.

Lemma conforms_check {A B} s (x : res A) (f : A -> main_prog (res B)) Q :
  match x with
  | Ok a => conforms P s (f a) Q
  | Err e => Q s (Err e)
  | Panic why => Q s (Panic why)
  end ->
  conforms P s (check x f) Q.
Proof. by destruct x. Qed.

(** The state with the given pool, the admin known or not, and nothing else started. *)
Definition before_redis (p : conn) (a : bool) : mstate := mkM p Absent a Off Off.

Lemma pool_opens dsn :
  dsn = dsn0 -> dsn0 <> "" ->
  conforms P m_init (NewPostgresPool dsn) (fun s x =>
    match x with
    | Ok _ => s = before_redis Live false
    | _ => s = before_redis Absent false \/ s = before_redis Closed false
    end).
Proof.
  intros Hd Hne. apply conforms_bind_err, conforms_call; [done|].
  intros [[]|e|why] Hx; cbn; [|by left|by destruct (Hx why)].
  split; [done|]. intros [[]|e|why] Hy; cbn; [done| |by destruct (Hy why)].
  split; [split; [by left|done]|]. by right.
Qed.

Lemma seed_conforms log :
  conforms P (before_redis Live false) (seed_admin log) (fun s x =>
    exists a, s = before_redis Live a /\ (x = Ok tt -> a = true)).
Proof.
  unfold seed_admin, auth.SeedDefaultAdmin. cbn. split; [done|].
  intros [u|err|why] _; cbn; [by eexists| |by eexists].
  destruct (errors_Is err AuthErrUserNotFound); cbn; [|by eexists].
  split; [done|]. intros [hash|e|why] _; cbn; [|by eexists..].
  split; [done|]. intros now _. split; [done|]. intros id _. split; [done|].
  intros [[]|e|why] _; cbn; [destruct log; cbn; [split; [done|]; intros _ _|]; by eexists| |by eexists].
  destruct (errors_Is e AuthErrEmailTaken) eqn:He; cbn; by eexists.
Qed.
End facts.

Section processes_facts.
Context `{!CaseTables} (getenv : string -> string).
Abbreviation P := (process_protocol (getenv "DATABASE_URL")).

(** A process whose configuration does not load has done nothing; otherwise it
    opens the pool, and with the pool open closes it after the body. *)
Lemma with_pool_conforms af (body : Config -> main_prog (res unit)) (Q : mstate -> res unit -> Prop) :
  (forall p r, p = Absent \/ p = Closed -> r <> Ok tt -> Q (before_redis p false) r) ->
  (forall cfg, Load getenv = Ok cfg ->
     conforms (P af) (before_redis Live false) (body cfg) (fun s r =>
       m_allowed (getenv "DATABASE_URL") af s PoolClose /\ Q (m_next s PoolClose tt) r)) ->
  conforms (P af) m_init
    (check (Load getenv) (fun cfg => _ <-! NewPostgresPool (DatabaseURL cfg) ;;
                                     defer (call PoolClose) (body cfg))) Q.
Proof.
  intros Hfail Hbody. apply conforms_check.
  destruct (Load getenv) as [cfg|e|why] eqn:Hcfg; [|by apply Hfail; [left|]..].
  destruct (Load_dsn _ _ Hcfg) as [Hdsn Hne]. apply conforms_bind_res.
  eapply conforms_mono; [|by apply pool_opens].
  intros s x. destruct x as [[]|e|why]; cbn; [|intros [->| ->]; (apply Hfail; [tauto|done])..].
  intros ->. apply conforms_defer. eapply conforms_mono; [|by apply Hbody].
  intros s r [Ha Hq]. split; [exact Ha|]. by intros [] _.
Qed.

Lemma api_serve_conforms cfg :
  conforms (P true) (mkM Live Live true Off Off) (api_serve cfg) (fun s r =>
    (exists l, s = mkM Live Live true l Off /\ l <> Serving /\ (r = Ok tt -> l = Stopped))).
Proof.
  unfold api_serve. cbn. split; [done|]. intros _ _. split; [done|]. intros _ _. split; [done|].
  intros [err|] _; cbn; [by eexists|]. split; [done|]. intros _ _. split; [done|].
  intros [[]|e|why] _; cbn; by eexists.
Qed.

Lemma api_run_conforms : conforms (P true) m_init (api_run getenv) api_post.
Proof.
  apply with_pool_conforms.
  { intros p r Hp Hr. split; [|done]. split_and!; [exact Hp|by left|done]. }
  intros cfg _. apply conforms_check.
  destruct (auth.NewTokenManager _ _) as [tm|e|why]; [|cbn; unfold api_post, released; cbn; intuition congruence..].
  apply conforms_bind_res. eapply conforms_mono; [|apply seed_conforms].
  intros s x (a & -> & Ha). destruct x as [[]|e|why];
    [specialize (Ha eq_refl); subst a|cbn; unfold api_post, released; cbn; intuition congruence..].
  split; [done|]. intros [] _. apply conforms_defer. eapply conforms_mono; [|apply api_serve_conforms].
  intros s r (l & -> & Hl & Hr). cbn. split; [done|]. intros _ _.
  unfold api_post, released; cbn. intuition congruence.
Qed.

Lemma worker_serve_conforms cfg sentinel :
  conforms (P false) (mkM Live Live false Off Off) (worker_serve cfg sentinel) (fun s r =>
    (exists l w, s = mkM Live Live false l w /\ l <> Serving /\ (r = Ok tt -> l = Stopped /\ w = Stopped))).
Proof.
  unfold worker_serve. cbn. split; [done|]. intros _ _. split; [done|]. intros _ _. split; [done|].
  intros [err|] _; cbn; [by eexists _, _|]. split; [done|]. intros _ _. split; [done|].
  intros [[]|e|why] _; cbn; [|by eexists _, _..]. split; [done|]. intros _ _. by eexists _, _.
Qed.

Lemma worker_run_conforms : conforms (P false) m_init (worker_run getenv) worker_post.
Proof.
  apply with_pool_conforms.
  { intros p r Hp Hr. split; [|done]. split_and!; [exact Hp|by left|done]. }
  intros cfg _. split; [done|]. intros [] _. apply conforms_defer, conforms_check.
  destruct (worker_sentinel cfg) as [sentinel|e|why];
    [|cbn; unfold worker_post, released; cbn; intuition congruence..].
  eapply conforms_mono; [|apply worker_serve_conforms].
  intros s r (l & w & -> & Hl & Hr). cbn. split; [done|]. intros _ _.
  unfold worker_post, released; cbn. intuition congruence.
Qed.

Lemma seed_main_conforms : conforms (P true) m_init (seed_main getenv) seed_post.
Proof.
  unfold seed_main. case_bool_decide as Hd; [cbn; split; [done|]; by intros _ _|].
  apply conforms_bind. eapply conforms_mono; [|by apply pool_opens].
  intros s x. destruct x as [[]|e|why]; [|intros _; cbn; split; [done|]; by intros [] _..].
  intros ->. apply conforms_bind. eapply conforms_mono; [|apply seed_conforms].
  intros s x (a & -> & Ha). destruct x as [[]|e|why]; [specialize (Ha eq_refl); subst a| |].
  - split; [by split; [right|]|]. by intros [] _.
  - cbn. split; [done|]. by intros _ _.
  - split; [by split; [right|]|]. intros [] _. split; [done|]. by intros [] _.
Qed.
End processes_facts.

(** C27: whatever the environment, the database, Redis and the libraries answer: the
    API process opens one pool, on the configured address, never listens before the
    default admin is known to exist, and on every path closes the Redis client and
    then the pool, with no listener left; it ends without an error only after a
    clean shutdown.  The worker process does the same without the seeding, and ends
    without an error only when its worker goroutines have finished as well.  The
    seed command exits with status 0 only with the admin in place and the pool
    closed. *)
Theorem processes_release_resources `{!CaseTables} (getenv : string -> string) :
  conforms (process_protocol (getenv "DATABASE_URL") true) m_init (api_run getenv) api_post /\
  conforms (process_protocol (getenv "DATABASE_URL") false) m_init (worker_run getenv) worker_post /\
  conforms (process_protocol (getenv "DATABASE_URL") true) m_init (seed_main getenv) seed_post.
Proof.
  split; [|split]; [apply api_run_conforms|apply worker_run_conforms|apply seed_main_conforms].
Qed.
