(* ===== verification/Schema.v ===== *)
(** Schema: the tables of the database (src/migrations): the column types and the
    constraints a row of each table meets, as far as a value of the Go types can miss
    them.  Columns of the types UUID, BOOLEAN and TIMESTAMP take every value the
    adapters send. *)
From S2P Require Import Prelude GoStrings Uuid Money Catalog Customer Product Auth OrderModel.

(** ** Column types *)

(** The characters of a UTF-8 text: its bytes but the continuation bytes. *)
Definition characters (s : string) : Z :=
  Z.of_nat (length (base.filter (fun c => ~ (128 <= byte_of c < 192)) (to_bytes s))).

Definition varchar (n : Z) (s : string) : bool := characters s <=? n.

(** NUMERIC(15, 2): thirteen digits before the point. *)
Definition numeric_15_2 (a : Money) : bool := (- 10 ^ 15 <? cents a) && (cents a <? 10 ^ 15).

(** INTEGER has four bytes. *)
Definition integer (z : Z) : bool := (- 2 ^ 31 <=? z) && (z <? 2 ^ 31).

(** ** Rows *)
Definition users_row (u : auth.User) : bool :=
  varchar 120 (auth.Name u) && varchar 160 (auth.Email u) && varchar 255 (auth.PasswordHash u) &&
  varchar 30 (auth.URole u).

Definition customers_row (c : customer.Customer) : bool :=
  varchar 150 (customer.Name c) && varchar 30 (customer.Document c) && varchar 160 (customer.Email c) &&
  varchar 30 (customer.Phone c).

Definition products_row (p : product.Product) : bool :=
  varchar 150 (product.Name p) && varchar 80 (product.SKU p) && numeric_15_2 (product.Price p) &&
  IsPositive (product.Price p).

Definition orders_row (o : Order) : bool :=
  varchar 30 (o_Status o) && numeric_15_2 (o_TotalAmount o) && (0 <=? cents (o_TotalAmount o)).

Definition order_items_row (i : OrderItem) : bool :=
  integer (i_Quantity i) && (0 <? i_Quantity i) &&
  numeric_15_2 (i_UnitPrice i) && IsPositive (i_UnitPrice i) &&
  numeric_15_2 (i_TotalPrice i) && IsPositive (i_TotalPrice i).

(** ** Foreign keys

    An order names its customer and its creator, a line its order and its product; each
    table is known by the ids it has. *)
Definition orders_keys (users customers : uuid -> Prop) (o : Order) : Prop :=
  customers (o_CustomerID o) /\ users (o_CreatedBy o).

Definition order_items_keys (orders products : uuid -> Prop) (i : OrderItem) : Prop :=
  orders (i_OrderID i) /\ products (i_ProductID i).

(** ** What the constraints give *)
Lemma numeric_15_2_spec a : numeric_15_2 a = true <-> - 10 ^ 15 < cents a < 10 ^ 15.
Proof. unfold numeric_15_2. lia. Qed.

Lemma numeric_money_ok a : numeric_15_2 a = true -> money_ok a.
Proof. rewrite numeric_15_2_spec. unfold money_ok, in_int64, int64_min, int64_max. lia. Qed.

Lemma orders_row_money o : orders_row o = true -> money_ok (o_TotalAmount o).
Proof. unfold orders_row. rewrite !andb_true_iff. intros [[_ Hn] _]. by apply numeric_money_ok. Qed.

Lemma order_items_row_money i : order_items_row i = true -> money_ok (i_UnitPrice i) /\ money_ok (i_TotalPrice i).
Proof.
  unfold order_items_row. rewrite !andb_true_iff. intros [[[[_ Hu] _] Ht] _]. split; by apply numeric_money_ok.
Qed.

Lemma products_row_money p : products_row p = true -> money_ok (product.Price p).
Proof. unfold products_row. rewrite !andb_true_iff. intros [[_ Hp] _]. by apply numeric_money_ok. Qed.

(** Every status and every role fits its column. *)
Lemma statuses_fit : Forall (fun st => varchar 30 st = true) allStatuses /\
  varchar 30 auth.RoleAdmin = true /\ varchar 30 auth.RoleOperator = true.
Proof. repeat split; repeat constructor. Qed.
