(* ===== verification/Provenance.v ===== *)
(** Provenance: where the orders in the store come from, when HTTP requests and queue
    messages run together: what every stored order refers to, and whose token it was
    created with. *)
From S2P Require Import Prelude Errors Effects GoStrings Uuid Calendar Money Pagination Catalog Customer Product Auth OrderModel OrderRepo OrderService OrderLifecycle OrderQueue OrderSystem Bodies Http Handlers Server EndToEnd Schema.

(** ** The API process as an interface

    Any order world behind the services, and the ids of the customers, products and users
    that exist. *)
Class ApiWorld (W : Type) `{!OrderWorld W} := {
  aw_sem :: Sem httpE W;
  aw_customers : W -> gset uuid;
  aw_products : W -> gset uuid;
  aw_user : W -> uuid -> Prop;
}.

(** The order service's calls are those of the order world; the other calls leave the
    orders alone; no customer, product or user is ever removed, and the lookups of the order
    service find existing ones only. *)
Class ApiLaws (W : Type) `{!OrderWorld W, !ApiWorld W} := {
  aw_order X (e : orderE X) (w : W) x w' : sem (HOrder e) w x w' -> sem e w x w';
  aw_outside X (e : httpE X) (w : W) x w' :
    ow_valid w -> sem e w x w' -> (forall e' : orderE X, e <> HOrder e') ->
    ow_store w' = ow_store w /\ ow_issued w ⊆ ow_issued w' /\ ow_valid w';
  aw_grow X (e : httpE X) (w : W) x w' :
    ow_valid w -> sem e w x w' -> aw_customers w ⊆ aw_customers w' /\ aw_products w ⊆ aw_products w';
  aw_users_stay X (e : httpE X) (w : W) x w' u : ow_valid w -> sem e w x w' -> aw_user w u -> aw_user w' u;
  aw_found id (w : W) c w' : ow_valid w -> sem (HOrder (FindCustomer id)) w (Ok c) w' -> id ∈ aw_customers w;
  aw_loaded ids (w : W) (ps : list OrderModel.Product) w' :
    ow_valid w -> sem (HOrder (FindProducts ids)) w (Ok ps) w' -> list_to_set (p_ID <$> ps) ⊆ aw_products w;
}.

(** ** Where an order may come from

    What a program has looked up so far. *)
Record seen := mkSeen { seen_customers : gset uuid; seen_products : gset uuid }.

Definition nothing_seen : seen := mkSeen ∅ ∅.

(** An order names a customer and products that were looked up, and its creator. *)
Definition supported (by_ : option uuid) (s : seen) (o : Order) (its : list OrderItem) : Prop :=
  by_ = Some (o_CreatedBy o) /\ o_CustomerID o ∈ seen_customers s /\
  Forall (fun it => i_ProductID it ∈ seen_products s) its.

Definition origin_allowed {X} (by_ : option uuid) (s : seen) (e : orderE X) : Prop :=
  match e with
  | Repo (CreateWithItems (Some o) its) => supported by_ s o its
  | _ => True
  end.

Definition origin_next {X} (s : seen) (e : orderE X) : X -> seen :=
  match e in orderE X return X -> seen with
  | FindCustomer id => fun x =>
      match x with Ok _ => mkSeen ({[id]} ∪ seen_customers s) (seen_products s) | _ => s end
  | FindProducts ids => fun x =>
      match x with
      | Ok ps => mkSeen (seen_customers s) (list_to_set (p_ID <$> ps) ∪ seen_products s)
      | _ => s
      end
  | _ => fun _ => s
  end.

Definition origin (by_ : option uuid) : protocol orderE seen :=
  mkProtocol (fun X s e => origin_allowed by_ s e) (fun X s e x => True) (fun X => @origin_next X).

(** ** Every use case of the order service follows it *)
Definition originates {A} (by_ : option uuid) (p : prog orderE A) : Prop :=
  conforms (origin by_) nothing_seen p (fun _ _ => True).

Lemma index_products_ids loaded id p : index_products loaded !! id = Some p -> id ∈ p_ID <$> loaded.
Proof.
  unfold index_products. rewrite list_elem_of_fmap.
  enough (Hgen : forall (m : gmap uuid OrderModel.Product), fold_left (fun m p => <[p_ID p := p]> m) loaded m !! id = Some p ->
            (exists q, id = p_ID q /\ q ∈ loaded) \/ m !! id = Some p)
    by (intros [H|H]%Hgen; [exact H|done]).
  induction loaded as [|q loaded IH]; intros m; cbn [fold_left]; [by right|].
  intros [(q' & -> & Hq')|Hm]%IH; [left; exists q'; split; [done|by right]|].
  apply lookup_insert_Some in Hm as [[<- _]|[_ Hm]]; [|by right]. left. exists q. split; [done|left].
Qed.

(** Each priced line is one of a loaded product. *)
Lemma price_line_origin by_ loaded orderID s acc line :
  list_to_set (p_ID <$> loaded) ⊆ seen_products s ->
  Forall (fun it => i_ProductID it ∈ seen_products s) acc.2 ->
  conforms (origin by_) s (price_line (index_products loaded) orderID acc line)
    (fun s' r => s' = s /\
       match r with Ok acc' => Forall (fun it => i_ProductID it ∈ seen_products s) acc'.2 | _ => True end).
Proof.
  intros Hseen Hacc. unfold price_line. destruct (index_products loaded !! _) as [p|] eqn:Hp; [|done].
  destruct (p_Active p); [|done]. cbn. split; [done|]. intros u _. split; [done|].
  apply Forall_app. split; [done|]. constructor; [|done]. apply Hseen. cbn.
  apply elem_of_list_to_set. by apply index_products_ids in Hp.
Qed.

Lemma Create_originates by_ input : originates (Some by_) (Create by_ input).
Proof.
  unfold originates, Create. destruct (validate_input input); [done|].
  apply conforms_bind_err, conforms_call; [exact I|]. intros [c|e|why] _; [|done..].
  destruct (negb (c_Active c)); [done|].
  apply conforms_bind_err, conforms_call; [exact I|]. intros [loaded|e|why] _; [|done..]. cbv zeta.
  apply conforms_bind, conforms_call; [exact I|]. intros now _.
  apply conforms_bind, conforms_call; [exact I|]. intros orderID _. cbn [next origin origin_next nothing_seen].
  set (s := mkSeen _ _). apply conforms_bind_res.
  apply (conforms_for_res _ (fun _ s' acc => s' = s /\ Forall (fun it => i_ProductID it ∈ seen_products s) acc.2)).
  - intros pre line post s' acc _ [-> Hacc]. eapply conforms_mono; [|apply price_line_origin; [set_solver|exact Hacc]].
    by intros s' [acc'|e|why].
  - intros s' acc [-> Hacc]. cbn. split; [repeat split; [set_solver|exact Hacc]|]. repeat conf_step.
  - split; [done|]. constructor.
Qed.

Lemma Process_originates by_ id : originates by_ (Process id).
Proof. unfold originates, Process. repeat conf_step. Qed.

Lemma transition_originates by_ id to required msg : originates by_ (transition id to required msg).
Proof. unfold originates, transition. repeat conf_step. Qed.

Lemma FindOrder_originates by_ id : originates by_ (FindOrder id).
Proof. unfold originates, FindOrder. repeat conf_step. Qed.

Lemma ListService_originates by_ f : originates by_ (ListService f).
Proof.
  unfold originates, ListService. case_match; [done|].
  apply conforms_bind_err, conforms_call; [exact I|]. intros [page|e|m] _; [|done..].
  apply conforms_bind_res, (conforms_for_res _ (fun _ _ _ => True)); [|by repeat conf_step|done].
  intros pre o post s acc _ _. unfold list_item. repeat conf_step.
Qed.

(** The lifecycle protocol and this one, side by side. *)
Definition ordering (by_ : option uuid) : protocol orderE (lstate * seen) := both lifecycle (origin by_).

Definition fresh_start : lstate * seen := (l_init, nothing_seen).

Lemma ordering_conforms by_ {A} (p : prog orderE A) :
  follows p -> originates by_ p -> conforms (ordering by_) fresh_start p (fun _ _ => True).
Proof. intros Hf Ho. eapply conforms_mono; [|by apply conforms_both]. done. Qed.

(** ** Requests

    A request carries the claims of the token it verified. *)
Record hstate := mkH { h_claims : option auth.Claims; h_order : lstate * seen }.

Definition permitted (c : auth.Claims) : Prop := auth.CRole c ∈ [auth.RoleAdmin; auth.RoleOperator].

Section http.
Context `{!UuidText, !CaseTables, !LocalZone, !Platform} (m : auth.TokenManager).

(** The user an order may be created by: the subject of a verified token whose role
    permits it. *)
Definition creator (c : option auth.Claims) : option uuid :=
  match c with
  | Some c => if decide (permitted c) then uuid_Parse (auth.UserID c) else None
  | None => None
  end.

Definition http_orders : protocol httpE hstate :=
  mkProtocol
    (fun X s e => match e with
                  | HOrder e => allowed (ordering (creator (h_claims s))) (h_order s) e
                  | _ => True
                  end)
    (fun X s e => match e in httpE X return X -> Prop with
                  | HOrder e => possible (ordering (creator (h_claims s))) (h_order s) e
                  | _ => fun _ => True
                  end)
    (fun X s e => match e in httpE X return X -> hstate with
                  | HOrder e => fun x => mkH (h_claims s) (next (ordering (creator (h_claims s))) (h_order s) e x)
                  | HVerify _ => fun x => match x with Ok c => mkH (Some c) (h_order s) | _ => s end
                  | _ => fun _ => s
                  end).

(** No order was touched yet. *)
Definition idle (s : hstate) : Prop := h_order s = fresh_start.

Definition respects (s : hstate) {A} (p : prog httpE A) : Prop := conforms http_orders s p (fun _ _ => True).

Lemma respects_bind s {A B} (p : prog httpE A) (f : A -> prog httpE B) :
  conforms http_orders s p (fun s' a => respects s' (f a)) -> respects s (bind p f).
Proof. apply conforms_bind. Qed.

Lemma respects_answer s {A} (p : prog httpE (res A)) ok : respects s p -> respects s (answer p ok).
Proof. intros Hp. apply respects_bind. eapply conforms_mono; [|exact Hp]. by intros s' [a|e|why]. Qed.

Lemma respects_or_write s {A} (x : res A) f : (forall a, respects s (f a)) -> respects s (or_write x f).
Proof. intros Hf. destruct x as [a|e|why]; [apply Hf|done..]. Qed.

(** The other services do not touch orders. *)
Lemma respects_plug {E A} (f : forall X, E X -> httpE X) s (p : prog E A) :
  (forall X (e : E X), allowed http_orders s (f X e) /\ forall x, next http_orders s (f X e) x = s) ->
  respects s (interp (fun X e => call (f X e)) p).
Proof. intros Hf. eapply conforms_mono; [|by apply conforms_plug]. done. Qed.

Lemma respects_customer_svc s {A} (p : prog customer.customerE A) : respects s (customer_svc p).
Proof. by apply respects_plug. Qed.
Lemma respects_product_svc s {A} (p : prog product.productE A) : respects s (product_svc p).
Proof. by apply respects_plug. Qed.
Lemma respects_auth_svc s {A} (p : prog auth.authE A) : respects s (auth_svc p).
Proof. by apply respects_plug. Qed.

Lemma respects_calls c st {A} (p : prog orderE A) Q :
  conforms (ordering (creator c)) st p Q -> respects (mkH c st) (order_svc p).
Proof.
  revert st. induction p as [a|X e k IH]; intros st; [done|]. intros [He Hk]. split; [exact He|].
  intros x Hx. by apply IH, Hk.
Qed.

Lemma respects_order_svc s {A} (p : prog orderE A) :
  idle s -> follows p -> originates (creator (h_claims s)) p -> respects s (order_svc p).
Proof.
  destruct s as [c st]. intros Hidle Hf Ho. cbn in Hidle, Ho. unfold idle in Hidle. cbn in Hidle. subst st.
  by eapply respects_calls, ordering_conforms.
Qed.

(** A handler behind the guard of the staff: the claims were verified, their role is
    permitted, and the context names their user. *)
Definition staffed (s : hstate) (r : Request) : Prop :=
  exists c, h_claims s = Some c /\ permitted c /\ cx_userID (rq_ctx r) = Some (auth.UserID c).

Definition serves_staff (h : Request -> prog httpE (res Response)) : Prop :=
  forall s r, idle s -> staffed s r -> respects s (h r).

Lemma order_create_respects : serves_staff order_handler.Create.
Proof.
  intros s r Hidle (c & Hc & Hp & Hu). unfold order_handler.Create, UserIDFromContext. rewrite Hu.
  destruct (uuid_Parse (auth.UserID c)) as [by_|] eqn:Hby; [|done].
  apply respects_or_write. intros input. apply respects_answer, respects_order_svc; [done|apply conf_Create|].
  unfold creator. rewrite Hc, decide_True, Hby by done. apply Create_originates.
Qed.

Lemma staff_orders : Forall (fun x => serves_staff x.2) order_handler.Routes.
Proof.
  assert (Hpath : forall (h : Request -> res uuid) {A} (p : uuid -> prog orderE (res A)) ok s r, idle s ->
            (forall id, follows (p id)) -> (forall id by_, originates by_ (p id)) ->
            respects s (or_write (h r) (fun id => answer (order_svc (p id)) ok))).
  { intros h A p ok s r Hs Hf Ho. apply respects_or_write. intros id. by apply respects_answer, respects_order_svc. }
  repeat constructor; cbn [snd]; [apply order_create_respects|intros s r Hs _..].
  - apply respects_or_write. intros f. apply respects_answer, respects_order_svc;
      [done|apply conf_ListService|apply ListService_originates].
  - apply (Hpath order_handler.pathID _ FindOrder); [done|apply conf_FindOrder|intros; apply FindOrder_originates].
  - apply (Hpath order_handler.pathID _ OrderService.Cancel); [done|intros; apply conf_transition|intros; apply transition_originates].
  - apply (Hpath order_handler.pathID _ OrderService.Ship); [done|intros; apply conf_transition|intros; apply transition_originates].
Qed.

Ltac other_handler := intros ?; repeat first
  [ apply respects_or_write; intros ? | apply respects_answer
  | apply respects_customer_svc | apply respects_product_svc | apply respects_auth_svc | exact I ].

Lemma staff_customers : Forall (fun x => serves_staff x.2) customer_handler.Routes.
Proof. repeat constructor; intros s r _ _; revert r; other_handler. Qed.
Lemma staff_products : Forall (fun x => serves_staff x.2) product_handler.Routes.
Proof. repeat constructor; intros s r _ _; revert r; other_handler. Qed.
Lemma auth_respects s : Forall (fun x => forall r, respects s (x.2 r)) (auth_handler.Routes m).
Proof. repeat constructor; other_handler. Qed.

(** ** The chain around the handlers *)
Lemma guarded_respects g h s r :
  idle s -> (g = staff \/ g = HasAction ActionListUsers) -> serves_staff h -> respects s (guarded (Some g) h r).
Proof.
  intros Hidle Hg Hh. destruct Hg as [->| ->]; cbn; unfold Authenticator;
    (destruct (bearerToken r) as [token|]; [|done]);
    (apply respects_bind, conforms_call; [exact I|]; intros [c|e|why] _; [|done..]);
    unfold RequireAnyRole, RequireAction, require; cbn.
  - case_bool_decide as Hrole; [|done]. apply Hh; [done|]. by exists c.
  - destruct (Can (auth.CRole c) ActionListUsers) eqn:Hcan; [|done]. apply Hh; [done|]. exists c.
    apply Can_list_users in Hcan. unfold permitted. rewrite Hcan. split; [done|]. split; [set_solver|done].
Qed.

Lemma routes_respect s : idle s -> Forall (fun rt => forall r, respects s (guarded (rt_guard rt) (rt_handler rt) r)) (routes m).
Proof.
  intros Hidle. assert (Hstaff : forall prefix rs, Forall (fun x => serves_staff x.2) rs ->
    Forall (fun rt => forall r, respects s (guarded (rt_guard rt) (rt_handler rt) r)) (mount prefix (Some staff) rs)).
  { intros prefix rs Hrs. unfold mount. apply Forall_fmap. eapply Forall_impl; [exact Hrs|].
    intros x Hx r. apply guarded_respects; [done|by left|exact Hx]. }
  unfold routes, public_routes, protected_routes. repeat apply Forall_app_2.
  - repeat constructor.
  - unfold mount. apply Forall_fmap. apply auth_respects.
  - constructor; [intros r; apply guarded_respects; [done|by right|by intros ? ? _ _]|].
    repeat apply Forall_app_2; apply Hstaff; [apply staff_customers|apply staff_products|apply staff_orders].
Qed.

Lemma fallbacks_respect s : idle s -> Forall (fun rt => forall r, respects s (guarded (rt_guard rt) (rt_handler rt) r)) fallbacks.
Proof.
  intros Hidle. unfold fallbacks, fallback. constructor; [by intros r|].
  repeat constructor; intros r; (apply guarded_respects; [done|by left|by intros ? ? _ _]).
Qed.

Lemma router_respects s r : idle s -> respects s (router m r).
Proof.
  intros Hidle. unfold router. destruct (dispatch _ r) as [i|]; [|done]. destruct (table m !! i) as [rt|] eqn:Hrt; [|done].
  pose proof (Forall_app_2 _ _ _ (routes_respect s Hidle) (fallbacks_respect s Hidle)) as Hall.
  rewrite Forall_lookup in Hall. by apply (Hall i rt).
Qed.

Lemma New_respects r : respects (mkH None fresh_start) (New m r).
Proof.
  assert (Hcall : forall s {X} (e : httpE X) {B} (f : X -> prog httpE B), idle s -> next http_orders s e = (fun _ => s) ->
            allowed http_orders s e -> (forall x, respects s (f x)) -> respects s (x <- call e ;; f x)).
  { intros s X e B f Hs Hn Ha Hf. apply respects_bind, conforms_call; [done|]. intros x _. rewrite Hn. apply Hf. }
  assert (Hlog : forall s r, idle s -> respects s (Logging (router m) r)).
  { intros s r' Hs. unfold Logging. apply Hcall; [done..|]. intros start. apply conforms_bind_res.
    eapply conforms_mono; [|by apply router_respects]. intros s' [resp|e|why] _; [|done..]. repeat split. }
  assert (Hrec : forall s r, idle s -> respects s (Recovery (Logging (router m)) r)).
  { intros s r' Hs. unfold Recovery. apply respects_bind. eapply conforms_mono; [|by apply Hlog].
    intros s' [resp|e|why] _; repeat split. }
  unfold New, RequestID. set (s := mkH None fresh_start).
  assert (Hrest : forall id, respects s
    (resp <-! Recovery (Logging (router m)) (with_ctx (mkCtx (Some id) (cx_userID (rq_ctx r)) (cx_role (rq_ctx r))) r) ;;
     Ret (Ok (set_header HeaderRequestID id resp)))).
  { intros id. apply conforms_bind_res. eapply conforms_mono; [|by apply Hrec]. by intros s' [resp|e|why]. }
  case_bool_decide; [apply Hcall|]; try done. apply Hrest.
Qed.

(** ** Requests and messages together *)
Inductive activity :=
| ARequest (r : Request)
| ADelivery (orderID : uuid).

Definition perform (a : activity) : prog httpE unit :=
  match a with
  | ARequest r => _ <- New m r ;; Ret tt
  | ADelivery id => order_svc (serve (RProcess id))
  end.

Lemma perform_respects a : respects (mkH None fresh_start) (perform a).
Proof.
  destruct a as [r|id]; cbn [perform].
  - apply respects_bind. eapply conforms_mono; [|apply New_respects]. done.
  - apply respects_order_svc; [done|apply conf_serve|]. unfold serve, forget, originates. apply conforms_bind.
    eapply conforms_mono; [|apply Process_originates]. done.
Qed.
End http.

(** ** The store with the record of what was called *)
#[export] Instance recorded_http {W} `{S : !Sem httpE W} : Sem httpE (W * list (event httpE)) := fun X e w x w' =>
  S X e w.1 x w'.1 /\ w'.2 = w.2 ++ [Ev e x].

(** A token of this user, with a role for orders, was verified. *)
Inductive attests `{!UuidText} (u : uuid) : event httpE -> Prop :=
| attests_verified token c : creator (Some c) = Some u -> attests u (Ev (HVerify token) (Ok c)).

Section pool.
Context `{!UuidText, !CaseTables, !LocalZone, !Platform}.
Context {W : Type} `{!OrderWorld W, !OrderWorldLaws W, !ApiWorld W, !ApiLaws W}.

(** The customer and the products of the order exist. *)
Definition refers (w : W) (en : Order * list OrderItem) : Prop :=
  o_CustomerID en.1 ∈ aw_customers w /\ Forall (fun it => i_ProductID it ∈ aw_products w) en.2.

(** Every reference is to an existing record, and every order that was not there at the
    start was created by the user of a verified token. *)
Definition sourced_orders (w0 w : W) (h : list (event httpE)) : Prop :=
  forall id en, ow_store w !! id = Some en ->
    refers w en /\ (ow_store w0 !! id = None -> Exists (attests (o_CreatedBy en.1)) h).

(** What a thread has looked up exists, and its claims were verified. *)
Definition thread_ok (w : W) (h : list (event httpE)) (s : hstate) : Prop :=
  seen_customers (h_order s).2 ⊆ aw_customers w /\ seen_products (h_order s).2 ⊆ aw_products w /\
  forall u, creator (h_claims s) = Some u -> Exists (attests u) h.

Definition orders_sound (w0 : W) (ss : list hstate) (w : W * list (event httpE)) : Prop :=
  together w0 ((fun s => (h_order s).1) <$> ss) w.1 /\ Forall (thread_ok w.1 w.2) ss /\ sourced_orders w0 w.1 w.2.

(** A row that is new was inserted by a creation. *)
Definition inserts {X} (e : orderE X) (en : Order * list OrderItem) : Prop :=
  match e with
  | Repo (CreateWithItems (Some o) its) => same_order o en.1 /\ its ≡ₚ en.2
  | _ => False
  end.

Lemma row_cases X (e : orderE X) (w : W) x w' id en :
  ow_valid w -> sem e w x w' -> ow_store w' !! id = Some en ->
  inserts e en \/ exists o, ow_store w !! id = Some (o, en.2) /\ same_identity o en.1.
Proof.
  intros Hv Hsem Hen.
  assert (Hkept : ow_store w' = ow_store w -> exists o, ow_store w !! id = Some (o, en.2) /\ same_identity o en.1).
  { intros Hs. rewrite Hs in Hen. exists en.1. split; [by rewrite Hen; destruct en|reflexivity]. }
  destruct (is_repo e) eqn:Hr; [|right; apply Hkept; by apply (ow_frame _ _ _ _ _ Hv Hsem Hr)].
  destruct e as [X r| | | | | | | | | | | |]; try done.
  destruct (ow_repo _ _ _ _ _ Hv Hsem) as [(e' & He & Hspec) _].
  assert (Hupd : forall id0 f nf x0, (forall o, same_identity o (f o)) ->
    write_spec (ow_store w) (store_update id0 f (ow_store w)) nf x0 (ow_store w') ->
    exists o, ow_store w !! id = Some (o, en.2) /\ same_identity o en.1).
  { intros id0 f nf x0 Hf Hw. destruct (write_spec_cases _ _ _ _ _ Hw) as [[Hs _]|Ht]; [by apply Hkept|].
    apply store_update_lookup in Ht as (o & its & Ho & Hs). rewrite Hs in Hen.
    apply lookup_insert_Some in Hen as [[<- <-]|[_ Hen]]; [by exists o|].
    exists en.1. split; [by rewrite Hen; destruct en|reflexivity]. }
  destruct r as [[o|] its|id0|id0 st|id0 st t|f]; cbn in He.
  - destruct He as (o' & its' & -> & Hsame & Hperm). cbn in Hspec.
    destruct (write_spec_cases _ _ _ _ _ Hspec) as [[Hs _]|[= Hs]]; [right; by apply Hkept|]. rewrite <- Hs in Hen.
    apply lookup_insert_Some in Hen as [[_ <-]|[_ Hen]]; [by left|right].
    exists en.1. split; [by rewrite Hen; destruct en|reflexivity].
  - destruct He as [its' ->]. right. destruct (write_spec_cases _ _ _ _ _ Hspec) as [[Hs _]|[=]]. by apply Hkept.
  - subst e'. destruct Hspec as [Hs _]. right. by apply Hkept.
  - subst e'. destruct Hspec as [t Hspec]. right. eapply Hupd; [|exact Hspec]. apply status_update_identity.
  - destruct He as [t' ->]. right. eapply Hupd; [|exact Hspec]. apply processed_update_identity.
  - destruct He as [f' ->]. destruct Hspec as [Hs _]. right. by apply Hkept.
Qed.

Lemma refers_grow (w w' : W) o en :
  aw_customers w ⊆ aw_customers w' -> aw_products w ⊆ aw_products w' -> same_identity o en.1 ->
  refers w (o, en.2) -> refers w' en.
Proof.
  intros Hc Hp (_ & Hcid & _) [Hr1 Hr2]. cbn in Hr1, Hr2. split; [rewrite Hcid; set_solver|].
  eapply Forall_impl; [exact Hr2|]. set_solver.
Qed.

Lemma thread_grow (w w' : W) h ev s :
  aw_customers w ⊆ aw_customers w' -> aw_products w ⊆ aw_products w' -> thread_ok w h s -> thread_ok w' (h ++ ev) s.
Proof.
  intros Hc Hp (Hsc & Hsp & Hat). split; [by etrans|]. split; [by etrans|].
  intros u Hu. apply Exists_app. left. by apply Hat.
Qed.

Lemma order_call_or_other {X} (e : httpE X) :
  (exists e' : orderE X, e = HOrder e') \/ (forall e' : orderE X, e <> HOrder e').
Proof. destruct e; first [by left; eexists|by right]. Qed.

Lemma api_valid_step X (e : httpE X) (w : W) x w' : ow_valid w -> sem e w x w' -> ow_valid w'.
Proof.
  intros Hv Hsem. destruct (order_call_or_other e) as [[e' ->]|Hout].
  - by eapply ow_valid_step, aw_order.
  - by apply (aw_outside _ _ _ _ _ Hv Hsem Hout).
Qed.

(** A call of another component leaves the order threads as they are. *)
Lemma together_frame w0 ss (w w' : W) :
  ow_store w' = ow_store w -> ow_issued w ⊆ ow_issued w' -> ow_valid w' -> together w0 ss w -> together w0 ss w'.
Proof.
  intros Hs Hi Hv ((_ & Hwf & Hdom) & Hown & Hap & Hl). unfold together, world_ok. rewrite Hs.
  split; [split; [done|]; split; [done|set_solver]|]. split; [|by split].
  eapply Forall_impl; [exact Hown|]. intros s [Ho Hd]. split; [set_solver|by rewrite Hs].
Qed.

Lemma together_call w0 ss (w : W) i s X (e : httpE X) x w' :
  ss !! i = Some s -> together w0 ((fun s => (h_order s).1) <$> ss) w -> allowed http_orders s e -> sem e w x w' ->
  together w0 ((fun s => (h_order s).1) <$> <[i := next http_orders s e x]> ss) w'.
Proof.
  intros Hi Ht Hal Hsem. rewrite list_fmap_insert.
  destruct (order_call_or_other e) as [[e' ->]|Hout].
  - apply (together_step w0 _ w i (h_order s).1 X e'); [by rewrite list_lookup_fmap, Hi|done|apply Hal|by apply aw_order].
  - destruct (aw_outside _ _ _ _ _ (proj1 (proj1 Ht)) Hsem Hout) as (Hs & His & Hv).
    rewrite list_insert_id; [by eapply together_frame|]. rewrite list_lookup_fmap, Hi. cbn. f_equal.
    destruct e; try done; [by destruct x|by destruct (Hout e)].
Qed.

(** What the calling thread knows afterwards is still true. *)
Lemma thread_next (w : W) h s X (e : httpE X) x w' :
  ow_valid w -> thread_ok w h s -> sem e w x w' -> thread_ok w' (h ++ [Ev e x]) (next http_orders s e x).
Proof.
  intros Hv Hs Hsem. destruct (aw_grow _ _ _ _ _ Hv Hsem) as [Hc Hp].
  pose proof (thread_grow w w' h [Ev e x] s Hc Hp Hs) as Hgrow. destruct Hs as (Hsc & Hsp & Hat).
  destruct e as [token| | |l|X e|X e|X e|X e]; cbn; try exact Hgrow.
  - destruct x as [c|er|why]; [|exact Hgrow..]. destruct Hgrow as (Hg1 & Hg2 & _). split; [done|]. split; [done|].
    intros u Hu. apply Exists_app. right. constructor. by constructor.
  - destruct Hgrow as (Hg1 & Hg2 & Hg3). destruct e; try done; cbn.
    + destruct x as [c|er|why]; [|done..]. pose proof (aw_found _ _ _ _ Hv Hsem). split; [cbn; set_solver|done].
    + destruct x as [ps|er|why]; [|done..]. pose proof (aw_loaded _ _ _ _ Hv Hsem). split; [done|]. split; [cbn; set_solver|done].
Qed.

(** A supported order that is inserted refers to existing records. *)
Lemma inserted_sound (w w' : W) h s X (e : httpE X) x en :
  aw_customers w ⊆ aw_customers w' -> aw_products w ⊆ aw_products w' -> thread_ok w h s ->
  allowed http_orders s e -> (exists e' : orderE X, e = HOrder e' /\ inserts e' en) ->
  refers w' en /\ Exists (attests (o_CreatedBy en.1)) (h ++ [Ev e x]).
Proof.
  intros Hc Hp (Hsc & Hsp & Hat) Hal (e' & -> & Hins). destruct e' as [X r| | | | | | | | | | | |]; try done.
  destruct r as [[o|] its| | | |]; try done. destruct Hins as [(_ & Hcid & _ & _ & Hby) Hperm].
  destruct Hal as [_ (Hcr & Hcu & Hpr)]. split; [split|].
  - rewrite Hcid. set_solver.
  - rewrite <- Hperm. eapply Forall_impl; [exact Hpr|]. cbn. set_solver.
  - apply Exists_app. left. rewrite Hby. by apply Hat.
Qed.

Lemma orders_sound_step w0 ss w i s X (e : httpE X) x w' :
  ss !! i = Some s -> orders_sound w0 ss w -> allowed http_orders s e -> sem e w x w' ->
  orders_sound w0 (<[i := next http_orders s e x]> ss) w'.
Proof.
  destruct w as [w h], w' as [w' h']. intros Hi (Ht & Hth & Hsrc) Hal [Hsem Hh]. cbn [fst snd] in *. subst h'.
  change (sem e w x w') in Hsem. pose proof (proj1 (proj1 Ht)) as Hv. destruct (aw_grow _ _ _ _ _ Hv Hsem) as [Hc Hp].
  pose proof Hth as Hth'. rewrite Forall_lookup in Hth'. specialize (Hth' _ _ Hi).
  split; [by eapply together_call|]. cbn [fst snd]. split.
  - apply Forall_insert; [|by eapply thread_next]. eapply Forall_impl; [exact Hth|]. intros s'. by apply thread_grow.
  - intros id en Hen.
    assert (Hrow : (exists e' : orderE X, e = HOrder e' /\ inserts e' en) \/
                   exists o, ow_store w !! id = Some (o, en.2) /\ same_identity o en.1).
    { destruct (order_call_or_other e) as [[e' ->]|Hout].
      - destruct (row_cases X e' w x w' id en Hv (aw_order _ _ _ _ _ Hsem) Hen) as [H'|H']; [left; by eexists|by right].
      - destruct (aw_outside _ _ _ _ _ Hv Hsem Hout) as (Hs & _ & _). right. rewrite Hs in Hen.
        exists en.1. split; [by rewrite Hen; destruct en|reflexivity]. }
    destruct Hrow as [Hins|(o & Ho & Hid)].
    + destruct (inserted_sound w w' h s X e x en Hc Hp Hth' Hal Hins) as [Hr Ha]. by split.
    + destruct (Hsrc _ _ Ho) as [Hr Ha]. split; [by eapply refers_grow|]. intros Hn.
      apply Exists_app. left. destruct Hid as (_ & _ & _ & -> & _). by apply Ha.
Qed.

Lemma orders_sound_possible w0 ss w i s X (e : httpE X) x w' :
  ss !! i = Some s -> orders_sound w0 ss w -> allowed http_orders s e -> sem e w x w' -> possible http_orders s e x.
Proof.
  destruct w as [w h], w' as [w' h']. intros Hi (Ht & _) Hal [Hsem _]. destruct e; try done. split; [|done].
  apply (together_possible w0 ((fun s => (h_order s).1) <$> ss) w i _ _ _ _ w'); [by rewrite list_lookup_fmap, Hi|done|apply Hal|].
  by apply aw_order.
Qed.
End pool.

(** ** The API process of EndToEnd keeps the interface *)
Section api_instance.
Context `{!UuidText, !CaseTables, !LocalZone, !auth.Bcrypt} (m : auth.TokenManager).

Definition products_keyed (s : api) : Prop := keyed product.ID (product.table (w_products (ap_world s))).

Definition api_order_world : OrderWorld api := {|
  ow_sem := fun X e s x s' => sem e (ap_world s) x (ap_world s');
  ow_store s := ow_store (ap_world s);
  ow_issued s := ow_issued (ap_world s);
  ow_valid s := ow_valid (ap_world s) /\ products_keyed s;
|}.
#[local] Existing Instance api_order_world.

Lemma run_customer_lookup id w :
  run (customerLookup_FindByID id) w =
    (match customer.table w !! id with
     | Some c => Ok (mkCustomer (customer.ID c) (customer.Active c))
     | None => (run (customerLookup_FindByID id) w).1
     end, w).
Proof.
  destruct w as [t o]. cbn. unfold customer.mem_FindByID. destruct (t !! id) as [c|]; reflexivity.
Qed.

Lemma run_product_lookup ids w :
  run (productLookup_FindManyByID ids) w =
    (Ok ((fun p => mkProduct (product.ID p) (product.Price p) (product.Active p)) <$>
           omap (fun id => product.table w !! id) ids), w).
Proof.
  destruct w as [t o]. cbn. do 2 f_equal. rewrite <- list_fmap_compose. reflexivity.
Qed.

(** The order service reads the catalog and never writes it. *)
Lemma order_keeps_catalog {X} (e : orderE X) (w : World) :
  w_customers (handle e w).2 = w_customers w /\ w_products (handle e w).2 = w_products w.
Proof.
  destruct e; try (cbn; repeat case_match; simplify_eq/=; done).
  - cbn. unfold repo_call. by destruct (mem_handle _ _ _) as [x r].
  - cbn [handle world_handler]. by rewrite run_customer_lookup.
  - cbn [handle world_handler]. by rewrite run_product_lookup.
Qed.

#[local] Instance api_order_laws : OrderWorldLaws api.
Proof.
  constructor; unfold sem, ow_sem, ow_store, ow_issued, ow_valid, api_order_world; intros *.
  - intros [Hv _]. by apply ow_repo.
  - intros [Hv _]. by apply ow_frame.
  - intros [Hv _]. by apply ow_fresh.
  - intros [Hv Hk] Hs. split; [by eapply ow_valid_step|]. unfold products_keyed in *.
    destruct (order_keeps_catalog e (ap_world w)) as [_ Hp]. cbn in Hs. unfold sem_of_handler in Hs. rewrite Hs in Hp.
    cbn in Hp. by rewrite Hp.
Qed.

Definition api_world : ApiWorld api := {|
  aw_sem := sem_of_handler (api_handler m);
  aw_customers s := dom (customer.table (w_customers (ap_world s)));
  aw_products s := dom (product.table (w_products (ap_world s)));
  aw_user s u := exists email us, auth.users (ap_users s) !! email = Some us /\ uuid_Parse (auth.ID us) = Some u;
|}.
#[local] Existing Instance api_world.

Lemma dom_insert_grow {A} (t : gmap uuid A) i a : dom t ⊆ dom (<[i := a]> t).
Proof. rewrite dom_insert_L. set_solver. Qed.

Lemma customer_call_grows {X} (e : customer.customerE X) w :
  dom (customer.table w) ⊆ dom (customer.table (handle e w).2).
Proof.
  destruct w as [t o]. destruct e as [X r| |]; try done. destruct r; cbn;
    unfold customer.mem_Update, customer.mem_Deactivate; repeat case_match; simplify_eq/=; first [done|apply dom_insert_grow].
Qed.

Lemma product_call_grows {X} (e : product.productE X) w :
  dom (product.table w) ⊆ dom (product.table (handle e w).2) /\
  (keyed product.ID (product.table w) -> keyed product.ID (product.table (handle e w).2)).
Proof.
  destruct w as [t o]. destruct e as [X r| |]; try done. destruct r; cbn;
    unfold product.mem_Update, product.mem_Deactivate; repeat case_match; simplify_eq/=;
    (split; [first [done|apply dom_insert_grow]|]); intros Hk; try exact Hk; apply map_Forall_insert_2; try done.
  change (product.ID p = id). by apply (Hk id).
Qed.

Lemma user_call_keeps {X} (e : auth.authE X) w email us :
  auth.users w !! email = Some us -> auth.users (handle e w).2 !! email = Some us.
Proof.
  intros Hus. destruct e; try exact Hus. cbn. unfold auth.mem_CreateUser.
  destruct (auth.users w !! auth.Email user) eqn:He; [exact Hus|]. cbn.
  rewrite lookup_insert_ne; [exact Hus|congruence].
Qed.

#[local] Instance api_laws : ApiLaws api.
Proof.
  assert (Hord : forall X (e : orderE X) (w : api) x w', sem (HOrder e) w x w' -> handle e (ap_world w) = (x, ap_world w')).
  { intros X e w x w' Hs. cbn in Hs. unfold sem_of_handler in Hs. cbn in Hs.
    destruct (handle e (ap_world w)) as [y w1]. by injection Hs as <- <-. }
  constructor.
  - apply Hord.
  - intros X e w x w' [Hv Hk] Hs Hout. destruct w as [w us o l].
    destruct e as [token| | |l'|X e|X e|X e|X e]; [..|by destruct (Hout e)| | |];
      cbn in Hs; unfold sem_of_handler, tick, fresh_id in Hs; cbn in Hs; try (injection Hs as <- <-; by split_and!).
    + destruct (handle e (w_customers w)) as [y c]. injection Hs as <- <-. split_and!; done.
    + destruct (product_call_grows e (w_products w)) as [_ Hkey]. destruct (handle e (w_products w)) as [y p].
      injection Hs as <- <-. split; [done|]. split; [done|]. split; [exact Hv|by apply Hkey].
    + destruct (handle e us) as [y u]. injection Hs as <- <-. by split_and!.
  - intros X e w x w' _ Hs. destruct w as [w us o l].
    destruct e as [token| | |l'|X e|X e|X e|X e]; try (cbn in Hs; unfold sem_of_handler, tick, fresh_id in Hs; cbn in Hs; by injection Hs as <- <-).
    + apply Hord in Hs. cbn in Hs. destruct (order_keeps_catalog e w) as [Hc Hp]. rewrite Hs in Hc, Hp. cbn in Hc, Hp |- *.
      by rewrite Hc, Hp.
    + cbn in Hs; unfold sem_of_handler in Hs; cbn in Hs. pose proof (customer_call_grows e (w_customers w)) as Hg.
      destruct (handle e (w_customers w)) as [y c]. by injection Hs as <- <-.
    + cbn in Hs; unfold sem_of_handler in Hs; cbn in Hs. pose proof (product_call_grows e (w_products w)) as Hg.
      destruct (handle e (w_products w)) as [y p]. injection Hs as <- <-. split; [done|apply Hg].
    + cbn in Hs; unfold sem_of_handler in Hs; cbn in Hs. destruct (handle e us) as [y u]. by injection Hs as <- <-.
  - intros X e w x w' u _ Hs (email & us & Hus & Hu). exists email, us. split; [|exact Hu]. destruct w as [w ac o l].
    destruct e as [token| | |l'|X e|X e|X e|X e]; cbn in Hs; unfold sem_of_handler, tick, fresh_id in Hs; cbn in Hs;
      try (by injection Hs as <- <-).
    4: { pose proof (user_call_keeps e ac email us Hus) as Hg. destruct (handle e ac) as [y c]. by injection Hs as <- <-. }
    all: match type of Hs with context [handle ?e ?v] => destruct (handle e v) end; by injection Hs as <- <-.
  - intros id w c w' _ Hs%Hord. cbn [handle world_handler] in Hs. cbn. rewrite elem_of_dom.
    destruct (customer.table (w_customers (ap_world w)) !! id) eqn:Hc; [done|].
    cbn in Hs. unfold customer.mem_FindByID in Hs. rewrite Hc in Hs. done.
  - intros ids w ps w' [_ Hk] Hs%Hord. cbn [handle world_handler] in Hs. rewrite run_product_lookup in Hs.
    injection Hs as <- _. cbn. intros u. rewrite elem_of_list_to_set, list_elem_of_fmap.
    intros (q & -> & (p & -> & Hp)%list_elem_of_fmap). cbn. apply list_elem_of_omap in Hp as (id & _ & Hid).
    rewrite (Hk _ _ Hid). by eapply elem_of_dom_2.
Qed.
End api_instance.

Section sound.
Context `{!UuidText, !CaseTables, !LocalZone, !Platform}.
Context {W : Type} `{!OrderWorld W, !OrderWorldLaws W, !ApiWorld W, !ApiLaws W} (m : auth.TokenManager).

Lemma users_stay A (c c' : list (prog httpE A) * (W * list (event httpE))) u :
  pool_steps c c' -> ow_valid c.2.1 -> aw_user c.2.1 u -> aw_user c'.2.1 u.
Proof.
  intros Hsteps Hv Hu. eapply (pool_invariant (fun w : W * list (event httpE) => ow_valid w.1 /\ aw_user w.1 u));
    [|exact Hsteps|by split].
  intros X e v x v' [Hv' Hu'] [Hsem _]. split; [by eapply api_valid_step|by eapply aw_users_stay].
Qed.

Lemma sound_pool acts (w : W) c :
  world_ok w -> (forall id en, ow_store w !! id = Some en -> refers w en) ->
  pool_steps (perform m <$> acts, (w, [])) c ->
  exists ss, orders_sound w ss c.2 /\ forall u, aw_user w u -> aw_user c.2.1 u.
Proof.
  intros Hok Hrefs Hsteps.
  destruct (pool_conforms http_orders (orders_sound w) (orders_sound_possible w) (orders_sound_step w) (fun _ _ => True)
              _ _ (replicate (length acts) (mkH None fresh_start)) Hsteps) as (ss & _ & Hsound).
  - cbn. clear Hsteps. induction acts as [|a acts IH]; cbn; constructor; [apply perform_respects|apply IH].
  - split; [|split].
    + cbn [fst]. rewrite fmap_replicate. split; [done|]. split; [|split; [|reflexivity]].
      * apply Forall_replicate, owns_init.
      * intros i j s s' _ [-> _]%lookup_replicate [-> _]%lookup_replicate. set_solver.
    + apply Forall_replicate. split; [set_solver|]. split; [set_solver|]. by intros u [=].
    + intros id en Hen. cbn in Hen |- *. split; [by eapply Hrefs|congruence].
  - exists ss. split; [exact Hsound|]. intros u Hu. by eapply (users_stay _ _ _ u Hsteps); [apply Hok|].
Qed.
End sound.

Definition recording_http {W} (H : Effects.Handler httpE W) : Effects.Handler httpE (W * list (event httpE)) :=
  fun X e w => let '(x, w') := handle e w.1 in (x, (w', w.2 ++ [Ev e x])).

Lemma recording_http_steps {W} (H : Effects.Handler httpE W) {A} sched (ts : list (prog httpE A)) (w : W) :
  @pool_steps _ _ (@recorded_http W (sem_of_handler H)) A (ts, (w, []))
    (run_schedule (recording_http H) sched ts (w, [])).
Proof.
  apply (pool_steps_mono (sem_of_handler (recording_http H))); [|apply run_schedule_steps].
  intros X e v x v'. unfold sem_of_handler, recording_http, handle, recorded_http.
  destruct (H X e v.1) as [y v1]. by intros [= <- <-].
Qed.

(** ** Properties *)

(** C8: the provenance of orders.  HTTP requests of any kind - to orders, customers,
    products or accounts, with any token or none - and queue messages are served at the
    same time, their calls interleaved in any way, over any adapters that keep
    [OrderWorldLaws] and [ApiLaws]; every call may fail, also after taking effect.  At
    every moment each stored order refers to a customer and to products that exist; each
    order that was added was created by the user of a token that was verified during the
    run and has the role ADMIN or OPERATOR; the order is well formed, and none was
    removed or had its items, total, customer or creator changed.  When the verified
    tokens name stored users, every foreign key of the two order tables of the schema
    holds. *)
Theorem concurrent_requests_keep_provenance `{!UuidText, !CaseTables, !LocalZone, !Platform}
    {W : Type} `{!OrderWorld W, !OrderWorldLaws W, !ApiWorld W, !ApiLaws W} (m : auth.TokenManager)
    (acts : list activity) (w : W) (ps : list (prog httpE unit)) (w' : W) (h : list (event httpE)) :
  world_ok w -> (forall id en, ow_store w !! id = Some en -> refers w en) ->
  pool_steps (perform m <$> acts, (w, [])) (ps, (w', h)) ->
  world_ok w' /\ lawful any_status (ow_store w) (ow_store w') /\
  (forall id en, ow_store w' !! id = Some en ->
    refers w' en /\ (ow_store w !! id = None -> Exists (attests (o_CreatedBy en.1)) h)) /\
  ((forall u, Exists (attests u) h -> aw_user w' u) ->
   (forall id en, ow_store w !! id = Some en -> aw_user w (o_CreatedBy en.1)) ->
   forall id en, ow_store w' !! id = Some en ->
     orders_keys (aw_user w') (.∈ aw_customers w') en.1 /\
     Forall (order_items_keys (.∈ dom (ow_store w')) (.∈ aw_products w')) en.2).
Proof.
  intros Hok Hrefs Hsteps.
  destruct (sound_pool m acts w (ps, (w', h)) Hok Hrefs Hsteps) as (ss & ((Hok' & _ & _ & Hl) & _ & Hsrc) & Husers).
  split; [exact Hok'|]. split; [exact Hl|]. split; [exact Hsrc|]. intros Hverified Hinit id en Hen.
  destruct (Hsrc id en Hen) as [[Hc Hp] Ha]. cbn [fst snd] in *. split; [split; [exact Hc|]|].
  - destruct (ow_store w !! id) as [[o its]|] eqn:Ho; [|by apply Hverified, Ha].
    destruct (proj1 Hl _ _ _ Ho) as (o' & Ho' & (_ & _ & _ & Hby & _) & _). rewrite Hen in Ho'. injection Ho' as ->. cbn.
    rewrite Hby. by apply Husers, (Hinit id (o, its)).
  - destruct (proj1 (proj2 Hok') _ _ Hen) as [Hid (_ & Hits & _)]. apply (elem_of_dom_2 (D := gset uuid)) in Hen.
    apply Forall_and. split; [|exact Hp]. eapply Forall_impl; [exact Hits|]. intros it [Hit _]. cbn. congruence.
Qed.

#[local] Existing Instances bit_text no_tables UTC auth.demo_bcrypt demo_dispatch.
#[local] Existing Instances api_order_world api_order_laws.
#[local] Instance demo_api_world : ApiWorld api := api_world auth.demo_manager.
#[local] Instance demo_api_laws : ApiLaws api := api_laws auth.demo_manager.

(** The clerk has an account. *)
Definition clerk : auth.User :=
  auth.mkUser (uuid_String 9) "Clerk" "clerk@x" "" auth.RoleOperator true 0 0.

Definition staffed_api : api :=
  mkApi demo_world (auth.mkWorld {["clerk@x" := clerk]} demo_oracle 0 0 []) demo_oracle [].

Definition demo_activities : list activity := [ARequest demo_post; ARequest demo_post; ADelivery 1].

(** The two requests alternate; then the message of the first order is processed. *)
Definition demo_http_schedule : list nat := (concat (replicate 14 [0; 1]) ++ replicate 12 2)%nat.

Definition demo_http : list (prog httpE unit) * (api * list (event httpE)) :=
  run_schedule (recording_http (api_handler auth.demo_manager)) demo_http_schedule
    (perform auth.demo_manager <$> demo_activities) (staffed_api, []).

Lemma demo_http_steps :
  pool_steps (perform auth.demo_manager <$> demo_activities, (staffed_api, []))
    (demo_http.1, (demo_http.2.1, demo_http.2.2)).
Proof. rewrite <- (surjective_pairing demo_http.2), <- surjective_pairing. apply recording_http_steps. Qed.

Lemma staffed_api_ok : world_ok staffed_api.
Proof.
  destruct demo_world_ok as (Hv & Hwf & Hd). split; [|by split]. split; [exact Hv|].
  unfold products_keyed. cbn. by apply map_Forall_singleton.
Qed.

Lemma staffed_api_empty id en : ow_store staffed_api !! id = Some en -> False.
Proof. cbn. unfold mem_store. cbn. by rewrite map_lookup_imap, lookup_empty. Qed.

(** The users whose tokens were verified, computed. *)
Definition attested (ev : event httpE) : option uuid :=
  match ev_call _ ev in httpE X return X -> option uuid with
  | HVerify _ => fun x => match x with Ok c => creator (Some c) | _ => None end
  | _ => fun _ => None
  end (ev_ret _ ev).

Lemma attests_attested u h : Exists (attests u) h -> u ∈ omap attested h.
Proof.
  rewrite Exists_exists. intros (ev & Hin & Ha). apply list_elem_of_omap. exists ev. split; [exact Hin|].
  by destruct Ha.
Qed.

Lemma staffed_api_none id : ow_store staffed_api !! id = None.
Proof. apply eq_None_not_Some. intros [en He]. exact (staffed_api_empty id en He). Qed.

Lemma demo_attested : omap attested demo_http.2.2 = [9; 9]%N.
Proof. vm_compute. reflexivity. Qed.

Lemma clerk_stays : auth.users (ap_users demo_http.2.1) !! "clerk@x" = Some clerk /\ uuid_Parse (auth.ID clerk) = Some 9%N.
Proof. split; vm_compute; reflexivity. Qed.

Lemma demo_verified u : Exists (attests u) demo_http.2.2 -> aw_user demo_http.2.1 u.
Proof.
  intros Hu%attests_attested. rewrite demo_attested in Hu. assert (u = 9%N) as -> by set_solver.
  exists "clerk@x", clerk. exact clerk_stays.
Qed.

(** Two orders were created, both by the clerk of the token; every foreign key holds; one
    order was paid. *)
Lemma concurrent_requests_keep_provenance_witness :
  world_ok demo_http.2.1 /\
  (forall id en, ow_store demo_http.2.1 !! id = Some en ->
     Exists (attests (o_CreatedBy en.1)) demo_http.2.2 /\
     orders_keys (aw_user demo_http.2.1) (.∈ aw_customers demo_http.2.1) en.1) /\
  (fun o => (o_Status o, o_CreatedBy o)) <$> orders (w_orders (ap_world demo_http.2.1)) !! 1%N =
    Some (StatusPaid, 9%N).
Proof.
  destruct (concurrent_requests_keep_provenance auth.demo_manager demo_activities staffed_api demo_http.1
              demo_http.2.1 demo_http.2.2) as (Hok & _ & Hsrc & Hkeys).
  - apply staffed_api_ok.
  - by intros id en Hen%staffed_api_empty.
  - apply demo_http_steps.
  - split; [exact Hok|]. split; [|vm_compute; reflexivity]. intros id en Hen.
    split; [exact (proj2 (Hsrc id en Hen) (staffed_api_none id))|].
    refine (proj1 (Hkeys demo_verified _ id en Hen)).
    intros id' en' He. destruct (staffed_api_empty id' en' He).
Defined.
