(* ===== verification/Postgres.v ===== *)
(** Postgres: the pgx-backed repositories of the order, customer, product and auth
    packages: the SQL text and the arguments they send, how they read rows, map
    errors and use transactions.  The database is behind the calls of [pgE]; white
    space inside the SQL text is collapsed. *)
From S2P Require Import Prelude Errors Effects GoStrings Uuid Money Pagination Catalog Customer Product Auth OrderModel OrderRepo.

(** ** The driver (pgx)

    Values bound to placeholders and values scanned from a row. *)
Inductive sqlval :=
| VUuid (u : uuid)
| VText (s : string)
| VBool (b : bool)
| VInt (z : Z)
| VTime (t : time)
| VNull
| VUuids (l : list uuid).

#[export] Instance sqlval_eq_dec : EqDecision sqlval.
Proof. solve_decision. Defined.

(** The rows of a [Query], and the [rows.Err()] after the last one. *)
Record Rows := mkRows { rw_rows : list (list sqlval); rw_err : option error }.

(** [Exec] answers with the number of affected rows, [QueryRow] with the row its
    [Scan] sees. *)
Inductive pgE : Type -> Type :=
| Exec (sql : string) (args : list sqlval) : pgE (res Z)
| QueryRow (sql : string) (args : list sqlval) : pgE (res (list sqlval))
| Query (sql : string) (args : list sqlval) : pgE (res Rows)
| Begin : pgE (res unit)
| TxExec (sql : string) (args : list sqlval) : pgE (res Z)
| Commit : pgE (res unit)
| Rollback : pgE unit.

Abbreviation pg := (prog pgE) (only parsing).

(** A row that does not have the columns a [Scan] expects. *)
Definition scan_error : error := ErrNew "cannot scan row".

(** [for rows.Next() { ... }]: scan each row, then check [rows.Err()]. *)
Fixpoint scan_all {A} (scan : list sqlval -> res A) (l : list (list sqlval)) : res (list A) :=
  match l with
  | [] => Ok []
  | row :: l' =>
      match scan row with
      | Ok a => match scan_all scan l' with
                | Ok r => Ok (a :: r)
                | Err e => Err e
                | Panic why => Panic why
                end
      | Err e => Err e
      | Panic why => Panic why
      end
  end.

Definition scan_rows {A} (scan : list sqlval -> res A) (rows : Rows) : res (list A) :=
  match scan_all scan (rw_rows rows), rw_err rows with
  | Ok l, None => Ok l
  | Ok _, Some e => Err e
  | x, _ => x
  end.

Definition bind_ok {A B} (x : res A) (f : A -> res B) : res B :=
  match x with Ok a => f a | Err e => Err e | Panic why => Panic why end.

(** [if err != nil { if errors.Is(err, pgx.ErrNoRows) { return notFound }; return err }]. *)
Definition no_rows (notFound : error) (err : error) : error :=
  if errors_Is err PgxErrNoRows then notFound else err.

(** [tag, err := Exec(...)] of an UPDATE by primary key. *)
Definition update_one (notFound : error) (sql : string) (args : list sqlval) : pg (res unit) :=
  tag <-! call (Exec sql args) ;;
  Ret (if tag =? 0 then Err notFound else Ok tt).

(** ** WHERE clauses

    One optional condition: its text before the placeholder, and its value. *)
Definition add_condition (c : string * option sqlval) (acc : list string * list sqlval)
    : list string * list sqlval :=
  match c.2 with
  | Some v => (acc.1 ++ [c.1 +:+ "$" +:+ Itoa (Z.of_nat (length (acc.2 ++ [v])))], acc.2 ++ [v])
  | None => acc
  end.

Definition conditions (cs : list (string * option sqlval)) : list string * list sqlval :=
  fold_left (fun acc c => add_condition c acc) cs ([], []).

Definition where_clause (conds : list string) : string :=
  if bool_decide (conds = []) then "" else " WHERE " +:+ Join conds " AND ".

Definition limit_offset (n : nat) : string :=
  " ORDER BY created_at, id LIMIT $" +:+ Itoa (Z.of_nat n - 1) +:+ " OFFSET $" +:+ Itoa (Z.of_nat n).

(** The text that selects a page, and its arguments. *)
Definition page_sql (select : string) (where_ : string) (args : list sqlval) (page pageSize : Z)
    : string * list sqlval :=
  let args' := args ++ [VInt pageSize; VInt (wrap64 (wrap64 (page - 1) * pageSize))] in
  (select +:+ where_ +:+ limit_offset (length args'), args').

Definition scan_count (row : list sqlval) : res Z :=
  match row with [VInt n] => Ok n | _ => Err scan_error end.

(** [make([]T, 0, n)] panics on a negative capacity. *)
Definition list_pg {A} (count_sql select : string) (conds : list string * list sqlval)
    (scan : list sqlval -> res A) (page pageSize : Z) : pg (res (Page A)) :=
  let where_ := where_clause conds.1 in
  row <-! call (QueryRow (count_sql +:+ where_) conds.2) ;;
  match scan_count row with
  | Err e => Ret (Err e)
  | Panic why => Ret (Panic why)
  | Ok total =>
      let q := page_sql select where_ conds.2 page pageSize in
      rows <-! call (Query q.1 q.2) ;;
      if pageSize <? 0 then Ret (Panic "makeslice: cap out of range")
      else Ret (bind_ok (scan_rows scan rows) (fun items =>
             Ok (mkPage items page pageSize total (guarded_pages total pageSize))))
  end.

Section adapters.
Context `{!CaseTables}.

Definition parse_amount (what text : string) : res Money :=
  match ParseString text with
  | Err e => Err (ErrWrap ("parse " +:+ what +:+ " " +:+ Quote text +:+ ": " +:+ Error e) e)
  | x => x
  end.

(** ** internal/order/postgres_repository.go *)
Definition insertOrder : string :=
  "INSERT INTO orders (id, customer_id, status, total_amount, created_by, created_at, updated_at) VALUES ($1, $2, $3, $4, $5, $6, $7)".
Definition insertItem : string :=
  "INSERT INTO order_items (id, order_id, product_id, quantity, unit_price, total_price) VALUES ($1, $2, $3, $4, $5, $6)".
Definition orderColumns : string :=
  "SELECT id, customer_id, status, total_amount::text, created_by, created_at, updated_at, processed_at FROM orders".
Definition selectItems : string :=
  "SELECT id, order_id, product_id, quantity, unit_price::text, total_price::text FROM order_items WHERE order_id=$1 ORDER BY id".

Definition order_args (o : Order) : list sqlval :=
  [VUuid (o_ID o); VUuid (o_CustomerID o); VText (o_Status o); VText (Decimal (o_TotalAmount o));
   VUuid (o_CreatedBy o); VTime (o_CreatedAt o); VTime (o_UpdatedAt o)].

Definition item_args (i : OrderItem) : list sqlval :=
  [VUuid (i_ID i); VUuid (i_OrderID i); VUuid (i_ProductID i); VInt (i_Quantity i);
   VText (Decimal (i_UnitPrice i)); VText (Decimal (i_TotalPrice i))].

Definition insert_item (_ : unit) (i : OrderItem) : pg (res unit) :=
  _ <-! call (TxExec insertItem (item_args i)) ;; Ret (Ok tt).

(** The body of the transaction; the deferred rollback runs on every return. *)
Definition create_tx (o : Order) (items : list OrderItem) : pg (res unit) :=
  _ <-! call (TxExec insertOrder (order_args o)) ;;
  _ <-! for_res insert_item items tt ;;
  call Commit.

(** A nil order is dereferenced inside the transaction. *)
Definition order_CreateWithItems (order : option Order) (items : list OrderItem) : pg (res unit) :=
  _ <-! call Begin ;;
  result <- (match order with
             | Some o => create_tx o items
             | None => Ret (Panic "invalid memory address or nil pointer dereference")
             end) ;;
  call Rollback ;;;
  Ret result.

Definition scan_order (row : list sqlval) : res Order :=
  match row with
  | [VUuid id; VUuid customer; VText status; VText total; VUuid by_; VTime created; VTime updated; processed] =>
      match processed with
      | VNull => bind_ok (parse_amount "order total" total) (fun m =>
                   Ok (mkOrder id customer status m by_ created updated None))
      | VTime t => bind_ok (parse_amount "order total" total) (fun m =>
                   Ok (mkOrder id customer status m by_ created updated (Some t)))
      | _ => Err scan_error
      end
  | _ => Err scan_error
  end.

Definition scan_item (row : list sqlval) : res OrderItem :=
  match row with
  | [VUuid id; VUuid order_; VUuid product_; VInt q; VText unit_; VText total] =>
      bind_ok (parse_amount "unit_price" unit_) (fun u =>
      bind_ok (parse_amount "total_price" total) (fun t =>
      Ok (mkItem id order_ product_ q u t)))
  | _ => Err scan_error
  end.

Definition findItems (orderID : uuid) : pg (res (list OrderItem)) :=
  rows <-! call (Query selectItems [VUuid orderID]) ;;
  Ret (scan_rows scan_item rows).

Definition order_FindByID (id : uuid) : pg (res (Order * list OrderItem)) :=
  row <-! call (QueryRow (orderColumns +:+ " WHERE id=$1") [VUuid id])
      catch (fun err => Err (no_rows ErrOrderNotFound err)) ;;
  match scan_order row with
  | Err e => Ret (Err e)
  | Panic why => Ret (Panic why)
  | Ok o =>
      items <-! findItems id ;;
      Ret (Ok (o, items))
  end.

Definition order_UpdateStatus (id : uuid) (status : OrderStatus) : pg (res unit) :=
  update_one ErrOrderNotFound "UPDATE orders SET status=$2, updated_at=now() WHERE id=$1"
    [VUuid id; VText status].

Definition order_MarkProcessed (id : uuid) (status : OrderStatus) (processedAt : time) : pg (res unit) :=
  update_one ErrOrderNotFound "UPDATE orders SET status=$2, processed_at=$3, updated_at=$3 WHERE id=$1"
    [VUuid id; VText status; VTime processedAt].

Definition orderConditions (f : OrderFilter) : list string * list sqlval :=
  conditions [("customer_id = ", VUuid <$> f_CustomerID f); ("status = ", VText <$> f_Status f);
              ("created_at >= ", VTime <$> f_StartDate f); ("created_at <= ", VTime <$> f_EndDate f)].

Definition order_List (f : OrderFilter) : pg (res (Page Order)) :=
  list_pg "SELECT count(*) FROM orders" orderColumns (orderConditions f) scan_order
    (f_Page f) (f_PageSize f).

(** The port, served by the database. *)
Definition order_pg (X : Type) (e : repoE X) : pg X :=
  match e in repoE X return pg X with
  | CreateWithItems o its => order_CreateWithItems o its
  | FindByID id => order_FindByID id
  | UpdateStatus id st => order_UpdateStatus id st
  | MarkProcessed id st t => order_MarkProcessed id st t
  | ListOrders f => order_List f
  end.

(** ** internal/customer/postgres_repository.go *)
Definition customerInsertColumns : string :=
  "id, name, document, email, phone, active, created_at, updated_at".
Definition customerSelectColumns : string :=
  "id, name, document, COALESCE(email, ''), COALESCE(phone, ''), active, created_at, updated_at".

Definition scanCustomer (row : list sqlval) : res customer.Customer :=
  match row with
  | [VUuid id; VText name; VText document; VText email; VText phone; VBool active; VTime created; VTime updated] =>
      Ok (customer.mkCustomer id name document email phone active created updated)
  | _ => Err scan_error
  end.

Definition customer_args (c : customer.Customer) : list sqlval :=
  [VUuid (customer.ID c); VText (customer.Name c); VText (customer.Document c); VText (customer.Email c);
   VText (customer.Phone c); VBool (customer.Active c); VTime (customer.CreatedAt c);
   VTime (customer.UpdatedAt c)].

(** The error of the INSERT is returned as it is. *)
Definition customer_Create (c : customer.Customer) : pg (res unit) :=
  _ <-! call (Exec ("INSERT INTO customers (" +:+ customerInsertColumns +:+
                    ") VALUES ($1, $2, $3, $4, $5, $6, $7, $8)") (customer_args c)) ;;
  Ret (Ok tt).

Definition customer_Update (c : customer.Customer) : pg (res unit) :=
  update_one customer.ErrNotFound
    "UPDATE customers SET name=$2, document=$3, email=$4, phone=$5, updated_at=$6 WHERE id=$1"
    [VUuid (customer.ID c); VText (customer.Name c); VText (customer.Document c);
     VText (customer.Email c); VText (customer.Phone c); VTime (customer.UpdatedAt c)].

Definition customer_Deactivate (id : uuid) : pg (res unit) :=
  update_one customer.ErrNotFound "UPDATE customers SET active=false, updated_at=now() WHERE id=$1" [VUuid id].

Definition find_customer (cond : string) (arg : sqlval) : pg (res customer.Customer) :=
  row <-! call (QueryRow ("SELECT " +:+ customerSelectColumns +:+ " FROM customers WHERE " +:+ cond) [arg])
      catch (fun err => Err (no_rows customer.ErrNotFound err)) ;;
  Ret (scanCustomer row).

Definition customer_FindByID (id : uuid) : pg (res customer.Customer) := find_customer "id=$1" (VUuid id).
Definition customer_FindByDocument (document : string) : pg (res customer.Customer) :=
  find_customer "document=$1" (VText document).

(** A text filter: absent when empty, a pattern around the text otherwise. *)
Definition like (s : string) : option sqlval :=
  if bool_decide (s = "") then None else Some (VText ("%" +:+ s +:+ "%")).

Definition customerConditions (f : customer.CustomerFilter) : list string * list sqlval :=
  conditions [("name ILIKE ", like (customer.cf_Name f)); ("document ILIKE ", like (customer.cf_Document f));
              ("active = ", VBool <$> customer.cf_Active f)].

Definition customer_List (f : customer.CustomerFilter) : pg (res (Page customer.Customer)) :=
  list_pg "SELECT count(*) FROM customers" ("SELECT " +:+ customerSelectColumns +:+ " FROM customers")
    (customerConditions f) scanCustomer (customer.cf_Page f) (customer.cf_PageSize f).

Definition customer_pg (X : Type) (e : customer.repoE X) : pg X :=
  match e in customer.repoE X return pg X with
  | customer.RCreate c => customer_Create c
  | customer.RUpdate c => customer_Update c
  | customer.RDeactivate id => customer_Deactivate id
  | customer.RFindByID id => customer_FindByID id
  | customer.RFindByDocument d => customer_FindByDocument d
  | customer.RList f => customer_List f
  end.

(** ** internal/product/postgres_repository.go *)
Definition productColumns : string := "id, name, sku, price::text, active, created_at, updated_at".

Definition scanProduct (row : list sqlval) : res product.Product :=
  match row with
  | [VUuid id; VText name; VText sku; VText price; VBool active; VTime created; VTime updated] =>
      bind_ok (parse_amount "product price" price) (fun m =>
      Ok (product.mkProduct id name sku m active created updated))
  | _ => Err scan_error
  end.

Definition product_args (p : product.Product) : list sqlval :=
  [VUuid (product.ID p); VText (product.Name p); VText (product.SKU p); VText (Decimal (product.Price p));
   VBool (product.Active p); VTime (product.CreatedAt p); VTime (product.UpdatedAt p)].

Definition product_Create (p : product.Product) : pg (res unit) :=
  _ <-! call (Exec "INSERT INTO products (id, name, sku, price, active, created_at, updated_at) VALUES ($1, $2, $3, $4, $5, $6, $7)"
                (product_args p)) ;;
  Ret (Ok tt).

Definition product_Update (p : product.Product) : pg (res unit) :=
  update_one product.ErrNotFound "UPDATE products SET name=$2, sku=$3, price=$4, updated_at=$5 WHERE id=$1"
    [VUuid (product.ID p); VText (product.Name p); VText (product.SKU p);
     VText (Decimal (product.Price p)); VTime (product.UpdatedAt p)].

Definition product_Deactivate (id : uuid) : pg (res unit) :=
  update_one product.ErrNotFound "UPDATE products SET active=false, updated_at=now() WHERE id=$1" [VUuid id].

Definition find_product (cond : string) (arg : sqlval) : pg (res product.Product) :=
  row <-! call (QueryRow ("SELECT " +:+ productColumns +:+ " FROM products WHERE " +:+ cond) [arg])
      catch (fun err => Err (no_rows product.ErrNotFound err)) ;;
  Ret (scanProduct row).

Definition product_FindByID (id : uuid) : pg (res product.Product) := find_product "id=$1" (VUuid id).
Definition product_FindBySKU (sku : string) : pg (res product.Product) := find_product "sku=$1" (VText sku).

Definition product_FindManyByID (ids : list uuid) : pg (res (list product.Product)) :=
  if bool_decide (ids = []) then Ret (Ok [])
  else
    rows <-! call (Query ("SELECT " +:+ productColumns +:+ " FROM products WHERE id = ANY($1)") [VUuids ids]) ;;
    Ret (scan_rows scanProduct rows).

Definition productConditions (f : product.ProductFilter) : list string * list sqlval :=
  conditions [("name ILIKE ", like (product.pf_Name f)); ("sku ILIKE ", like (product.pf_SKU f));
              ("active = ", VBool <$> product.pf_Active f)].

Definition product_List (f : product.ProductFilter) : pg (res (Page product.Product)) :=
  list_pg "SELECT count(*) FROM products" ("SELECT " +:+ productColumns +:+ " FROM products")
    (productConditions f) scanProduct (product.pf_Page f) (product.pf_PageSize f).

Definition product_pg (X : Type) (e : product.repoE X) : pg X :=
  match e in product.repoE X return pg X with
  | product.RCreate p => product_Create p
  | product.RUpdate p => product_Update p
  | product.RDeactivate id => product_Deactivate id
  | product.RFindByID id => product_FindByID id
  | product.RFindBySKU s => product_FindBySKU s
  | product.RFindManyByID ids => product_FindManyByID ids
  | product.RList f => product_List f
  end.

(** ** internal/auth/postgres_repository.go *)
Definition selectUser : string :=
  "SELECT id, name, email, password_hash, role, active, created_at, updated_at FROM users WHERE email = $1".
Definition insertUser : string :=
  "INSERT INTO users (id, name, email, password_hash, role, active, created_at, updated_at) VALUES ($1, $2, $3, $4, $5, $6, $7, $8)".

Definition scan_user (row : list sqlval) : res auth.User :=
  match row with
  | [VText id; VText name; VText email; VText hash; VText role; VBool active; VTime created; VTime updated] =>
      Ok (auth.mkUser id name email hash role active created updated)
  | _ => Err scan_error
  end.

Definition user_args (u : auth.User) : list sqlval :=
  [VText (auth.ID u); VText (auth.Name u); VText (auth.Email u); VText (auth.PasswordHash u);
   VText (auth.URole u); VBool (auth.Active u); VTime (auth.CreatedAt u); VTime (auth.UpdatedAt u)].

Definition user_FindByEmail (email : string) : pg (res auth.User) :=
  row <-! call (QueryRow selectUser [VText email])
      catch (fun err => Err (no_rows auth.ErrUserNotFound err)) ;;
  Ret (scan_user row).

(** 23505 is unique_violation. *)
Definition user_Create (u : auth.User) : pg (res unit) :=
  _ <-! call (Exec insertUser (user_args u))
      catch (fun err => Err (if bool_decide (errors_As_PgError err = Some "23505")
                             then auth.ErrEmailTaken else err)) ;;
  Ret (Ok tt).
End adapters.

(** ** The transaction of [CreateWithItems] *)
Inductive txstate :=
| TxNone
| TxOpen (executed : nat)
| TxFailed (err : error)
| TxCommitted
| TxEnded (committed : bool).

(** The statements of the transaction, in order. *)
Definition tx_statements (o : Order) (items : list OrderItem) : list (string * list sqlval) :=
  (insertOrder, order_args o) :: ((fun i => (insertItem, item_args i)) <$> items).

Section tx.
Context (o : Order) (items : list OrderItem).

Definition tx_allowed {X} (s : txstate) (e : pgE X) : Prop :=
  match e with
  | Begin => s = TxNone
  | TxExec sql args => exists k, s = TxOpen k /\ tx_statements o items !! k = Some (sql, args)
  | Commit => s = TxOpen (length (tx_statements o items))
  | Rollback => s <> TxNone
  | _ => False
  end.

Definition tx_next {X} (s : txstate) (e : pgE X) : X -> txstate :=
  match e in pgE X return X -> txstate with
  | Begin => fun x => match x with Ok _ => TxOpen 0 | Err e => TxNone | Panic _ => TxNone end
  | TxExec _ _ => fun x =>
      match s, x with
      | TxOpen k, Ok _ => TxOpen (S k)
      | _, Err e => TxFailed e
      | _, _ => TxFailed (ErrNew "panic")
      end
  | Commit => fun x => match x with Ok _ => TxCommitted | Err e => TxFailed e | Panic _ => TxFailed (ErrNew "panic") end
  | Rollback => fun _ => TxEnded match s with TxCommitted => true | _ => false end
  | _ => fun _ => s
  end.

Definition tx_protocol : protocol pgE txstate :=
  mkProtocol (fun X => @tx_allowed X) (fun X s e x => True) (fun X => @tx_next X).

(** nil exactly when the commit was acknowledged. *)
Definition tx_post (s : txstate) (r : res unit) : Prop :=
  match r with
  | Ok _ => s = TxEnded true
  | Err _ => s = TxNone \/ s = TxEnded false
  | Panic _ => s <> TxEnded true
  end.

Lemma tx_statements_S k :
  tx_statements o items !! S k = (fun i => (insertItem, item_args i)) <$> items !! k.
Proof. apply list_lookup_fmap. Qed.

(** The loop over the items executes statements 1, 2, ... *)
Lemma tx_items_conform (Q : txstate -> res unit -> Prop) :
  (forall e, Q (TxFailed e) (Err e)) -> (forall e why, Q (TxFailed e) (Panic why)) ->
  Q (TxOpen (S (length items))) (Ok tt) ->
  conforms tx_protocol (TxOpen 1) (for_res insert_item items tt) Q.
Proof.
  intros Herr Hpanic Hok.
  apply (conforms_for_res _ (fun pre s _ => s = TxOpen (S (length pre)))).
  - intros pre x post s acc Hl ->. unfold insert_item. apply conforms_bind_res, conforms_call.
    + exists (S (length pre)). split; [done|]. rewrite tx_statements_S, Hl.
      by rewrite list_lookup_middle.
    + intros [n|e|why] _; cbn; [|apply Herr|apply Hpanic]. by rewrite length_app, Nat.add_1_r.
  - by intros s [] ->.
  - done.
Qed.

Lemma tx_conforms : conforms tx_protocol TxNone (order_CreateWithItems (Some o) items) tx_post.
Proof.
  unfold order_CreateWithItems. apply conforms_bind_res, conforms_call; [done|].
  intros [[]|e|why] _; [|by left|done].
  apply conforms_bind.
  eapply conforms_mono with (Q := fun s r => s <> TxNone /\
    match r with Ok _ => s = TxCommitted | _ => s <> TxCommitted end).
  - intros s r [Hs Hr]. apply conforms_bind, conforms_call; [exact Hs|]. intros [] _. cbn.
    destruct r as [[]|e|why]; [by subst|right; by destruct s|by destruct s].
  - unfold create_tx. apply conforms_bind_res, conforms_call.
    { by exists 0%nat. }
    intros [n|e|why] _; [|by split..].
    apply conforms_bind_res, tx_items_conform; [by split..|].
    cbn [conforms]. split; [cbn; by rewrite length_fmap|]. by intros [[]|e|why] _.
Qed.
End tx.

(** ** WHERE clauses: only names and placeholders *)
Definition present (cs : list (string * option sqlval)) : list (string * sqlval) :=
  omap (fun c => (fun v => (c.1, v)) <$> c.2) cs.

Definition placeholder (i : nat) (name : string) : string := name +:+ "$" +:+ Itoa (Z.of_nat (S i)).

Lemma conditions_from cs acc :
  fold_left (fun acc c => add_condition c acc) cs acc =
  (acc.1 ++ imap (fun i c => placeholder (length acc.2 + i) c.1) (present cs), acc.2 ++ (present cs).*2).
Proof.
  revert acc. induction cs as [|[name [v|]] cs IH]; intros acc; cbn [fold_left].
  - cbn. rewrite !app_nil_r. by destruct acc.
  - rewrite IH. unfold add_condition. cbn. rewrite <- !app_assoc. cbn. unfold placeholder.
    rewrite !length_app. cbn. do 2 f_equal.
    + f_equal; [by replace (length acc.2 + 0)%nat with (length acc.2) by lia; rewrite Nat.add_1_r|].
      apply imap_ext. intros i x _. cbn. do 4 f_equal. lia.
  - apply IH.
Qed.

Lemma conditions_text cs :
  conditions cs = (imap placeholder (present cs).*1, (present cs).*2).
Proof.
  unfold conditions. rewrite conditions_from. cbn [fst snd app length Nat.add]. f_equal.
  by rewrite imap_fmap.
Qed.

(** The text of the WHERE clause, from the fixed conditions and whether each filter is
    set. *)
Definition where_of (cols : list (string * bool)) : string :=
  where_clause (imap placeholder (base.filter (fun c : string * bool => c.2 = true) cols).*1).

(** The statements of a listing: the count, then the page. *)
Definition listing_allowed (count page : string) (vals bounds : list sqlval) {X} (s : nat) (e : pgE X) : Prop :=
  match e with
  | QueryRow sql args => s = 0%nat /\ sql = count /\ args = vals
  | Query sql args => s = 1%nat /\ sql = page /\ args = vals ++ bounds
  | _ => False
  end.

Definition listing_protocol (count page : string) (vals bounds : list sqlval) : protocol pgE nat :=
  mkProtocol (fun X => @listing_allowed count page vals bounds X) (fun X s e x => True) (fun X s e x => S s).

(** A listing that sends nothing but these two statements, with or without the case
    tables its scan needs. *)
Definition list_sends {A} (count select : string) (cols : list (string * bool)) (vals : list sqlval)
    (page pageSize : Z) (p : CaseTables -> pg (res (Page A))) : Prop :=
  let n := Z.of_nat (length vals) in
  forall C, conforms
    (listing_protocol (count +:+ where_of cols)
       (select +:+ where_of cols +:+ " ORDER BY created_at, id LIMIT $" +:+ Itoa (n + 1) +:+
          " OFFSET $" +:+ Itoa (n + 2))
       vals [VInt pageSize; VInt (wrap64 (wrap64 (page - 1) * pageSize))])
    0%nat (p C) (fun _ _ => True).

Lemma set_columns_present cs :
  (base.filter (fun c : string * bool => c.2 = true) ((fun c => (c.1, bool_decide (is_Some c.2))) <$> cs)).*1
  = (present cs).*1.
Proof.
  induction cs as [|[name [v|]] cs IH]; [done| |]; cbn [fmap list_fmap fst snd].
  - rewrite filter_cons_True by by apply bool_decide_eq_true. cbn. by rewrite IH.
  - rewrite filter_cons_False by done. exact IH.
Qed.

Lemma list_pg_sends {A} count select cs cols vals (scan : CaseTables -> list sqlval -> res A) page pageSize :
  cols = (fun c => (c.1, bool_decide (is_Some c.2))) <$> cs -> vals = (present cs).*2 ->
  list_sends count select cols vals page pageSize
    (fun C => list_pg count select (conditions cs) (scan C) page pageSize).
Proof.
  intros -> -> C. rewrite conditions_text. unfold list_pg, where_of. rewrite set_columns_present. cbn [fst snd].
  apply conforms_bind_res, conforms_call; [done|]. intros [row|e|why] _; [|done..].
  destruct (scan_count row); [|done..].
  apply conforms_bind_res, conforms_call.
  { split; [done|]. split; [|done]. unfold page_sql, limit_offset. cbn [fst snd]. rewrite length_app. cbn [length].
    set (n := length (present cs).*2).
    replace (Z.of_nat (n + 2) - 1) with (Z.of_nat n + 1) by lia. by rewrite Nat2Z.inj_add. }
  intros [rows|e|why] _; [|done..]. by destruct (pageSize <? 0).
Qed.

(** The filters of the three listings: the fixed text of each condition with whether the
    request sets it, and the values it binds. *)
Definition set {A} (x : option A) : bool := bool_decide (is_Some x).

Definition order_columns (f : OrderFilter) : list (string * bool) :=
  [("customer_id = ", set (f_CustomerID f)); ("status = ", set (f_Status f));
   ("created_at >= ", set (f_StartDate f)); ("created_at <= ", set (f_EndDate f))].

Definition order_values (f : OrderFilter) : list sqlval :=
  option_list (VUuid <$> f_CustomerID f) ++ option_list (VText <$> f_Status f) ++
  option_list (VTime <$> f_StartDate f) ++ option_list (VTime <$> f_EndDate f).

Definition text_filter (s : string) : option sqlval :=
  if bool_decide (s = "") then None else Some (VText ("%" +:+ s +:+ "%")).

Definition customer_columns (f : customer.CustomerFilter) : list (string * bool) :=
  [("name ILIKE ", set (text_filter (customer.cf_Name f)));
   ("document ILIKE ", set (text_filter (customer.cf_Document f)));
   ("active = ", set (customer.cf_Active f))].

Definition customer_values (f : customer.CustomerFilter) : list sqlval :=
  option_list (text_filter (customer.cf_Name f)) ++ option_list (text_filter (customer.cf_Document f)) ++
  option_list (VBool <$> customer.cf_Active f).

Definition product_columns (f : product.ProductFilter) : list (string * bool) :=
  [("name ILIKE ", set (text_filter (product.pf_Name f)));
   ("sku ILIKE ", set (text_filter (product.pf_SKU f)));
   ("active = ", set (product.pf_Active f))].

Definition product_values (f : product.ProductFilter) : list sqlval :=
  option_list (text_filter (product.pf_Name f)) ++ option_list (text_filter (product.pf_SKU f)) ++
  option_list (VBool <$> product.pf_Active f).

(** ** Rows written and read back *)

(** The columns the SELECTs return for a stored record: the NUMERIC(15,2) text of an
    amount is its canonical decimal text. *)
Definition order_row (o : Order) : list sqlval :=
  order_args o ++ [match o_ProcessedAt o with Some t => VTime t | None => VNull end].

Section rows.
Context `{!CaseTables}.

Lemma parse_amount_Decimal what m : money_ok m -> parse_amount what (Decimal m) = Ok m.
Proof. intros Hm. unfold parse_amount. by rewrite ParseString_Decimal. Qed.

Lemma scan_order_row o : money_ok (o_TotalAmount o) -> scan_order (order_row o) = Ok o.
Proof.
  intros Hm. unfold order_row, order_args. cbn.
  destruct o as [? ? ? m ? ? ? [t|]]; cbn in *; by rewrite parse_amount_Decimal.
Qed.

Lemma scan_item_row i :
  money_ok (i_UnitPrice i) -> money_ok (i_TotalPrice i) -> scan_item (item_args i) = Ok i.
Proof.
  intros Hu Ht. unfold item_args. cbn. rewrite !parse_amount_Decimal by done. by destruct i.
Qed.

Lemma scan_all_rows {A} (scan : list sqlval -> res A) (row : A -> list sqlval) l :
  Forall (fun a => scan (row a) = Ok a) l -> scan_all scan (row <$> l) = Ok l.
Proof. induction 1 as [|a l Ha _ IH]; [done|]. cbn. by rewrite Ha, IH. Qed.
End rows.

(** ** Properties *)

(** C21: for every behaviour of the database, [CreateWithItems] opens one
    transaction, executes the order's INSERT and then each item's, in order, commits
    only after all of them succeeded, always ends with the deferred rollback, and
    returns nil exactly when the commit was acknowledged. *)
Theorem CreateWithItems_transactional (o : Order) (items : list OrderItem) :
  conforms (tx_protocol o items) TxNone (order_CreateWithItems (Some o) items) tx_post.
Proof. apply tx_conforms. Qed.

(** C37: the SQL text of the three listings is put together from fixed texts by which
    filters are set, and from nothing else.  A listing sends at most two statements: the
    count, and then the page.  Each has the fixed column conditions of the filters that
    are set, with the placeholders $1, $2, ... in this order, and the page has LIMIT and
    OFFSET as the next two placeholders; the values of the request are only bound as
    arguments, in placeholder order. *)
Theorem listing_sql_is_parameterized :
  (forall f : OrderFilter,
     list_sends "SELECT count(*) FROM orders" orderColumns (order_columns f) (order_values f)
       (f_Page f) (f_PageSize f) (fun C => @order_List C f)) /\
  (forall f : customer.CustomerFilter,
     list_sends "SELECT count(*) FROM customers" ("SELECT " +:+ customerSelectColumns +:+ " FROM customers")
       (customer_columns f) (customer_values f) (customer.cf_Page f) (customer.cf_PageSize f)
       (fun _ => customer_List f)) /\
  (forall f : product.ProductFilter,
     list_sends "SELECT count(*) FROM products" ("SELECT " +:+ productColumns +:+ " FROM products")
       (product_columns f) (product_values f) (product.pf_Page f) (product.pf_PageSize f)
       (fun C => @product_List C f)).
Proof.
  split_and!; intros f.
  - apply (list_pg_sends _ _ [("customer_id = ", VUuid <$> f_CustomerID f); ("status = ", VText <$> f_Status f);
             ("created_at >= ", VTime <$> f_StartDate f); ("created_at <= ", VTime <$> f_EndDate f)]
             _ _ (fun C => @scan_order C)); by destruct f as [[] [] [] [] ? ?].
  - apply (list_pg_sends _ _ [("name ILIKE ", like (customer.cf_Name f)); ("document ILIKE ", like (customer.cf_Document f));
             ("active = ", VBool <$> customer.cf_Active f)] _ _ (fun _ => scanCustomer));
      unfold customer_columns, customer_values, text_filter, like; destruct f as [n d [] ? ?];
      cbn [customer.cf_Name customer.cf_Document customer.cf_Active product.pf_Name product.pf_SKU product.pf_Active];
      by destruct (bool_decide (n = "")), (bool_decide (d = "")).
  - apply (list_pg_sends _ _ [("name ILIKE ", like (product.pf_Name f)); ("sku ILIKE ", like (product.pf_SKU f));
             ("active = ", VBool <$> product.pf_Active f)] _ _ (fun C => @scanProduct C));
      unfold product_columns, product_values, text_filter, like; destruct f as [n d [] ? ?];
      cbn [customer.cf_Name customer.cf_Document customer.cf_Active product.pf_Name product.pf_SKU product.pf_Active];
      by destruct (bool_decide (n = "")), (bool_decide (d = "")).
Qed.

(** Every record read back from the row its INSERT wrote is the record: an
    order with its total and optional processing time, its items, products,
    customers and users, for all amounts an int64 of cents can hold. *)
Theorem rows_read_back `{!CaseTables} (o : Order) (items : list OrderItem) (p : product.Product)
    (c : customer.Customer) (u : auth.User) :
  money_ok (o_TotalAmount o) -> money_ok (product.Price p) ->
  Forall (fun i => money_ok (i_UnitPrice i) /\ money_ok (i_TotalPrice i)) items ->
  scan_order (order_row o) = Ok o /\
  scan_rows scan_item (mkRows (item_args <$> items) None) = Ok items /\
  scanProduct (product_args p) = Ok p /\ scanCustomer (customer_args c) = Ok c /\
  scan_user (user_args u) = Ok u.
Proof.
  intros Ho Hp Hi. split; [by apply scan_order_row|]. split; [|split; [|by destruct c, u]].
  - unfold scan_rows. cbn [rw_rows rw_err]. rewrite scan_all_rows; [done|].
    eapply Forall_impl; [exact Hi|]. intros i [Hu Ht]. by apply scan_item_row.
  - unfold product_args. cbn. rewrite parse_amount_Decimal by done. by destruct p.
Qed.

Lemma rows_read_back_witness :
  let _ := no_tables in
  let o := mkOrder 1 2 StatusPaid (mkMoney 450) 3 10 11 (Some 12) in
  order_row o = [VUuid 1; VUuid 2; VText "PAID"; VText "4.50"; VUuid 3; VTime 10; VTime 11; VTime 12] /\
  scan_order (order_row o) = Ok o.
Proof.
  cbv zeta. split; [vm_compute; reflexivity|].
  apply (@rows_read_back no_tables (mkOrder 1 2 StatusPaid (mkMoney 450) 3 10 11 (Some 12)) []
           (product.mkProduct 1 "" "" (mkMoney 1) true 0 0) (customer.mkCustomer 1 "" "" "" "" true 0 0)
           (auth.mkUser "" "" "" "" "" true 0 0)).
  - apply (bool_decide_unpack (in_int64 450)). vm_compute. exact I.
  - apply (bool_decide_unpack (in_int64 1)). vm_compute. exact I.
  - constructor.
Defined.
