(* ===== verification/PgPages.v ===== *)
(** PgPages: what PostgreSQL answers to the listings of the adapters: the rows of one
    table that meet the conditions, in the order of their creation, cut to a window; and
    its search operator ILIKE. *)
From S2P Require Import Prelude Errors GoStrings Uuid Pagination Catalog Postgres.

(** Bounds of a page in range. *)
Ltac solve_page := repeat apply andb_true_intro; unfold in_int64, int64_min, int64_max in *; try split; try apply Z.leb_le; nia.

(** The text that selects a page, for conditions that are set. *)
Definition page_text (select : string) (cs : list (string * sqlval)) : string :=
  select +:+ where_clause (imap placeholder cs.*1) +:+ limit_offset (length cs + 2).

(** [LIMIT lim OFFSET off]: a negative number is an error and gives no row. *)
Definition window {A} (lim off : Z) (l : list A) : list A :=
  if (0 <=? lim) && (0 <=? off) then take (Z.to_nat lim) (drop (Z.to_nat off) l) else [].

Lemma elem_of_window {A} lim off (l : list A) x : x ∈ window lim off l -> x ∈ l.
Proof.
  unfold window. destruct (_ && _); [|by intros ?%not_elem_of_nil].
  intros Hx. by apply (subseteq_drop (Z.to_nat off)), (subseteq_take (Z.to_nat lim)).
Qed.

Section pages.
Context {A : Type} (ident : A -> uuid) (created : A -> time) (cells : A -> list sqlval).
Implicit Types (m : gmap uuid A) (conds : list (A -> bool)) (keep : A -> bool).

Definition selected conds m : list A := base.filter (fun a => forallb (fun p => p a) conds = true) (values m).

(** [ORDER BY created_at, id]. *)
Definition page_le (a b : A) : Prop :=
  created a < created b \/ (created a = created b /\ (ident a <= ident b)%N).

(** The rows of a page that was read to its end, or up to an error. *)
Definition page_rows conds (lim off : Z) m (r : Rows) : Prop :=
  exists sorted, sorted ≡ₚ selected conds m /\ StronglySorted page_le sorted /\
    match rw_err r with
    | None => rw_rows r = cells <$> window lim off sorted
    | Some _ => exists k, rw_rows r = cells <$> take k (window lim off sorted)
    end.

(** The page a listing asks for: a window of all the records that match, in the order
    of their creation; nothing is said of records created at the same instant. *)
Definition table_page keep (page pageSize : Z) m (l : list A) : Prop :=
  exists sorted,
    StronglySorted (fun a b => created a <= created b) sorted /\ NoDup (ident <$> sorted) /\
    (forall a, a ∈ sorted <-> m !! ident a = Some a /\ keep a = true) /\
    l = take (Z.to_nat pageSize) (drop (Z.to_nat ((page - 1) * pageSize)) sorted).

Lemma elem_of_selected conds m a :
  keyed ident m -> a ∈ selected conds m <-> m !! ident a = Some a /\ forallb (fun p => p a) conds = true.
Proof.
  intros Hm. unfold selected. rewrite list_elem_of_filter, elem_of_values. split.
  - intros [Hc [id Ha]]. split; [|done]. by rewrite (Hm _ _ Ha).
  - intros [Ha Hc]. eauto.
Qed.

Lemma selected_nodup conds m : keyed ident m -> NoDup (ident <$> selected conds m).
Proof. intros Hm. by apply NoDup_fmap_filter, keyed_nodup. Qed.

(** Reading the rows gives stored records that match and, when the arithmetic of the
    page stays in range, exactly the page. *)
Lemma page_scanned scan keep conds page pageSize m r :
  keyed ident m -> (forall id a, m !! id = Some a -> scan (cells a) = Ok a) ->
  (forall a, forallb (fun p => p a) conds = keep a) ->
  page_rows conds pageSize (wrap64 (wrap64 (page - 1) * pageSize)) m r ->
  match scan_rows scan r with
  | Ok l => Forall (fun a => m !! ident a = Some a /\ keep a = true) l /\
            (page_in_range page pageSize -> table_page keep page pageSize m l)
  | _ => True
  end.
Proof.
  intros Hm Hcells Hkeep (sorted & Hperm & Hsorted & Hr).
  assert (Hin : forall a, a ∈ sorted <-> m !! ident a = Some a /\ keep a = true).
  { intros a. rewrite Hperm, elem_of_selected by done. by rewrite Hkeep. }
  assert (Hscan : forall l, (forall a, a ∈ l -> a ∈ sorted) -> scan_all scan (cells <$> l) = Ok l).
  { intros l Hl. apply scan_all_rows, Forall_forall. intros a [Ha _]%Hl%Hin. by eapply Hcells. }
  unfold scan_rows. destruct (rw_err r) as [e|].
  { destruct Hr as [k Hr]. rewrite Hr, Hscan; [done|]. intros a Ha%subseteq_take. by eapply elem_of_window. }
  rewrite Hr, Hscan by (intros a; apply elem_of_window). split.
  - apply Forall_forall. by intros a [Ha Hk]%elem_of_window%Hin.
  - intros (Hp & Hs & Hmax). unfold int64_max in Hmax. exists sorted. split_and!; [| |exact Hin|].
    + eapply StronglySorted_weaken; [|exact Hsorted]. unfold page_le. lia.
    + rewrite Hperm. by apply selected_nodup.
    + rewrite (wrap64_id (page - 1)), wrap64_id by solve_page. unfold window.
      by replace ((0 <=? pageSize) && (0 <=? (page - 1) * pageSize)) with true by (symmetry; solve_page).
Qed.
End pages.

(** ** ILIKE

    A text without the wildcards [%] and [_] and without the escape character, in ASCII
    letters. *)
Definition plain_byte (c : ascii) : Prop := byte_of c <> 37 /\ byte_of c <> 92 /\ byte_of c <> 95.
Definition plain (s : string) : Prop := is_ascii s /\ Forall plain_byte (to_bytes s).

(** [value ILIKE pattern]: for a plain text between two wildcards, and an ASCII value, a
    search that ignores case.  Nothing is known of it otherwise: it depends on the
    locale of the database. *)
Class Ilike `{!CaseTables} := {
  ilike : string -> string -> bool;
  ilike_plain s value : plain s -> is_ascii value ->
    ilike ("%" +:+ s +:+ "%") value = Contains (ToLower value) (ToLower s);
}.

(** The matching of LIKE on bytes, with the three special characters. *)
Fixpoint like_match (p v : bytes) : bool :=
  match p with
  | [] => match v with [] => true | _ :: _ => false end
  | c :: p' =>
      if byte_of c =? 37 then
        (fix any (v : bytes) := like_match p' v || match v with [] => false | _ :: v' => any v' end) v
      else if byte_of c =? 95 then match v with [] => false | _ :: v' => like_match p' v' end
      else if byte_of c =? 92 then
        match p', v with d :: p'', e :: v' => bool_decide (d = e) && like_match p'' v' | _, _ => false end
      else match v with [] => false | e :: v' => bool_decide (c = e) && like_match p' v' end
  end.

Lemma like_prefix s v : Forall plain_byte s -> like_match (s ++ [chr 37]) v = has_prefix s v.
Proof.
  intros Hs. revert v. induction Hs as [|c s (H1 & H2 & H3) _ IH]; intros v; cbn [app like_match has_prefix].
  - induction v as [|e v IH]; [done|]. cbn in IH |- *. exact IH.
  - apply Z.eqb_neq in H1, H2, H3. rewrite H1, H2, H3. destruct v as [|e v]; [done|]. by rewrite IH.
Qed.

Lemma like_contains s v : Forall plain_byte s -> like_match (chr 37 :: s ++ [chr 37]) v = contains v s.
Proof.
  intros Hs. cbn [like_match]. change (byte_of (chr 37) =? 37) with true. cbn iota.
  induction v as [|e v IH]; cbn [contains]; rewrite like_prefix by done; [done|]. by rewrite IH.
Qed.

Lemma lower_plain s : Forall plain_byte s -> Forall plain_byte (lower_byte <$> s).
Proof.
  intros Hs. apply Forall_fmap. eapply Forall_impl; [exact Hs|]. intros c. unfold plain_byte.
  destruct c as [[] [] [] [] [] [] [] []]; vm_compute; intros (H1 & H2 & H3); (split_and!; discriminate || contradiction || exact H1 || exact H2 || exact H3).
Qed.

Lemma to_bytes_cat s t : to_bytes (s +:+ t) = to_bytes s ++ to_bytes t.
Proof. unfold to_bytes. induction s as [|c s IH]; [done|exact (f_equal (cons c) IH)]. Qed.

Definition ascii_ilike `{!CaseTables} : Ilike.
Proof.
  refine {| ilike p v := like_match (lower_byte <$> to_bytes p) (lower_byte <$> to_bytes v) |}.
  intros s v [Hs Hp] Hv. unfold Contains. rewrite !ToLower_ascii, !to_of_bytes, !to_bytes_cat, !fmap_app by done.
  by apply like_contains, lower_plain.
Defined.
