(* ===== verification/PgOrders.v ===== *)
(** PgOrders: the PostgreSQL adapter of the order package against the contract of its
    port: over a database with the documented behaviour of the statements it sends, it
    implements [OrderRepo.repo_spec], up to what the columns can store. *)
From stdpp Require Import sorting.
From S2P Require Import Prelude Errors Effects GoStrings Uuid Money Pagination Catalog OrderModel OrderRepo OrderService Schema Postgres PgPages.

(** ** The two tables (migrations 4 and 5) *)
Record tables := mkTables {
  t_orders : gmap uuid Order;
  t_items : gmap uuid OrderItem;
}.

(** A TIMESTAMP column keeps microseconds; the process runs in UTC. *)
Definition stored_time (t : time) : time := t / 1000 * 1000.

(** The row the INSERT of [CreateWithItems] leaves: it has no processing time. *)
Definition stored_order (o : Order) : Order :=
  mkOrder (o_ID o) (o_CustomerID o) (o_Status o) (o_TotalAmount o) (o_CreatedBy o)
    (stored_time (o_CreatedAt o)) (stored_time (o_UpdatedAt o)) None.

Definition add_order (o : Order) (t : tables) : tables := mkTables (<[o_ID o := o]> (t_orders t)) (t_items t).
Definition add_item (i : OrderItem) (t : tables) : tables := mkTables (t_orders t) (<[i_ID i := i]> (t_items t)).

(** [ORDER BY id]: uuids compare as their 128-bit numbers. *)
Definition item_le (i j : OrderItem) : Prop := (i_ID i <= i_ID j)%N.

#[export] Instance item_le_dec i j : Decision (item_le i j).
Proof. unfold item_le. apply _. Defined.
#[export] Instance item_le_trans : Transitive item_le.
Proof. intros i j k. unfold item_le. lia. Qed.
#[export] Instance item_le_total : Total item_le.
Proof. intros i j. unfold item_le. lia. Qed.

Definition by_id (l : list OrderItem) : list OrderItem := merge_sort item_le l.

Definition items_of (id : uuid) (t : tables) : list OrderItem :=
  by_id (filter (fun i => i_OrderID i = id) (map_to_list (t_items t)).*2).

(** The abstract store: each order with its items in the order they are read. *)
Definition view (t : tables) : store :=
  map_imap (fun id o => Some (o, items_of id t)) (t_orders t).

(** Primary keys, the foreign key of the items, and the constraints of the rows. *)
Record tables_ok (t : tables) : Prop := mkTablesOk {
  order_keys : map_Forall (fun id o => o_ID o = id /\ orders_row o = true) (t_orders t);
  item_keys : map_Forall (fun id i => i_ID i = id /\ is_Some (t_orders t !! i_OrderID i) /\
                                      order_items_row i = true) (t_items t);
}.

(** ** What the statements do

    The meaning of one condition of a WHERE clause, by the text of its column and
    operator and the type of its value; nothing is known of any other condition. *)
Definition condition_meaning (c : string * sqlval) : option (Order -> bool) :=
  match c.2 with
  | VUuid u =>
      if bool_decide (c.1 = "customer_id = ") then Some (fun o => bool_decide (o_CustomerID o = u)) else None
  | VText s => if bool_decide (c.1 = "status = ") then Some (fun o => bool_decide (o_Status o = s)) else None
  | VTime t =>
      if bool_decide (c.1 = "created_at >= ") then Some (fun o => stored_time t <=? o_CreatedAt o)
      else if bool_decide (c.1 = "created_at <= ") then Some (fun o => o_CreatedAt o <=? stored_time t)
      else None
  | _ => None
  end.

(** The rows of one page of orders. *)
Abbreviation order_page conds lim off t := (page_rows o_ID o_CreatedAt order_row conds lim off (t_orders t)).

Definition set_order (id : uuid) (f : Order -> Order) (t : tables) : option tables :=
  match t_orders t !! id with
  | Some o => Some (mkTables (<[id := f o]> (t_orders t)) (t_items t))
  | None => None
  end.

(** An UPDATE by primary key: the number of rows, and the tables after it; a failed
    one may have taken effect. *)
Definition update_result (target : option tables) (before : tables) (x : res Z) (after : tables) : Prop :=
  match x with
  | Ok n => match target with
            | Some t => n = 1 /\ after = t
            | None => n = 0 /\ after = before
            end
  | Err e => infra e /\ (after = before \/ target = Some after)
  | Panic _ => False
  end.

(** The documented behaviour of the statements that are not part of a transaction, for
    a session that sees the tables [rows].  Errors of the driver are never the
    package's own "order not found". *)
Class OrderStatements {W : Type} (S : Sem pgE W) (rows : W -> tables) := {
  rows_ok w : tables_ok (rows w);
  select_order_law id w x w' : sem (QueryRow (orderColumns +:+ " WHERE id=$1") [VUuid id]) w x w' ->
    rows w' = rows w /\
    match x with
    | Ok row => exists o, t_orders (rows w) !! id = Some o /\ row = order_row o
    | Err e => if errors_Is e PgxErrNoRows then t_orders (rows w) !! id = None else infra e
    | Panic _ => False
    end;
  select_items_law id w x w' : sem (Query selectItems [VUuid id]) w x w' ->
    rows w' = rows w /\
    match x with
    | Ok r => match rw_err r with
              | None => rw_rows r = item_args <$> items_of id (rows w)
              | Some e => infra e /\ exists k, rw_rows r = item_args <$> take k (items_of id (rows w))
              end
    | Err e => infra e
    | Panic _ => False
    end;
  update_status_law id st w x w' :
    sem (Exec "UPDATE orders SET status=$2, updated_at=now() WHERE id=$1" [VUuid id; VText st]) w x w' ->
    exists t, update_result (set_order id (status_update st t) (rows w)) (rows w) x (rows w');
  mark_processed_law id st t w x w' :
    sem (Exec "UPDATE orders SET status=$2, processed_at=$3, updated_at=$3 WHERE id=$1"
           [VUuid id; VText st; VTime t]) w x w' ->
    update_result (set_order id (processed_update st (stored_time t)) (rows w)) (rows w) x (rows w');
  count_law where_ args w x w' : sem (QueryRow ("SELECT count(*) FROM orders" +:+ where_) args) w x w' ->
    rows w' = rows w;
  page_law (cs : list (string * sqlval)) lim off w x w' :
    sem (Query (page_text orderColumns cs) (cs.*2 ++ [VInt lim; VInt off])) w x w' ->
    rows w' = rows w /\
    match x with
    | Ok r => forall conds, mapM condition_meaning cs = Some conds -> order_page conds lim off (rows w) r
    | _ => True
    end;
}.

(** One session used alone: the committed tables, the tables its open transaction
    sees, and the statements of a transaction. *)
Class OrderDatabase (W : Type) := {
  pg_sem :: Sem pgE W;
  rows : W -> tables;
  pending : W -> option tables;
  statements :: OrderStatements pg_sem rows;
  begin_law w x w' : sem Begin w x w' ->
    rows w' = rows w /\
    match x with Ok _ => pending w' = Some (rows w) | Err e => infra e | Panic _ => False end;
  insert_order_law o w x w' : money_ok (o_TotalAmount o) ->
    sem (TxExec insertOrder (order_args o)) w x w' ->
    rows w' = rows w /\
    match x with
    | Ok _ => exists t, pending w = Some t /\ t_orders t !! o_ID o = None /\
                        pending w' = Some (add_order (stored_order o) t)
    | Err e => infra e
    | Panic _ => False
    end;
  insert_item_law i w x w' : money_ok (i_UnitPrice i) -> money_ok (i_TotalPrice i) ->
    sem (TxExec insertItem (item_args i)) w x w' ->
    rows w' = rows w /\
    match x with
    | Ok _ => exists t, pending w = Some t /\ t_items t !! i_ID i = None /\
                        pending w' = Some (add_item i t)
    | Err e => infra e
    | Panic _ => False
    end;
  commit_law w x w' : sem Commit w x w' ->
    match x with
    | Ok _ => pending w = Some (rows w')
    | Err e => infra e /\ (rows w' = rows w \/ pending w = Some (rows w'))
    | Panic _ => False
    end;
  rollback_law w x w' : sem Rollback w x w' -> rows w' = rows w;
}.

(** ** The calls as the columns store them *)
Definition stored_filter (f : OrderFilter) : OrderFilter :=
  mkOrderFilter (f_CustomerID f) (f_Status f) (stored_time <$> f_StartDate f) (stored_time <$> f_EndDate f)
    (f_Page f) (f_PageSize f).

Definition stored_call {X} (e : repoE X) : repoE X :=
  match e in repoE X return repoE X with
  | CreateWithItems o its => CreateWithItems (stored_order <$> o) (by_id its)
  | FindByID id => FindByID id
  | UpdateStatus id st => UpdateStatus id st
  | MarkProcessed id st t => MarkProcessed id st (stored_time t)
  | ListOrders f => ListOrders (stored_filter f)
  end.

(** The service creates an order with its own items, and its amounts are int64s. *)
Definition item_of (o : Order) (i : OrderItem) : Prop :=
  i_OrderID i = o_ID o /\ money_ok (i_UnitPrice i) /\ money_ok (i_TotalPrice i).

Definition call_ok {X} (e : repoE X) : Prop :=
  match e with
  | CreateWithItems (Some o) its => money_ok (o_TotalAmount o) /\ Forall (item_of o) its
  | CreateWithItems None _ => False
  | _ => True
  end.

(** ** Lemmas: views *)
Section filters.
Context {A : Type} (P : A -> Prop) `{!forall x, Decision (P x)}.

Lemma filter_all l : Forall P l -> filter P l = l.
Proof. induction 1 as [|x l Hx _ IH]; [done|]. by rewrite filter_cons_True, IH. Qed.

Lemma filter_none l : Forall (fun x => ~ P x) l -> filter P l = [].
Proof. induction 1 as [|x l Hx _ IH]; [done|]. by rewrite filter_cons_False, IH. Qed.
End filters.

Lemma view_lookup t id : view t !! id = (fun o => (o, items_of id t)) <$> t_orders t !! id.
Proof. unfold view. rewrite map_lookup_imap. by destruct (t_orders t !! id). Qed.

Lemma view_set_order id f t : store_update id f (view t) = view <$> set_order id f t.
Proof.
  unfold store_update, set_order. rewrite view_lookup. destruct (t_orders t !! id) as [o|] eqn:Ho; [|done].
  cbn. f_equal. apply map_eq. intros j. rewrite view_lookup. cbn [t_orders].
  destruct (decide (id = j)) as [<-|Hne].
  - by rewrite !lookup_insert_eq.
  - by rewrite !lookup_insert_ne, view_lookup by done.
Qed.

Lemma by_id_perm l1 l2 : NoDup (i_ID <$> l1) -> l1 ≡ₚ l2 -> by_id l1 = by_id l2.
Proof.
  intros Hnd Hp. unfold by_id. apply (StronglySorted_unique_strong item_le).
  - intros i j Hi Hj Hij Hji. rewrite !merge_sort_Permutation in Hi, Hj. rewrite <- Hp in Hj.
    eapply NoDup_fmap_inj_on; [exact Hnd|done..|]. unfold item_le in *. lia.
  - apply (StronglySorted_merge_sort item_le); apply _.
  - apply (StronglySorted_merge_sort item_le); apply _.
  - by rewrite !merge_sort_Permutation.
Qed.

Definition values (t : tables) : list OrderItem := (map_to_list (t_items t)).*2.

Lemma values_keyed t i : tables_ok t -> i ∈ values t -> t_items t !! i_ID i = Some i.
Proof.
  intros Ht Hi. unfold values in Hi. apply list_elem_of_fmap in Hi as ([id i'] & -> & Hin).
  apply elem_of_map_to_list in Hin. cbn. by destruct (item_keys t Ht _ _ Hin) as [-> _].
Qed.

Lemma values_nodup t : tables_ok t -> NoDup (i_ID <$> values t).
Proof.
  intros Ht. unfold values. rewrite <- list_fmap_compose.
  rewrite (list_fmap_ext _ fst); [apply NoDup_fst_map_to_list|].
  intros k [id i] Hk. cbn. apply list_elem_of_lookup_2, elem_of_map_to_list in Hk.
  by destruct (item_keys t Ht _ _ Hk) as [-> _].
Qed.

(** ** Lemmas: the inserts of one transaction *)
Definition add_items (its : list OrderItem) (t : tables) : tables := fold_left (fun t i => add_item i t) its t.

Fixpoint fresh_items (its : list OrderItem) (t : tables) : Prop :=
  match its with
  | [] => True
  | i :: its' => t_items t !! i_ID i = None /\ fresh_items its' (add_item i t)
  end.

Lemma add_items_orders its t : t_orders (add_items its t) = t_orders t.
Proof. revert t. induction its as [|i its IH]; intros t; [done|]. cbn. unfold add_items in IH. by rewrite IH. Qed.

Lemma add_items_values its t : fresh_items its t -> values (add_items its t) ≡ₚ its ++ values t.
Proof.
  revert t. induction its as [|i its IH]; intros t; [done|]. cbn [fresh_items]. intros [Hi Hits].
  change (add_items (i :: its) t) with (add_items its (add_item i t)). rewrite IH by done.
  unfold values, add_item. cbn [t_items]. rewrite map_to_list_insert by done. cbn.
  by rewrite <- Permutation_middle.
Qed.

Lemma items_of_added o its t id :
  tables_ok t -> tables_ok (add_items its (add_order (stored_order o) t)) ->
  fresh_items its (add_order (stored_order o) t) ->
  Forall (fun i => i_OrderID i = o_ID o) its -> t_orders t !! o_ID o = None ->
  items_of id (add_items its (add_order (stored_order o) t)) =
    if decide (id = o_ID o) then by_id its else items_of id t.
Proof.
  intros Ht Hfinal Hfresh Hits Hnone. pose proof (add_items_values _ _ Hfresh) as Hv.
  unfold items_of at 1. fold (values (add_items its (add_order (stored_order o) t))).
  assert (Hnd := values_nodup _ Hfinal).
  assert (Hold : values (add_order (stored_order o) t) = values t) by done. rewrite Hold in Hv.
  assert (Hits_id : filter (fun i => i_OrderID i = id) its = if decide (id = o_ID o) then its else []).
  { case_decide as Hid; [subst id; by apply filter_all|].
    apply filter_none. eapply Forall_impl; [exact Hits|]. cbn. congruence. }
  case_decide as Hid.
  - subst id. apply by_id_perm; [by apply NoDup_fmap_filter|]. rewrite Hv, filter_app, Hits_id.
    rewrite (filter_none _ (values t)); [by rewrite app_nil_r|].
    apply Forall_forall. intros i Hi Heq. apply values_keyed in Hi; [|done].
    destruct (item_keys t Ht _ _ Hi) as (_ & [o' Ho'] & _). congruence.
  - apply by_id_perm; [by apply NoDup_fmap_filter|]. by rewrite Hv, filter_app, Hits_id.
Qed.

Lemma view_created o its t :
  tables_ok t -> tables_ok (add_items its (add_order (stored_order o) t)) ->
  fresh_items its (add_order (stored_order o) t) ->
  Forall (fun i => i_OrderID i = o_ID o) its -> t_orders t !! o_ID o = None ->
  view (add_items its (add_order (stored_order o) t)) =
    <[o_ID o := (stored_order o, by_id its)]> (view t).
Proof.
  intros Ht Hfinal Hfresh Hits Hnone. apply map_eq. intros id.
  rewrite view_lookup, add_items_orders. cbn [t_orders add_order]. change (o_ID (stored_order o)) with (o_ID o).
  destruct (decide (o_ID o = id)) as [<-|Hne].
  - rewrite !lookup_insert_eq. cbn. by rewrite items_of_added, decide_True by done.
  - rewrite !lookup_insert_ne, view_lookup by done.
    destruct (t_orders t !! id); cbn; [|done]. by rewrite items_of_added, decide_False by done.
Qed.

(** ** What each statement tells the adapter *)
(** An UPDATE by primary key. *)
Definition update_answer (y : res Z) : res unit :=
  match y with Ok n => if n =? 0 then Err ErrOrderNotFound else Ok tt | Err e => Err e | Panic why => Panic why end.

Lemma update_refines id f y t0 t' :
  update_result (set_order id f t0) t0 y t' ->
  write_spec (view t0) (store_update id f (view t0)) true (update_answer y) (view t').
Proof.
  rewrite view_set_order. destruct y as [n|e|why]; cbn [update_result update_answer]; [| |done].
  - destruct (set_order id f t0) as [t|].
    + intros [-> ->]. apply write_spec_ok.
    + intros [-> ->]. apply write_spec_missing.
  - intros [He Hy]. left. exists e. split; [done|]. split; [done|].
    destruct Hy as [->|Hy]; [by left|right]. by rewrite Hy.
Qed.

(** The conditions of a listing are the ones of [matchesOrder]. *)
Definition filter_conditions (f : OrderFilter) : list (string * option sqlval) :=
  [("customer_id = ", VUuid <$> f_CustomerID f); ("status = ", VText <$> f_Status f);
   ("created_at >= ", VTime <$> f_StartDate f); ("created_at <= ", VTime <$> f_EndDate f)].

Lemma conditions_match f :
  exists conds, mapM condition_meaning (present (filter_conditions f)) = Some conds /\
    forall o, forallb (fun p => p o) conds = matchesOrder o (stored_filter f).
Proof.
  destruct f as [c st a b p n]. unfold filter_conditions, present, condition_meaning. cbn [f_CustomerID f_Status f_StartDate f_EndDate].
  destruct c as [c|], st as [st|], a as [a|], b as [b|]; cbn; (eexists; split; [reflexivity|]);
    intros o; unfold matchesOrder; cbn; rewrite ?Z.leb_antisym, ?andb_true_r, ?andb_assoc; done.
Qed.

Lemma orders_keyed t : tables_ok t -> keyed o_ID (t_orders t).
Proof. intros Ht id o Ho. by destruct (order_keys t Ht id o Ho). Qed.

Section statements.
Context `{!CaseTables}.

(** Rows read back, for tables whose amounts fit. *)
Lemma scan_order_stored id o t :
  tables_ok t -> t_orders t !! id = Some o -> scan_order (order_row o) = Ok o.
Proof. intros Ht Ho. apply scan_order_row, orders_row_money. by apply (order_keys t Ht id o Ho). Qed.

Lemma scan_items_stored id t k :
  tables_ok t -> scan_all scan_item (item_args <$> take k (items_of id t)) = Ok (take k (items_of id t)).
Proof.
  intros Ht. apply scan_all_rows, Forall_take, Forall_forall. intros i Hi.
  unfold items_of, by_id in Hi. rewrite merge_sort_Permutation, list_elem_of_filter in Hi.
  destruct Hi as [_ Hi]. apply (values_keyed t i Ht) in Hi.
  destruct (item_keys t Ht _ _ Hi) as (_ & _ & [Hu Hm]%order_items_row_money). by apply scan_item_row.
Qed.

Lemma scan_rows_items id t r :
  tables_ok t ->
  match rw_err r with
  | None => rw_rows r = item_args <$> items_of id t
  | Some e => infra e /\ exists k, rw_rows r = item_args <$> take k (items_of id t)
  end ->
  match scan_rows scan_item r with Ok l => l = items_of id t | Err e => infra e | Panic _ => False end.
Proof.
  intros Ht Hr. unfold scan_rows. destruct (rw_err r) as [e|].
  - destruct Hr as [He [k ->]]. by rewrite scan_items_stored.
  - rewrite Hr. pose proof (scan_items_stored id t (length (items_of id t)) Ht) as Hs.
    rewrite take_ge in Hs by done. by rewrite Hs.
Qed.

Context {W : Type} {S : Sem pgE W} {rows : W -> tables} `{!OrderStatements S rows}.

Lemma order_read id w x w' :
  sem (QueryRow (orderColumns +:+ " WHERE id=$1") [VUuid id]) w x w' ->
  rows w' = rows w /\
  match x with
  | Ok row => exists o, view (rows w) !! id = Some (o, items_of id (rows w)) /\ scan_order row = Ok o
  | Err e => let e' := no_rows ErrOrderNotFound e in
             (view (rows w) !! id = None /\ e' = ErrOrderNotFound) \/ infra e'
  | Panic _ => False
  end.
Proof.
  intros [Hrows Hr]%select_order_law. split; [done|]. rewrite view_lookup. destruct x as [row|e|why]; [| |done].
  - destruct Hr as (o & Ho & ->). exists o. rewrite Ho. split; [done|].
    by eapply scan_order_stored; [apply rows_ok|].
  - unfold no_rows. cbv zeta. destruct (errors_Is e PgxErrNoRows); [left|by right]. by rewrite Hr.
Qed.

Lemma items_read id w x w' :
  sem (Query selectItems [VUuid id]) w x w' ->
  rows w' = rows w /\
  match bind_ok x (scan_rows scan_item) with
  | Ok l => l = items_of id (rows w)
  | Err e => infra e
  | Panic _ => False
  end.
Proof.
  intros [Hrows Hr]%select_items_law. split; [done|]. destruct x as [r|e|why]; [|done..].
  apply scan_rows_items; [apply rows_ok|done].
Qed.

Lemma page_read f w x w' :
  let q := page_sql orderColumns (where_clause (orderConditions f).1) (orderConditions f).2 (f_Page f) (f_PageSize f) in
  sem (Query q.1 q.2) w x w' ->
  rows w' = rows w /\
  match bind_ok x (scan_rows scan_order) with
  | Ok l =>
      Forall (fun o => exists its, view (rows w) !! o_ID o = Some (o, its) /\
                                   matchesOrder o (stored_filter f) = true) l /\
      (page_in_range (f_Page f) (f_PageSize f) -> listing (view (rows w)) (stored_filter f) l)
  | _ => True
  end.
Proof.
  unfold orderConditions. fold (filter_conditions f). rewrite conditions_text. cbn [fst snd].
  destruct (conditions_match f) as (conds & Hconds & Hmatch).
  set (cs := present (filter_conditions f)) in *. unfold page_sql. cbn [fst snd]. rewrite length_app, length_fmap.
  intros [Hrows Hq]%page_law. split; [done|]. destruct x as [q|e|why]; [|done..]. cbn [bind_ok].
  pose proof (rows_ok w) as Hok.
  pose proof (page_scanned _ _ _ scan_order _ _ _ _ _ q (orders_keyed _ Hok) (fun id o => scan_order_stored id o _ Hok)
                Hmatch (Hq conds Hconds)) as Hpage.
  destruct (scan_rows scan_order q) as [l|e|why]; [|done..]. destruct Hpage as [Hall Hpage]. split.
  - eapply Forall_impl; [exact Hall|]. intros o [Ho Hm]. exists (items_of (o_ID o) (rows w)).
    by rewrite view_lookup, Ho.
  - intros Hp. destruct (Hpage Hp) as (sorted & Hsorted & Hnd & Hin & ->). exists sorted. split_and!; [done..| |done].
    intros o. rewrite Hin, view_lookup. split; intros [Ho Hm]; (split; [|done]).
    + rewrite Ho. by eexists.
    + destruct Ho as [its Ho]. destruct (t_orders (rows w) !! o_ID o); [|done]. by injection Ho as -> _.
Qed.
End statements.

(** ** The adapter over the database *)
Section refinement.
Context {W : Type} `{!OrderDatabase W, !CaseTables}.

(** A failed step leaves the committed tables; an infrastructure error. *)
Definition failed {A} (x : res A) (w w' : W) : Prop :=
  rows w' = rows w /\ match x with Ok _ => False | Err e => infra e | Panic _ => False end.

Lemma exec_insert_items o its t w x w' :
  Forall (item_of o) its -> pending w = Some t -> exec (for_res Postgres.insert_item its tt) w x w' ->
  (x = Ok tt /\ rows w' = rows w /\ pending w' = Some (add_items its t) /\ fresh_items its t) \/ failed x w w'.
Proof.
  intros Hits. revert t w. induction Hits as [|i its (_ & Hu & Hm) _ IH]; intros t w Ht Hx.
  - destruct Hx as [-> ->]. by left.
  - cbn [for_res] in Hx. apply exec_bind_res in Hx as (y & w1 & Hy & Hrest).
    unfold Postgres.insert_item in Hy. apply exec_bind_res in Hy as (n & w0 & Hn & Hy).
    apply exec_call, insert_item_law in Hn as [Hr Hn]; [|done..]. destruct n as [n|e|why]; [|right|done].
    + destruct Hy as [-> ->]. destruct Hn as (t0 & Ht0 & Hfree & Hp). assert (t0 = t) as -> by congruence.
      destruct (IH _ _ Hp Hrest) as [(-> & Hr' & Hp' & Hf)|[Hr' Hf]].
      * left. rewrite Hr'. by split_and!.
      * right. split; [by rewrite Hr'|done].
    + destruct Hy as [-> ->]. destruct Hrest as [-> ->]. by split.
Qed.

Lemma exec_create_tx o its w x w' :
  pending w = Some (rows w) -> money_ok (o_TotalAmount o) -> Forall (item_of o) its ->
  exec (create_tx o its) w x w' ->
  let new := <[o_ID o := (stored_order o, by_id its)]> (view (rows w)) in
  (x = Ok tt /\ view (rows w') = new) \/
  (exists e, x = Err e /\ infra e /\ (rows w' = rows w \/ view (rows w') = new)).
Proof.
  intros Hp Hm Hits Hx.
  assert (Hown : Forall (fun i => i_OrderID i = o_ID o) its) by (eapply Forall_impl; [exact Hits|]; by intros i [? _]).
  unfold create_tx in Hx. apply exec_bind_res in Hx as (n & w1 & Hn & Hx).
  apply exec_call, insert_order_law in Hn as [Hr1 Hn]; [|done]. destruct n as [n|e|why]; [| |done].
  2: { destruct Hx as [-> ->]. right. by exists e; auto. }
  destruct Hn as (t & Ht & Hfree & Hp1). assert (t = rows w) as -> by congruence.
  apply exec_bind_res in Hx as (y & w2 & Hy & Hx).
  destruct (exec_insert_items o _ _ _ _ _ Hits Hp1 Hy) as [(-> & Hr2 & Hp2 & Hf)|[Hr2 Hfail]].
  - apply exec_call, commit_law in Hx. destruct x as [[]|e|why]; [| |done].
    + left. split; [done|]. assert (rows w' = add_items its (add_order (stored_order o) (rows w))) as Hrows by congruence.
      rewrite Hrows. apply view_created; [apply rows_ok|rewrite <- Hrows; apply rows_ok|done..].
    + destruct Hx as [He Hx]. right. exists e. split; [done|]. split; [done|].
      destruct Hx as [Hx|Hx]; [left; congruence|right].
      assert (rows w' = add_items its (add_order (stored_order o) (rows w))) as Hrows by congruence.
      rewrite Hrows. apply view_created; [apply rows_ok|rewrite <- Hrows; apply rows_ok|done..].
  - right. destruct y as [[]|e|why]; [done| |done]. destruct Hx as [-> ->]. exists e. split_and!; [done..|].
    left. congruence.
Qed.

Lemma create_refines o its w x w' :
  money_ok (o_TotalAmount o) -> Forall (item_of o) its -> exec (order_CreateWithItems (Some o) its) w x w' ->
  write_spec (view (rows w)) (Some (<[o_ID o := (stored_order o, by_id its)]> (view (rows w)))) false
    x (view (rows w')).
Proof.
  intros Hm Hits Hx. unfold order_CreateWithItems in Hx. apply exec_bind_res in Hx as (b & w1 & Hb & Hx).
  apply exec_call, begin_law in Hb as [Hr1 Hb]. destruct b as [[]|e|why]; [| |done].
  2: { destruct Hx as [-> ->]. rewrite Hr1. by apply write_spec_fail. }
  apply exec_bind in Hx as (result & w2 & Hres & Hx).
  apply exec_bind in Hx as ([] & w3 & Hroll & Hx). apply exec_call, rollback_law in Hroll.
  destruct Hx as [-> ->]. rewrite Hroll. rewrite <- Hr1 in *.
  destruct (exec_create_tx o its w1 result w2 Hb Hm Hits Hres) as [[-> Hv]|(e & -> & He & Hv)].
  - right. left. by rewrite Hv.
  - left. exists e. split; [done|]. split; [done|]. destruct Hv as [->|Hv]; [by left|right]. by rewrite Hv.
Qed.

Lemma find_refines id w x w' :
  exec (order_FindByID id) w x w' -> repo_spec (FindByID id) (view (rows w)) x (view (rows w')).
Proof.
  intros Hx. unfold order_FindByID in Hx. apply exec_bind_err in Hx as (r & w1 & Hr & Hx).
  apply exec_call, order_read in Hr as [Hrows Hr]. cbn. destruct r as [row|e|why]; [| |done].
  - destruct Hr as (o & Ho & Hscan). rewrite Hscan in Hx.
    apply exec_bind_res in Hx as (y & w2 & Hy & Hx). unfold findItems in Hy.
    apply exec_bind_res in Hy as (q & w3 & Hq & Hy). apply exec_call, items_read in Hq as [Hrows3 Hq].
    assert (y = bind_ok q (scan_rows scan_item) /\ w2 = w3) as [-> ->] by by destruct q; destruct Hy as [-> ->].
    destruct (bind_ok q (scan_rows scan_item)) as [l|e|why]; [| |done]; destruct Hx as [-> ->];
      rewrite Hrows3, Hrows; split; [done| |done|].
    + left. exists (o, l). split; [|done]. by rewrite Ho, Hq, Hrows.
    + right. right. by exists e.
  - destruct Hx as [-> ->]. rewrite Hrows. split; [done|]. right.
    destruct Hr as [[Hn Heq]|He]; [left; by rewrite Heq|right; by eexists].
Qed.

Lemma exec_update_one sql args w x w' :
  exec (update_one ErrOrderNotFound sql args) w x w' ->
  exists y, sem (Exec sql args) w y w' /\ x = update_answer y.
Proof.
  intros Hx. apply exec_bind_res in Hx as (y & w1 & Hy & Hx). apply exec_call in Hy. exists y.
  destruct y; destruct Hx as [-> ->]; by split.
Qed.

Lemma list_refines f w x w' :
  exec (order_List f) w x w' -> repo_spec (ListOrders (stored_filter f)) (view (rows w)) x (view (rows w')).
Proof.
  intros Hx. unfold order_List, list_pg in Hx.
  apply exec_bind_res in Hx as (r & w1 & Hr & Hx). apply exec_call, count_law in Hr. cbn.
  destruct r as [row|e|why]; [|destruct Hx as [-> ->]; by rewrite Hr..].
  destruct (scan_count row); [|destruct Hx as [-> ->]; by rewrite Hr..].
  apply exec_bind_res in Hx as (q & w2 & Hq & Hx). apply exec_call, page_read in Hq as [Hrows Hq].
  destruct q as [q|e|why]; [|destruct Hx as [-> ->]; by rewrite Hrows, Hr..].
  destruct (f_PageSize f <? 0); [destruct Hx as [-> ->]; by rewrite Hrows, Hr|].
  destruct Hx as [-> ->]. rewrite Hrows, Hr. split; [done|]. cbn [bind_ok] in Hq.
  destruct (scan_rows scan_order q); [|done..]. cbn. rewrite Hr in Hq. destruct Hq as [Hall Hpage].
  split; [done|]. intros Hp _. by apply Hpage.
Qed.

Lemma order_pg_refines {X} (e : repoE X) w x w' :
  call_ok e -> exec (order_pg X e) w x w' ->
  repo_spec (stored_call e) (view (rows w)) x (view (rows w')).
Proof.
  destruct e as [[o|] its|id|id st|id st t|f]; intros Hok Hx; cbn [call_ok] in Hok; try done.
  - exact (create_refines o its w x w' (proj1 Hok) (proj2 Hok) Hx).
  - by apply find_refines.
  - apply exec_update_one in Hx as (y & Hy & ->). apply update_status_law in Hy as [t Ht].
    exists t. by apply update_refines.
  - apply exec_update_one in Hx as (y & Hy & ->). apply mark_processed_law in Hy. by apply update_refines.
  - by apply list_refines.
Qed.
End refinement.

(** ** A concrete database

    Answers of a database that refuses an insert at will and never fails otherwise: a
    relation on the statement and its arguments, so that each law reads off it. *)
Record session := mkSession { s_rows : tables; s_pending : option tables }.

Definition ok_tables (t : tables) : bool :=
  bool_decide (map_Forall (fun id o => o_ID o = id /\ orders_row o = true) (t_orders t)) &&
  bool_decide (map_Forall (fun id i => i_ID i = id /\ is_Some (t_orders t !! i_OrderID i) /\
                                      order_items_row i = true) (t_items t)).

Lemma ok_tables_ok t : ok_tables t = true -> tables_ok t.
Proof. unfold ok_tables. rewrite andb_true_iff, !bool_decide_eq_true. by intros [Ho Hi]. Qed.

(** A session whose committed tables satisfy the constraints. *)
Definition sound_session : Type := { s : session | ok_tables (s_rows s) = true }.

Definition demo_rows (w : sound_session) : tables := s_rows (proj1_sig w).
Definition demo_pending (w : sound_session) : option tables := s_pending (proj1_sig w).

(** The INSERTs, on the values bound. *)
Definition demo_insert (sql : string) (args : list sqlval) (t t' : tables) : Prop :=
  match args with
  | [VUuid id; VUuid customer; VText status; VText total; VUuid by_; VTime created; VTime updated] =>
      t_orders t !! id = None /\
      forall m, ParseString total = Ok m ->
        t' = add_order (mkOrder id customer status m by_ (stored_time created) (stored_time updated) None) t
  | [VUuid id; VUuid order_; VUuid product_; VInt q; VText unit_; VText total] =>
      t_items t !! id = None /\
      forall u m, ParseString unit_ = Ok u -> ParseString total = Ok m -> t' = add_item (mkItem id order_ product_ q u m) t
  | _ => True
  end.

Definition demo_update (sql : string) (args : list sqlval) (t : tables) (x : res Z) (t' : tables) : Prop :=
  match args with
  | [VUuid id; VText st] => exists now, update_result (set_order id (status_update st now) t) t x t'
  | [VUuid id; VText st; VTime at_] => update_result (set_order id (processed_update st (stored_time at_)) t) t x t'
  | _ => True
  end.

Definition demo_select (sql : string) (args : list sqlval) (t : tables) (x : res (list sqlval)) : Prop :=
  sql = orderColumns +:+ " WHERE id=$1" -> forall id, args = [VUuid id] ->
  x = match t_orders t !! id with Some o => Ok (order_row o) | None => Err (ErrVar PgxErrNoRows) end.

Definition demo_query (sql : string) (args : list sqlval) (t : tables) (x : res Rows) : Prop :=
  (sql = selectItems -> forall id, args = [VUuid id] -> x = Ok (mkRows (item_args <$> items_of id t) None)) /\
  (forall (cs : list (string * sqlval)) conds lim off,
     sql = page_text orderColumns cs ->
     args = cs.*2 ++ [VInt lim; VInt off] -> mapM condition_meaning cs = Some conds ->
     exists r, x = Ok r /\ rw_err r = None /\ order_page conds lim off t r).

Definition check_violation : error := ErrNew "new row violates check constraint".

Definition demo_pg_sem : Sem pgE sound_session := fun X e w x w' =>
  match e in pgE X return X -> Prop with
  | Begin => fun x => x = Ok tt /\ demo_rows w' = demo_rows w /\ demo_pending w' = Some (demo_rows w)
  | TxExec sql args => fun x => demo_rows w' = demo_rows w /\
      ((x = Ok 1 /\
        exists t t', demo_pending w = Some t /\ demo_pending w' = Some t' /\ demo_insert sql args t t') \/
       x = Err check_violation)
  | Commit => fun x => x = Ok tt /\ demo_pending w = Some (demo_rows w')
  | Rollback => fun _ => demo_rows w' = demo_rows w
  | Exec sql args => fun x => demo_update sql args (demo_rows w) x (demo_rows w')
  | QueryRow sql args => fun x => demo_rows w' = demo_rows w /\ demo_select sql args (demo_rows w) x
  | Query sql args => fun x => demo_rows w' = demo_rows w /\ demo_query sql args (demo_rows w) x
  end x.

Definition demo_statements : OrderStatements demo_pg_sem demo_rows.
Proof.
  constructor.
  - intros [w Hw]. by apply ok_tables_ok.
  - intros id w x w' (Hr & Hs). split; [done|]. specialize (Hs eq_refl id eq_refl). subst x.
    destruct (t_orders (demo_rows w) !! id) as [o|] eqn:Ho; [by exists o|reflexivity].
  - intros id w x w' (Hr & Hs & _). split; [done|]. by rewrite (Hs eq_refl id eq_refl).
  - intros id st w x w' Hs. exact Hs.
  - intros id st t w x w' Hs. exact Hs.
  - by intros where_ args w x w' (Hr & _).
  - intros cs lim off w x w' (Hr & _ & Hs). split; [done|]. destruct x as [r|e|why]; [|done..]. intros conds Hc.
    by destruct (Hs cs conds lim off eq_refl eq_refl Hc) as (r' & [= ->] & _ & Hp).
Defined.

Definition demo_database : OrderDatabase sound_session.
Proof.
  refine {| pg_sem := demo_pg_sem; rows := demo_rows; pending := demo_pending; statements := demo_statements |}.
  - by intros w x w' (-> & Hr & Hp).
  - intros o w x w' Hm (Hr & [(-> & t & t' & Ht & Ht' & Hfree & Hins)| ->]); [|done]. split; [done|]. exists t. split_and!; [done..|].
    rewrite Ht'. f_equal. apply Hins. by apply ParseString_Decimal.
  - intros i w x w' Hu Hm (Hr & [(-> & t & t' & Ht & Ht' & Hfree & Hins)| ->]); [|done]. split; [done|]. exists t. split_and!; [done..|].
    rewrite Ht'. f_equal. rewrite (Hins (i_UnitPrice i) (i_TotalPrice i)) by by apply ParseString_Decimal.
    by destruct i.
  - by intros w x w' (-> & Hp).
  - by intros w x w' Hr.
Defined.

(** An order the columns cannot hold is not stored. *)
Lemma unstorable_create {W : Type} `{!OrderDatabase W, !CaseTables} (o : Order)
    (its : list OrderItem) (w w' : W) (x : res unit) :
  call_ok (CreateWithItems (Some o) its) ->
  orders_row o = false \/ Exists (fun i => order_items_row i = false) its ->
  exec (order_pg _ (CreateWithItems (Some o) its)) w x w' ->
  (exists e, x = Err e /\ infra e) /\ view (rows w') = view (rows w).
Proof.
  intros Hok Hbad Hx. pose proof (order_pg_refines _ w x w' Hok Hx) as Hspec. cbn in Hspec.
  assert (Hnew : view (rows w') <> <[o_ID o := (stored_order o, by_id its)]> (view (rows w))).
  { intros Hnew. assert (Ho : view (rows w') !! o_ID o = Some (stored_order o, by_id its)).
    { by rewrite Hnew, lookup_insert_eq. }
    rewrite view_lookup in Ho. destruct (t_orders (rows w') !! o_ID o) as [o'|] eqn:Ho'; [|done].
    injection Ho as -> Hits. pose proof (rows_ok w') as Hrows. destruct Hbad as [Hbad|Hbad].
    - destruct (order_keys _ Hrows _ _ Ho') as [_ Hrow]. unfold orders_row in *. cbn in Hrow. congruence.
    - apply Exists_exists in Hbad as (i & Hi & Hbad).
      assert (Hin : i ∈ items_of (o_ID o) (rows w')) by (rewrite Hits; unfold by_id; by rewrite merge_sort_Permutation).
      unfold items_of, by_id in Hin. rewrite merge_sort_Permutation, list_elem_of_filter in Hin.
      destruct Hin as [_ Hin%(values_keyed _ _ Hrows)]. destruct (item_keys _ Hrows _ _ Hin) as (_ & _ & Hrow). congruence. }
  destruct Hspec as [(e & -> & He & [->|[= Heq]])|[[-> [= Heq]]|(? & _)]]; [|congruence..].
  split; [by exists e|done].
Qed.

(** ** Properties *)

(** C14: the PostgreSQL repository implements the contract of its port: on a database
    that does what its statements say, every operation answers and changes the stored
    orders as the abstract store promises, failures and lost acknowledgements
    included, for the arguments as the columns keep them: timestamps cut to
    microseconds and the items of an order listed by id.  A listing that succeeds answers
    stored orders that match the filter, and, when its page arithmetic stays in range,
    exactly the window of all of them in the order of their creation. *)
Theorem PostgresRepository_refines {W : Type} `{!OrderDatabase W, !CaseTables} {X} (e : repoE X) (w w' : W) (x : X) :
  call_ok e -> exec (order_pg X e) w x w' ->
  repo_spec (stored_call e) (view (rows w)) x (view (rows w')).
Proof. apply order_pg_refines. Qed.

Definition demo_order : Order := mkOrder 5 1 StatusCreated (mkMoney 450) 3 1234567 1234567 None.
Definition demo_item : OrderItem := mkItem 6 5 9 3 (mkMoney 150) (mkMoney 450).
Definition demo_tables : tables := add_item demo_item (add_order (stored_order demo_order) (mkTables ∅ ∅)).

Definition session_of (t : tables) (p : option tables) (H : ok_tables t = true) : sound_session :=
  exist _ (mkSession t p) H.

Lemma empty_ok : ok_tables (mkTables ∅ ∅) = true.
Proof. vm_compute. reflexivity. Qed.

Lemma demo_tables_ok : ok_tables demo_tables = true.
Proof. vm_compute. reflexivity. Qed.

Definition demo_start : sound_session := session_of (mkTables ∅ ∅) None empty_ok.
Definition demo_open (t : tables) : sound_session := session_of (mkTables ∅ ∅) (Some t) empty_ok.
Definition demo_end : sound_session := session_of demo_tables None demo_tables_ok.

Lemma demo_create_run :
  let _ := demo_database in let _ := no_tables in
  exec (order_pg _ (CreateWithItems (Some demo_order) [demo_item])) demo_start (Ok tt) demo_end.
Proof.
  cbv zeta. exists (Ok tt), (demo_open (mkTables ∅ ∅)). split; [by split_and!|].
  exists (Ok 1), (demo_open (add_order (stored_order demo_order) (mkTables ∅ ∅))). split.
  { split; [done|]. left. split; [done|]. eexists _, _. split; [done|]. split; [done|]. split; [done|].
    intros m Hm. vm_compute in Hm. by injection Hm as <-. }
  exists (Ok 1), (demo_open demo_tables). split.
  { split; [done|]. left. split; [done|]. eexists _, _. split; [done|]. split; [done|]. split; [done|].
    intros u m Hu Hm. vm_compute in Hu, Hm. injection Hu as <-. by injection Hm as <-. }
  exists (Ok tt), demo_end. split; [by split|].
  exists tt, demo_end. by split; [|split].
Qed.

(** The page of the created orders, on the tables with one order. *)
Definition created_orders : OrderFilter := mkOrderFilter None (Some StatusCreated) None None 1 20.

Definition demo_page : Page Order := mkPage [stored_order demo_order] 1 20 1 1.

Lemma demo_list_run :
  let _ := demo_database in let _ := no_tables in
  exec (order_pg _ (ListOrders created_orders)) demo_end (Ok demo_page) demo_end.
Proof.
  cbv zeta. exists (Ok [VInt 1]), demo_end. split; [split; [done|]; intros Hsql; vm_compute in Hsql; discriminate|].
  exists (Ok (mkRows [order_row (stored_order demo_order)] None)), demo_end. split.
  2: { split; [vm_compute; reflexivity|done]. }
  split; [done|]. split; [intros Hsql; vm_compute in Hsql; discriminate|].
  intros cs conds lim off _ Hargs Hconds.
  destruct cs as [|[n v] [|c cs]]; [discriminate Hargs| |].
  2: { apply (f_equal length) in Hargs. cbn in Hargs. rewrite length_app, length_fmap in Hargs. cbn in Hargs. lia. }
  cbn in Hargs. injection Hargs as <- <- <-. cbn in Hconds. unfold condition_meaning in Hconds. cbn in Hconds.
  destruct (bool_decide (n = "status = ")); [|discriminate Hconds]. injection Hconds as <-.
  eexists. split; [reflexivity|]. split; [reflexivity|]. exists [stored_order demo_order].
  split; [vm_compute; reflexivity|]. split; [repeat constructor|]. reflexivity.
Qed.

Lemma PostgresRepository_refines_witness :
  write_spec ∅ (Some {[5%N := (mkOrder 5 1 StatusCreated (mkMoney 450) 3 1234000 1234000 None, [demo_item])]})
    false (Ok tt) (view demo_tables) /\
  listing (view demo_tables) (stored_filter created_orders) [stored_order demo_order].
Proof.
  split.
  - refine (@PostgresRepository_refines sound_session demo_database no_tables _
             (CreateWithItems (Some demo_order) [demo_item]) demo_start demo_end (Ok tt) _ demo_create_run).
    split; [by apply in_int64b_spec|]. constructor; [|constructor]. split; [done|]. split; by apply in_int64b_spec.
  - destruct (@PostgresRepository_refines sound_session demo_database no_tables _
             (ListOrders created_orders) demo_end demo_end (Ok demo_page) I demo_list_run) as [_ [_ Hpage]].
    apply Hpage; [by vm_compute|]. vm_compute. discriminate.
Defined.

(** Three thousand million pens: the service accepts the line, the column has four bytes. *)
Definition huge_item : OrderItem := mkItem 6 5 9 3000000000 (mkMoney 1) (mkMoney 3000000000).
Definition huge_order : Order := mkOrder 5 1 StatusCreated (mkMoney 3000000000) 3 0 0 None.

Lemma demo_refused_run :
  let _ := demo_database in let _ := no_tables in
  exec (order_pg _ (CreateWithItems (Some huge_order) [huge_item])) demo_start (Err check_violation) demo_start.
Proof.
  cbv zeta. exists (Ok tt), (demo_open (mkTables ∅ ∅)). split; [by split_and!|].
  exists (Ok 1), (demo_open (add_order (stored_order huge_order) (mkTables ∅ ∅))). split.
  { split; [done|]. left. split; [done|]. eexists _, _. split; [done|]. split; [done|]. split; [done|].
    intros m Hm. vm_compute in Hm. by injection Hm as <-. }
  exists (Err check_violation), (demo_open (mkTables ∅ ∅)). split; [split; [done|by right]|].
  exists tt, demo_start. by split; [|split].
Qed.

(** The ports of the service with the adapter for its repository; the others answer
    anything and leave the tables alone. *)
Definition demo_ports : Sem orderE sound_session :=
  let _ := demo_database in let _ := no_tables in
  fun X e =>
  match e in orderE X return sound_session -> X -> sound_session -> Prop with
  | Repo r => fun w x w' => exec (order_pg _ r) w x w'
  | _ => fun w _ w' => demo_rows w' = demo_rows w
  end.

(** C22: an order the columns cannot hold is refused, not truncated.  When its total is
    negative or has more than thirteen digits before the point, or a line's quantity does
    not fit four bytes, or a line's price or total is not positive or too large,
    [CreateWithItems] answers an error of the database, and neither the order nor any of
    its lines is stored; the service that was about to store it answers that the order
    could not be created, and changes nothing either.  The validation of the service does
    not prevent it: it accepts every quantity of at least one. *)
Theorem unstorable_orders_are_refused {W : Type} `{!OrderDatabase W, !CaseTables} (ports : Sem orderE W)
    (o : Order) (its : list OrderItem) :
  (forall X (e : repoE X) w x w', ports _ (Repo e) w x w' -> exec (order_pg X e) w x w') ->
  call_ok (CreateWithItems (Some o) its) ->
  orders_row o = false \/ Exists (fun i => order_items_row i = false) its ->
  (forall w x w', exec (order_pg _ (CreateWithItems (Some o) its)) w x w' ->
     (exists e, x = Err e /\ infra e) /\ view (rows w') = view (rows w)) /\
  (forall w x w', @exec orderE W ports _ (persist_and_publish o its) w x w' ->
     (exists e, x = Err (Internal "could not create order" e) /\ infra e) /\ view (rows w') = view (rows w)) /\
  (forall customer product q, customer <> uuid_Nil -> product <> uuid_Nil -> 1 <= q ->
     validate_input (mkOrderInput customer [mkItemInput product q]) = None).
Proof.
  intros Hports Hok Hbad. split; [|split].
  - intros w x w'. by apply unstorable_create.
  - intros w x w' Hx. unfold persist_and_publish in Hx. apply exec_bind_err in Hx as (y & w1 & Hy & Hx).
    apply exec_call, Hports in Hy. destruct (unstorable_create o its w w1 y Hok Hbad Hy) as [(e & -> & He) Hv].
    destruct Hx as [-> ->]. split; [by exists e|done].
  - intros c p q Hc Hp Hq. unfold validate_input, validate_items, validate_item. cbn.
    rewrite !bool_decide_eq_false_2 by done. by replace (q <? 1) with false by lia.
Qed.

Lemma unstorable_orders_are_refused_witness :
  order_items_row huge_item = false /\
  ((exists e, Err check_violation = Err (A := unit) e /\ infra e) /\ view (mkTables ∅ ∅) = view (mkTables ∅ ∅)) /\
  validate_input (mkOrderInput 1 [mkItemInput 9 3000000000]) = None.
Proof.
  split; [vm_compute; reflexivity|].
  destruct (@unstorable_orders_are_refused sound_session demo_database no_tables demo_ports huge_order [huge_item])
    as (Hadapter & _ & Hvalid).
  - intros X e w x w' Hx. exact Hx.
  - split; [by apply in_int64b_spec|]. constructor; [|constructor]. split; [done|]. split; by apply in_int64b_spec.
  - right. constructor. vm_compute. reflexivity.
  - split; [exact (Hadapter demo_start (Err check_violation) demo_start demo_refused_run)|].
    apply Hvalid; [discriminate|discriminate|lia].
Defined.
