(* ===== verification/PgSessions.v ===== *)
(** PgSessions: many sessions of one PostgreSQL database.  The order repository sends
    several statements per operation, and the statements of all clients interleave;
    nevertheless every operation takes effect at once, so what is proved of the order
    service over whole repository calls holds over single statements. *)
From S2P Require Import Prelude Errors Effects Atomic GoStrings Uuid Money Pagination OrderModel OrderRepo OrderService OrderLifecycle Postgres PgOrders.

(** ** The calls of many clients

    Client [i], a goroutine of a process, sends its statements on its own connection:
    a transaction holds one from [Begin] to its end. *)
Inductive sysE : Type -> Type :=
| At {X : Type} (i : nat) (c : pgE X) : sysE X
| Port {X : Type} (e : orderE X) : sysE X.

Definition on_session (i : nat) {A} (p : pg A) : prog sysE A := interp (fun X c => call (At i c)) p.

(** ** A database shared by sessions

    The rows a transaction inserted and has not committed. *)
Record writes := mkWrites { new_orders : list Order; new_items : list OrderItem }.

Definition no_writes : writes := mkWrites [] [].
Definition write_order (o : Order) (p : writes) : writes := mkWrites (new_orders p ++ [o]) (new_items p).
Definition write_item (i : OrderItem) (p : writes) : writes := mkWrites (new_orders p) (new_items p ++ [i]).

Definition add_orders (os : list Order) (t : tables) : tables := fold_left (fun t o => add_order o t) os t.

Definition written (p : writes) (t : tables) : tables := add_items (new_items p) (add_orders (new_orders p) t).

(** No key of the transaction is taken: its inserts waited for the ones of other
    transactions, and failed if those were committed. *)
Fixpoint fresh_orders (os : list Order) (t : tables) : Prop :=
  match os with
  | [] => True
  | o :: os' => t_orders t !! o_ID o = None /\ fresh_orders os' (add_order o t)
  end.

Definition fits (p : writes) (t : tables) : Prop :=
  fresh_orders (new_orders p) t /\ fresh_items (new_items p) (add_orders (new_orders p) t).

(** At the default isolation level (READ COMMITTED) a statement outside a transaction
    sees what was committed before it, and a transaction's inserts stay invisible to
    the other sessions until its commit. *)
Class SharedDatabase (D : Type) := {
  session : nat -> Sem pgE D;
  committed : D -> tables;
  uncommitted : D -> nat -> option writes;
  session_statements i : OrderStatements (session i) committed;
  private_law i j X (c : pgE X) d x d' :
    i <> j -> session i X c d x d' -> uncommitted d' j = uncommitted d j;
  tx_begin_law i d x d' : session i _ Begin d x d' ->
    committed d' = committed d /\
    match x with Ok _ => uncommitted d' i = Some no_writes | Err e => infra e | Panic _ => False end;
  tx_order_law i o d x d' : money_ok (o_TotalAmount o) ->
    session i _ (TxExec insertOrder (order_args o)) d x d' ->
    committed d' = committed d /\
    match x with
    | Ok _ => exists p, uncommitted d i = Some p /\ uncommitted d' i = Some (write_order (stored_order o) p)
    | Err e => infra e
    | Panic _ => False
    end;
  tx_item_law i it d x d' : money_ok (i_UnitPrice it) -> money_ok (i_TotalPrice it) ->
    session i _ (TxExec insertItem (item_args it)) d x d' ->
    committed d' = committed d /\
    match x with
    | Ok _ => exists p, uncommitted d i = Some p /\ uncommitted d' i = Some (write_item it p)
    | Err e => infra e
    | Panic _ => False
    end;
  tx_commit_law i d x d' : session i _ Commit d x d' ->
    let commits := exists p, uncommitted d i = Some p /\ fits p (committed d) /\
                             committed d' = written p (committed d) in
    match x with
    | Ok _ => commits
    | Err e => infra e /\ (committed d' = committed d \/ commits)
    | Panic _ => False
    end;
  tx_rollback_law i d x d' : session i _ Rollback d x d' -> committed d' = committed d;
}.

(** The other ports of the service: the ids drawn so far; a price is an int64. *)
Class Ports (U : Type) := {
  ports_sem :: Sem orderE U;
  drawn_ids : U -> gset uuid;
  drawn_mono X (e : orderE X) u x u' : sem e u x u' -> drawn_ids u ⊆ drawn_ids u';
  drawn_fresh u x u' : sem NewUUID u x u' -> x <> uuid_Nil /\ x ∉ drawn_ids u /\ x ∈ drawn_ids u';
  catalog_prices ids u l u' : sem (FindProducts ids) u (Ok l) u' -> Forall (fun p => money_ok (p_Price p)) l;
}.

(** ** What the service sends *)
Definition sends {X} (e : orderE X) : Prop := match e with Repo r => call_ok r | _ => True end.

Definition receives {X} (e : orderE X) : X -> Prop :=
  match e in orderE X return X -> Prop with
  | FindProducts _ => fun x => match x with Ok l => Forall (fun p => money_ok (p_Price p)) l | _ => True end
  | _ => fun _ => True
  end.

Abbreviation sending := (stateless (@sends) (@receives)).

Definition sends_all {A} (p : prog orderE A) : Prop := makes (@sends) (@receives) p.

Definition priced_ok (orderID : uuid) (i : OrderItem) : Prop :=
  i_OrderID i = orderID /\ money_ok (i_UnitPrice i) /\ money_ok (i_TotalPrice i).

Lemma index_prices l id p :
  Forall (fun p => money_ok (p_Price p)) l -> index_products l !! id = Some p -> money_ok (p_Price p).
Proof.
  unfold index_products. intros Hl. assert (H0 : map_Forall (fun _ p => money_ok (p_Price p)) (∅ : gmap uuid Product))
    by apply map_Forall_empty. revert H0. generalize (∅ : gmap uuid Product).
  induction Hl as [|q l Hq _ IH]; cbn; intros m Hm; [by apply Hm|]. by apply IH, map_Forall_insert_2.
Qed.

Lemma OrderTotal_ok l : money_ok (OrderTotal l).
Proof. rewrite OrderTotal_sum. apply wrap64_range. Qed.

Lemma sends_price_line loaded orderID acc line :
  Forall (fun p => money_ok (p_Price p)) loaded -> Forall (priced_ok orderID) acc.2 ->
  conforms sending tt (price_line (index_products loaded) orderID acc line)
    (fun _ r => match r with Ok acc' => Forall (priced_ok orderID) acc'.2 | _ => True end).
Proof.
  intros Hl Hacc. unfold price_line. destruct (index_products loaded !! ii_ProductID line) as [p|] eqn:Hp; [|done].
  destruct (p_Active p); [|done]. cbn. split; [done|]. intros u _. apply Forall_app. split; [done|].
  constructor; [|done]. split_and!; cbn; [done|by eapply index_prices|apply wrap64_range].
Qed.

Lemma sends_Create createdBy input : sends_all (Create createdBy input).
Proof.
  unfold sends_all, makes, Create. destruct (validate_input input); [done|].
  apply conforms_bind_err, conforms_call; [exact I|]. intros [c|e|m] _; [|done..].
  cbv beta iota. destruct (c_Active c); cbn [negb]; [|done].
  apply conforms_bind_err, conforms_call; [exact I|]. intros [loaded|e|m] Hprices; [|done..].
  cbv beta iota zeta. cbn in Hprices.
  apply conforms_bind, conforms_call; [exact I|]. intros now _.
  apply conforms_bind, conforms_call; [exact I|]. intros orderID _.
  apply conforms_bind_res.
  apply (conforms_for_res _ (fun _ _ acc => Forall (priced_ok orderID) acc.2)); [| |done].
  - intros pre line post s acc _ Hacc. destruct s. eapply conforms_mono; [|by apply sends_price_line].
    by intros s' [acc'|e|m].
  - intros s [tots its] Hits. cbn in Hits |- *. split.
    + split; [apply OrderTotal_ok|]. exact Hits.
    + repeat conf_step.
Qed.

Lemma sends_Process id : sends_all (Process id).
Proof. unfold sends_all, makes, Process. repeat conf_step. Qed.

Lemma sends_transition id to required msg : sends_all (transition id to required msg).
Proof. unfold sends_all, makes, transition. repeat conf_step. Qed.

Lemma sends_FindOrder id : sends_all (FindOrder id).
Proof. unfold sends_all, makes, FindOrder. repeat conf_step. Qed.

Lemma sends_ListService f : sends_all (ListService f).
Proof.
  unfold sends_all, makes, ListService. case_match; [done|].
  apply conforms_bind_err, conforms_call; [exact I|]. intros [page|e|m] _; [|done..].
  apply conforms_bind_res.
  apply (conforms_for_res _ (fun _ _ _ => True)); [|by repeat conf_step|done].
  intros pre o post s acc _ _. unfold list_item. repeat conf_step.
Qed.

#[export] Hint Resolve sends_Create sends_Process sends_transition sends_FindOrder sends_ListService : go_inv.

(** The use cases with their replies. *)
Inductive reply :=
| ReplyOrder (r : res OrderOutput)
| ReplyDone (r : res unit)
| ReplyPage (r : res (Page OrderOutput)).

Definition reply_with {A} (f : A -> reply) (p : prog orderE A) : prog orderE reply := a <- p ;; Ret (f a).

Definition respond (r : request) : prog orderE reply :=
  match r with
  | RCreate by_ input => reply_with ReplyOrder (Create by_ input)
  | RProcess id => reply_with ReplyDone (Process id)
  | RCancel id => reply_with ReplyOrder (Cancel id)
  | RShip id => reply_with ReplyOrder (Ship id)
  | RFind id => reply_with ReplyOrder (FindOrder id)
  | RList f => reply_with ReplyPage (ListService f)
  end.

Lemma sends_then {A B} (p : prog orderE A) (f : A -> B) : sends_all p -> sends_all (a <- p ;; Ret (f a)).
Proof. intros Hp. apply conforms_bind. eapply conforms_mono; [|exact Hp]. done. Qed.

Lemma sends_respond r : sends_all (respond r).
Proof. destruct r; apply sends_then; unfold Cancel, Ship; eauto with go_inv. Qed.

Lemma sends_serve r : sends_all (serve r).
Proof. destruct r; apply sends_then; unfold Cancel, Ship; eauto with go_inv. Qed.

(** ** The composed states *)
Section sessions.
Context {D U : Type} `{!SharedDatabase D, !Ports U, !CaseTables}.

(** The implementation: a client's statement is a step of its session. *)
#[export] Instance system_sem : Sem sysE (D * U) := fun X e w x w' =>
  match e in sysE X return X -> Prop with
  | At i c => fun x => session i _ c w.1 x w'.1 /\ w'.2 = w.2
  | Port e => fun x => sem e w.2 x w'.2 /\ w'.1 = w.1
  end x.

(** A method of the repository is its statements; the other ports answer at once. *)
Definition method (i : nat) (X : Type) (e : orderE X) : prog sysE X :=
  match e in orderE X return orderE X -> prog sysE X with
  | Repo r => fun _ => on_session i (order_pg _ r)
  | _ => fun e => call (Port e)
  end e.

Definition clients {A} (qs : list (prog orderE A)) : list (prog sysE A) := imap (client method) qs.

(** The specification: a repository call does at once what its contract says, for the
    call as the columns keep it. *)
#[export] Instance store_sem : Sem orderE (store * U) := fun X e s x s' =>
  match e in orderE X return orderE X -> X -> Prop with
  | Repo r => fun _ x => repo_spec (stored_call r) s.1 x s'.1 /\ s'.2 = s.2
  | _ => fun e x => sem e s.2 x s'.2 /\ s'.1 = s.1
  end e x.

Definition state_view (w : D * U) : store * U := (view (committed w.1), w.2).

(** ** The middle of each method *)

(** A transaction ends with the deferred rollback. *)
Definition in_tx (p : pg (res unit)) : pg (res unit) := result <- p ;; call Rollback ;;; Ret result.

Definition insert_rest (its : list OrderItem) : pg (res unit) :=
  _ <-! for_res insert_item its tt ;; call Commit.

Inductive create_mid (i : nat) (o : Order) (its : list OrderItem) (d : D)
    : prog sysE (res unit) -> (option (res unit) -> Prop) -> Prop :=
| create_begins : create_mid i o its d (on_session i (order_CreateWithItems (Some o) its)) (eq None)
| create_begun :
    uncommitted d i = Some no_writes -> create_mid i o its d (on_session i (in_tx (create_tx o its))) (eq None)
| create_inserts pre post :
    its = pre ++ post -> uncommitted d i = Some (mkWrites [stored_order o] pre) ->
    create_mid i o its d (on_session i (in_tx (insert_rest post))) (eq None)
| create_ends x : create_mid i o its d (on_session i (in_tx (Ret x))) (eq (Some x)).

Inductive find_mid (i : nat) (id : uuid) (d : D)
    : prog sysE (res (Order * list OrderItem)) -> (option (res (Order * list OrderItem)) -> Prop) -> Prop :=
| find_begins : find_mid i id d (on_session i (order_FindByID id)) (eq None)
| find_found o o' its :
    view (committed d) !! id = Some (o', its) ->
    find_mid i id d (on_session i (items <-! findItems id ;; Ret (Ok (o, items))))
      (fun y => y = Some (Ok (o, its)) \/ exists e, infra e /\ y = Some (Err e)).

Definition list_page (f : OrderFilter) (total : Z) : pg (res (Page Order)) :=
  let q := page_sql orderColumns (where_clause (orderConditions f).1) (orderConditions f).2 (f_Page f) (f_PageSize f) in
  rows <-! call (Query q.1 q.2) ;;
  if f_PageSize f <? 0 then Ret (Panic "makeslice: cap out of range")
  else Ret (bind_ok (scan_rows scan_order rows) (fun items =>
         Ok (mkPage items (f_Page f) (f_PageSize f) total (guarded_pages total (f_PageSize f))))).

Inductive list_mid (i : nat) (f : OrderFilter)
    : prog sysE (res (Page Order)) -> (option (res (Page Order)) -> Prop) -> Prop :=
| list_begins : list_mid i f (on_session i (order_List f)) (eq None)
| list_counted total : list_mid i f (on_session i (list_page f total)) (eq None).

Definition repo_mid (i : nat) {X} (r : repoE X) (d : D) : prog sysE X -> (option X -> Prop) -> Prop :=
  match r in repoE X return prog sysE X -> (option X -> Prop) -> Prop with
  | CreateWithItems (Some o) its => create_mid i o its d
  | CreateWithItems None _ => fun _ _ => False
  | FindByID id => find_mid i id d
  | UpdateStatus id st => fun p T => p = on_session i (order_UpdateStatus id st) /\ T = eq None
  | MarkProcessed id st t => fun p T => p = on_session i (order_MarkProcessed id st t) /\ T = eq None
  | ListOrders f => list_mid i f
  end.

Definition mid (i : nat) (X : Type) (e : orderE X) (p : prog sysE X) (w : D * U) (T : option X -> Prop) : Prop :=
  match e in orderE X return orderE X -> prog sysE X -> (option X -> Prop) -> Prop with
  | Repo r => fun _ p T => repo_mid i r w.1 p T
  | _ => fun e p T => p = call (Port e) /\ T = eq None
  end e p T.

(** No step takes an order away or changes its items, or touches the uncommitted rows
    of another session. *)
Definition items_kept (s s' : store) : Prop :=
  forall id o its, s !! id = Some (o, its) -> exists o', s' !! id = Some (o', its).

Definition guarantees (i : nat) (w w' : D * U) : Prop :=
  items_kept (view (committed w.1)) (view (committed w'.1)) /\
  forall j, i <> j -> uncommitted w'.1 j = uncommitted w.1 j.

#[local] Abbreviation lands i e w T r' w' :=
  (step_ok state_view (@receives) (fun _ _ => True) mid guarantees i e w T r' w').

Lemma kept_refl s : items_kept s s.
Proof. intros id o its Ho. eauto. Qed.

Lemma same_rows_guaranteed i X (c : pgE X) d u x d' :
  session i X c d x d' -> committed d' = committed d -> guarantees i (d, u) (d', u).
Proof.
  intros Hs Hr. split; cbn; [rewrite Hr; apply kept_refl|]. intros j Hij. by eapply private_law.
Qed.

Lemma update_kept id f s : match store_update id f s with Some s' => items_kept s s' | None => True end.
Proof.
  destruct (store_update id f s) as [s'|] eqn:Hs; [|done]. apply store_update_lookup in Hs as (o & its & Ho & ->).
  intros id' o' its' Ho'. destruct (decide (id = id')) as [<-|Hne].
  - rewrite lookup_insert_eq. simplify_eq. eauto.
  - rewrite lookup_insert_ne by done. eauto.
Qed.

Lemma write_kept id f nf x s s' : write_spec s (store_update id f s) nf x s' -> items_kept s s'.
Proof.
  intros [[-> _]|Ht]%write_spec_cases; [apply kept_refl|]. pose proof (update_kept id f s) as Hk. by rewrite Ht in Hk.
Qed.

(** The two ways a standing goes on: nothing visible happened, or the call took effect. *)
Lemma unmoved {X} (e : orderE X) d u d' o : committed d' = committed d -> moves state_view e (d, u) o (d', u) o.
Proof. intros Hr. unfold moves, state_view. cbn. rewrite Hr. by destruct o. Qed.

Lemma took_effect {X} (r : repoE X) d u x d' :
  repo_spec (stored_call r) (view (committed d)) x (view (committed d')) ->
  moves state_view (Repo r) (d, u) None (d', u) (Some x).
Proof. by split. Qed.

(** A statement that changed no row: the method goes on, with the standings it had or
    with an answer that needs no change, or returns one. *)
Lemma lands_on i X (r : repoE X) Y (c : pgE Y) d u y d' (T : option X -> Prop) p' :
  session i Y c d y d' -> committed d' = committed d -> repo_mid i r d' p' T ->
  lands i (Repo r) (d, u) T p' (d', u).
Proof.
  intros Hs Hr Hmid. apply (step_continues _ _ _ _ _ _ _ _ _ _ T); [by eapply same_rows_guaranteed|exact Hmid|].
  intros o Ho. exists o. split; [done|]. by apply unmoved.
Qed.

Lemma lands_answer i X (r : repoE X) Y (c : pgE Y) d u y d' p' (T : option X -> Prop) :
  session i Y c d y d' -> committed d' = committed d -> repo_mid i r d' p' T ->
  (forall o, T o -> exists x, o = Some x /\ repo_spec (stored_call r) (view (committed d)) x (view (committed d'))) ->
  lands i (Repo r) (d, u) (eq None) p' (d', u).
Proof.
  intros Hs Hr Hmid Hspec. apply (step_continues _ _ _ _ _ _ _ _ _ _ T); [by eapply same_rows_guaranteed|exact Hmid|].
  intros o (x & -> & Hx)%Hspec. exists None. split; [done|]. by apply took_effect.
Qed.

Lemma lands_return i X (r : repoE X) Y (c : pgE Y) d u y d' x (T : option X -> Prop) o :
  session i Y c d y d' -> committed d' = committed d -> T o ->
  match o with
  | None => repo_spec (stored_call r) (view (committed d)) x (view (committed d))
  | Some x' => x = x'
  end ->
  lands i (Repo r) (d, u) T (Ret x) (d', u).
Proof.
  intros Hs Hr Ho Hx. eapply step_finishes; [by eapply same_rows_guaranteed|done|done|exact Ho|].
  destruct o as [x'|]; [subst x'; by apply unmoved|]. apply took_effect. by rewrite Hr.
Qed.

(** The next statement of a method. *)
Lemma statement_step i A X (c : pgE X) (k : X -> pg A) d u p' w' :
  prog_step (on_session i (Vis c k)) (d, u) p' w' ->
  exists x d', session i X c d x d' /\ w' = (d', u) /\ p' = on_session i (k x).
Proof.
  intros (x & [Hs Hu] & ->). destruct w' as [d' u']. cbn in Hs, Hu. subst u'. by exists x, d'.
Qed.

(** ** The steps of each method *)
Lemma find_step i id d u p T p' w' :
  find_mid i id d p T -> prog_step p (d, u) p' w' -> lands i (Repo (FindByID id)) (d, u) T p' w'.
Proof.
  intros [|o o' its Ho] Hstep; apply statement_step in Hstep as (x & d' & Hs & -> & ->).
  - pose proof Hs as [Hrows Hr]%(order_read (OrderStatements0 := session_statements i)). destruct x as [row|e|why]; [| |done].
    + destruct Hr as (o & Ho & Hscan). cbn. rewrite Hscan.
      eapply lands_answer; [exact Hs|done|eapply find_found; by rewrite Hrows|].
      intros y [->|(e & He & ->)]; eexists; split; [done| |done|]; cbn; rewrite Hrows; split; [done|eauto|done|eauto].
    + cbn. eapply lands_return; [exact Hs|done|done|]. split; [done|]. right.
      destruct Hr as [[Hn ->]|He]; [by left|right; eauto].
  - pose proof Hs as [Hrows Hr]%(items_read (OrderStatements0 := session_statements i)).
    rewrite view_lookup in Ho. destruct (t_orders (committed d) !! id) as [o1|]; [|done]. injection Ho as -> <-.
    destruct x as [r|e|why]; cbn [bind_ok] in Hr; [destruct (scan_rows scan_item r) as [l|e|why] eqn:Hl| |]; try done.
    all: cbn; rewrite ?Hl; cbn; eapply (lands_return _ _ _ _ _ _ _ _ _ _ _ (Some _)); [exact Hs|done| |reflexivity]; first [left; congruence|right; eauto].
Qed.
Lemma update_step i (r : repoE (res unit)) sql args d u p' w' :
  (forall x d', session i _ (Exec sql args) d x d' ->
     repo_spec (stored_call r) (view (committed d)) (update_answer x) (view (committed d')) /\
     items_kept (view (committed d)) (view (committed d'))) ->
  prog_step (on_session i (update_one ErrOrderNotFound sql args)) (d, u) p' w' ->
  lands i (Repo r) (d, u) (eq None) p' w'.
Proof.
  intros Hspec Hstep. apply statement_step in Hstep as (x & d' & Hs & -> & ->).
  destruct (Hspec x d' Hs) as [Hx Hkept].
  replace (on_session i _) with (Ret (update_answer x) : prog sysE (res unit)) by by destruct x.
  eapply step_finishes; [|done|done|reflexivity|by apply took_effect].
  split; [exact Hkept|]. intros j Hij. by eapply private_law.
Qed.

Lemma status_step i id st d u p' w' :
  prog_step (on_session i (order_UpdateStatus id st)) (d, u) p' w' ->
  lands i (Repo (UpdateStatus id st)) (d, u) (eq None) p' w'.
Proof.
  apply update_step. intros x d' [t Ht%update_refines]%(update_status_law (OrderStatements := session_statements i)).
  split; [by exists t|by eapply write_kept].
Qed.

Lemma processed_step i id st t d u p' w' :
  prog_step (on_session i (order_MarkProcessed id st t)) (d, u) p' w' ->
  lands i (Repo (MarkProcessed id st t)) (d, u) (eq None) p' w'.
Proof.
  apply update_step. intros x d' Ht%(mark_processed_law (OrderStatements := session_statements i)).
  apply update_refines in Ht. split; [exact Ht|by eapply write_kept].
Qed.

Lemma list_step i f d u p T p' w' :
  list_mid i f p T -> prog_step p (d, u) p' w' -> lands i (Repo (ListOrders f)) (d, u) T p' w'.
Proof.
  intros [|total] Hstep; apply statement_step in Hstep as (x & d' & Hs & -> & ->).
  - pose proof Hs as Hrows%(count_law (OrderStatements := session_statements i)). destruct x as [row|e|why].
    { destruct (scan_count row) as [total|e|why]; cbn; [eapply lands_on; [exact Hs|done|constructor]| |].
      all: eapply lands_return; [exact Hs|done|done|by split]. }
    all: cbn; eapply lands_return; [exact Hs|done|done|by split].
  - pose proof Hs as [Hrows Hr]%(page_read (OrderStatements0 := session_statements i)).
    destruct x as [q|e|why]; cbn; [destruct (f_PageSize f <? 0)| |].
    all: eapply lands_return; [exact Hs|done|done|]; cbn; split; [done|]; try done.
    cbn [bind_ok] in Hr. destruct (scan_rows scan_order q) as [l|e|why]; [|done..]. cbn.
    destruct Hr as [Hall Hpage]. split; [done|]. intros Hp _. by apply Hpage.
Qed.
(** The rows of a committed creation. *)
Lemma creation_committed (i : nat) o its d d' p :
  Forall (item_of o) its -> uncommitted d i = Some (mkWrites [stored_order o] its) ->
  uncommitted d i = Some p -> fits p (committed d) -> committed d' = written p (committed d) ->
  view (committed d) !! o_ID o = None /\
  view (committed d') = <[o_ID o := (stored_order o, by_id its)]> (view (committed d)).
Proof.
  intros Hits Hp Hp' Hfits Hrows. rewrite Hp in Hp'. injection Hp' as <-. destruct Hfits as [[Hfree _] Hfresh].
  assert (Hok : forall e, tables_ok (committed e)) by apply (rows_ok (OrderStatements := session_statements i)).
  cbn in Hfree. split; [by rewrite view_lookup, Hfree|]. rewrite Hrows. apply view_created; [apply Hok| |done| |done].
  - change (tables_ok (written (mkWrites [stored_order o] its) (committed d))). rewrite <- Hrows. apply Hok.
  - eapply Forall_impl; [exact Hits|]. by intros it [Hid _].
Qed.

Lemma creation_kept (s : store) id en : s !! id = None -> items_kept s (<[id := en]> s).
Proof. intros Hn id' o its Ho. rewrite lookup_insert_ne by congruence. eauto. Qed.

(** A commit answers, and all its rows are there, or an error whose commit may have
    happened. *)
Lemma commit_cases i o its d x d' :
  Forall (item_of o) its -> uncommitted d i = Some (mkWrites [stored_order o] its) -> session i _ Commit d x d' ->
  let s := view (committed d) in
  let s' := <[o_ID o := (stored_order o, by_id its)]> s in
  write_spec s (Some s') false x (view (committed d')) /\ items_kept s (view (committed d')).
Proof.
  intros Hits Hp Hx%tx_commit_law. cbv zeta in *.
  assert (Hdone : (exists p, uncommitted d i = Some p /\ fits p (committed d) /\ committed d' = written p (committed d)) ->
            view (committed d') = <[o_ID o := (stored_order o, by_id its)]> (view (committed d)) /\
            items_kept (view (committed d)) (view (committed d'))).
  { intros (p & Hp' & Hfits & Hrows).
    destruct (creation_committed i o its d d' p Hits Hp Hp' Hfits Hrows) as [Hn ->].
    split; [done|by apply creation_kept]. }
  destruct x as [[]|e|why]; [| |done].
  - destruct (Hdone Hx) as [-> Hk]. split; [apply write_spec_ok|done].
  - destruct Hx as [He [->|Hx]]; [split; [by apply write_spec_fail|apply kept_refl]|].
    destruct (Hdone Hx) as [-> Hk]. split; [|done]. left. exists e. auto.
Qed.

Lemma commit_step i o its d u p' w' :
  Forall (item_of o) its -> uncommitted d i = Some (mkWrites [stored_order o] its) ->
  prog_step (on_session i (in_tx (insert_rest []))) (d, u) p' w' ->
  lands i (Repo (CreateWithItems (Some o) its)) (d, u) (eq None) p' w'.
Proof.
  intros Hits Hp Hstep. apply statement_step in Hstep as (x & d' & Hs & -> & ->).
  destruct (commit_cases i o its d x d' Hits Hp Hs) as [Hspec Hkept]. cbn.
  apply (step_continues _ _ _ _ _ _ _ _ _ _ (eq (Some x))).
  - split; [exact Hkept|]. intros j Hij. by eapply private_law.
  - apply create_ends.
  - intros o' <-. exists None. split; [done|]. by apply took_effect.
Qed.

Lemma create_step i o its d u p T p' w' :
  call_ok (CreateWithItems (Some o) its) -> create_mid i o its d p T -> prog_step p (d, u) p' w' ->
  lands i (Repo (CreateWithItems (Some o) its)) (d, u) T p' w'.
Proof.
  intros [Hm Hits] [|Hp|pre post Hsplit Hp|x] Hstep.
  - apply statement_step in Hstep as (x & d' & Hs & -> & ->).
    destruct (tx_begin_law i d x d' Hs) as [Hrows Hx]. destruct x as [[]|e|why]; [| |done]; cbn.
    + eapply lands_on; [exact Hs|done|by apply create_begun].
    + eapply lands_return; [exact Hs|done|done|by apply write_spec_fail].
  - apply statement_step in Hstep as (x & d' & Hs & -> & ->).
    destruct (tx_order_law i o d x d' Hm Hs) as [Hrows Hx]. destruct x as [n|e|why]; [| |done].
    + destruct Hx as (p0 & Hp' & Hx). rewrite Hp in Hp'. injection Hp' as <-.
      eapply lands_on; [exact Hs|done|by apply (create_inserts i o its d' [] its)].
    + eapply (lands_answer _ _ _ _ _ _ _ _ _ _ (eq (Some (Err e)))); [exact Hs|done|by apply (create_ends i o its d' (Err e))|].
      intros y <-. eexists. split; [done|]. rewrite Hrows. by apply write_spec_fail.
  - subst its. destruct post as [|it post].
    + rewrite app_nil_r in Hits |- *. by apply (commit_step i o pre d u).
    + assert (item_of o it) as (Hid & Hu & Ht) by (rewrite Forall_app, Forall_cons in Hits; tauto).
      apply statement_step in Hstep as (x & d' & Hs & -> & ->).
      destruct (tx_item_law i it d x d' Hu Ht Hs) as [Hrows Hx]. destruct x as [n|e|why]; [| |done].
      * destruct Hx as (p0 & Hp' & Hx). rewrite Hp in Hp'. injection Hp' as <-.
        eapply lands_on; [exact Hs|done|apply (create_inserts i o _ d' (pre ++ [it]) post); [by rewrite <- app_assoc|done]].
      * eapply (lands_answer _ _ _ _ _ _ _ _ _ _ (eq (Some (Err e)))); [exact Hs|done|apply (create_ends i o _ d' (Err e))|].
        intros y <-. eexists. split; [done|]. rewrite Hrows. by apply write_spec_fail.
  - apply statement_step in Hstep as ([] & d' & Hs & -> & ->). pose proof (tx_rollback_law i d tt d' Hs) as Hrows. cbn.
    by eapply (lands_return _ _ _ _ _ _ _ _ _ _ _ (Some x)); [exact Hs|..].
Qed.
(** ** All methods *)
Lemma mid_calls i X (e : orderE X) x w T : ~ mid i X e (Ret x) w T.
Proof.
  destruct e as [X r| | | | | | | | | | | |]; try by intros [Heq _].
  destruct r as [[o|] its|id|id st|id st t|f]; cbn; try by intros [Heq _].
  - intros Hm. inversion Hm as [|? Heq|pre post ? ? Heq|]. by destruct post.
  - by intros [].
  - intros Hm. inversion Hm.
  - intros Hm. inversion Hm.
Qed.

Lemma mid_stands i X (e : orderE X) p w T : mid i X e p w T -> exists o, T o.
Proof.
  destruct e as [X r| | | | | | | | | | | |]; try by intros [_ ->]; eauto.
  destruct r as [[o|] its|id|id st|id st t|f]; cbn; try by intros [_ ->]; eauto.
  - intros [| | |x]; eauto.
  - by intros [].
  - intros [|o o' its Ho]; eauto.
  - intros [|total]; eauto.
Qed.

Lemma mid_starts i X (e : orderE X) w : sends e -> mid i X e (method i X e) w (eq None).
Proof.
  destruct e as [X r| | | | | | | | | | | |]; try by split.
  destruct r as [[o|] its|id|id st|id st t|f]; try done; intros _; constructor.
Qed.

Lemma port_step i X (e : orderE X) w p' w' :
  is_repo e = false -> prog_step (call (Port e)) w p' w' -> lands i e w (eq None) p' w'.
Proof.
  intros He (x & [Hs Hd] & ->). destruct w as [d u], w' as [d' u']. cbn in Hs, Hd. subst d'.
  apply (step_finishes _ _ _ _ _ _ _ _ _ _ None); [|done| |done|].
  - split; [apply kept_refl|done].
  - destruct e; try done. destruct x; [by eapply catalog_prices|done..].
  - destruct e; try done; by split.
Qed.

Lemma mid_step i X (e : orderE X) p w T p' w' :
  sends e -> mid i X e p w T -> prog_step p w p' w' -> lands i e w T p' w'.
Proof.
  destruct w as [d u]. intros He Hm Hstep. destruct (is_repo e) eqn:Hr.
  - destruct e as [X r| | | | | | | | | | | |]; try done.
    destruct r as [[o|] its|id|id st|id st t|f]; try done; cbn in Hm.
    + by eapply create_step.
    + by eapply find_step.
    + destruct Hm as [-> ->]. by eapply status_step.
    + destruct Hm as [-> ->]. by eapply processed_step.
    + by eapply list_step.
  - assert (p = call (Port e) /\ T = eq None) as [-> ->] by by destruct e. by apply port_step.
Qed.

Lemma mid_stable i j X (e : orderE X) p w T w' :
  i <> j -> guarantees i w w' -> mid j X e p w T -> mid j X e p w' T.
Proof.
  intros Hij [Hkept Hpriv]. destruct e as [X r| | | | | | | | | | | |]; try done.
  destruct r as [[o|] its|id|id st|id st t|f]; try done; cbn.
  - intros [|Hp|pre post Hsplit Hp|x]; econstructor; try done; rewrite Hpriv by done; done.
  - intros [|o o' its Ho]; [constructor|]. apply Hkept in Ho as [o2 Ho]. by econstructor.
Qed.

(** ** The theorems about the whole *)
Lemma sessions_results {A} (qs : list (prog orderE A)) w (results : list A) w' :
  Forall sends_all qs -> pool_steps (clients qs, w) (Ret <$> results, w') ->
  pool_steps (qs, state_view w) (Ret <$> results, state_view w').
Proof.
  intros Hqs. apply (atomic_results state_view method (@sends) (@receives) (fun _ _ => True) mid guarantees);
    eauto using mid_calls, mid_stands, mid_starts, mid_step, mid_stable.
Qed.

Lemma sessions_calls {A} (qs : list (prog orderE A)) w c :
  Forall sends_all qs -> pool_steps (clients qs, w) c ->
  exists qs', pool_steps (qs, state_view w) (qs', state_view c.2).
Proof.
  intros Hqs. apply (atomic_calls state_view method (@sends) (@receives) (fun _ _ => True) mid guarantees);
    eauto using mid_calls, mid_stands, mid_starts, mid_step, mid_stable.
Qed.

(** The specification is one of the worlds the order service is proved correct in. *)
#[export] Instance store_world : OrderWorld (store * U) := {
  ow_sem := store_sem;
  ow_store s := s.1;
  ow_issued s := drawn_ids s.2;
  ow_valid _ := True;
}.

Lemma stored_as_stored_call {X} (e : repoE X) : stored_as e (stored_call e).
Proof.
  destruct e as [[o|] its|id|id st|id st t|f]; cbn; eauto.
  exists (stored_order o), (by_id its). split_and!; [done..|]. unfold by_id. by rewrite merge_sort_Permutation.
Qed.

#[export] Instance store_world_laws : OrderWorldLaws (store * U).
Proof.
  constructor.
  - intros X e s x s' _ [Hspec Hs]. split; [|cbn; by rewrite Hs]. exists (stored_call e).
    split; [apply stored_as_stored_call|exact Hspec].
  - intros X e s x s' _ Hs Hr. assert (sem e s.2 x s'.2 /\ s'.1 = s.1) as [Hs2 Hst] by by destruct e.
    split; [exact Hst|]. by apply (drawn_mono X e s.2 x).
  - intros s u s' _ [Hs _]. by apply (drawn_fresh s.2 u s'.2).
  - done.
Qed.
End sessions.

(** ** A concrete database and concrete ports *)
Definition sound_tables : Type := { t : tables | ok_tables t = true }.

Record demo_db := mkDb { db_rows : sound_tables; db_tx : gmap nat writes }.

Definition db_tables (d : demo_db) : tables := proj1_sig (db_rows d).
Definition set_tx (i : nat) (p : writes) (d : demo_db) : demo_db := mkDb (db_rows d) (<[i := p]> (db_tx d)).
Definition end_tx (i : nat) (d : demo_db) : demo_db := mkDb (db_rows d) (delete i (db_tx d)).

(** Tables that break a constraint are refused. *)
Definition set_tables (t : tables) (d : demo_db) : option demo_db :=
  match decide (ok_tables t = true) with
  | left H => Some (mkDb (exist _ t H) (db_tx d))
  | right _ => None
  end.

Definition db_error : error := ErrNew "database error".

Definition insert_of (args : list sqlval) (p : writes) : option writes :=
  match args with
  | [VUuid id; VUuid customer; VText status; VText total; VUuid by_; VTime created; VTime updated] =>
      match ParseString total with
      | Ok m => Some (write_order (mkOrder id customer status m by_ (stored_time created) (stored_time updated) None) p)
      | _ => None
      end
  | [VUuid id; VUuid order_; VUuid product_; VInt q; VText unit_; VText total] =>
      match ParseString unit_, ParseString total with
      | Ok u, Ok m => Some (write_item (mkItem id order_ product_ q u m) p)
      | _, _ => None
      end
  | _ => None
  end.

#[export] Instance fresh_orders_dec os t : Decision (fresh_orders os t).
Proof. revert t. induction os as [|o os IH]; intros t; cbn; apply _. Defined.
#[export] Instance fresh_items_dec its t : Decision (fresh_items its t).
Proof. revert t. induction its as [|i its IH]; intros t; cbn; apply _. Defined.
#[export] Instance fits_dec p t : Decision (fits p t).
Proof. unfold fits. apply _. Defined.

Definition db_update (target : option tables) (d : demo_db) : res Z * demo_db :=
  match target with
  | Some t => match set_tables t d with Some d' => (Ok 1, d') | None => (Err db_error, d) end
  | None => (Ok 0, d)
  end.

(** The statements of session [i]; the listing is left out. *)
Definition demo_session (i : nat) (X : Type) (c : pgE X) (d : demo_db) : X * demo_db :=
  match c in pgE X return X * demo_db with
  | Begin => (Ok tt, set_tx i no_writes d)
  | TxExec sql args =>
      match db_tx d !! i ≫= insert_of args with Some p => (Ok 1, set_tx i p d) | None => (Err db_error, d) end
  | Commit =>
      match db_tx d !! i with
      | Some p => if decide (fits p (db_tables d))
                  then match set_tables (written p (db_tables d)) d with
                       | Some d' => (Ok tt, end_tx i d')
                       | None => (Err db_error, end_tx i d)
                       end
                  else (Err db_error, end_tx i d)
      | None => (Err db_error, d)
      end
  | Rollback => (tt, end_tx i d)
  | Exec sql args =>
      match args with
      | [VUuid id; VText st] => db_update (set_order id (status_update st 0) (db_tables d)) d
      | [VUuid id; VText st; VTime t] => db_update (set_order id (processed_update st (stored_time t)) (db_tables d)) d
      | _ => (Err db_error, d)
      end
  | QueryRow sql args =>
      match bool_decide (sql = orderColumns +:+ " WHERE id=$1"), args with
      | true, [VUuid id] => (match t_orders (db_tables d) !! id with
                             | Some o => Ok (order_row o)
                             | None => Err (ErrVar PgxErrNoRows)
                             end, d)
      | _, _ => (Err db_error, d)
      end
  | Query sql args =>
      match bool_decide (sql = selectItems), args with
      | true, [VUuid id] => (Ok (mkRows (item_args <$> items_of id (db_tables d)) None), d)
      | _, _ => (Err db_error, d)
      end
  end.

Definition demo_session_sem (i : nat) : Sem pgE demo_db := sem_of_handler (demo_session i).

Definition demo_ports (X : Type) (e : orderE X) (n : nat) : X * nat :=
  match e in orderE X return X * nat with
  | Repo r => (match r in repoE X return X with
               | CreateWithItems _ _ => Err db_error
               | FindByID _ => Err db_error
               | UpdateStatus _ _ => Err db_error
               | MarkProcessed _ _ _ => Err db_error
               | ListOrders _ => Err db_error
               end, n)
  | FindCustomer id => (Ok (mkCustomer id true), n)
  | FindProducts ids => (Ok ((fun id => mkProduct id (mkMoney 150) true) <$> ids), n)
  | PublishOrderCreated _ => (Ok tt, n)
  | LogPublishFailureAfterCommit _ _ => (tt, n)
  | IncOrdersCreated => (tt, n)
  | IncOrdersProcessed => (tt, n)
  | IncOrdersFailed => (tt, n)
  | RecordProcessingDuration _ => (tt, n)
  | ProcessLog _ _ _ => (tt, n)
  | Now => (0, n)
  | NewUUID => (N.of_nat (S n), S n)
  | ProcessPayment _ => (Ok tt, n)
  end.

Definition demo_ids (n : nat) : gset uuid := list_to_set (N.of_nat <$> seq 1 n).

#[export] Instance demo_ports_ok : Ports nat.
Proof.
  refine {| ports_sem := sem_of_handler demo_ports; drawn_ids := demo_ids |}.
  - intros X e n x n' Hs. assert (n <= n')%nat by (destruct e; cbn in Hs; injection Hs as _ <-; lia).
    unfold demo_ids. intros u. rewrite !elem_of_list_to_set, !list_elem_of_fmap. setoid_rewrite elem_of_seq.
    intros (k & -> & Hk). exists k. split; [done|lia].
  - intros n u n' Hs. injection Hs as <- <-. unfold demo_ids, uuid_Nil.
    rewrite !elem_of_list_to_set, !list_elem_of_fmap. setoid_rewrite elem_of_seq.
    split; [lia|]. split; [intros (k & Hk & Hlt); lia|]. exists (S n). split; [done|lia].
  - intros ids n l n' Hs. injection Hs as <- _. apply Forall_fmap, Forall_true. intros id. by apply in_int64b_spec.
Defined.

Lemma set_tables_rows t d d' : set_tables t d = Some d' -> db_tables d' = t /\ db_tx d' = db_tx d.
Proof. unfold set_tables. case_decide; [|done]. by intros [= <-]. Qed.

Lemma db_update_result target d x d' :
  db_update target d = (x, d') -> update_result target (db_tables d) x (db_tables d') /\ db_tx d' = db_tx d.
Proof.
  unfold db_update. destruct target as [t|]; [|by intros [= <- <-]].
  destruct (set_tables t d) as [d1|] eqn:Hd; intros [= <- <-].
  - by apply set_tables_rows in Hd as [-> ->].
  - split; [|done]. split; [done|by left].
Qed.

#[local] Ltac run_session H :=
  unfold demo_session_sem, sem, sem_of_handler, handle in H; cbn [demo_session] in H.

Definition demo_session_statements (i : nat) : OrderStatements (demo_session_sem i) db_tables.
Proof.
  constructor.
  - intros [[t Ht] tx]. by apply ok_tables_ok.
  - intros id d x d' Hs. run_session Hs. rewrite bool_decide_eq_true_2 in Hs by done. injection Hs as <- <-. split; [done|].
    destruct (t_orders (db_tables d) !! id) as [o|] eqn:Ho; [by exists o|done].
  - intros id d x d' Hs. run_session Hs. rewrite bool_decide_eq_true_2 in Hs by done. by injection Hs as <- <-.
  - intros id st d x d' [Hs _]%db_update_result. by exists 0.
  - by intros id st t d x d' [Hs _]%db_update_result.
  - intros where_ args d x d' Hs. run_session Hs. repeat case_match; by injection Hs as <- <-.
  - intros cs lim off d x d' Hs. run_session Hs.
    destruct (cs.*2) as [|v vs]; cbn [app] in Hs; repeat case_match; simplify_eq; try done.
    all: match goal with H : _ ++ _ = [] |- _ => by apply app_nil in H as [_ ?] end.
Defined.

Lemma demo_private i j X (c : pgE X) d x d' :
  i <> j -> demo_session_sem i X c d x d' -> db_tx d' !! j = db_tx d !! j.
Proof.
  intros Hij Hs. destruct c; run_session Hs; repeat case_match; simplify_eq; try done.
  all: repeat match goal with
       | H : db_update _ _ = _ |- _ => apply db_update_result in H as [_ ->]
       | H : set_tables _ _ = Some _ |- _ => apply set_tables_rows in H as [_ H]
       end; cbn; rewrite ?lookup_insert_ne, ?lookup_delete_ne by done; congruence.
Qed.

Definition demo_shared : SharedDatabase demo_db.
Proof.
  refine {| session := demo_session_sem; committed := db_tables; uncommitted d i := db_tx d !! i;
            session_statements := demo_session_statements; private_law := demo_private |}.
  - intros i d x d' Hs. run_session Hs. injection Hs as <- <-. split; [done|]. apply lookup_insert_eq.
  - intros i o d x d' Hm Hs. run_session Hs. destruct (db_tx d !! i) as [p|] eqn:Hp; [|by injection Hs as <- <-].
    cbn in Hs. rewrite ParseString_Decimal in Hs by done. injection Hs as <- <-. split; [done|]. exists p.
    split; [done|]. apply lookup_insert_eq.
  - intros i it d x d' Hu Ht Hs. run_session Hs. destruct (db_tx d !! i) as [p|] eqn:Hp; [|by injection Hs as <- <-].
    cbn in Hs. rewrite !ParseString_Decimal in Hs by done. injection Hs as <- <-. split; [done|]. exists p.
    split; [done|]. destruct it. apply lookup_insert_eq.
  - intros i d x d' Hs. run_session Hs. destruct (db_tx d !! i) as [p|] eqn:Hp.
    + case_decide as Hfits; [destruct (set_tables _ d) as [d1|] eqn:Hd|]; injection Hs as <- <-; cbv zeta.
      * apply set_tables_rows in Hd as [Hd _]. by exists p.
      * split; [done|by left].
      * split; [done|by left].
    + injection Hs as <- <-. split; [done|by left].
  - intros i d x d' Hs. run_session Hs. by injection Hs as _ <-.
Defined.

(** The whole system on it, as a function. *)
Definition demo_system : Handler sysE (demo_db * nat) := fun X e w =>
  match e in sysE X return X * (demo_db * nat) with
  | At i c => let '(x, d) := demo_session i _ c w.1 in (x, (d, w.2))
  | Port e => let '(x, n) := demo_ports _ e w.2 in (x, (w.1, n))
  end.

Lemma demo_system_sem X (e : sysE X) w x w' :
  let _ := demo_shared in handle (Handler := demo_system) e w = (x, w') -> sem e w x w'.
Proof.
  cbv zeta. unfold handle, demo_system. destruct w as [d n], e as [X i c|X e]; cbn [fst snd].
  - destruct (demo_session i X c d) as [y d'] eqn:Hs. intros [= <- <-]. by split.
  - destruct (demo_ports X e n) as [y n'] eqn:Hs. intros [= <- <-]. by split.
Qed.
Definition demo_empty : demo_db := mkDb (exist _ (mkTables ∅ ∅) empty_ok) ∅.

(** ** Properties *)

(** C5: the order repository over PostgreSQL is linearizable.  Any number of order
    requests and queue messages are served at the same time, each on its own session,
    and the single SQL statements of their transactions and queries interleave in any
    way.  Whenever all of them are done, their replies, the stored orders and the other
    ports are those of some interleaving in which every repository call took place at
    once, as its contract says, failures and lost acknowledgements of a commit
    included.  Of a listing, the page is the part of the contract that is kept; its total
    comes from another statement. *)
Theorem PostgresRepository_linearizable {D U : Type} `{!SharedDatabase D, !Ports U, !CaseTables}
    (rs : list request) (w w' : D * U) (replies : list reply) :
  pool_steps (clients (respond <$> rs), w) (Ret <$> replies, w') ->
  pool_steps (respond <$> rs, state_view w) (Ret <$> replies, state_view w').
Proof. apply sessions_results. apply Forall_fmap, Forall_true, sends_respond. Qed.

(** C6: the order invariants hold at the granularity of SQL statements: when order
    requests and queue messages are served concurrently over one PostgreSQL database,
    at every moment and under every interleaving of their statements the committed
    orders are well formed - each has its items, priced, and their total - their ids
    were drawn by the service, none of them was removed, and no order's items, total,
    customer, creator or creation time changed. *)
Theorem postgres_requests_keep_orders {D U : Type} `{!SharedDatabase D, !Ports U, !CaseTables}
    (rs : list request) (w : D * U) (ps : list (prog sysE unit)) (w' : D * U) :
  store_wf (view (committed w.1)) -> dom (view (committed w.1)) ⊆ drawn_ids w.2 ->
  pool_steps (clients (serve <$> rs), w) (ps, w') ->
  store_wf (view (committed w'.1)) /\ dom (view (committed w'.1)) ⊆ drawn_ids w'.2 /\
  lawful any_status (view (committed w.1)) (view (committed w'.1)).
Proof.
  intros Hwf Hdom Hsteps.
  destruct (sessions_calls (serve <$> rs) w (ps, w')) as [qs' Habs]; [|exact Hsteps|].
  - apply Forall_fmap, Forall_true, sends_serve.
  - destruct (serve_together rs (state_view w) (qs', state_view w')) as [(_ & Hwf' & Hdom') Hl]; [|exact Habs|].
    + by split.
    + by split.
Qed.

(** Order 1 is created while one client looks for it, and canceled while another one
    reads it. *)
Definition demo_requests : list request :=
  [RCreate 9 (mkOrderInput 100 [mkItemInput 200 3]); RFind 1; RCancel 1; RFind 1].

Definition demo_output (st : OrderStatus) : OrderOutput :=
  mkOrderOutput 1 100 st (mkMoney 450) [mkItemOutput 200 3 (mkMoney 150) (mkMoney 450)] 0.

Definition demo_replies : list reply :=
  [ReplyOrder (Ok (demo_output StatusCreated)); ReplyOrder (Err (NotFound "order not found"));
   ReplyOrder (Ok (demo_output StatusCanceled)); ReplyOrder (Ok (demo_output StatusCreated))].

(** The first search comes between the two inserts; the second one reads the row of the
    order before the cancellation and its items after it. *)
Definition demo_statements_order : list nat :=
  [0;0;0;0;0;0;0; 1; 0;0;0; 3; 2;2;2;2; 3; 0;0;0]%nat.

#[local] Existing Instances no_tables demo_shared.

Definition demo_run {A} (qs : list (prog orderE A)) : list (prog sysE A) * (demo_db * nat) :=
  run_schedule demo_system demo_statements_order (clients qs) (demo_empty, 0%nat).

Lemma demo_run_steps {A} (qs : list (prog orderE A)) :
  pool_steps (clients qs, (demo_empty, 0%nat)) ((demo_run qs).1, (demo_run qs).2).
Proof.
  rewrite <- surjective_pairing. apply (pool_steps_mono (sem_of_handler demo_system)); [|apply run_schedule_steps].
  intros X e w x w' Hs. by apply demo_system_sem.
Qed.

Lemma demo_empty_view : view (committed demo_empty) = ∅.
Proof. by apply map_eq. Qed.

Lemma PostgresRepository_linearizable_witness :
  let w' := (demo_run (respond <$> demo_requests)).2 in
  pool_steps (respond <$> demo_requests, state_view (demo_empty, 0%nat)) (Ret <$> demo_replies, state_view w').
Proof.
  cbv zeta. apply PostgresRepository_linearizable.
  pose proof (demo_run_steps (respond <$> demo_requests)) as H.
  assert (Hr : (demo_run (respond <$> demo_requests)).1 = Ret <$> demo_replies) by (vm_compute; reflexivity).
  rewrite Hr in H. exact H.
Defined.

Lemma postgres_requests_keep_orders_witness :
  let w' := (demo_run (serve <$> demo_requests)).2 in
  store_wf (view (committed w'.1)) /\ dom (view (committed w'.1)) ⊆ drawn_ids w'.2 /\
  lawful any_status (view (committed demo_empty)) (view (committed w'.1)) /\
  (fun en => (o_Status en.1, length en.2)) <$> view (committed w'.1) !! 1%N = Some (StatusCanceled, 1%nat).
Proof.
  cbv zeta.
  destruct (postgres_requests_keep_orders demo_requests (demo_empty, 0%nat) (demo_run (serve <$> demo_requests)).1
              (demo_run (serve <$> demo_requests)).2) as (H1 & H2 & H3).
  - cbn [fst]. rewrite demo_empty_view. apply map_Forall_empty.
  - cbn [fst]. by rewrite demo_empty_view, dom_empty_L.
  - apply demo_run_steps.
  - split; [exact H1|]. split; [exact H2|]. split; [exact H3|]. vm_compute. reflexivity.
Defined.
