(* ===== verification/Interchange.v ===== *)
(** Interchange: the two order repositories, in memory and over PostgreSQL, behind the
    order service: what a client sees of the one it may see of the other. *)
From S2P Require Import Prelude Errors Effects Atomic GoStrings Uuid Money Pagination Catalog OrderModel OrderRepo OrderService OrderLifecycle Postgres PgOrders PgSessions.

(** ** Alike states, calls and answers

    The columns keep microseconds and the items have no order; clocks of the two sides
    set different modification times, which no reply shows. *)
Definition entry_alike (en en' : Order * list OrderItem) : Prop :=
  same_order en.1 en'.1 /\ stored_time (o_CreatedAt en.1) = stored_time (o_CreatedAt en'.1) /\ en.2 ≡ₚ en'.2.

Definition stores_alike (m s : store) : Prop := forall id, option_Forall2 entry_alike (m !! id) (s !! id).

(** The payment processor is handed the order as it was loaded. *)
Definition order_alike (o o' : Order) : Prop :=
  same_order o o' /\ stored_time (o_CreatedAt o) = stored_time (o_CreatedAt o').

(** Listings are not compared: their sort and their date filters read the cut times. *)
Definition calls_alike {X} (e : orderE X) : orderE X -> Prop :=
  match e in orderE X return orderE X -> Prop with
  | ProcessPayment o => fun e' => exists o', e' = ProcessPayment o' /\ order_alike o o'
  | Repo r => fun e' => e' = Repo r /\
      match r with
      | CreateWithItems (Some o) its => its <> [] /\ Forall (fun i => i_OrderID i = o_ID o) its
      | CreateWithItems None _ => False
      | ListOrders _ => False
      | _ => True
      end
  | e => fun e' => e' = e
  end.

Definition answers_alike {X} (e : orderE X) : X -> X -> Prop :=
  match e in orderE X return X -> X -> Prop with
  | Repo r =>
      match r in repoE X return X -> X -> Prop with
      | FindByID _ => fun x x' =>
          match x, x' with Ok en, Ok en' => entry_alike en en' | Err er, Err er' => er = er' | _, _ => False end
      | _ => fun x x' => x = x'
      end
  | _ => fun x x' => x = x'
  end.

(** A repository call that failed: neither success nor "not found". *)
Definition failing {X} (e : orderE X) : X -> Prop :=
  match e in orderE X return X -> Prop with
  | Repo r => match r in repoE X return X -> Prop with
              | CreateWithItems _ _ => fun x => exists er, x = Err er /\ infra er
              | FindByID _ => fun x => exists er, x = Err er /\ infra er
              | UpdateStatus _ _ => fun x => exists er, x = Err er /\ infra er
              | MarkProcessed _ _ _ => fun x => exists er, x = Err er /\ infra er
              | ListOrders _ => fun _ => False
              end
  | _ => fun _ => False
  end.

(** ** Programs that cannot tell the two sides apart *)

(** Whatever is answered from here on, the result is one of [D]. *)
Definition doomed {A} (D : A -> Prop) (p : prog orderE A) : Prop :=
  conforms (stateless (fun _ _ => True) (fun _ _ _ => True)) tt p (fun _ a => D a).

(** [q] on the side of the database follows [p]: alike calls, and after alike answers
    the rest follows again; after a failed repository call it ends in [D]. *)
Inductive follows_alike {A} (D : A -> Prop) (Q : A -> A -> Prop) : prog orderE A -> prog orderE A -> Prop :=
| alike_ret a b : Q a b -> follows_alike D Q (Ret a) (Ret b)
| alike_vis X (e e' : orderE X) k k' :
    calls_alike e e' ->
    (forall x x', answers_alike e x x' -> follows_alike D Q (k x) (k' x')) ->
    (forall x, failing e x -> doomed D (k' x)) ->
    follows_alike D Q (Vis e k) (Vis e' k').

(** Inversion, by the shape of the second program. *)
Definition alike_shape {A} (D : A -> Prop) (Q : A -> A -> Prop) (p q : prog orderE A) : Prop :=
  match q with
  | Ret b => exists a, p = Ret a /\ Q a b
  | Vis e' k' => exists e k, p = Vis e k /\ calls_alike e e' /\
      (forall x x', answers_alike e x x' -> follows_alike D Q (k x) (k' x')) /\ (forall x, failing e x -> doomed D (k' x))
  end.

Lemma alike_inv {A} D Q (p q : prog orderE A) : follows_alike D Q p q -> alike_shape D Q p q.
Proof. intros [a b Hab|X e e' k k' He Hk Hf]; cbn; [by exists a|by exists e, k]. Qed.

Lemma doomed_bind {A B} (D : A -> Prop) (D' : B -> Prop) (p : prog orderE A) (f : A -> prog orderE B) :
  (forall a, D a -> doomed D' (f a)) -> doomed D p -> doomed D' (bind p f).
Proof. intros Hf Hp. apply conforms_bind. eapply conforms_mono; [|exact Hp]. intros []. apply Hf. Qed.

Lemma alike_bind {A B} D Q D' Q' (p q : prog orderE A) (f g : A -> prog orderE B) :
  follows_alike D Q p q -> (forall a b, Q a b -> follows_alike D' Q' (f a) (g b)) -> (forall a, D a -> doomed D' (g a)) ->
  follows_alike D' Q' (bind p f) (bind q g).
Proof.
  intros Hp Hf HD. induction Hp as [a b Hab|X e e' k k' He Hk IH Hfail]; cbn; [by apply Hf|].
  constructor; [exact He|intros x x' Hx; by apply IH|]. intros x Hx. eapply doomed_bind; [exact HD|by apply Hfail].
Qed.

(** A program that calls no repository and no processor follows itself. *)
Definition own_port {X} (e : orderE X) : Prop :=
  match e with Repo _ | ProcessPayment _ => False | _ => True end.

Lemma alike_ports {A} D (P : A -> Prop) (p : prog orderE A) :
  conforms (stateless (@own_port) (fun _ _ _ => True)) tt p (fun _ a => P a) ->
  follows_alike D (fun a b => a = b /\ P a) p p.
Proof.
  induction p as [a|X e k IH]; cbn; [by constructor|]. intros [He Hk].
  assert (Heq : forall x x', answers_alike e x x' -> x = x') by (destruct e; try done; destruct He).
  constructor; [by destruct e|intros x x' <-%Heq; by apply IH, Hk|by destruct e].
Qed.

(** ** What a client sees *)
Definition output_alike (a b : OrderOutput) : Prop :=
  oo_ID b = oo_ID a /\ oo_CustomerID b = oo_CustomerID a /\ oo_Status b = oo_Status a /\
  oo_TotalAmount b = oo_TotalAmount a /\ stored_time (oo_CreatedAt b) = stored_time (oo_CreatedAt a) /\
  oo_Items b ≡ₚ oo_Items a.

Definition res_alike {A} (R : A -> A -> Prop) (x y : res A) : Prop :=
  match x, y with
  | Ok a, Ok b => R a b
  | Err e, Err e' => e = e'
  | Panic why, Panic why' => why = why'
  | _, _ => False
  end.

(** The errors the service answers when a repository call failed. *)
Definition repository_failure (e : error) : Prop :=
  exists c, e = Internal "could not create order" c \/ e = Internal "could not load order for processing" c \/
            e = Internal "repository error" c.

Definition failed {A} (x : res A) : Prop := match x with Err e => repository_failure e | _ => False end.

Definition indistinct {A} (R : A -> A -> Prop) (p : prog orderE (res A)) : Prop :=
  follows_alike failed (res_alike R) p p.

Lemma entry_output en en' : entry_alike en en' -> output_alike (toOutput en.1 en.2) (toOutput en'.1 en'.2).
Proof.
  intros ((H1 & H2 & H3 & H4 & _) & Ht & Hp). unfold output_alike, toOutput. cbn. split_and!; try congruence.
  by rewrite Hp.
Qed.

Lemma mapped_failure e : infra e -> repository_failure (mapOrderRepoErr e).
Proof. intros He. unfold mapOrderRepoErr. rewrite He. exists e. auto. Qed.

(** One call on both sides: the obligations of [alike_vis], the alike answers
    destructed. *)
Ltac alike_call :=
  apply alike_vis;
  [ cbn; try done
  | let x := fresh "x" in let x' := fresh "x'" in let H := fresh "Hx" in
    intros x x' H; cbn in H; try subst x'
  | let x := fresh "x" in intros x; cbn; try done; intros (er & -> & Hinfra); cbn ].

Lemma indistinct_FindOrder id : indistinct output_alike (FindOrder id).
Proof.
  unfold indistinct, FindOrder. alike_call.
  - destruct x as [en|e|why], x' as [en'|e'|why']; try done; constructor; cbn; first [by apply entry_output|congruence].
  - by apply mapped_failure.
Qed.

Lemma indistinct_transition id to required msg : indistinct output_alike (transition id to required msg).
Proof.
  unfold indistinct, transition. alike_call; [|by apply mapped_failure].
  destruct x as [en|e|why], x' as [en'|e'|why']; try done; [|constructor; cbn; congruence]. cbn.
  pose proof Hx as ((H1 & H2 & Hst & H4 & H5) & Ht & Hp). rewrite Hst.
  destruct (negb (bool_decide (o_Status en.1 = required))); [by constructor|].
  destruct (negb (CanTransition (o_Status en.1) to)); [by constructor|].
  alike_call; [|by apply mapped_failure]. destruct x as [[]|e|why]; [|by constructor..]. cbn.
  alike_call. constructor. cbn. unfold output_alike, toOutput. cbn. split_and!; try congruence; by rewrite Hp.
Qed.

Lemma indistinct_Process id : indistinct eq (Process id).
Proof.
  unfold indistinct, Process. case_bool_decide; [alike_call; by constructor|]. alike_call.
  2: { rewrite Hinfra. cbn. exists er. auto. }
  destruct x as [[o its]|e|why], x' as [[o' its']|e'|why']; try done.
  2: { subst e'. destruct (errors_Is e OrderErrOrderNotFound); [alike_call|]; by constructor. }
  destruct Hx as (Hsame & Ht & Hp). pose proof Hsame as (H1 & H2 & Hst & H4 & H5). cbn in *. rewrite Hst.
  destruct (negb (bool_decide (o_Status o = StatusCreated))); [by constructor|].
  destruct (negb (CanTransition (o_Status o) StatusProcessing)); [by constructor|]. unfold pay.
  alike_call; [|by apply mapped_failure]. destruct x as [[]|e|why]; [|by constructor..]. cbn.
  alike_call. cbn. alike_call; [by exists o'|]. cbn. alike_call. cbn.
  destruct x0 as [[]|e|why]; [| |by constructor].
  - unfold finish_paid. alike_call. cbn. alike_call; [|by apply mapped_failure].
    destruct x2 as [[]|e|why]; [|by constructor..]. cbn. alike_call. cbn. alike_call. by constructor.
  - unfold finish_failed. alike_call. cbn. alike_call; [|by apply mapped_failure].
    destruct x2 as [[]|e'|why]; [|by constructor..]. cbn. alike_call. cbn. alike_call. by constructor.
Qed.

(** The lines of a new order are its own. *)
Definition own_lines (orderID : uuid) (n : nat) (acc : list Money * list OrderItem) : Prop :=
  length acc.2 = n /\ Forall (fun i => i_OrderID i = orderID) acc.2.

Lemma pricing_ports loaded orderID lines :
  conforms (stateless (@own_port) (fun _ _ _ => True)) tt (for_res (price_line loaded orderID) lines ([], []))
    (fun _ x => match x with Ok acc => own_lines orderID (length lines) acc | _ => True end).
Proof.
  apply (conforms_for_res _ (fun pre _ acc => own_lines orderID (length pre) acc)); [|done|done].
  intros pre line post [] acc _ [Hlen Hown]. unfold price_line. destruct (loaded !! ii_ProductID line) as [p|]; [|done].
  destruct (p_Active p); [|done]. cbn. split; [done|]. intros u _. split; cbn.
  - rewrite !length_app, Hlen. done.
  - apply Forall_app. by split; [|constructor].
Qed.

Lemma output_refl o its : output_alike (toOutput o its) (toOutput o its).
Proof. done. Qed.

Lemma indistinct_persist o its :
  its <> [] -> Forall (fun i => i_OrderID i = o_ID o) its -> indistinct output_alike (persist_and_publish o its).
Proof.
  intros Hne Hown. unfold indistinct, persist_and_publish. alike_call; [|exists er; auto].
  destruct x as [[]|e|why]; [|by constructor..]. cbn. alike_call. destruct x as [[]|e|why]; [| |by constructor].
  - cbn. alike_call. by constructor.
  - cbn. alike_call. by constructor.
Qed.

Lemma indistinct_Create createdBy input : indistinct output_alike (Create createdBy input).
Proof.
  unfold indistinct, Create. destruct (validate_input input) eqn:Hv; [by constructor|].
  apply validate_input_None in Hv as (_ & Hne & _). alike_call.
  destruct x as [c|e|why]; [|by constructor..]. destruct (negb (c_Active c)); [by constructor|].
  alike_call. destruct x as [loaded|e|why]; [|by constructor..]. cbv zeta. cbn. alike_call. cbn. alike_call.
  unfold bind_res.
  apply (alike_bind (fun _ => False) (fun a b => a = b /\ match a with Ok acc => own_lines x0 (length (in_Items input)) acc | _ => True end));
    [apply alike_ports, pricing_ports| |done].
  intros y y' [<- Hy]. destruct y as [acc|e|why]; [|by constructor..]. destruct Hy as [Hlen Hown].
  apply indistinct_persist; [|exact Hown]. intros Hnil. rewrite Hnil in Hlen. by destruct (in_Items input).
Qed.

(** ** The two sides *)
Section sides.
Context {U : Type} `{!Ports U, !UuidText}.

(** The in-memory repository, at any reading of the clock, and the other ports. *)
Definition memory_sem : Sem orderE (InMemoryRepository * U) := fun X e w x w' =>
  match e in orderE X return orderE X -> X -> Prop with
  | Repo r => fun _ x => (exists now, mem_handle r now w.1 = (x, w'.1)) /\ w'.2 = w.2
  | _ => fun e x => sem e w.2 x w'.2 /\ w'.1 = w.1
  end e x.
#[local] Existing Instance memory_sem.

(** The answer of the payment processor depends on the order only up to what the
    columns keep. *)
Definition fair_payments : Prop := forall o o' u x u',
  order_alike o o' -> sem (ProcessPayment o') u x u' -> sem (ProcessPayment o) u x u'.

Definition sides_alike (m : InMemoryRepository * U) (s : store * U) : Prop :=
  stores_alike (mem_store m.1) s.1 /\ m.2 = s.2.

Lemma stores_insert (m s : store) id en en' :
  stores_alike m s -> entry_alike en en' -> stores_alike (<[id := en]> m) (<[id := en']> s).
Proof.
  intros Hs Hen j. destruct (decide (id = j)) as [<-|Hne]; [rewrite !lookup_insert_eq; by constructor|].
  rewrite !lookup_insert_ne by done. apply Hs.
Qed.

(** The row a write addresses is there on both sides, or on neither. *)
Lemma alike_lookup m s id :
  stores_alike m s ->
  (exists en en', m !! id = Some en /\ s !! id = Some en' /\ entry_alike en en') \/ (m !! id = None /\ s !! id = None).
Proof. intros Hs. destruct (Hs id) as [en en' Hen|]; [left; eauto|by right]. Qed.

(** A write that did not fail is the same write in memory. *)
Lemma write_alike r s id f g x s' :
  stores_alike (mem_store r) s -> (forall o o', order_alike o o' -> order_alike (f o) (g o')) ->
  write_spec s (store_update id g s) true x s' ->
  (exists er, x = Err er /\ infra er) \/
  exists r', match orders r !! id with
             | None => (Err ErrOrderNotFound, r)
             | Some o => (Ok tt, mem_set_order id (f o) r)
             end = (x, r') /\ stores_alike (mem_store r') s'.
Proof.
  intros Hs Hfg Hw. pose proof (mem_store_lookup r id) as Hl.
  destruct (alike_lookup _ _ id Hs) as [([o its] & [o' its'] & Hm & Ho' & Hsame & Ht & Hp)|[Hm Hn]].
  - rewrite Hm in Hl. destruct (orders r !! id) as [o1|]; [|done]. injection Hl as <- ->.
    unfold store_update in Hw. rewrite Ho' in Hw. destruct Hw as [(e & -> & He & _)|[[-> [= <-]]|(_ & _ & [=] & _)]]; [by left; eauto|].
    right. eexists. split; [reflexivity|]. rewrite (mem_store_set_order r id (f o) _ Hm). apply stores_insert; [done|].
    destruct (Hfg o o') as [Hsame' Ht']; [by split|]. by split_and!.
  - rewrite Hm in Hl. destruct (orders r !! id); [done|]. unfold store_update in Hw. rewrite Hn in Hw.
    destruct Hw as [(e & -> & He & _)|[[_ [=]]|(_ & -> & _ & ->)]]; [by left; eauto|right; by eexists].
Qed.

Lemma repo_alike {X} (r : repoE X) m s x' s' :
  stores_alike (mem_store m) s -> calls_alike (Repo r) (Repo r) -> repo_spec (stored_call r) s x' s' ->
  failing (Repo r) x' \/
  exists x m' now, mem_handle r now m = (x, m') /\ answers_alike (Repo r) x x' /\ stores_alike (mem_store m') s'.
Proof.
  intros Hs [_ Hok] Hspec. destruct r as [[o|] its|id|id st|id st t|f]; try done; cbn in Hspec |- *.
  - destruct Hok as [Hne Hown]. unfold mem_CreateWithItems. rewrite bool_decide_eq_false_2 by done.
    assert (forallb (fun i => bool_decide (i_OrderID i = o_ID o)) its = true) as ->.
    { apply forallb_forall. intros i Hi%list_elem_of_In. rewrite Forall_forall in Hown. by apply bool_decide_eq_true, Hown. }
    destruct Hspec as [(e & -> & He & _)|[[-> [= <-]]|([=] & _)]]; [by left; eauto|right].
    eexists _, _, 0. split; [reflexivity|]. split; [done|]. rewrite mem_store_create. apply stores_insert; [done|].
    unfold entry_alike, stored_order; cbn. split_and!; [done| |unfold by_id; by rewrite merge_sort_Permutation].
    unfold stored_time. by rewrite Z.div_mul.
  - destruct Hspec as [-> Hx]. unfold mem_FindByID.
    destruct (alike_lookup _ _ id Hs) as [(en & en' & Hm & Hs' & Hen)|[Hm Hn]]; rewrite mem_store_lookup in Hm;
      destruct (orders m !! id) as [o|]; try done.
    + injection Hm as <-. destruct Hx as [(en2 & Hen2 & ->)|[[Hn _]|(er & He & ->)]]; [|congruence|by left; eauto].
      right. eexists _, m, 0. split; [reflexivity|]. split; [|done]. cbn. congruence.
    + destruct Hx as [(en2 & Hen2 & _)|[[_ ->]|(er & He & ->)]]; [congruence| |by left; eauto].
      right. by eexists _, m, 0.
  - destruct Hspec as [t Hw].
    destruct (write_alike m s id (status_update st 0) (status_update st t) x' s' Hs) as [Hf|(m' & Hm & Hm')]; [|exact Hw|by left|].
    { intros o o' [(H1 & H2 & H3 & H4 & H5) H6]. by split. }
    right. exists x', m', 0. by split; [exact Hm|].
  - destruct (write_alike m s id (processed_update st t) (processed_update st (stored_time t)) x' s' Hs) as [Hf|(m' & Hm & Hm')];
      [|exact Hspec|by left|].
    { intros o o' [(H1 & H2 & H3 & H4 & H5) H6]. by split. }
    right. exists x', m', 0. by split; [exact Hm|].
Qed.

(** One call on the side of the database: it failed, or memory can answer alike. *)
Lemma call_step {X} (e e' : orderE X) m s u x' s' u' :
  fair_payments -> calls_alike e e' -> stores_alike (mem_store m) s -> store_sem X e' (s, u) x' (s', u') ->
  failing e x' \/
  exists x m', memory_sem X e (m, u) x (m', u') /\ answers_alike e x x' /\ stores_alike (mem_store m') s'.
Proof.
  intros Hpay He Hs Hsem. destruct e.
  1: { pose proof He as [-> Hok]. destruct Hsem as [Hspec Hu]. cbn in Hspec, Hu.
       destruct (repo_alike e m s x' s' Hs He Hspec) as [Hf|(x & m' & now & Hm & Hx & Hs')]; [by left|right].
       exists x, m'. split; [|by split]. split; [by exists now|exact Hu]. }
  12: { destruct He as (o' & -> & Ho). destruct Hsem as [Hport Hst]. cbn in Hport, Hst. right. exists x', m.
        split; [split; [by eapply Hpay|done]|]. by rewrite Hst. }
  all: cbn in He; subst e'; destruct Hsem as [Hport Hst]; cbn in Hport, Hst; right; exists x', m;
    (split; [by split|]; by rewrite Hst).
Qed.

Lemma doomed_stays {A} (D : A -> Prop) c c' :
  @pool_steps _ _ store_sem A c c' -> Exists (doomed D) c.1 -> Exists (doomed D) c'.1.
Proof.
  intros Hsteps. induction Hsteps as [|c1 c2 c3 Hstep _ IH]; [done|]. intros Hd. apply IH. clear IH.
  destruct Hstep as [ts w i p p' w' Hi Hp]. cbn in *. destruct p as [a|X e k]; [done|]. destruct Hp as (x & _ & ->).
  apply Exists_exists in Hd as (q & Hq & Hd). apply list_elem_of_lookup in Hq as [j Hj]. apply Exists_exists.
  destruct (decide (i = j)) as [<-|Hne].
  - rewrite Hi in Hj. injection Hj as <-. exists (k x). split; [|by apply Hd].
    apply list_elem_of_lookup. exists i. apply list_lookup_insert_eq. by eapply lookup_lt_Some.
  - exists q. split; [|exact Hd]. apply list_elem_of_lookup. exists j. by rewrite list_lookup_insert_ne.
Qed.

(** Call by call, the in-memory side follows the other one, until a call fails. *)
Lemma pool_alike {A} (D : A -> Prop) Q c c' qs m :
  fair_payments -> @pool_steps _ _ store_sem A c c' ->
  Forall2 (follows_alike D Q) qs c.1 -> stores_alike (mem_store m) c.2.1 ->
  Exists (doomed D) c'.1 \/
  exists qs' m', @pool_steps _ _ memory_sem A (qs, (m, c.2.2)) (qs', (m', c'.2.2)) /\
    Forall2 (follows_alike D Q) qs' c'.1 /\ stores_alike (mem_store m') c'.2.1.
Proof.
  intros Hpay Hsteps. revert qs m. induction Hsteps as [c|c1 c2 c3 Hstep Hrest IH]; intros qs m Hqs Hm.
  { right. exists qs, m. split; [constructor|by split]. }
  destruct Hstep as [ts [s u] i p p' [s' u'] Hi Hp]. cbn in *. destruct p as [a|X e' k']; [done|]. destruct Hp as (x' & Hsem & ->).
  destruct (Forall2_lookup_r _ _ _ _ _ Hqs Hi) as (q & Hq & Hal).
  apply alike_inv in Hal as (e & k & -> & He & Hk & Hf).
  destruct (call_step e e' m s u x' s' u' Hpay He Hm Hsem) as [Hfail|(x & m1 & Hmem & Hx & Hm1)].
  - left. eapply (doomed_stays D _ c3 Hrest). cbn. apply Exists_exists. exists (k' x'). split; [|by apply Hf].
    apply list_elem_of_lookup. exists i. apply list_lookup_insert_eq. by eapply lookup_lt_Some.
  - destruct (IH (<[i := k x]> qs) m1) as [Hd|(qs' & m' & Hrun & Hqs' & Hm')].
    + apply Forall2_insert; [done|]. by apply Hk.
    + exact Hm1.
    + by left.
    + right. exists qs', m'. split; [|by split]. eapply rtc_l; [|exact Hrun].
      eapply (@pool_call _ _ memory_sem A qs (m, u) i (Vis e k)); [exact Hq|]. by exists x.
Qed.
End sides.

(** ** Replies *)
Definition reply_alike (a b : reply) : Prop :=
  match a, b with
  | ReplyOrder x, ReplyOrder y => res_alike output_alike x y
  | ReplyDone x, ReplyDone y => x = y
  | _, _ => False
  end.

(** The service answered that a repository call failed. *)
Definition failed_reply (r : reply) : Prop :=
  match r with ReplyOrder x => failed x | ReplyDone x => failed x | ReplyPage x => failed x end.

Definition no_listing (r : request) : Prop := match r with RList _ => False | _ => True end.

Lemma respond_alike r : no_listing r -> follows_alike failed_reply reply_alike (respond r) (respond r).
Proof.
  intros Hr. assert (Horder : forall p : prog orderE (res OrderOutput), indistinct output_alike p ->
    follows_alike failed_reply reply_alike (reply_with ReplyOrder p) (reply_with ReplyOrder p)).
  { intros p Hp. eapply alike_bind; [exact Hp|intros a b Hab; by constructor|by intros a Ha]. }
  destruct r; cbn [respond]; [apply Horder, indistinct_Create| |apply Horder, indistinct_transition..|apply Horder, indistinct_FindOrder|done].
  eapply alike_bind; [apply indistinct_Process| |by intros a Ha].
  intros a b Hab. constructor. cbn. destruct a, b; cbn in Hab; congruence || done.
Qed.

(** ** Properties *)

(** C24: the two order repositories are interchangeable.  Any number of requests that
    create, process, cancel, ship or read orders are served over PostgreSQL, the SQL
    statements of their sessions interleaved in any way.  If they are all answered, and
    none with the error of a failed repository call, then over the in-memory repository,
    with the same orders at the start and the same other ports, there is an interleaving
    of the same requests that gives each of them the same reply - the same document or
    the same error, up to the order of the items and the digits after the microsecond of
    [created_at] - and leaves the same orders.  The payment processor may read of an order
    only what its columns keep, and listings are not compared. *)
Theorem repositories_interchangeable {D U : Type} `{!SharedDatabase D, !Ports U, !CaseTables, !UuidText}
    (rs : list request) (w w' : D * U) (replies : list reply) (m : InMemoryRepository) :
  fair_payments -> Forall no_listing rs -> stores_alike (mem_store m) (view (committed w.1)) ->
  pool_steps (clients (respond <$> rs), w) (Ret <$> replies, w') ->
  Forall (fun r => ~ failed_reply r) replies ->
  exists replies' m',
    @pool_steps _ _ memory_sem _ (respond <$> rs, (m, w.2)) (Ret <$> replies', (m', w'.2)) /\
    Forall2 reply_alike replies' replies /\ stores_alike (mem_store m') (view (committed w'.1)).
Proof.
  intros Hpay Hrs Hm Hsteps Hok.
  assert (Habs : pool_steps (respond <$> rs, state_view w) (Ret <$> replies, state_view w')).
  { eapply sessions_results; [|exact Hsteps]. apply Forall_fmap, Forall_true, sends_respond. }
  destruct (pool_alike failed_reply reply_alike _ _ (respond <$> rs) m Hpay Habs) as [Hd|(qs & m' & Hrun & Hqs & Hm')].
  - cbn. clear Hsteps Habs. induction Hrs; constructor; [by apply respond_alike|done].
  - exact Hm.
  - exfalso. cbn in Hd. apply Exists_exists in Hd as (q & (r & -> & Hr)%list_elem_of_fmap & Hd).
    rewrite Forall_forall in Hok. by apply (Hok r Hr).
  - assert (Hdone : exists replies', qs = Ret <$> replies' /\ Forall2 reply_alike replies' replies).
    { clear -Hqs. cbn in Hqs. revert qs Hqs. induction replies as [|r replies IH]; intros qs Hqs; cbn in Hqs.
      - apply Forall2_nil_inv_r in Hqs as ->. by exists [].
      - apply Forall2_cons_inv_r in Hqs as (q & qs' & Hq & Hqs' & ->). destruct (IH _ Hqs') as (rs' & -> & Hrs').
        apply alike_inv in Hq as (a & -> & Ha). exists (a :: rs'). by split; [|constructor]. }
    destruct Hdone as (replies' & -> & Hreplies). by exists replies', m'.
Qed.

#[local] Existing Instances no_tables bit_text demo_shared.

(** The four clients of PgSessions: a creation, a cancellation and two searches. *)
Lemma repositories_interchangeable_witness :
  let w' := (demo_run (respond <$> demo_requests)).2 in
  exists replies' m',
    @pool_steps _ _ memory_sem _ (respond <$> demo_requests, (NewInMemoryRepository, 0%nat))
      (Ret <$> replies', (m', w'.2)) /\
    Forall2 reply_alike replies' demo_replies /\ stores_alike (mem_store m') (view (committed w'.1)).
Proof.
  cbv zeta. apply (repositories_interchangeable demo_requests (demo_empty, 0%nat)).
  - intros o o' u x u' _ Hs. exact Hs.
  - repeat constructor.
  - cbn [fst]. rewrite demo_empty_view. intros id. unfold mem_store. cbn. rewrite map_lookup_imap, !lookup_empty. constructor.
  - pose proof (demo_run_steps (respond <$> demo_requests)) as H.
    assert (Hr : (demo_run (respond <$> demo_requests)).1 = Ret <$> demo_replies) by (vm_compute; reflexivity).
    rewrite Hr in H. exact H.
  - repeat constructor; cbn; try tauto. intros (c & [H|[H|H]]); discriminate H.
Defined.
