(* ===== verification/PgCatalog.v ===== *)
(** PgCatalog: the PostgreSQL adapters of the customer and product packages, over the
    unique keys of their tables: what the in-memory adapters only guarantee for requests
    served one after the other holds for any interleaving of SQL statements. *)
From S2P Require Import Prelude Errors Effects Atomic GoStrings Uuid Money Pagination Catalog Customer Product Schema Postgres PgPages PgOrders.

(** ** A table with a primary key and a unique text key *)
Section table.
Context {A : Type} (ident : A -> uuid) (key : A -> string) (row : A -> bool) (fails : error -> Prop).
Implicit Types (m : gmap uuid A).

(** A row is kept under its id and has types and checks of its columns. *)
Definition typed_rows m : Prop := map_Forall (fun i a => ident a = i /\ row a = true) m.

(** An INSERT of one row: it takes effect only on a free id, and the unique index
    refuses a key that another row has; one that fails may have taken effect. *)
Definition insert_result {T} (a : A) m (x : res T) m' : Prop :=
  let inserted := m !! ident a = None /\ free_for key (ident a) (key a) m /\ m' = <[ident a := a]> m in
  match x with
  | Ok _ => inserted
  | Err e => fails e /\ (m' = m \/ inserted)
  | Panic _ => False
  end.

(** An UPDATE by primary key of a row that meets [admits] after it. *)
Definition row_update (admits : A -> Prop) (id : uuid) (f : A -> A) m (x : res Z) m' : Prop :=
  match x with
  | Ok n => match m !! id with
            | Some a => n = 1 /\ admits (f a) /\ m' = <[id := f a]> m
            | None => n = 0 /\ m' = m
            end
  | Err e => fails e /\ (m' = m \/ exists a, m !! id = Some a /\ admits (f a) /\ m' = <[id := f a]> m)
  | Panic _ => False
  end.

(** What the unique index admits: a key no other row has. *)
Definition index_admits (id : uuid) m (a : A) : Prop := free_for key id (key a) m.

(** A SELECT of the row a predicate names, at most one. *)
Definition row_found (P : A -> Prop) (cells : A -> list sqlval) m (x : res (list sqlval)) : Prop :=
  match x with
  | Ok r => exists i a, m !! i = Some a /\ P a /\ r = cells a
  | Err e => if errors_Is e PgxErrNoRows then forall i a, m !! i = Some a -> ~ P a else fails e
  | Panic _ => False
  end.

(** A change of the table that keeps its rows: what no statement of the adapters
    breaks. *)
Context (created : A -> time) (active : A -> bool).

Definition preserved m m' : Prop :=
  forall i a, m !! i = Some a -> exists b, m' !! i = Some b /\ created b = created a /\
    (active a = false -> active b = false).

#[export] Instance preserved_preorder : PreOrder preserved.
Proof.
  split; [by intros m i a Ha; eauto|]. intros m1 m2 m3 H12 H23 i a Ha.
  destruct (H12 _ _ Ha) as (b & Hb & Hcb & Hab), (H23 _ _ Hb) as (c & Hc & Hcc & Hac).
  exists c. split; [done|]. split; [congruence|auto].
Qed.

Lemma preserved_insert {T} a m (x : res T) m' : insert_result a m x m' -> preserved m m'.
Proof.
  assert (Hins : m !! ident a = None /\ free_for key (ident a) (key a) m /\ m' = <[ident a := a]> m -> preserved m m').
  { intros (Hn & _ & ->) i b Hb. exists b. by rewrite lookup_insert_ne by congruence. }
  destruct x as [n|e|why]; [exact Hins| |done]. intros [_ [->|Hi]]; [reflexivity|by apply Hins].
Qed.

Lemma preserved_update admits id f m x m' :
  (forall a, created (f a) = created a /\ (active a = false -> active (f a) = false)) ->
  row_update admits id f m x m' -> preserved m m'.
Proof.
  intros Hf. assert (Hset : forall a, m !! id = Some a -> preserved m (<[id := f a]> m)).
  { intros a Ha i b Hb. destruct (decide (id = i)) as [<-|Hne].
    - rewrite Ha in Hb. injection Hb as <-. exists (f a). rewrite lookup_insert_eq. by destruct (Hf a).
    - exists b. by rewrite lookup_insert_ne. }
  destruct x as [n|e|why]; [| |done].
  - cbn. destruct (m !! id) as [a|]; [|by intros [_ ->]]. intros (_ & _ & ->). by apply Hset.
  - intros [_ [->|(a & Ha & _ & ->)]]; [reflexivity|by apply Hset].
Qed.

(** A predicate every row meets. *)
Lemma insert_forall {T} (P : A -> Prop) a m (x : res T) m' :
  P a -> insert_result a m x m' -> map_Forall (fun _ => P) m -> map_Forall (fun _ => P) m'.
Proof.
  intros Ha Hx Hm. assert (Hins : m !! ident a = None /\ free_for key (ident a) (key a) m /\ m' = <[ident a := a]> m ->
                                map_Forall (fun _ => P) m').
  { intros (_ & _ & ->). by apply map_Forall_insert_2. }
  destruct x as [n|e|why]; [by apply Hins| |done]. destruct Hx as [_ [->|Hi]]; [done|by apply Hins].
Qed.

Lemma update_forall (P : A -> Prop) admits id f m x m' :
  (forall a, P a -> P (f a)) -> row_update admits id f m x m' -> map_Forall (fun _ => P) m -> map_Forall (fun _ => P) m'.
Proof.
  intros Hf Hx Hm. assert (Hset : forall a, m !! id = Some a -> map_Forall (fun _ => P) (<[id := f a]> m)).
  { intros a Ha. apply map_Forall_insert_2; [|done]. by eapply Hf, Hm. }
  destruct x as [n|e|why]; [| |done].
  - cbn in Hx. destruct (m !! id) as [a|]; [destruct Hx as (_ & _ & ->); by apply Hset|by destruct Hx as [_ ->]].
  - destruct Hx as [_ [->|(a & Ha & _ & ->)]]; [done|by apply Hset].
Qed.

(** No two rows have one key, because the index admits no such row. *)
Lemma insert_unique {T} a m (x : res T) m' : insert_result a m x m' -> unique_by key m -> unique_by key m'.
Proof.
  intros Hx Hm. assert (Hins : m !! ident a = None /\ free_for key (ident a) (key a) m /\ m' = <[ident a := a]> m ->
                                unique_by key m').
  { intros (_ & Hf & ->). by apply unique_by_insert. }
  destruct x as [n|e|why]; [by apply Hins| |done]. destruct Hx as [_ [->|Hi]]; [done|by apply Hins].
Qed.

Lemma update_unique (admits : A -> Prop) id f m x m' :
  (forall a, m !! id = Some a -> admits (f a) -> index_admits id m (f a)) ->
  row_update admits id f m x m' -> unique_by key m -> unique_by key m'.
Proof.
  intros Hadm Hx Hm. assert (Hset : forall a, m !! id = Some a -> admits (f a) -> unique_by key (<[id := f a]> m)).
  { intros a Ha Hfa. apply unique_by_insert; [done|]. by apply (Hadm a). }
  destruct x as [n|e|why]; [| |done].
  - cbn in Hx. destruct (m !! id) as [a|]; [destruct Hx as (_ & Hfa & ->); by apply Hset|by destruct Hx as [_ ->]].
  - destruct Hx as [_ [->|(a & Ha & Hfa & ->)]]; [done|by apply Hset].
Qed.

(** A row that keeps its key is admitted. *)
Lemma same_key_admitted id m a b :
  unique_by key m -> m !! id = Some a -> key b = key a -> index_admits id m b.
Proof. intros Hm Ha Hk j c Hc Hkc. eapply Hm; [exact Hc|exact Ha|congruence]. Qed.

Lemma unique_insert_free id m a : unique_by key (<[id := a]> m) -> free_for key id (key a) m.
Proof.
  intros Hm j b Hb Hk. destruct (decide (j = id)) as [->|Hne]; [done|].
  apply (Hm j id b a); [by rewrite lookup_insert_ne|apply lookup_insert_eq|done].
Qed.
End table.

(** ** What the ports promise

    The contract of an adapter on the table [m], for the arguments as the columns keep
    them.  Errors that are not the package's own "not found" are arbitrary. *)
Section contract.
Context {A : Type} (ident : A -> uuid) (fails : error -> Prop) (notFound : error).
Implicit Types (m : gmap uuid A).

Definition row_written (admits : A -> Prop) (id : uuid) (f : A -> A) m (x : res unit) m' : Prop :=
  match x with
  | Ok _ => exists a, m !! id = Some a /\ admits (f a) /\ m' = <[id := f a]> m
  | Err e => (e = notFound /\ m !! id = None /\ m' = m) \/
             (fails e /\ (m' = m \/ exists a, m !! id = Some a /\ admits (f a) /\ m' = <[id := f a]> m))
  | Panic _ => False
  end.

Definition row_answer (P : A -> Prop) m (x : res A) m' : Prop :=
  m' = m /\
  match x with
  | Ok a => (exists i, m !! i = Some a) /\ P a
  | Err e => (e = notFound /\ forall i a, m !! i = Some a -> ~ P a) \/ fails e
  | Panic _ => False
  end.

(** A page of a listing: stored records that match and, when the arithmetic of the page
    stays in range, exactly the window of all of them. *)
Definition page_answer (created : A -> time) (keep : A -> bool) (page pageSize : Z) m (x : res (Page A)) m' : Prop :=
  m' = m /\
  match x with
  | Ok p => Forall (fun a => m !! ident a = Some a /\ keep a = true) (pg_Items p) /\
            (page_in_range page pageSize -> table_page ident created keep page pageSize m (pg_Items p))
  | _ => True
  end.
End contract.

(** ** The two tables *)
Definition stored_customer (c : customer.Customer) : customer.Customer :=
  customer.mkCustomer (customer.ID c) (customer.Name c) (customer.Document c) (customer.Email c) (customer.Phone c)
    (customer.Active c) (stored_time (customer.CreatedAt c)) (stored_time (customer.UpdatedAt c)).

Definition stored_product (p : product.Product) : product.Product :=
  product.mkProduct (product.ID p) (product.Name p) (product.SKU p) (product.Price p)
    (product.Active p) (stored_time (product.CreatedAt p)) (stored_time (product.UpdatedAt p)).

(** The columns the UPDATE statements name; the others keep their values. *)
Definition overwrite_customer (c old : customer.Customer) : customer.Customer :=
  customer.mkCustomer (customer.ID old) (customer.Name c) (customer.Document c) (customer.Email c) (customer.Phone c)
    (customer.Active old) (customer.CreatedAt old) (stored_time (customer.UpdatedAt c)).

Definition overwrite_product (p old : product.Product) : product.Product :=
  product.mkProduct (product.ID old) (product.Name p) (product.SKU p) (product.Price p)
    (product.Active old) (product.CreatedAt old) (stored_time (product.UpdatedAt p)).

Definition deactivate_customer (now : time) (old : customer.Customer) : customer.Customer :=
  customer.mkCustomer (customer.ID old) (customer.Name old) (customer.Document old) (customer.Email old)
    (customer.Phone old) false (customer.CreatedAt old) now.

Definition deactivate_product (now : time) (old : product.Product) : product.Product :=
  product.mkProduct (product.ID old) (product.Name old) (product.SKU old) (product.Price old)
    false (product.CreatedAt old) now.

Definition customer_fails (e : error) : Prop := errors_Is e CustomerErrNotFound = false.
Definition product_fails (e : error) : Prop := errors_Is e ProductErrNotFound = false.

(** ** The conditions of the listings

    The meaning of one condition of a WHERE clause, by the text of its column and
    operator and the type of its value; nothing is known of any other condition. *)
Section conditions.
Context `{!CaseTables, !Ilike}.

Definition customer_condition (c : string * sqlval) : option (customer.Customer -> bool) :=
  match c.2 with
  | VText p =>
      if bool_decide (c.1 = "name ILIKE ") then Some (fun a => ilike p (customer.Name a))
      else if bool_decide (c.1 = "document ILIKE ") then Some (fun a => ilike p (customer.Document a))
      else None
  | VBool b => if bool_decide (c.1 = "active = ") then Some (fun a => bool_decide (customer.Active a = b)) else None
  | _ => None
  end.

Definition product_condition (c : string * sqlval) : option (product.Product -> bool) :=
  match c.2 with
  | VText p =>
      if bool_decide (c.1 = "name ILIKE ") then Some (fun a => ilike p (product.Name a))
      else if bool_decide (c.1 = "sku ILIKE ") then Some (fun a => ilike p (product.SKU a))
      else None
  | VBool b => if bool_decide (c.1 = "active = ") then Some (fun a => bool_decide (product.Active a = b)) else None
  | _ => None
  end.

(** What a filter asks of the database: a set text is searched in its column. *)
Definition searched (text value : string) : bool := bool_decide (text = "") || ilike ("%" +:+ text +:+ "%") value.

Definition flagged (flag : option bool) (value : bool) : bool :=
  match flag with Some b => bool_decide (value = b) | None => true end.

Definition customer_selects (f : customer.CustomerFilter) (c : customer.Customer) : bool :=
  searched (customer.cf_Name f) (customer.Name c) && searched (customer.cf_Document f) (customer.Document c) &&
  flagged (customer.cf_Active f) (customer.Active c).

Definition product_selects (f : product.ProductFilter) (p : product.Product) : bool :=
  searched (product.pf_Name f) (product.Name p) && searched (product.pf_SKU f) (product.SKU p) &&
  flagged (product.pf_Active f) (product.Active p).

Lemma searched_plain text value :
  plain text -> is_ascii value -> searched text value = bool_decide (text = "") || Contains (ToLower value) (ToLower text).
Proof. intros Ht Hv. unfold searched. by rewrite ilike_plain. Qed.
End conditions.

(** A session on the database: each statement is its own transaction. *)
Class CatalogDatabase (W : Type) `{!CaseTables, !Ilike} := {
  cat_sem :: Sem pgE W;
  customers_table : W -> gmap uuid customer.Customer;
  products_table : W -> gmap uuid product.Product;
  customers_typed w : typed_rows customer.ID customers_row (customers_table w);
  products_typed w : typed_rows product.ID products_row (products_table w);
  read_row_law what args w x w' : sem (QueryRow ("SELECT " +:+ what) args) w x w' ->
    customers_table w' = customers_table w /\ products_table w' = products_table w;
  read_rows_law what args w x w' : sem (Query ("SELECT " +:+ what) args) w x w' ->
    customers_table w' = customers_table w /\ products_table w' = products_table w;
  insert_customer_law c w x w' :
    sem (Exec ("INSERT INTO customers (" +:+ customerInsertColumns +:+ ") VALUES ($1, $2, $3, $4, $5, $6, $7, $8)")
           (customer_args c)) w x w' ->
    insert_result customer.ID customer.Document customer_fails (stored_customer c) (customers_table w) x (customers_table w') /\
    products_table w' = products_table w;
  update_customer_law c w x w' :
    sem (Exec "UPDATE customers SET name=$2, document=$3, email=$4, phone=$5, updated_at=$6 WHERE id=$1"
           [VUuid (customer.ID c); VText (customer.Name c); VText (customer.Document c);
            VText (customer.Email c); VText (customer.Phone c); VTime (customer.UpdatedAt c)]) w x w' ->
    row_update customer_fails (index_admits customer.Document (customer.ID c) (customers_table w)) (customer.ID c) (overwrite_customer c)
      (customers_table w) x (customers_table w') /\
    products_table w' = products_table w;
  deactivate_customer_law id w x w' :
    sem (Exec "UPDATE customers SET active=false, updated_at=now() WHERE id=$1" [VUuid id]) w x w' ->
    (exists now, row_update customer_fails (fun _ => True) id (deactivate_customer now) (customers_table w) x (customers_table w')) /\
    products_table w' = products_table w;
  select_customer_law id w x w' :
    sem (QueryRow ("SELECT " +:+ customerSelectColumns +:+ " FROM customers WHERE " +:+ "id=$1") [VUuid id]) w x w' ->
    row_found customer_fails (fun c => customer.ID c = id) customer_args (customers_table w) x;
  select_document_law d w x w' :
    sem (QueryRow ("SELECT " +:+ customerSelectColumns +:+ " FROM customers WHERE " +:+ "document=$1") [VText d]) w x w' ->
    row_found customer_fails (fun c => customer.Document c = d) customer_args (customers_table w) x;
  customers_page_law cs lim off w x w' :
    sem (Query (page_text ("SELECT " +:+ customerSelectColumns +:+ " FROM customers") cs) (cs.*2 ++ [VInt lim; VInt off])) w x w' ->
    match x with
    | Ok r => forall conds, mapM customer_condition cs = Some conds ->
                page_rows customer.ID customer.CreatedAt customer_args conds lim off (customers_table w) r
    | _ => True
    end;
  insert_product_law p w x w' : money_ok (product.Price p) ->
    sem (Exec "INSERT INTO products (id, name, sku, price, active, created_at, updated_at) VALUES ($1, $2, $3, $4, $5, $6, $7)"
           (product_args p)) w x w' ->
    insert_result product.ID product.SKU product_fails (stored_product p) (products_table w) x (products_table w') /\
    customers_table w' = customers_table w;
  update_product_law p w x w' : money_ok (product.Price p) ->
    sem (Exec "UPDATE products SET name=$2, sku=$3, price=$4, updated_at=$5 WHERE id=$1"
           [VUuid (product.ID p); VText (product.Name p); VText (product.SKU p);
            VText (Decimal (product.Price p)); VTime (product.UpdatedAt p)]) w x w' ->
    row_update product_fails (index_admits product.SKU (product.ID p) (products_table w)) (product.ID p) (overwrite_product p)
      (products_table w) x (products_table w') /\
    customers_table w' = customers_table w;
  deactivate_product_law id w x w' :
    sem (Exec "UPDATE products SET active=false, updated_at=now() WHERE id=$1" [VUuid id]) w x w' ->
    (exists now, row_update product_fails (fun _ => True) id (deactivate_product now) (products_table w) x (products_table w')) /\
    customers_table w' = customers_table w;
  select_product_law id w x w' :
    sem (QueryRow ("SELECT " +:+ productColumns +:+ " FROM products WHERE " +:+ "id=$1") [VUuid id]) w x w' ->
    row_found product_fails (fun p => product.ID p = id) product_args (products_table w) x;
  select_sku_law s w x w' :
    sem (QueryRow ("SELECT " +:+ productColumns +:+ " FROM products WHERE " +:+ "sku=$1") [VText s]) w x w' ->
    row_found product_fails (fun p => product.SKU p = s) product_args (products_table w) x;
  select_many_law ids w x w' :
    sem (Query ("SELECT " +:+ productColumns +:+ " FROM products WHERE id = ANY($1)") [VUuids ids]) w x w' ->
    match x with
    | Ok r => exists l, rw_rows r = product_args <$> l /\
                Forall (fun p => products_table w !! product.ID p = Some p /\ product.ID p ∈ ids) l
    | _ => True
    end;
  products_page_law cs lim off w x w' :
    sem (Query (page_text ("SELECT " +:+ productColumns +:+ " FROM products") cs) (cs.*2 ++ [VInt lim; VInt off])) w x w' ->
    match x with
    | Ok r => forall conds, mapM product_condition cs = Some conds ->
                page_rows product.ID product.CreatedAt product_args conds lim off (products_table w) r
    | _ => True
    end;
}.

Definition customer_plain (f : customer.CustomerFilter) : Prop := plain (customer.cf_Name f) /\ plain (customer.cf_Document f).
Definition product_plain (f : product.ProductFilter) : Prop := plain (product.pf_Name f) /\ plain (product.pf_SKU f).

Section specs.
Context `{!CaseTables, !Ilike}.

Definition customer_spec {X} (e : customer.repoE X) (m : gmap uuid customer.Customer) (x : X) m' : Prop :=
  match e in customer.repoE X return X -> Prop with
  | customer.RCreate c => fun x => insert_result customer.ID customer.Document customer_fails (stored_customer c) m x m'
  | customer.RUpdate c => fun x =>
      row_written customer_fails customer.ErrNotFound (index_admits customer.Document (customer.ID c) m) (customer.ID c) (overwrite_customer c) m x m'
  | customer.RDeactivate id => fun x =>
      exists now, row_written customer_fails customer.ErrNotFound (fun _ => True) id (deactivate_customer now) m x m'
  | customer.RFindByID id => fun x =>
      row_answer customer_fails customer.ErrNotFound (fun c => customer.ID c = id) m x m'
  | customer.RFindByDocument d => fun x =>
      row_answer customer_fails customer.ErrNotFound (fun c => customer.Document c = d) m x m'
  | customer.RList f => fun x =>
      page_answer customer.ID customer.CreatedAt (customer_selects f) (customer.cf_Page f) (customer.cf_PageSize f) m x m'
  end x.

Definition product_spec {X} (e : product.repoE X) (m : gmap uuid product.Product) (x : X) m' : Prop :=
  match e in product.repoE X return X -> Prop with
  | product.RCreate p => fun x => insert_result product.ID product.SKU product_fails (stored_product p) m x m'
  | product.RUpdate p => fun x =>
      row_written product_fails product.ErrNotFound (index_admits product.SKU (product.ID p) m) (product.ID p) (overwrite_product p) m x m'
  | product.RDeactivate id => fun x =>
      exists now, row_written product_fails product.ErrNotFound (fun _ => True) id (deactivate_product now) m x m'
  | product.RFindByID id => fun x =>
      row_answer product_fails product.ErrNotFound (fun p => product.ID p = id) m x m'
  | product.RFindBySKU s => fun x =>
      row_answer product_fails product.ErrNotFound (fun p => product.SKU p = s) m x m'
  | product.RFindManyByID ids => fun x =>
      m' = m /\ match x with
                | Ok l => Forall (fun p => m !! product.ID p = Some p /\ product.ID p ∈ ids) l
                | _ => True
                end
  | product.RList f => fun x =>
      page_answer product.ID product.CreatedAt (product_selects f) (product.pf_Page f) (product.pf_PageSize f) m x m'
  end x.

(** An amount is an int64. *)
Definition product_call_ok {X} (e : product.repoE X) : Prop :=
  match e with product.RCreate p | product.RUpdate p => money_ok (product.Price p) | _ => True end.
End specs.

(** ** The adapters *)
Section refinement.
Context `{!CaseTables, !Ilike} {W : Type} `{!CatalogDatabase W}.

Lemma update_writes notFound sql args w x w' :
  exec (update_one notFound sql args) w x w' ->
  exists y, sem (Exec sql args) w y w' /\
    forall A fails (admits : A -> Prop) id (f : A -> A) m m',
      row_update fails admits id f m y m' -> row_written fails notFound admits id f m x m'.
Proof.
  intros Hx. unfold update_one in Hx. apply exec_bind_res in Hx as (y & w1 & Hy & Hx). apply exec_call in Hy.
  exists y. destruct y as [n|e|why]; destruct Hx as [-> ->]; (split; [exact Hy|]); intros A fails admits id f m m'; cbn; [| |done].
  - destruct (m !! id) as [a|] eqn:Ha; [intros (-> & Hf & ->); by exists a|intros [-> ->]; by left].
  - by right.
Qed.

Lemma find_answers {A} notFound (scan : list sqlval -> res A) sql args w x w' :
  exec (row <-! call (QueryRow sql args) catch (fun err => Err (no_rows notFound err)) ;; Ret (scan row)) w x w' ->
  exists y, sem (QueryRow sql args) w y w' /\
    forall fails P cells m, (forall i a, m !! i = Some a -> scan (cells a) = Ok a) ->
      row_found fails P cells m y -> row_answer fails notFound P m x m.
Proof.
  intros Hx. apply exec_bind_err in Hx as (y & w1 & Hy & Hx). apply exec_call in Hy. exists y.
  destruct y as [r|e|why]; destruct Hx as [-> ->]; (split; [exact Hy|]); intros fails P cells m Hscan; unfold row_answer; cbn; [| |done].
  - intros (i & a & Ha & HP & ->). rewrite (Hscan i a Ha). eauto.
  - unfold no_rows. destruct (errors_Is e PgxErrNoRows); [by auto|by auto].
Qed.

(** The two statements of a listing, and the page they give. *)
Lemma list_answers {A} (cells : A -> list sqlval) scan count select cs0 page pageSize w x w' :
  exec (list_pg count select (conditions cs0) scan page pageSize) w x w' ->
  let cs := present cs0 in
  exists what args y w1, sem (QueryRow (count +:+ what) args) w y w1 /\
    ((w' = w1 /\ forall ident created keep m, page_answer ident created keep page pageSize m x m) \/
     exists q, sem (Query (page_text select cs)
                 (cs.*2 ++ [VInt pageSize; VInt (wrap64 (wrap64 (page - 1) * pageSize))])) w1 q w' /\
       forall ident created conds keep m,
         keyed ident m -> (forall i a, m !! i = Some a -> scan (cells a) = Ok a) ->
         (forall a, forallb (fun p => p a) conds = keep a) ->
         match q with
         | Ok r => page_rows ident created cells conds pageSize (wrap64 (wrap64 (page - 1) * pageSize)) m r
         | _ => True
         end -> page_answer ident created keep page pageSize m x m).
Proof.
  intros Hx. unfold list_pg in Hx. rewrite conditions_text in Hx. cbn [fst snd] in Hx. cbv zeta.
  set (cs := present cs0) in *.
  apply exec_bind_res in Hx as (r & w1 & Hr & Hx). apply exec_call in Hr. eexists _, _, r, w1. split; [exact Hr|].
  destruct r as [r|e|why]; [|by destruct Hx as [-> ->]; left..].
  destruct (scan_count r); [|by destruct Hx as [-> ->]; left..]. right.
  apply exec_bind_res in Hx as (q & w2 & Hq & Hx). apply exec_call in Hq. unfold page_sql in Hq. cbn [fst snd] in Hq.
  rewrite length_app, length_fmap in Hq. exists q. unfold page_answer.
  destruct q as [q|e|why]; [|by destruct Hx as [-> ->]; split; [exact Hq|]..].
  destruct (pageSize <? 0); [by destruct Hx as [-> ->]; split; [exact Hq|]|].
  destruct Hx as [-> ->]. split; [exact Hq|]. intros ident created conds keep m Hm Hscan Hkeep Hrows. split; [done|].
  pose proof (page_scanned _ _ _ scan _ _ _ _ _ q Hm Hscan Hkeep Hrows) as Hpage.
  by destruct (scan_rows scan q).
Qed.

Lemma scan_customer_cells c : scanCustomer (customer_args c) = Ok c.
Proof. by destruct c. Qed.

Lemma scan_product_cells w i p : products_table w !! i = Some p -> scanProduct (product_args p) = Ok p.
Proof.
  intros Hp. destruct (products_typed w _ _ Hp) as [_ Hok%products_row_money].
  cbn. rewrite parse_amount_Decimal by done. by destruct p.
Qed.

Definition customer_conditions (f : customer.CustomerFilter) : list (string * option sqlval) :=
  [("name ILIKE ", like (customer.cf_Name f)); ("document ILIKE ", like (customer.cf_Document f));
   ("active = ", VBool <$> customer.cf_Active f)].

Definition product_conditions (f : product.ProductFilter) : list (string * option sqlval) :=
  [("name ILIKE ", like (product.pf_Name f)); ("sku ILIKE ", like (product.pf_SKU f));
   ("active = ", VBool <$> product.pf_Active f)].

(** The conditions of a filter select what it asks for. *)
Lemma customer_conditions_match f :
  exists conds, mapM customer_condition (present (customer_conditions f)) = Some conds /\
    forall c, forallb (fun p => p c) conds = customer_selects f c.
Proof.
  destruct f as [n d a p z]. unfold customer_conditions, present, like, customer_selects, searched. cbn.
  destruct (bool_decide_reflect (n = "")), (bool_decide_reflect (d = "")), a as [a|]; cbn;
    (eexists; split; [reflexivity|]); intros c; cbn; by rewrite ?andb_true_r, ?andb_assoc.
Qed.

Lemma product_conditions_match f :
  exists conds, mapM product_condition (present (product_conditions f)) = Some conds /\
    forall p, forallb (fun q => q p) conds = product_selects f p.
Proof.
  destruct f as [n d a p z]. unfold product_conditions, present, like, product_selects, searched. cbn.
  destruct (bool_decide_reflect (n = "")), (bool_decide_reflect (d = "")), a as [a|]; cbn;
    (eexists; split; [reflexivity|]); intros c; cbn; by rewrite ?andb_true_r, ?andb_assoc.
Qed.

(** For plain texts over ASCII columns, this is what the in-memory adapters match. *)
Lemma customer_selects_matches f c :
  customer_plain f -> is_ascii (customer.Name c) -> is_ascii (customer.Document c) ->
  customer_selects f c = customer.matches c f.
Proof.
  intros [Hn Hd] Han Had. unfold customer_selects, customer.matches. rewrite !searched_plain by done.
  destruct (bool_decide (customer.cf_Name f = "")), (bool_decide (customer.cf_Document f = "")); cbn;
    repeat destruct (Contains _ _); done.
Qed.

Lemma product_selects_matches f p :
  product_plain f -> is_ascii (product.Name p) -> is_ascii (product.SKU p) ->
  product_selects f p = product.matches p f.
Proof.
  intros [Hn Hs] Han Has. unfold product_selects, product.matches. rewrite !searched_plain by done.
  destruct (bool_decide (product.pf_Name f = "")), (bool_decide (product.pf_SKU f = "")); cbn;
    repeat destruct (Contains _ _); done.
Qed.

Lemma customers_keyed w : keyed customer.ID (customers_table w).
Proof. intros i c Hc. by destruct (customers_typed w i c Hc). Qed.

Lemma products_keyed w : keyed product.ID (products_table w).
Proof. intros i p Hp. by destruct (products_typed w i p Hp). Qed.

Lemma customer_pg_refines {X} (e : customer.repoE X) w x w' :
  exec (customer_pg X e) w x w' ->
  customer_spec e (customers_table w) x (customers_table w') /\ products_table w' = products_table w.
Proof.
  destruct e as [c|c|id|id|d|f]; intros Hx.
  - apply exec_bind_res in Hx as (y & w1 & Hy & Hx). apply exec_call, insert_customer_law in Hy as [Hy Hp].
    destruct y as [n|e|why]; destruct Hx as [-> ->]; by split.
  - apply update_writes in Hx as (y & [Hy Hp]%update_customer_law & Hw). split; [by apply Hw|done].
  - apply update_writes in Hx as (y & [[now Hy] Hp]%deactivate_customer_law & Hw). split; [exists now; by apply Hw|done].
  - apply find_answers in Hx as (y & Hy & Hx). pose proof Hy as [-> ->]%read_row_law. split; [|done].
    eapply Hx; [intros; apply scan_customer_cells|by eapply select_customer_law].
  - apply find_answers in Hx as (y & Hy & Hx). pose proof Hy as [-> ->]%read_row_law. split; [|done].
    eapply Hx; [intros; apply scan_customer_cells|by eapply select_document_law].
  - apply (list_answers customer_args) in Hx as (what & args & y & w1 & [Hc1 Hp1]%read_row_law & [[-> Hx]|(q & Hq & Hx)]).
    { rewrite Hc1, Hp1. split; [apply Hx|done]. }
    pose proof Hq as [Hc2 Hp2]%read_rows_law. apply customers_page_law in Hq. rewrite Hc1 in Hq.
    rewrite Hc2, Hp2, Hc1, Hp1. split; [|done]. destruct (customer_conditions_match f) as (conds & Hconds & Hkeep).
    eapply Hx; [apply customers_keyed|intros; apply scan_customer_cells|exact Hkeep|]. destruct q as [r|e|why]; [by apply Hq|done..].
Qed.

Lemma product_pg_refines {X} (e : product.repoE X) w x w' :
  product_call_ok e -> exec (product_pg X e) w x w' ->
  product_spec e (products_table w) x (products_table w') /\ customers_table w' = customers_table w.
Proof.
  destruct e as [p|p|id|id|s|ids|f]; intros Hok Hx; cbn in Hok.
  - apply exec_bind_res in Hx as (y & w1 & Hy & Hx). apply exec_call, insert_product_law in Hy as [Hy Hp]; [|done].
    destruct y as [n|e|why]; destruct Hx as [-> ->]; by split.
  - apply update_writes in Hx as (y & [Hy Hp]%update_product_law & Hw); [|done]. split; [by apply Hw|done].
  - apply update_writes in Hx as (y & [[now Hy] Hp]%deactivate_product_law & Hw). split; [exists now; by apply Hw|done].
  - apply find_answers in Hx as (y & Hy & Hx). pose proof Hy as [-> ->]%read_row_law. split; [|done].
    eapply Hx; [apply scan_product_cells|by eapply select_product_law].
  - apply find_answers in Hx as (y & Hy & Hx). pose proof Hy as [-> ->]%read_row_law. split; [|done].
    eapply Hx; [apply scan_product_cells|by eapply select_sku_law].
  - unfold product_pg, product_FindManyByID in Hx. case_bool_decide as Hids; [by destruct Hx as [-> ->]|].
    apply exec_bind_res in Hx as (y & w1 & Hy & Hx). apply exec_call in Hy.
    pose proof Hy as [Hc Hp]%read_rows_law. apply select_many_law in Hy.
    destruct y as [r|e|why]; destruct Hx as [-> ->]; rewrite Hc, Hp; [|done..]. split; [|done]. split; [done|].
    destruct Hy as (l & Hl & Hall). unfold scan_rows. rewrite Hl, scan_all_rows.
    + by destruct (rw_err r).
    + eapply Forall_impl; [exact Hall|]. intros a [Ha _]. by eapply scan_product_cells.
  - apply (list_answers product_args) in Hx as (what & args & y & w1 & [Hc1 Hp1]%read_row_law & [[-> Hx]|(q & Hq & Hx)]).
    { rewrite Hc1, Hp1. split; [apply Hx|done]. }
    pose proof Hq as [Hc2 Hp2]%read_rows_law. apply products_page_law in Hq. rewrite Hp1 in Hq.
    rewrite Hc2, Hp2, Hc1, Hp1. split; [|done]. destruct (product_conditions_match f) as (conds & Hconds & Hkeep).
    eapply Hx; [apply products_keyed|apply scan_product_cells|exact Hkeep|]. destruct q as [r|e|why]; [by apply Hq|done..].
Qed.
End refinement.

(** ** The services over the database

    What a service sends: the statements of its repository, and its clock and id
    source. *)
Inductive netE : Type -> Type :=
| Sql {X : Type} (c : pgE X) : netE X
| Clock : netE time
| FreshID : netE uuid.

Section services.
Context `{!CaseTables}.

Definition customer_method (X : Type) (e : customer.customerE X) : prog netE X :=
  match e in customer.customerE X return prog netE X with
  | customer.Repo r => interp (fun Y c => call (Sql c)) (customer_pg _ r)
  | customer.Now => call Clock
  | customer.NewUUID => call FreshID
  end.

Definition product_method (X : Type) (e : product.productE X) : prog netE X :=
  match e in product.productE X return prog netE X with
  | product.Repo r => interp (fun Y c => call (Sql c)) (product_pg _ r)
  | product.Now => call Clock
  | product.NewUUID => call FreshID
  end.

(** A request to either service. *)
Definition serve_catalog (r : customer.request + product.request) : prog netE unit :=
  match r with
  | inl r => interp customer_method (customer.serve r)
  | inr r => interp product_method (product.serve r)
  end.

Definition customer_filled (c : customer.Customer) : Prop := customer.Name c <> "" /\ customer.Document c <> "".
Definition product_filled (p : product.Product) : Prop := product.Name p <> "" /\ product.SKU p <> "".

(** The writes the services send. *)
Inductive sent : string -> list sqlval -> Prop :=
| sent_insert_customer c :
    customer.ID c <> uuid_Nil -> customer_filled c ->
    sent ("INSERT INTO customers (" +:+ customerInsertColumns +:+ ") VALUES ($1, $2, $3, $4, $5, $6, $7, $8)")
      (customer_args c)
| sent_update_customer c :
    customer_filled c ->
    sent "UPDATE customers SET name=$2, document=$3, email=$4, phone=$5, updated_at=$6 WHERE id=$1"
      [VUuid (customer.ID c); VText (customer.Name c); VText (customer.Document c);
       VText (customer.Email c); VText (customer.Phone c); VTime (customer.UpdatedAt c)]
| sent_deactivate_customer id :
    sent "UPDATE customers SET active=false, updated_at=now() WHERE id=$1" [VUuid id]
| sent_insert_product p :
    product.ID p <> uuid_Nil -> product_filled p -> money_ok (product.Price p) ->
    sent "INSERT INTO products (id, name, sku, price, active, created_at, updated_at) VALUES ($1, $2, $3, $4, $5, $6, $7)"
      (product_args p)
| sent_update_product p :
    product_filled p -> money_ok (product.Price p) ->
    sent "UPDATE products SET name=$2, sku=$3, price=$4, updated_at=$5 WHERE id=$1"
      [VUuid (product.ID p); VText (product.Name p); VText (product.SKU p);
       VText (Decimal (product.Price p)); VTime (product.UpdatedAt p)]
| sent_deactivate_product id :
    sent "UPDATE products SET active=false, updated_at=now() WHERE id=$1" [VUuid id].

Definition statement_ok {X} (c : pgE X) : Prop :=
  match c with
  | Exec sql args => sent sql args
  | QueryRow sql _ | Query sql _ => exists what, sql = "SELECT " +:+ what
  | _ => False
  end.

Definition net_ok {X} (e : netE X) : Prop := match e with Sql c => statement_ok c | _ => True end.

(** [uuid.New] does not return the nil uuid. *)
Definition net_answers {X} (e : netE X) : X -> Prop :=
  match e in netE X return X -> Prop with FreshID => fun u => u <> uuid_Nil | _ => fun _ => True end.

Definition customer_sends {X} (e : customer.customerE X) : Prop :=
  match e with
  | customer.Repo r =>
      match r with
      | customer.RCreate c => customer.ID c <> uuid_Nil /\ customer_filled c
      | customer.RUpdate c => customer_filled c
      | _ => True
      end
  | _ => True
  end.

Definition customer_receives {X} (e : customer.customerE X) : X -> Prop :=
  match e in customer.customerE X return X -> Prop with customer.NewUUID => fun u => u <> uuid_Nil | _ => fun _ => True end.

Definition product_sends {X} (e : product.productE X) : Prop :=
  match e with
  | product.Repo r =>
      match r with
      | product.RCreate p => product.ID p <> uuid_Nil /\ product_filled p /\ money_ok (product.Price p)
      | product.RUpdate p => product_filled p /\ money_ok (product.Price p)
      | _ => True
      end
  | _ => True
  end.

Definition product_receives {X} (e : product.productE X) : X -> Prop :=
  match e in product.productE X return X -> Prop with product.NewUUID => fun u => u <> uuid_Nil | _ => fun _ => True end.

(** The prices in the requests are int64s. *)
Definition typed_request (r : customer.request + product.request) : Prop :=
  match r with
  | inr (product.QCreate i) => money_ok (product.pi_Price i)
  | inr (product.QUpdate _ i) => money_ok (product.pu_Price i)
  | _ => True
  end.

(** Walk through a method, branch by branch. *)
Ltac walk_method :=
  repeat first
    [ progress cbn beta iota
    | apply conforms_bind_err | apply conforms_bind_res | apply conforms_bind
    | (apply conforms_call; [first [exact I|idtac]|intros ? ?]) | case_match | exact I ].

Ltac solve_filled :=
  repeat match goal with H : bool_decide _ = false |- _ => apply bool_decide_eq_false in H end;
  cbn; unfold customer_filled, product_filled; cbn;
  repeat match goal with |- _ /\ _ => split end; done.

Lemma customer_serve_sends r : makes (@customer_sends) (@customer_receives) (customer.serve r).
Proof.
  unfold makes. destruct r as [i|id i|id|id|f]; cbn [customer.serve]; unfold customer.forget;
    unfold customer.Create, customer.Update, customer.ensureDocumentUnique, customer.Deactivate, customer.FindByID, customer.List;
    walk_method.
  all: solve_filled.
Qed.

Lemma product_serve_sends r :
  typed_request (inr r) -> makes (@product_sends) (@product_receives) (product.serve r).
Proof.
  intros Hr. unfold makes. destruct r as [i|id i|id|id|ids|f]; cbn [product.serve]; unfold product.forget;
    unfold product.Create, product.Update, product.ensureSKUUnique, product.Deactivate, product.FindByID,
      product.FindManyByID, product.List; cbn in Hr; walk_method.
  all: solve_filled.
Qed.

(** Any answer. *)
Definition unconstrained {E : Type -> Type} : forall X, E X -> X -> Prop := fun _ _ _ => True.

Lemma list_sends {A} count select conds (scan : list sqlval -> res A) page pageSize :
  makes (@statement_ok) unconstrained
    (list_pg ("SELECT " +:+ count) ("SELECT " +:+ select) conds scan page pageSize).
Proof.
  unfold makes, list_pg. apply conforms_bind_res, conforms_call; [by eexists|]. intros [row|e|why] _; [|done..].
  destruct (scan_count row); [|done..]. apply conforms_bind_res, conforms_call; [by eexists|].
  intros [rows|e|why] _; [|done..]. by destruct (pageSize <? 0).
Qed.

Lemma customer_pg_sends {X} (r : customer.repoE X) :
  customer_sends (customer.Repo r) -> makes (@statement_ok) unconstrained (customer_pg X r).
Proof.
  intros He. unfold makes. destruct r as [c|c|id|id|d|f]; cbn in He; unfold customer_pg; [..|apply list_sends];
    unfold customer_Create, customer_Update, customer_Deactivate, customer_FindByID, customer_FindByDocument, find_customer, update_one;
    walk_method.
  - destruct He. by apply sent_insert_customer.
  - by apply sent_update_customer.
  - apply sent_deactivate_customer.
  - by eexists.
  - by eexists.
Qed.

Lemma product_pg_sends {X} (r : product.repoE X) :
  product_sends (product.Repo r) -> makes (@statement_ok) unconstrained (product_pg X r).
Proof.
  intros He. unfold makes. destruct r as [c|c|id|id|d|ids|f]; cbn in He; unfold product_pg; [..|apply list_sends];
    unfold product_Create, product_Update, product_Deactivate, product_FindByID, product_FindBySKU, product_FindManyByID,
      find_product, update_one; walk_method.
  - destruct He as (? & ? & ?). by apply sent_insert_product.
  - destruct He. by apply sent_update_product.
  - apply sent_deactivate_product.
  - by eexists.
  - by eexists.
  - by eexists.
Qed.

Lemma sql_sends {A} (p : pg A) :
  makes (@statement_ok) unconstrained p ->
  conforms (stateless (@net_ok) (@net_answers)) tt (interp (fun Y c => call (Sql c)) p) (fun _ _ => True).
Proof. apply stateless_interp. by intros X c Hc. Qed.

Lemma catalog_sends r : typed_request r -> makes (@net_ok) (@net_answers) (serve_catalog r).
Proof.
  intros Hr. destruct r as [r|r]; cbn [serve_catalog].
  - eapply stateless_interp; [|apply customer_serve_sends]. intros X [Y q| |] He; [|by split..].
    by apply sql_sends, customer_pg_sends.
  - eapply stateless_interp; [|by apply product_serve_sends]. intros X [Y q| |] He; [|by split..].
    by apply sql_sends, product_pg_sends.
Qed.
End services.

(** ** Every interleaving of the statements *)
Section catalog.
Context `{!CaseTables, !Ilike} {W : Type} `{!CatalogDatabase W}.

(** The clock gives any time, the id source any non-nil id. *)
#[export] Instance net_sem : Sem netE W := fun X e w x w' =>
  match e in netE X return X -> Prop with
  | Sql c => fun x => sem c w x w'
  | Clock => fun _ => w' = w
  | FreshID => fun u => w' = w /\ u <> uuid_Nil
  end x.

(** The rules of the rows, and the unique keys. *)
Definition rows_filled (w : W) : Prop :=
  map_Forall (fun _ c => customer.ID c <> uuid_Nil /\ customer_filled c) (customers_table w) /\
  map_Forall (fun _ p => product.ID p <> uuid_Nil /\ product_filled p) (products_table w).

Definition keys_unique (w : W) : Prop :=
  unique_by customer.Document (customers_table w) /\ unique_by product.SKU (products_table w).

Definition catalog_ok (w : W) : Prop := rows_filled w /\ keys_unique w.

Definition rows_kept (w w' : W) : Prop :=
  preserved customer.CreatedAt customer.Active (customers_table w) (customers_table w') /\
  preserved product.CreatedAt product.Active (products_table w) (products_table w').

#[export] Instance rows_kept_preorder : PreOrder rows_kept.
Proof. split; [by split|]. intros w1 w2 w3 [] []. split; by etrans. Qed.

Lemma sent_step sql args w x w' :
  sent sql args -> sem (Exec sql args) w x w' -> catalog_ok w -> rows_kept w w' /\ catalog_ok w'.
Proof.
  intros Hs Hx [[Hc Hp] [Huc Hup]]. unfold rows_kept, catalog_ok, rows_filled, keys_unique.
  destruct Hs as [c Hid Hf|c Hf|id|p Hid Hf Hm|p Hf Hm|id].
  - apply insert_customer_law in Hx as [Hx ->]. split_and!; try done.
    + eapply preserved_insert; exact Hx.
    + eapply insert_forall; [|exact Hx|exact Hc]. by split.
    + by eapply insert_unique.
  - apply update_customer_law in Hx as [Hx ->]. split_and!; try done.
    + eapply preserved_update; [|exact Hx]. by intros a.
    + eapply update_forall; [|exact Hx|exact Hc]. by intros a [? _].
    + eapply update_unique; [|exact Hx|done]. done.
  - apply deactivate_customer_law in Hx as [[now Hx] ->]. split_and!; try done.
    + eapply preserved_update; [|exact Hx]. by intros a.
    + by eapply update_forall; [|exact Hx|exact Hc].
    + eapply update_unique; [|exact Hx|done]. intros a Ha _. by eapply same_key_admitted.
  - apply insert_product_law in Hx as [Hx ->]; [|done]. split_and!; try done.
    + eapply preserved_insert; exact Hx.
    + eapply insert_forall; [|exact Hx|exact Hp]. by split.
    + by eapply insert_unique.
  - apply update_product_law in Hx as [Hx ->]; [|done]. split_and!; try done.
    + eapply preserved_update; [|exact Hx]. by intros a.
    + eapply update_forall; [|exact Hx|exact Hp]. by intros a [? _].
    + eapply update_unique; [|exact Hx|done]. done.
  - apply deactivate_product_law in Hx as [[now Hx] ->]. split_and!; try done.
    + eapply preserved_update; [|exact Hx]. by intros a.
    + by eapply update_forall; [|exact Hx|exact Hp].
    + eapply update_unique; [|exact Hx|done]. intros a Ha _. by eapply same_key_admitted.
Qed.

Lemma catalog_statement_step {X} (c : pgE X) w x w' :
  statement_ok c -> sem c w x w' -> catalog_ok w -> rows_kept w w' /\ catalog_ok w'.
Proof.
  intros Hc Hx Hw.
  assert (Hread : customers_table w' = customers_table w /\ products_table w' = products_table w ->
            rows_kept w w' /\ catalog_ok w').
  { intros [Hxc Hxp]. unfold rows_kept, catalog_ok, rows_filled, keys_unique in *. by rewrite Hxc, Hxp. }
  destruct c as [sql args|sql args|sql args|sql args| | |]; try done.
  - by eapply sent_step.
  - destruct Hc as [what ->]. by apply Hread, (read_row_law what args w x).
  - destruct Hc as [what ->]. by apply Hread, (read_rows_law what args w x).
Qed.

Lemma net_step {X} (e : netE X) w x w' :
  net_ok e -> sem e w x w' -> catalog_ok w -> rows_kept w w' /\ catalog_ok w'.
Proof.
  destruct e as [Y c| |]; intros He Hx Hw; [by eapply catalog_statement_step| |].
  - by cbn in Hx; subst w'.
  - by destruct Hx as [-> _].
Qed.

(** The requests together. *)
Definition together (w : W) (_ : list unit) (v : W) : Prop := rows_kept w v /\ catalog_ok v.

Lemma catalog_possible w0 ss w i s X (e : netE X) x w' :
  ss !! i = Some s -> together w0 ss w -> allowed (stateless (@net_ok) (@net_answers)) s e -> sem e w x w' ->
  possible (stateless (@net_ok) (@net_answers)) s e x.
Proof. destruct e as [Y c| |]; [done|done|]. by intros _ _ _ [_ Hu]. Qed.

Lemma catalog_step w0 ss w i s X (e : netE X) x w' :
  ss !! i = Some s -> together w0 ss w -> allowed (stateless (@net_ok) (@net_answers)) s e -> sem e w x w' ->
  together w0 (<[i := next (stateless (@net_ok) (@net_answers)) s e x]> ss) w'.
Proof. intros _ [Hk Hf] He Hx. destruct (net_step _ _ _ _ He Hx Hf) as [Hk' Hf']. split; [by etrans|done]. Qed.

Lemma catalog_together rs w c :
  Forall typed_request rs -> catalog_ok w -> pool_steps (serve_catalog <$> rs, w) c ->
  rows_kept w c.2 /\ catalog_ok c.2.
Proof.
  intros Hrs Hw Hsteps.
  destruct (pool_conforms _ (together w) (catalog_possible w) (catalog_step w) (fun _ _ => True) _ _
              (replicate (length rs) tt) Hsteps) as (ss & _ & HG); [|by split|exact HG].
  cbn [fst]. clear Hsteps Hw. induction Hrs as [|r rs Hr _ IH]; cbn; constructor; [by apply catalog_sends|exact IH].
Qed.
End catalog.

(** ** A concrete database *)
#[local] Existing Instances no_tables ascii_ilike.

Record cat := mkCat { cat_customers : gmap uuid customer.Customer; cat_products : gmap uuid product.Product }.

Definition ok_table {A} (ident : A -> uuid) (key : A -> string) (row : A -> bool) (m : gmap uuid A) : bool :=
  bool_decide (map_Forall (fun i a => ident a = i /\ row a = true) m) &&
  bool_decide (map_Forall (fun i a => map_Forall (fun j b => key a = key b -> i = j) m) m).

Lemma ok_table_rows {A} (ident : A -> uuid) key row m :
  ok_table ident key row m = true -> typed_rows ident row m /\ unique_by key m.
Proof.
  unfold ok_table. rewrite andb_true_iff, !bool_decide_eq_true. intros [Hm Hu]. split; [done|].
  intros i j a b Ha Hb. exact (Hu i a Ha j b Hb).
Qed.

Definition ok_cat (d : cat) : bool :=
  ok_table customer.ID customer.Document customers_row (cat_customers d) &&
  ok_table product.ID product.SKU products_row (cat_products d).

(** Tables that satisfy the constraints; a change that breaks one is refused. *)
Definition demo_cat : Type := { d : cat | ok_cat d = true }.

Definition db_error : error := ErrNew "database error".

Definition put (d' : cat) (d : demo_cat) : res Z * demo_cat :=
  match decide (ok_cat d' = true) with
  | left H => (Ok 1, exist _ d' H)
  | right _ => (Err db_error, d)
  end.

Definition put_customers (m : gmap uuid customer.Customer) (d : demo_cat) : res Z * demo_cat :=
  put (mkCat m (cat_products (proj1_sig d))) d.
Definition put_products (m : gmap uuid product.Product) (d : demo_cat) : res Z * demo_cat :=
  put (mkCat (cat_customers (proj1_sig d)) m) d.

Definition insert_row {A} (ident : A -> uuid) (stored : A -> A) (put_table : gmap uuid A -> demo_cat -> res Z * demo_cat)
    (m : gmap uuid A) (a : res A) (d : demo_cat) : res Z * demo_cat :=
  match a with
  | Ok a => if bool_decide (m !! ident a = None) then put_table (<[ident a := stored a]> m) d else (Err db_error, d)
  | _ => (Err db_error, d)
  end.

Definition update_row {A} (put_table : gmap uuid A -> demo_cat -> res Z * demo_cat)
    (m : gmap uuid A) (id : uuid) (f : A -> A) (d : demo_cat) : res Z * demo_cat :=
  match m !! id with Some a => put_table (<[id := f a]> m) d | None => (Ok 0, d) end.

Definition found_row {A} (cells : A -> list sqlval) (o : option A) : res (list sqlval) :=
  match o with Some a => Ok (cells a) | None => Err (ErrVar PgxErrNoRows) end.

(** The statements but the listings, which are below. *)
Definition demo_exec (sql : string) (args : list sqlval) (d : demo_cat) : res Z * demo_cat :=
  let cs := cat_customers (proj1_sig d) in
  let ps := cat_products (proj1_sig d) in
  match args with
  | [VUuid _; VText _; VText _; VText _; VText _; VBool _; VTime _; VTime _] =>
      insert_row customer.ID stored_customer put_customers cs (scanCustomer args) d
  | [VUuid _; VText _; VText _; VText _; VBool _; VTime _; VTime _] =>
      insert_row product.ID stored_product put_products ps (scanProduct args) d
  | [VUuid id; VText name; VText document; VText email; VText phone; VTime updated] =>
      update_row put_customers cs id
        (overwrite_customer (customer.mkCustomer id name document email phone true 0 updated)) d
  | [VUuid id; VText name; VText sku; VText price; VTime updated] =>
      match parse_amount "product price" price with
      | Ok m => update_row put_products ps id (overwrite_product (product.mkProduct id name sku m true 0 updated)) d
      | _ => (Err db_error, d)
      end
  | [VUuid id] =>
      if bool_decide (sql = "UPDATE customers SET active=false, updated_at=now() WHERE id=$1")
      then update_row put_customers cs id (deactivate_customer 0) d
      else update_row put_products ps id (deactivate_product 0) d
  | _ => (Err db_error, d)
  end.

Definition demo_row (sql : string) (args : list sqlval) (d : demo_cat) : res (list sqlval) :=
  let cs := cat_customers (proj1_sig d) in
  let ps := cat_products (proj1_sig d) in
  let from_customers := bool_decide (sql = "SELECT " +:+ customerSelectColumns +:+ " FROM customers WHERE " +:+ "id=$1") in
  let by_document := bool_decide (sql = "SELECT " +:+ customerSelectColumns +:+ " FROM customers WHERE " +:+ "document=$1") in
  match args with
  | [VUuid id] => if from_customers then found_row customer_args (cs !! id) else found_row product_args (ps !! id)
  | [VText key] =>
      if by_document then found_row customer_args (find_value (fun c => bool_decide (customer.Document c = key)) cs)
      else found_row product_args (find_value (fun p => bool_decide (product.SKU p = key)) ps)
  | _ => Err db_error
  end.

Definition demo_many (args : list sqlval) (d : demo_cat) : res Rows :=
  match args with
  | [VUuids ids] => Ok (mkRows (product_args <$> omap (fun id => cat_products (proj1_sig d) !! id) ids) None)
  | _ => Err db_error
  end.

#[export] Instance demo_catalog : Handler pgE demo_cat := fun X c d =>
  match c in pgE X return X * demo_cat with
  | Exec sql args => demo_exec sql args d
  | QueryRow sql args => (demo_row sql args d, d)
  | Query sql args => (demo_many args d, d)
  | TxExec _ _ => (Err db_error, d)
  | Begin => (Err db_error, d)
  | Commit => (Err db_error, d)
  | Rollback => (tt, d)
  end.

Lemma put_result d' d x d1 :
  put d' d = (x, d1) -> (x = Ok 1 /\ proj1_sig d1 = d') \/ (x = Err db_error /\ d1 = d).
Proof. unfold put. case_decide; intros [= <- <-]; [by left|by right]. Qed.

(** The table [put_table] writes, and the one it leaves alone. *)
Section written.
Context {A B : Type} (key : A -> string) (mine : cat -> gmap uuid A) (other : cat -> gmap uuid B)
  (put_table : gmap uuid A -> demo_cat -> res Z * demo_cat) (fails : error -> Prop).
Hypothesis put_law : forall m d x d', put_table m d = (x, d') ->
  other (proj1_sig d') = other (proj1_sig d) /\
  ((x = Ok 1 /\ mine (proj1_sig d') = m) \/ (x = Err db_error /\ d' = d)).
Hypothesis mine_unique : forall d : demo_cat, unique_by key (mine (proj1_sig d)).
Hypothesis db_error_fails : fails db_error.

Lemma insert_row_result ident stored a d x d' :
  (forall b : A, ident (stored b) = ident b) ->
  insert_row ident stored put_table (mine (proj1_sig d)) (Ok a) d = (x, d') ->
  insert_result ident key fails (stored a) (mine (proj1_sig d)) x (mine (proj1_sig d')) /\
  other (proj1_sig d') = other (proj1_sig d).
Proof.
  intros Hid. unfold insert_row, insert_result. rewrite Hid. case_bool_decide as Hn; [|intros [= <- <-]; by auto].
  intros [Ho [[-> Hm]|[-> ->]]]%put_law; [|by auto]. split; [|done]. split; [done|]. split; [|exact Hm].
  eapply unique_insert_free. rewrite <- Hm. apply mine_unique.
Qed.

(** The new row has a key of its own, because the table is still unique. *)
Lemma update_row_result (admits : A -> Prop) id (f : A -> A) d x d' :
  (forall a, index_admits key id (mine (proj1_sig d)) (f a) -> admits (f a)) ->
  update_row put_table (mine (proj1_sig d)) id f d = (x, d') ->
  row_update fails admits id f (mine (proj1_sig d)) x (mine (proj1_sig d')) /\
  other (proj1_sig d') = other (proj1_sig d).
Proof.
  intros Hadm. unfold update_row, row_update. destruct (mine (proj1_sig d) !! id) as [a|] eqn:Ha; [|by intros [= <- <-]].
  intros [Ho [[-> Hm]|[-> ->]]]%put_law; [|by auto]. split; [|done]. split; [done|]. split; [|exact Hm].
  apply Hadm. eapply unique_insert_free. rewrite <- Hm. apply mine_unique.
Qed.
End written.

Lemma put_customers_law m d x d' :
  put_customers m d = (x, d') ->
  cat_products (proj1_sig d') = cat_products (proj1_sig d) /\
  ((x = Ok 1 /\ cat_customers (proj1_sig d') = m) \/ (x = Err db_error /\ d' = d)).
Proof. by intros [[-> ->]|[-> ->]]%put_result; cbn; auto. Qed.

Lemma put_products_law m d x d' :
  put_products m d = (x, d') ->
  cat_customers (proj1_sig d') = cat_customers (proj1_sig d) /\
  ((x = Ok 1 /\ cat_products (proj1_sig d') = m) \/ (x = Err db_error /\ d' = d)).
Proof. by intros [[-> ->]|[-> ->]]%put_result; cbn; auto. Qed.

Lemma found_by_id {A} (ident : A -> uuid) row fails cells m id :
  typed_rows ident row m -> row_found fails (fun a => ident a = id) cells m (found_row cells (m !! id)).
Proof.
  intros Hm. unfold row_found. destruct (m !! id) as [a|] eqn:Ha; cbn.
  - exists id, a. by destruct (Hm _ _ Ha).
  - intros i a Hi Hid. destruct (Hm _ _ Hi) as [Hii _]. congruence.
Qed.

Lemma found_by_key {A} (key : A -> string) fails cells m k :
  row_found fails (fun a => key a = k) cells m (found_row cells (find_value (fun a => bool_decide (key a = k)) m)).
Proof.
  unfold row_found. destruct (find_value _ m) as [a|] eqn:Ha; cbn.
  - apply find_value_Some in Ha as [Hk%bool_decide_eq_true [i Hi]]. by exists i, a.
  - intros i a Hi. apply (find_value_None _ _ Ha) in Hi. by apply bool_decide_eq_false in Hi.
Qed.

Lemma demo_customers (d : demo_cat) :
  typed_rows customer.ID customers_row (cat_customers (proj1_sig d)) /\
  unique_by customer.Document (cat_customers (proj1_sig d)).
Proof. destruct d as [d Hd]. cbn. unfold ok_cat in Hd. apply andb_true_iff in Hd as [Hc _]. by apply ok_table_rows. Qed.

Lemma demo_products (d : demo_cat) :
  typed_rows product.ID products_row (cat_products (proj1_sig d)) /\
  unique_by product.SKU (cat_products (proj1_sig d)).
Proof. destruct d as [d Hd]. cbn. unfold ok_cat in Hd. apply andb_true_iff in Hd as [_ Hp]. by apply ok_table_rows. Qed.

(** The listings: a count of any number, and the page that the conditions select, when
    they are known. *)
Definition page_choice {A} (select : string) (meaning : string * sqlval -> option (A -> bool))
    (rows : list (A -> bool) -> Z -> Z -> Rows -> Prop) (sql : string) (args : list sqlval) (x : res Rows) : Prop :=
  forall (cs : list (string * sqlval)) conds lim off,
    sql = page_text select cs -> args = cs.*2 ++ [VInt lim; VInt off] -> mapM meaning cs = Some conds ->
    match x with Ok r => rows conds lim off r | _ => True end.

Definition demo_listing {X} (c : pgE X) (d : demo_cat) : X -> Prop :=
  match c in pgE X return X -> Prop with
  | QueryRow sql _ => fun x =>
      (exists what, sql = "SELECT count(*) FROM " +:+ what) /\ exists n, x = Ok [VInt n]
  | Query sql args => fun x =>
      (1 < length args)%nat /\
      page_choice ("SELECT " +:+ customerSelectColumns +:+ " FROM customers") customer_condition
        (fun conds lim off => page_rows customer.ID customer.CreatedAt customer_args conds lim off
           (cat_customers (proj1_sig d))) sql args x /\
      page_choice ("SELECT " +:+ productColumns +:+ " FROM products") product_condition
        (fun conds lim off => page_rows product.ID product.CreatedAt product_args conds lim off
           (cat_products (proj1_sig d))) sql args x
  | _ => fun _ => False
  end.

Definition demo_catalog_sem : Sem pgE demo_cat := fun X c d x d' =>
  demo_catalog X c d = (x, d') \/ (d' = d /\ demo_listing c d x).

Lemma demo_pages conds (lim off : Z) d :
  demo_many ((conds : list (string * sqlval)).*2 ++ [VInt lim; VInt off]) d = Err db_error.
Proof. destruct conds as [|[t v] cs]; [done|]. cbn. destruct v; [done..|]. by destruct cs. Qed.

(** A statement that is no listing is the one of the function. *)
#[local] Ltac run_demo H :=
  destruct H as [H|[_ H]]; [unfold demo_catalog in H; cbv beta iota in H|try by destruct H].
#[local] Ltac no_count H := destruct H as [[what H] _]; vm_compute in H; discriminate H.

#[export] Instance demo_catalog_database : CatalogDatabase demo_cat.
Proof.
  refine {| cat_sem := demo_catalog_sem; customers_table d := cat_customers (proj1_sig d);
            products_table d := cat_products (proj1_sig d) |}.
  - intros d. apply demo_customers.
  - intros d. apply demo_products.
  - intros what args d x d' [Hx|[-> _]]; [|done]. by injection Hx as <- <-.
  - intros what args d x d' [Hx|[-> _]]; [|done]. by injection Hx as <- <-.
  - intros c d x d' Hx. run_demo Hx. cbn [demo_exec customer_args] in Hx. revert Hx. destruct c.
    by apply (insert_row_result customer.Document cat_customers _ _ _ put_customers_law (fun d => proj2 (demo_customers d))).
  - intros c d x d' Hx. run_demo Hx. cbn [demo_exec] in Hx. revert Hx.
    by apply (update_row_result customer.Document cat_customers _ _ _ put_customers_law (fun d => proj2 (demo_customers d))).
  - intros id d x d' Hx. run_demo Hx. cbn [demo_exec] in Hx. rewrite bool_decide_eq_true_2 in Hx by done.
    apply (update_row_result customer.Document cat_customers _ _ customer_fails put_customers_law
             (fun d => proj2 (demo_customers d)) eq_refl (fun _ => True)) in Hx as [Hx Hp]; [|done]. by split; [exists 0|].
  - intros id d x d' Hx. run_demo Hx; [|no_count Hx]. injection Hx as <- <-. eapply found_by_id, demo_customers.
  - intros k d x d' Hx. run_demo Hx; [|no_count Hx]. injection Hx as <- <-. apply found_by_key.
  - intros cs lim off d x d' Hx. run_demo Hx.
    + rewrite demo_pages in Hx. by injection Hx as <- <-.
    + destruct Hx as (_ & Hx & _). specialize (fun conds => Hx cs conds lim off eq_refl eq_refl). by destruct x.
  - intros p d x d' Hm Hx. run_demo Hx. cbn [demo_exec product_args scanProduct] in Hx.
    rewrite parse_amount_Decimal in Hx by done. cbn [bind_ok] in Hx. revert Hx. destruct p.
    by apply (insert_row_result product.SKU cat_products _ _ _ put_products_law (fun d => proj2 (demo_products d))).
  - intros p d x d' Hm Hx. run_demo Hx. cbn [demo_exec] in Hx. rewrite parse_amount_Decimal in Hx by done. revert Hx.
    by apply (update_row_result product.SKU cat_products _ _ _ put_products_law (fun d => proj2 (demo_products d))).
  - intros id d x d' Hx. run_demo Hx. cbn [demo_exec] in Hx. rewrite bool_decide_eq_false_2 in Hx by done.
    apply (update_row_result product.SKU cat_products _ _ product_fails put_products_law
             (fun d => proj2 (demo_products d)) eq_refl (fun _ => True)) in Hx as [Hx Hp]; [|done]. by split; [exists 0|].
  - intros id d x d' Hx. run_demo Hx; [|no_count Hx]. injection Hx as <- <-. eapply found_by_id, demo_products.
  - intros k d x d' Hx. run_demo Hx; [|no_count Hx]. injection Hx as <- <-. apply found_by_key.
  - intros ids d x d' Hx. run_demo Hx; [|destruct Hx as [Hlen _]; cbn in Hlen; lia].
    injection Hx as <- <-. cbn. eexists. split; [done|].
    apply Forall_forall. intros p (id & Hid & Hp)%list_elem_of_omap.
    destruct (demo_products d) as [Hrow _]. destruct (Hrow _ _ Hp) as [-> _]. done.
  - intros cs lim off d x d' Hx. run_demo Hx.
    + rewrite demo_pages in Hx. by injection Hx as <- <-.
    + destruct Hx as (_ & _ & Hx). specialize (fun conds => Hx cs conds lim off eq_refl eq_refl). by destruct x.
Defined.

(** The services over it, with a clock that stands still and the next id free. *)
#[export] Instance demo_net : Handler netE demo_cat := fun X e d =>
  match e in netE X return X * demo_cat with
  | Sql c => handle c d
  | Clock => (0, d)
  | FreshID => (N.of_nat (S (size (cat_customers (proj1_sig d)) + size (cat_products (proj1_sig d)))), d)
  end.

Lemma demo_net_sem X (e : netE X) d x d' : handle e d = (x, d') -> sem e d x d'.
Proof.
  destruct e as [Y c| |]; intros He; [by left|by injection He as <- <-|].
  injection He as <- <-. split; [done|]. unfold uuid_Nil. lia.
Qed.

Lemma none_ok : ok_cat (mkCat ∅ ∅) = true.
Proof. reflexivity. Qed.

Definition demo_none : demo_cat := exist _ (mkCat ∅ ∅) none_ok.

(** Two clients register the same document at the same time, a third one creates a
    product; customer 1 is deactivated at the end. *)
Definition demo_catalog_requests : list (customer.request + product.request) :=
  [inl (customer.QCreate customer.ann); inl (customer.QCreate customer.ann);
   inr (product.QCreate (product.mkCreateInput "Pen" "P-1" (mkMoney 150))); inl (customer.QDeactivate 1)].

Definition demo_schedule : list nat := [0; 1; 0; 1; 0; 1; 2; 2; 2; 0; 1; 2; 2; 3; 3; 3; 3]%nat.

Definition demo_catalog_run : list (prog netE unit) * demo_cat :=
  run_schedule demo_net demo_schedule (serve_catalog <$> demo_catalog_requests) demo_none.

Lemma demo_catalog_steps :
  pool_steps (serve_catalog <$> demo_catalog_requests, demo_none) (demo_catalog_run.1, demo_catalog_run.2).
Proof.
  rewrite <- surjective_pairing. apply (pool_steps_mono (sem_of_handler demo_net)); [|apply run_schedule_steps].
  intros X e d x d' Hs. by apply demo_net_sem.
Qed.

(** ** Properties *)

(** C15: the PostgreSQL repositories of customers and products implement the ports.
    Over any database whose statements do what PostgreSQL's do on the two tables, each
    repository call answers and changes its table as the contract of the port says: a
    creation inserts exactly the given record, on a free id and under a document or SKU
    no other record has, an update changes the
    editable columns of that record and no other, a deactivation only clears [active];
    "not found" is answered only when no row has the id or key, and success only when
    one has; a lookup answers a stored record with the id, document or SKU asked for; a
    page holds stored records that the filter selects and, when its arithmetic stays in
    range, exactly the window of all of them in the order of their creation, where a text
    selects by ILIKE: for texts without wildcards, over ASCII columns, what the in-memory
    adapters match.  Other failures leave the table as it was or fully changed, and no
    call touches the other table. *)
Theorem postgres_catalog_refines `{!CaseTables, !Ilike} {W : Type} `{!CatalogDatabase W} :
  (forall X (e : customer.repoE X) (w : W) (x : X) (w' : W),
     exec (customer_pg X e) w x w' ->
     customer_spec e (customers_table w) x (customers_table w') /\ products_table w' = products_table w) /\
  (forall X (e : product.repoE X) (w : W) (x : X) (w' : W),
     product_call_ok e -> exec (product_pg X e) w x w' ->
     product_spec e (products_table w) x (products_table w') /\ customers_table w' = customers_table w) /\
  (forall f c, customer_plain f -> is_ascii (customer.Name c) -> is_ascii (customer.Document c) ->
     customer_selects f c = customer.matches c f) /\
  (forall f p, product_plain f -> is_ascii (product.Name p) -> is_ascii (product.SKU p) ->
     product_selects f p = product.matches p f).
Proof.
  split; [intros X e w x w'; apply customer_pg_refines|]. split; [intros X e w x w'; apply product_pg_refines|].
  split; [apply customer_selects_matches|apply product_selects_matches].
Qed.

(** A database with Ann, who is active, and Bob, who is not. *)
Definition demo_ann : customer.Customer := customer.mkCustomer 1 "Ann" "123" "ann@x" "" true 0 0.
Definition demo_bob : customer.Customer := customer.mkCustomer 2 "Bob" "456" "" "" false 5000 5000.

Lemma demo_two_ok : ok_cat (mkCat {[1%N := demo_ann; 2%N := demo_bob]} ∅) = true.
Proof. vm_compute. reflexivity. Qed.

Definition demo_two : demo_cat := exist _ (mkCat {[1%N := demo_ann; 2%N := demo_bob]} ∅) demo_two_ok.

(** The active customers with an "an" in their name. *)
Definition demo_filter : customer.CustomerFilter := customer.mkFilter "an" "" (Some true) 1 20.

Lemma demo_filter_conditions (cs : list (string * sqlval)) lim off :
  page_text ("SELECT " +:+ customerSelectColumns +:+ " FROM customers") [("name ILIKE ", VText "%an%"); ("active = ", VBool true)] =
    page_text ("SELECT " +:+ customerSelectColumns +:+ " FROM customers") cs ->
  [VText "%an%"; VBool true; VInt 20; VInt 0] = cs.*2 ++ [VInt lim; VInt off] ->
  is_Some (mapM customer_condition cs) ->
  cs = [("name ILIKE ", VText "%an%"); ("active = ", VBool true)] /\ lim = 20 /\ off = 0.
Proof.
  intros Hsql Hargs [conds Hconds]. destruct cs as [|[n1 v1] [|[n2 v2] [|c cs]]]; cbn in Hargs; try discriminate Hargs.
  2: { exfalso. apply (f_equal length) in Hargs. cbn in Hargs. rewrite length_app, length_fmap in Hargs. cbn in Hargs.
       injection Hargs as Hargs. rewrite Nat.add_comm in Hargs. discriminate Hargs. }
  cbn in Hargs. injection Hargs as <- <- <- <-. cbn in Hconds. unfold customer_condition in Hconds. cbn in Hconds.
  destruct (bool_decide_reflect (n2 = "active = ")) as [->|]; cbn in Hconds; [|by repeat case_bool_decide].
  destruct (bool_decide_reflect (n1 = "name ILIKE ")) as [->|]; [done|].
  destruct (bool_decide_reflect (n1 = "document ILIKE ")) as [->|]; [|discriminate Hconds].
  vm_compute in Hsql. discriminate Hsql.
Qed.

Lemma demo_page_run :
  exec (customer_pg _ (customer.RList demo_filter)) demo_two (Ok (mkPage [demo_ann] 1 20 1 1)) demo_two.
Proof.
  exists (Ok [VInt 1]), demo_two. split.
  { right. split; [done|]. split; [by eexists|by eexists]. }
  exists (Ok (mkRows [customer_args demo_ann] None)), demo_two. split; [|by split].
  right. split; [done|]. split; [repeat constructor|]. split.
  - intros cs conds lim off Hsql Hargs Hconds.
    destruct (demo_filter_conditions cs lim off Hsql Hargs ltac:(by eexists)) as (-> & -> & ->).
    injection Hconds as <-. exists [demo_ann]. split; [vm_compute; reflexivity|]. split; [repeat constructor|reflexivity].
  - intros cs conds lim off Hsql _ _. vm_compute in Hsql. discriminate Hsql.
Qed.

(** An update of a customer nobody has, and a page. *)
Lemma postgres_catalog_refines_witness :
  let carl := customer.mkCustomer 7 "Carl" "9" "" "" true 0 0 in
  customer_spec (customer.RUpdate carl) (customers_table demo_two) (Err customer.ErrNotFound) (customers_table demo_two) /\
  table_page customer.ID customer.CreatedAt (customer_selects demo_filter) 1 20 (customers_table demo_two) [demo_ann].
Proof.
  cbv zeta. destruct (@postgres_catalog_refines no_tables ascii_ilike demo_cat demo_catalog_database) as [H _]. split.
  - refine (proj1 (H _ (customer.RUpdate (customer.mkCustomer 7 "Carl" "9" "" "" true 0 0)) demo_two _ demo_two _)).
    exists (Ok 0), demo_two. split; [by left|by split].
  - destruct (H _ (customer.RList demo_filter) demo_two _ demo_two demo_page_run) as [[_ [_ Hpage]] _].
    apply Hpage. split; [done|]. split; [done|]. vm_compute. discriminate.
Defined.

(** C11: the rules of the catalog hold at the granularity of SQL statements
    (BR-CUS-001, 002, 004 and BR-PRD-001, 002).  When requests to the customer and
    product services are served concurrently over one PostgreSQL database, under every
    interleaving of their statements, finished or not, no row is removed or changes its
    creation time, a deactivated record is never reactivated, every row has a non-nil
    id, a name and a document or SKU, and no two rows share a document or a SKU - also
    when two clients pass the check for the same document before either inserts it:
    because the unique index refuses a row whose key another row has, and the services
    send no other statement that sets a key. *)
Theorem postgres_requests_keep_catalog `{!CaseTables, !Ilike} {W : Type} `{!CatalogDatabase W}
    (rs : list (customer.request + product.request)) (w : W) (ps : list (prog netE unit)) (w' : W) :
  Forall typed_request rs -> rows_filled w -> keys_unique w ->
  pool_steps (serve_catalog <$> rs, w) (ps, w') ->
  rows_kept w w' /\ rows_filled w' /\
  unique_by customer.Document (customers_table w') /\ unique_by product.SKU (products_table w').
Proof.
  intros Hrs Hw Hu Hsteps. destruct (catalog_together rs w (ps, w') Hrs (conj Hw Hu) Hsteps) as (Hk & Hf & Hc & Hp).
  by split_and!.
Qed.

Lemma postgres_requests_keep_catalog_witness :
  let w' := demo_catalog_run.2 in
  rows_kept demo_none w' /\ rows_filled w' /\
  unique_by customer.Document (customers_table w') /\ unique_by product.SKU (products_table w') /\
  size (customers_table w') = 1%nat /\ size (products_table w') = 1%nat.
Proof.
  destruct (postgres_requests_keep_catalog demo_catalog_requests demo_none demo_catalog_run.1 demo_catalog_run.2)
    as (H1 & H2 & H3 & H4).
  - by repeat constructor.
  - split; apply map_Forall_empty.
  - split; apply unique_by_empty.
  - apply demo_catalog_steps.
  - split; [exact H1|]. split; [exact H2|]. split; [exact H3|]. split; [exact H4|]. split; vm_compute; reflexivity.
Defined.
