(* ===== verification/PgUsers.v ===== *)
(** PgUsers: the PostgreSQL adapter of internal/auth over the unique index on emails, and
    the authentication service over it for clients that register, log in and seed at the
    same time. *)
From S2P Require Import Prelude Errors Effects GoStrings Uuid Calendar Catalog Auth Schema Postgres PgOrders.

(** ** The table of users, by email *)
Definition stored_user (u : auth.User) : auth.User :=
  auth.mkUser (auth.ID u) (auth.Name u) (auth.Email u) (auth.PasswordHash u) (auth.URole u) (auth.Active u)
    (stored_time (auth.CreatedAt u)) (stored_time (auth.UpdatedAt u)).

(** A row is added on a free email. *)
Definition user_added (u : auth.User) (t t' : gmap string auth.User) : Prop :=
  t !! auth.Email u = None /\ t' = <[auth.Email u := stored_user u]> t.

(** The email or the id of the row is in use. *)
Definition user_clash (u : auth.User) (t : gmap string auth.User) : Prop :=
  is_Some (t !! auth.Email u) \/ exists email v, t !! email = Some v /\ auth.ID v = auth.ID u.

(** A session on the database: each statement is its own transaction.  A violation of a
    unique index has SQLSTATE 23505; any other failure of the INSERT may come after it
    took effect. *)
Class UserDatabase (W : Type) := {
  usr_sem :: Sem pgE W;
  users_table : W -> gmap string auth.User;
  users_constrained w : map_Forall (fun email u => auth.Email u = email /\ users_row u = true) (users_table w);
  select_user_law email w x w' :
    sem (QueryRow selectUser [VText email]) w x w' ->
    users_table w' = users_table w /\
    match x with
    | Ok r => exists u, users_table w !! email = Some u /\ r = user_args u
    | Err e => if errors_Is e PgxErrNoRows then users_table w !! email = None
               else errors_Is e AuthErrUserNotFound = false
    | Panic _ => False
    end;
  insert_user_law u w x w' :
    sem (Exec insertUser (user_args u)) w x w' ->
    match x with
    | Ok _ => user_added u (users_table w) (users_table w')
    | Err e => (errors_As_PgError e = Some "23505" /\ users_table w' = users_table w /\ user_clash u (users_table w)) \/
               (errors_As_PgError e <> Some "23505" /\ errors_Is e AuthErrEmailTaken = false /\
                (users_table w' = users_table w \/ user_added u (users_table w) (users_table w')))
    | Panic _ => False
    end;
}.

(** ** The contract of the repository *)
Definition find_spec (email : string) (t : gmap string auth.User) (x : res auth.User) t' : Prop :=
  t' = t /\
  match x with
  | Ok u => t !! email = Some u
  | Err e => (e = auth.ErrUserNotFound /\ t !! email = None) \/ errors_Is e AuthErrUserNotFound = false
  | Panic _ => False
  end.

Definition create_spec (u : auth.User) (t : gmap string auth.User) (x : res unit) t' : Prop :=
  match x with
  | Ok _ => user_added u t t'
  | Err e => (e = auth.ErrEmailTaken /\ t' = t /\ user_clash u t) \/
             (errors_Is e AuthErrEmailTaken = false /\ (t' = t \/ user_added u t t'))
  | Panic _ => False
  end.

Section adapter.
Context {W : Type} `{!UserDatabase W}.

Lemma user_find_refines email w x w' :
  exec (user_FindByEmail email) w x w' -> find_spec email (users_table w) x (users_table w').
Proof.
  intros Hx. apply exec_bind_err in Hx as (y & w1 & Hy & Hx). apply exec_call, select_user_law in Hy as [Ht Hy].
  destruct y as [r|e|why]; destruct Hx as [-> ->]; (split; [exact Ht|]); [| |done].
  - destruct Hy as (u & Hu & ->). by destruct u.
  - cbn. unfold no_rows. destruct (errors_Is e PgxErrNoRows); auto.
Qed.

Lemma user_create_refines u w x w' :
  exec (user_Create u) w x w' -> create_spec u (users_table w) x (users_table w').
Proof.
  intros Hx. apply exec_bind_err in Hx as (y & w1 & Hy & Hx). apply exec_call, insert_user_law in Hy.
  destruct y as [n|e|why]; destruct Hx as [-> ->]; [exact Hy| |done]. cbn.
  destruct Hy as [(-> & Ht & Hc)|(Hp & He & Ht)]; [by left|]. rewrite bool_decide_eq_false_2 by done. by right.
Qed.
End adapter.

(** ** The service over the database

    bcrypt is its laws, the clock gives any time, and [uuid.NewString] a text it never
    gave before. *)
Section accounts.
Context `{!CaseTables, !UuidText, !LocalZone, !auth.Bcrypt} {D : Type} `{!UserDatabase D}.

#[export] Instance accounts_sem : Sem auth.authE (D * gset string) := fun X e w x w' =>
  match e in auth.authE X return X -> Prop with
  | auth.FindByEmail email => fun x => exec (user_FindByEmail email) w.1 x w'.1 /\ w'.2 = w.2
  | auth.CreateUser u => fun x => exec (user_Create u) w.1 x w'.1 /\ w'.2 = w.2
  | auth.GenerateFromPassword p => fun x => w' = w /\ exists salt, x = auth.bcrypt_generate salt p
  | auth.CompareHashAndPassword h p => fun x => w' = w /\ x = auth.bcrypt_compare h p
  | auth.Now => fun _ => w' = w
  | auth.NewString => fun id => id ∉ w.2 /\ w' = (w.1, {[id]} ∪ w.2)
  | auth.Info _ => fun _ => w' = w
  end x.

(** How far a request has come. *)
Inductive progress :=
| Idle
| Found (email : string) (u : auth.User)
| Drawn (id : string)
| Created (u : auth.User)
| Taken (email : string)
| Spent.

Definition accounts_next {X} (s : progress) (e : auth.authE X) : X -> progress :=
  match e in auth.authE X return X -> progress with
  | auth.FindByEmail email => fun x => match x with Ok u => Found email u | _ => s end
  | auth.CreateUser u => fun x =>
      match x with
      | Ok _ => Created u
      | Err e => if errors_Is e AuthErrEmailTaken then Taken (auth.Email u) else Spent
      | Panic _ => Spent
      end
  | auth.NewString => fun id => Drawn id
  | _ => fun _ => s
  end.

(** A user is created under an id just drawn; the answers of bcrypt are its own. *)
Definition accounts : protocol auth.authE progress :=
  mkProtocol
    (fun X s e => match e with auth.CreateUser u => s = Drawn (auth.ID u) | _ => True end)
    (fun X s e => match e in auth.authE X return X -> Prop with
                  | auth.GenerateFromPassword p => fun x => forall h, x = Ok h -> auth.bcrypt_compare h p = true
                  | auth.CompareHashAndPassword h p => fun x => x = auth.bcrypt_compare h p
                  | _ => fun _ => True
                  end)
    (@accounts_next).

(** What a state says about the table. *)
Definition fact (t0 : gmap string auth.User) (s : progress) (w : D * gset string) : Prop :=
  let t := users_table w.1 in
  match s with
  | Idle | Spent => True
  | Found email u => t !! email = Some u
  | Drawn id => id ∈ w.2 /\ map_Forall (fun _ u => auth.ID u <> id) t
  | Created u => t0 !! auth.Email u = None /\ t !! auth.Email u = Some (stored_user u)
  | Taken email => is_Some (t !! email)
  end.

Definition apart (s s' : progress) : Prop :=
  match s, s' with
  | Drawn id, Drawn id' => id <> id'
  | Created u, Created v => auth.Email u <> auth.Email v
  | _, _ => True
  end.

Definition ids_drawn (w : D * gset string) : Prop := map_Forall (fun _ u => auth.ID u ∈ w.2) (users_table w.1).

Record accounts_ok (t0 : gmap string auth.User) (ss : list progress) (w : D * gset string) : Prop := mkAccountsOk {
  ao_kept : t0 ⊆ users_table w.1;
  ao_ids : ids_drawn w;
  ao_facts i s : ss !! i = Some s -> fact t0 s w;
  ao_apart i j s s' : i <> j -> ss !! i = Some s -> ss !! j = Some s' -> apart s s';
}.

Lemma apart_sym s s' : apart s s' -> apart s' s.
Proof. destruct s, s'; cbn; auto. Qed.

Lemma users_move t0 ss w i s1 w' :
  accounts_ok t0 ss w -> users_table w.1 ⊆ users_table w'.1 -> ids_drawn w' ->
  (forall j s, j <> i -> ss !! j = Some s -> fact t0 s w' /\ apart s1 s) ->
  fact t0 s1 w' -> accounts_ok t0 (<[i := s1]> ss) w'.
Proof.
  intros [Hk Hi Hf Ha] Ht Hi' Ho Hs1. split; [by etrans|done| |].
  - intros j s [(<- & <- & _)|[Hne Hj]]%list_lookup_insert_Some; [done|by destruct (Ho j s)].
  - intros j k s s' Hjk [(<- & <- & _)|[Hj Hs]]%list_lookup_insert_Some [(<- & <- & _)|[Hk' Hs']]%list_lookup_insert_Some;
      [done| | |exact (Ha _ _ _ _ Hjk Hs Hs')].
    + by destruct (Ho k s').
    + apply apart_sym. by destruct (Ho j s).
Qed.

(** A step that leaves the table alone. *)
Lemma accounts_still t0 ss w i s s1 w' :
  accounts_ok t0 ss w -> ss !! i = Some s -> users_table w'.1 = users_table w.1 -> w'.2 = w.2 ->
  (s1 = s \/ fact t0 s1 w /\ forall s, apart s1 s) -> accounts_ok t0 (<[i := s1]> ss) w'.
Proof.
  intros Hok Hs Ht Hw Hs1. assert (Hfact : forall s, fact t0 s w -> fact t0 s w').
  { intros s'. unfold fact. by rewrite Ht, Hw. }
  eapply users_move; [exact Hok|by rewrite Ht|unfold ids_drawn; rewrite Ht, Hw; apply Hok| |].
  - intros j s' Hne Hj. split; [exact (Hfact _ (ao_facts _ _ _ Hok _ _ Hj))|]. destruct Hs1 as [->|[_ Hs1]]; [|done].
    eapply ao_apart; [exact Hok| |exact Hs|exact Hj]. congruence.
  - apply Hfact. destruct Hs1 as [->|[Hs1 _]]; [exact (ao_facts _ _ _ Hok _ _ Hs)|done].
Qed.

(** A new row under the id that thread [i] drew. *)
Lemma accounts_added t0 ss w i u s1 w' :
  accounts_ok t0 ss w -> ss !! i = Some (Drawn (auth.ID u)) -> user_added u (users_table w.1) (users_table w'.1) ->
  w'.2 = w.2 -> s1 = Created u \/ s1 = Spent -> accounts_ok t0 (<[i := s1]> ss) w'.
Proof.
  intros Hok Hi [Hfree Ht] Hw Hs1. destruct (ao_facts _ _ _ Hok _ _ Hi) as [Hid _].
  assert (Hsub : users_table w.1 ⊆ users_table w'.1) by (rewrite Ht; by apply insert_subseteq).
  eapply users_move; [exact Hok|done| | |].
  - unfold ids_drawn. rewrite Ht, Hw. apply map_Forall_insert_2; [done|apply Hok].
  - intros j s Hne Hj. pose proof (ao_facts _ _ _ Hok _ _ Hj) as Hf.
    assert (Ha : apart (Drawn (auth.ID u)) s) by (eapply ao_apart; [exact Hok| |exact Hi|exact Hj]; congruence).
    split.
    + destruct s as [|email v|id|v|email|]; cbn in *; [done|by eapply lookup_weaken| | |by eapply lookup_weaken_is_Some|done].
      * rewrite Ht, Hw. split; [apply Hf|]. apply map_Forall_insert_2; [exact Ha|apply Hf].
      * split; [apply Hf|]. eapply lookup_weaken; [apply Hf|done].
    + destruct Hs1 as [->| ->]; destruct s as [|email v|id|v|email|]; cbn in *; try done. intros He.
      rewrite He in Hfree. by destruct Hf as [_ Hf]; rewrite Hf in Hfree.
  - destruct Hs1 as [->| ->]; [|done]. cbn. rewrite Ht, lookup_insert_eq. split; [|done].
    eapply lookup_weaken_None; [exact Hfree|apply Hok].
Qed.

Lemma accounts_possible t0 ss w i s X (e : auth.authE X) x w' :
  ss !! i = Some s -> accounts_ok t0 ss w -> allowed accounts s e -> sem e w x w' -> possible accounts s e x.
Proof.
  intros _ _ _. destruct e; cbn; try done.
  - intros [_ [salt ->]] h Hh. by eapply auth.bcrypt_correct.
  - by intros [_ ->].
Qed.

Lemma users_step t0 ss w i s X (e : auth.authE X) x w' :
  ss !! i = Some s -> accounts_ok t0 ss w -> allowed accounts s e -> sem e w x w' ->
  accounts_ok t0 (<[i := next accounts s e x]> ss) w'.
Proof.
  intros Hs Hok He Hx. destruct e as [email|u|p|h p| | |msg]; cbn in He, Hx |- *.
  - destruct Hx as [[Ht Hx]%user_find_refines Hw]. eapply accounts_still; [exact Hok|exact Hs|done|done|].
    destruct x as [u|e|why]; [|by left..]. right. by split.
  - destruct Hx as [Hx%user_create_refines Hw]. subst s. destruct x as [y|e|why]; [|..|done].
    + eapply accounts_added; [exact Hok|exact Hs|exact Hx|exact Hw|by left].
    + destruct Hx as [(-> & Ht & Hc)|[-> [Ht|Hx]]].
      * cbn. eapply accounts_still; [exact Hok|exact Hs|done|done|]. right. split; [|done].
        destruct Hc as [Hc|(email & v & Hv & Hid)]; [done|]. destruct (ao_facts _ _ _ Hok _ _ Hs) as [_ Hn]. by destruct (Hn _ _ Hv).
      * eapply accounts_still; [exact Hok|exact Hs|done|done|]. by right.
      * eapply accounts_added; [exact Hok|exact Hs|exact Hx|exact Hw|by right].
  - destruct Hx as [-> _]. eapply accounts_still; [exact Hok|exact Hs|done|done|by left].
  - destruct Hx as [-> _]. eapply accounts_still; [exact Hok|exact Hs|done|done|by left].
  - subst w'. eapply accounts_still; [exact Hok|exact Hs|done|done|by left].
  - destruct Hx as [Hn ->]. eapply users_move; [exact Hok|done| | |]; cbn.
    + intros email u Hu. apply elem_of_union_r. by eapply (ao_ids _ _ _ Hok).
    + intros j s' Hne Hj. pose proof (ao_facts _ _ _ Hok _ _ Hj) as Hf. destruct s' as [|email v|id|v|email|]; cbn in *; try done.
      destruct Hf as [Hid Hf]. split; [split; [by apply elem_of_union_r|done]|]. by intros <-.
    + split; [by apply elem_of_union_l, elem_of_singleton|]. intros email u Hu <-.
      by apply Hn, (ao_ids _ _ _ Hok email).
  - subst w'. eapply accounts_still; [exact Hok|exact Hs|done|done|by left].
Qed.

(** *** The requests *)
Context (m : auth.TokenManager).

Inductive account_request :=
| QRegister (req : auth.RegisterRequest)
| QLogin (req : auth.LoginRequest)
| QSeed (log : bool).

Inductive account_reply :=
| Registered (x : res auth.UserResponse)
| LoggedIn (x : res auth.TokenResponse)
| Seeded (x : res unit).

(** A request, answered: the reply with the request it belongs to. *)
Definition serve_account (r : account_request) : prog auth.authE (account_request * account_reply) :=
  match r with
  | QRegister req => x <- auth.Register req ;; Ret (r, Registered x)
  | QLogin req => x <- auth.Login m req ;; Ret (r, LoggedIn x)
  | QSeed log => x <- auth.SeedDefaultAdmin log ;; Ret (r, Seeded x)
  end.

(** The account a registration asks for. *)
Definition account_of (req : auth.RegisterRequest) (u : auth.User) : Prop :=
  auth.Email u = auth.normalizeEmail (auth.rr_Email req) /\ auth.Name u = auth.rr_Name req /\
  auth.URole u = auth.rr_Role req /\ auth.Active u = true /\
  auth.bcrypt_compare (auth.PasswordHash u) (auth.rr_Password req) = true.

Definition response_of (u : auth.User) : auth.UserResponse :=
  auth.mkUserResponse (auth.ID u) (auth.Name u) (auth.Email u) (auth.URole u).

(** The account lets the request log in. *)
Definition admits (req : auth.LoginRequest) (u : auth.User) (token : auth.TokenResponse) : Prop :=
  auth.Active u = true /\ auth.bcrypt_compare (auth.PasswordHash u) (auth.lr_Password req) = true /\
  exists now, let '(text, expiresIn) := auth.Issue m now (auth.ID u) (auth.URole u) in
              token = auth.mkToken text "Bearer" expiresIn.

Definition email_taken : error := Duplicate "Email already registered".

(** What the state of a request says of its reply. *)
Definition reply_fits (s : progress) (a : account_request * account_reply) : Prop :=
  match a with
  | (QRegister req, Registered (Ok resp)) => exists u, s = Created u /\ account_of req u /\ resp = response_of u
  | (QRegister req, Registered (Err e)) => e = email_taken -> s = Taken (auth.normalizeEmail (auth.rr_Email req))
  | (QLogin req, LoggedIn (Ok token)) =>
      exists u, s = Found (auth.normalizeEmail (auth.lr_Email req)) u /\ admits req u token
  | (QSeed _, Seeded (Ok _)) =>
      (exists u, s = Found auth.defaultAdminEmail u) \/
      (exists u, s = Created u /\ auth.Email u = auth.defaultAdminEmail) \/ s = Taken auth.defaultAdminEmail
  | _ => True
  end.

#[local] Tactic Notation "call_and" simple_intropattern(x) simple_intropattern(H) :=
  apply conforms_call; [first [exact I|reflexivity]|intros x H].

Lemma validate_not_taken req e : auth.validateRegister req = Some e -> e <> email_taken.
Proof. unfold auth.validateRegister. intros Hv ->. repeat case_match; discriminate. Qed.

Lemma Register_fits req :
  conforms accounts Idle (auth.Register req) (fun s x => reply_fits s (QRegister req, Registered x)).
Proof.
  unfold auth.Register. destruct (auth.validateRegister req) as [e|] eqn:Hv.
  { cbn. intros ->. by destruct (validate_not_taken _ _ Hv). }
  destruct (auth.ParseRole (auth.rr_Role req)) as [role|e|why] eqn:Hp; [|done..]. apply auth.ParseRole_Ok in Hp as [-> _].
  apply conforms_bind_err. call_and hash Hh. destruct hash as [hash|e|why]; [|done..].
  apply conforms_bind. call_and now Hnow. apply conforms_bind. call_and id Hid. apply conforms_bind_err. call_and y Hy.
  destruct y as [[]|e|why]; cbn; [| |done].
  - eexists. split; [reflexivity|]. split; [|reflexivity]. repeat split. by apply Hh.
  - destruct (errors_Is e AuthErrEmailTaken); [done|]. discriminate.
Qed.

Lemma Login_fits req :
  conforms accounts Idle (auth.Login m req) (fun s x => reply_fits s (QLogin req, LoggedIn x)).
Proof.
  unfold auth.Login, auth.ComparePassword. apply conforms_bind. call_and found Hf. destruct found as [u|e|why]; [| |done].
  - apply conforms_bind. call_and same Hs. cbn in Hs. destruct same; cbn [negb]; [|done]. destruct (auth.Active u) eqn:Ha; cbn [negb]; [|done].
    apply conforms_bind. call_and now Hnow. destruct (auth.Issue m now (auth.ID u) (auth.URole u)) as [text expiresIn] eqn:Hi.
    exists u. split; [done|]. split; [done|]. split; [done|]. exists now. by rewrite Hi.
  - destruct (errors_Is e AuthErrUserNotFound); cbn; [|done]. by split.
Qed.

Lemma Seed_fits log :
  conforms accounts Idle (auth.SeedDefaultAdmin log) (fun s x => reply_fits s (QSeed log, Seeded x)).
Proof.
  unfold auth.SeedDefaultAdmin, auth.HashPassword. apply conforms_bind. call_and found Hf. destruct found as [u|e|why]; [|..|done].
  { cbn. left. by exists u. }
  destruct (errors_Is e AuthErrUserNotFound); cbn [negb]; [|done].
  apply conforms_bind_res. call_and hash Hh. destruct hash as [hash|e'|why]; [|done..].
  apply conforms_bind. call_and now Hnow. apply conforms_bind. call_and id Hid. apply conforms_bind. call_and y Hy.
  destruct y as [[]|e'|why]; [| |done].
  - destruct log; cbn; repeat split; try done; intros; right; left; by eexists.
  - cbn. destruct (errors_Is e' AuthErrEmailTaken); cbn; [|done]. by right; right.
Qed.

Lemma serve_account_fits r : conforms accounts Idle (serve_account r) reply_fits.
Proof.
  destruct r as [req|req|log]; cbn [serve_account]; apply conforms_bind;
    (eapply conforms_mono; [|first [apply Register_fits|apply Login_fits|apply Seed_fits]]); by intros s x.
Qed.

(** What a reply says of the tables before and after. *)
Definition answered (t0 t : gmap string auth.User) (a : account_request * account_reply) : Prop :=
  match a with
  | (QRegister req, Registered (Ok resp)) =>
      exists u, t0 !! auth.Email u = None /\ t !! auth.Email u = Some (stored_user u) /\ account_of req u /\ resp = response_of u
  | (QRegister req, Registered (Err e)) =>
      e = email_taken -> is_Some (t !! auth.normalizeEmail (auth.rr_Email req))
  | (QLogin req, LoggedIn (Ok token)) =>
      exists u, t !! auth.normalizeEmail (auth.lr_Email req) = Some u /\ admits req u token
  | (QSeed _, Seeded (Ok _)) => is_Some (t !! auth.defaultAdminEmail)
  | _ => True
  end.

Definition registered_email (a : account_request * account_reply) : option string :=
  match a with
  | (QRegister req, Registered (Ok _)) => Some (auth.normalizeEmail (auth.rr_Email req))
  | _ => None
  end.

Lemma fits_answered t0 s w a : fact t0 s w -> reply_fits s a -> answered t0 (users_table w.1) a.
Proof.
  destruct a as [[req|req|log] [[x|e|why]|[x|e|why]|[x|e|why]]]; cbn; try done.
  - intros Hf (u & -> & Ha & ->). exists u. by destruct Hf.
  - intros Hf He Hs. by rewrite (He Hs) in Hf.
  - intros Hf (u & -> & Ha). by exists u.
  - intros Hf [[u ->]|[(u & -> & He)| ->]]; [by exists u| |done]. destruct Hf as [_ Hf]. rewrite <- He. by eexists.
Qed.

Lemma registered_created s a email :
  reply_fits s a -> registered_email a = Some email -> exists u, s = Created u /\ auth.Email u = email.
Proof.
  destruct a as [[req|req|log] [[x|e|why]|[x|e|why]|[x|e|why]]]; cbn; try done.
  intros (u & -> & Ha & _) [= <-]. exists u. by destruct Ha.
Qed.

(** Where the requests stand after any steps. *)
Lemma accounts_together rs w c :
  ids_drawn w -> pool_steps (serve_account <$> rs, w) c ->
  exists ss, Forall2 (fun s p => conforms accounts s p reply_fits) ss c.1 /\ accounts_ok (users_table w.1) ss c.2.
Proof.
  intros Hw Hsteps.
  eapply (pool_conforms accounts (accounts_ok (users_table w.1)) (accounts_possible _) (users_step _));
    [exact Hsteps| |].
  - apply (Forall2_same_length_lookup_2 _ (replicate (length rs) Idle)); cbn [fst].
    { by rewrite length_replicate, length_fmap. }
    intros i s p [-> _]%lookup_replicate Hp. apply list_lookup_fmap_Some in Hp as (r & -> & _). apply serve_account_fits.
  - split; [done|exact Hw| |]; [intros i s [-> _]%lookup_replicate; done|].
    intros i j s s' _ [-> _]%lookup_replicate [-> _]%lookup_replicate. done.
Qed.
End accounts.

(** ** A concrete database *)
Definition ok_users (t : gmap string auth.User) : bool :=
  bool_decide (map_Forall (fun email u => auth.Email u = email /\ users_row u = true) t).

(** Tables whose rows fit their columns. *)
Definition demo_users : Type := { t : gmap string auth.User | ok_users t = true }.

Definition put_user (u : auth.User) (d : demo_users) : res Z * demo_users :=
  match decide (ok_users (<[auth.Email u := stored_user u]> (proj1_sig d)) = true) with
  | left H => (Ok 1, exist _ _ H)
  | right _ => (Err (ErrPg "22001"), d)
  end.

Definition id_used (u : auth.User) (t : gmap string auth.User) : bool :=
  bool_decide (Exists (fun v => auth.ID v = auth.ID u) (map_to_list t).*2).

Definition insert_user (u : auth.User) (d : demo_users) : res Z * demo_users :=
  match proj1_sig d !! auth.Email u with
  | Some _ => (Err (ErrPg "23505"), d)
  | None => if id_used u (proj1_sig d) then (Err (ErrPg "23505"), d) else put_user u d
  end.

Definition other_statement : error := ErrNew "statement not supported".

#[export] Instance demo_users_handler : Handler pgE demo_users := fun X c d =>
  match c in pgE X return X * demo_users with
  | Exec sql args => match scan_user args with Ok u => insert_user u d | _ => (Err other_statement, d) end
  | QueryRow sql args =>
      match args with
      | [VText email] => (match proj1_sig d !! email with Some u => Ok (user_args u) | None => Err (ErrVar PgxErrNoRows) end, d)
      | _ => (Err other_statement, d)
      end
  | Query _ _ => (Err other_statement, d)
  | TxExec _ _ => (Err other_statement, d)
  | Begin => (Err other_statement, d)
  | Commit => (Err other_statement, d)
  | Rollback => (tt, d)
  end.

Lemma insert_user_result u d x d' :
  insert_user u d = (x, d') ->
  match x with
  | Ok _ => user_added u (proj1_sig d) (proj1_sig d')
  | Err e => (errors_As_PgError e = Some "23505" /\ proj1_sig d' = proj1_sig d /\ user_clash u (proj1_sig d)) \/
             (errors_As_PgError e <> Some "23505" /\ errors_Is e AuthErrEmailTaken = false /\
              (proj1_sig d' = proj1_sig d \/ user_added u (proj1_sig d) (proj1_sig d')))
  | Panic _ => False
  end.
Proof.
  unfold insert_user, user_clash, user_added. destruct (proj1_sig d !! auth.Email u) as [v|] eqn:Hu.
  { intros [= <- <-]. left. repeat split; eauto. }
  unfold id_used. case_bool_decide as Hid.
  { intros [= <- <-]. left. repeat split. right. apply Exists_exists in Hid as (v & Hv & Hid).
    apply list_elem_of_fmap in Hv as ([email v'] & -> & Hv%elem_of_map_to_list). by eexists _, _. }
  unfold put_user. case_decide; intros [= <- <-]; [by split|]. right. repeat split; [done|]. by left.
Qed.

#[export] Instance demo_user_database : UserDatabase demo_users.
Proof.
  refine {| usr_sem := sem_of_handler demo_users_handler; users_table d := proj1_sig d |}.
  - intros [t Ht]. cbn. unfold ok_users in Ht. by apply bool_decide_eq_true in Ht.
  - intros email d x d' Hx. cbn in Hx. injection Hx as <- <-. split; [done|].
    destruct (proj1_sig d !! email) as [u|]; [by exists u|done].
  - intros u d x d' Hx. apply insert_user_result. destruct u. exact Hx.
Defined.

(** The ports of the service over it. *)
Section demo.
#[local] Existing Instances no_tables auth.demo_bcrypt.

Definition demo_accounts : Handler auth.authE (demo_users * gset string) := fun X e w =>
  match e in auth.authE X return X * (demo_users * gset string) with
  | auth.FindByEmail email => let '(x, d) := run (user_FindByEmail email) w.1 in (x, (d, w.2))
  | auth.CreateUser u => let '(x, d) := run (user_Create u) w.1 in (x, (d, w.2))
  | auth.GenerateFromPassword p => (auth.bcrypt_generate 0 p, w)
  | auth.CompareHashAndPassword h p => (auth.bcrypt_compare h p, w)
  | auth.Now => (0, w)
  | auth.NewString => (fresh w.2, (w.1, {[fresh w.2]} ∪ w.2))
  | auth.Info _ => (tt, w)
  end.

Lemma demo_accounts_sem X (e : auth.authE X) w x w' : handle (Handler := demo_accounts) e w = (x, w') -> sem e w x w'.
Proof.
  destruct w as [d ids], e as [email|u|p|h p| | |msg]; unfold handle, demo_accounts; cbn [fst snd].
  - pose proof (run_exec demo_users_handler (user_FindByEmail email) d) as He.
    destruct (run (user_FindByEmail email) d) as [y d']. intros [= <- <-]. by split.
  - pose proof (run_exec demo_users_handler (user_Create u) d) as He.
    destruct (run (user_Create u) d) as [y d']. intros [= <- <-]. by split.
  - intros [= <- <-]. split; [done|by exists 0%nat].
  - intros [= <- <-]. by split.
  - by intros [= <- <-].
  - intros [= <- <-]. split; [apply is_fresh|done].
  - by intros [= <- <-].
Qed.
End demo.

Lemma no_users_ok : ok_users ∅ = true.
Proof. reflexivity. Qed.

Definition demo_no_users : demo_users := exist _ ∅ no_users_ok.

(** Two clients register the same email while two processes seed the admin; one of the
    clients logs in. *)
Definition demo_account_requests : list account_request :=
  [QRegister auth.demo_register; QRegister auth.demo_register; QSeed false; QSeed true;
   QLogin (auth.mkLogin "bob@x.io" "secret1")].

Definition demo_account_schedule : list nat := [0; 1; 2; 3; 0; 1; 2; 3; 2; 0; 1; 3; 1; 0; 2; 3; 2; 3; 4; 4; 4]%nat.
(** ** Properties *)

(** C12: accounts are sound under concurrency.  Registrations, logins and seeds of the
    default admin are served at the same time over one PostgreSQL database, their
    statements interleaved in any way.  At every moment no account was changed or
    removed, and of the requests already answered: a successful registration added
    exactly the account asked for, under the normalised email, with a hash of its
    password; one refused as "Email already registered" is refused because an account
    has that email; no two successful registrations have the same email, although none
    of them checks it beforehand; a token is issued only for a stored, active account
    whose hash accepts the password; a seed that succeeds leaves an account under the
    admin's email, also when another process created it in between. *)
Theorem accounts_sound_under_concurrency
    `{!CaseTables, !UuidText, !LocalZone, !auth.Bcrypt} {D : Type} `{!UserDatabase D} (m : auth.TokenManager)
    (rs : list account_request) (w : D * gset string)
    (ps : list (prog auth.authE (account_request * account_reply))) (w' : D * gset string) :
  ids_drawn w -> pool_steps (serve_account m <$> rs, w) (ps, w') ->
  users_table w.1 ⊆ users_table w'.1 /\ ids_drawn w' /\
  (forall i a, ps !! i = Some (Ret a) -> answered m (users_table w.1) (users_table w'.1) a) /\
  (forall i j a b email, i <> j -> ps !! i = Some (Ret a) -> ps !! j = Some (Ret b) ->
     registered_email a = Some email -> registered_email b <> Some email).
Proof.
  intros Hw Hsteps. destruct (accounts_together m rs w (ps, w') Hw Hsteps) as (ss & Hall & Hok). cbn [fst snd] in *.
  assert (Hfits : forall i a, ps !! i = Some (Ret a) -> exists s, ss !! i = Some s /\ reply_fits m s a).
  { intros i a Hi. by destruct (Forall2_lookup_r _ _ _ _ _ Hall Hi) as (s & Hs & Ha); exists s. }
  split; [apply Hok|]. split; [apply Hok|]. split.
  - intros i a Hi. destruct (Hfits i a Hi) as (s & Hs & Ha). eapply fits_answered; [|exact Ha].
    exact (ao_facts _ _ _ Hok _ _ Hs).
  - intros i j a b email Hij Hi Hj Hra Hrb. destruct (Hfits i a Hi) as (s & Hs & Ha), (Hfits j b Hj) as (s' & Hs' & Hb).
    destruct (registered_created _ _ _ _ Ha Hra) as (u & -> & Hu), (registered_created _ _ _ _ Hb Hrb) as (v & -> & Hv).
    pose proof (ao_apart _ _ _ Hok _ _ _ _ Hij Hs Hs') as Hne. cbn in Hne. congruence.
Qed.

#[local] Existing Instances no_tables bit_text UTC auth.demo_bcrypt.

Definition demo_accounts_run : list (prog auth.authE (account_request * account_reply)) * (demo_users * gset string) :=
  run_schedule demo_accounts demo_account_schedule (serve_account auth.demo_manager <$> demo_account_requests)
    (demo_no_users, ∅).

Lemma demo_accounts_steps :
  pool_steps (serve_account auth.demo_manager <$> demo_account_requests, (demo_no_users, ∅))
    (demo_accounts_run.1, demo_accounts_run.2).
Proof.
  rewrite <- surjective_pairing. apply (pool_steps_mono (sem_of_handler demo_accounts)); [|apply run_schedule_steps].
  intros X e w x w' Hs. by apply demo_accounts_sem.
Qed.

Lemma accounts_sound_under_concurrency_witness :
  let t := users_table demo_accounts_run.2.1 in
  (forall i a, demo_accounts_run.1 !! i = Some (Ret a) -> answered auth.demo_manager ∅ t a) /\
  size t = 2%nat /\
  demo_accounts_run.1 !! 0%nat = Some (Ret (QRegister auth.demo_register, Registered (Err email_taken))).
Proof.
  cbv zeta.
  destruct (accounts_sound_under_concurrency auth.demo_manager demo_account_requests (demo_no_users, ∅)
              demo_accounts_run.1 demo_accounts_run.2) as (_ & _ & H & _).
  - apply map_Forall_empty.
  - apply demo_accounts_steps.
  - split; [exact H|]. split; vm_compute; reflexivity.
Defined.
