(* ===== verification/Production.v ===== *)
(** Production: the API process over its PostgreSQL adapters, each acting as its port
    promises (PgOrders, PgCatalog and PgUsers prove that they do): an instance of the
    interface of Provenance whose every call may fail. *)
From S2P Require Import Prelude Errors Effects GoStrings Uuid Calendar Money Pagination Catalog Customer Product Auth OrderModel OrderRepo OrderService OrderLifecycle OrderQueue OrderSystem Http Handlers Server Schema Postgres PgPages PgOrders PgCatalog PgUsers PgSessions Provenance.

(** ** The database and the ids drawn *)
Record production := mkProduction {
  pr_orders : store;
  pr_customers : gmap uuid customer.Customer;
  pr_products : gmap uuid product.Product;
  pr_users : gmap string auth.User;
  pr_drawn : gset uuid;
}.

Section production.
Context `{!UuidText, !CaseTables, !Ilike, !LocalZone} (m : auth.TokenManager).

(** A call of the customer or product service, over its table and the ids. *)
#[export] Instance customers_sem : Sem customer.customerE production := fun X e w x w' =>
  match e in customer.customerE X return X -> Prop with
  | customer.Repo r => fun x =>
      exists t, customer_spec r (pr_customers w) x t /\
        w' = mkProduction (pr_orders w) t (pr_products w) (pr_users w) (pr_drawn w)
  | _ => fun _ => w' = w
  end x.

#[export] Instance products_sem : Sem product.productE production := fun X e w x w' =>
  match e in product.productE X return X -> Prop with
  | product.Repo r => fun x =>
      exists t, product_spec r (pr_products w) x t /\
        w' = mkProduction (pr_orders w) (pr_customers w) t (pr_users w) (pr_drawn w)
  | _ => fun _ => w' = w
  end x.

#[export] Instance users_sem : Sem auth.authE production := fun X e w x w' =>
  match e in auth.authE X return X -> Prop with
  | auth.FindByEmail email => fun x => find_spec email (pr_users w) x (pr_users w) /\ w' = w
  | auth.CreateUser u => fun x =>
      exists t, create_spec u (pr_users w) x t /\
        w' = mkProduction (pr_orders w) (pr_customers w) (pr_products w) t (pr_drawn w)
  | _ => fun _ => w' = w
  end x.

(** A call of the order service: the repository by its contract, the lookups through the
    adapters of cmd/api, the other ports with any answer. *)
#[export] Instance production_orders : Sem orderE production := fun X e w x w' =>
  match e in orderE X return X -> Prop with
  | Repo r => fun x =>
      exists t, repo_spec (stored_call r) (pr_orders w) x t /\
        w' = mkProduction t (pr_customers w) (pr_products w) (pr_users w) (pr_drawn w)
  | FindCustomer id => fun x => exec (customerLookup_FindByID id) w x w'
  | FindProducts ids => fun x => exec (productLookup_FindManyByID ids) w x w'
  | NewUUID => fun u =>
      u <> uuid_Nil /\ u ∉ pr_drawn w /\
      w' = mkProduction (pr_orders w) (pr_customers w) (pr_products w) (pr_users w) ({[u]} ∪ pr_drawn w)
  | _ => fun _ => w' = w
  end x.

#[export] Instance production_http : Sem httpE production := fun X e w x w' =>
  match e in httpE X return X -> Prop with
  | HVerify token => fun x => (exists now, x = auth.Verify m now token) /\ w' = w
  | HOrder e => fun x => sem e w x w'
  | HCustomer e => fun x => sem e w x w'
  | HProduct e => fun x => sem e w x w'
  | HAuth e => fun x => sem e w x w'
  | _ => fun _ => w' = w
  end x.

#[export] Instance production_order_world : OrderWorld production := {
  ow_sem := production_orders;
  ow_store := pr_orders;
  ow_issued := pr_drawn;
  ow_valid w := keyed customer.ID (pr_customers w);
}.

#[export] Instance production_api_world : ApiWorld production := {
  aw_sem := production_http;
  aw_customers w := dom (pr_customers w);
  aw_products w := dom (pr_products w);
  aw_user w u := exists email us, pr_users w !! email = Some us /\ uuid_Parse (auth.ID us) = Some u;
}.

(** ** What the calls keep *)

(** The lookups read one row or several, and change nothing. *)
Lemma customer_lookup_reads id (w : production) x w' :
  exec (customerLookup_FindByID id) w x w' ->
  w' = w /\ forall c, x = Ok c -> exists i r, pr_customers w !! i = Some r /\ customer.ID r = id.
Proof.
  unfold customerLookup_FindByID, customer.FindByID. intros Hx.
  apply exec_bind_err in Hx as (y & w1 & Hy & Hx). apply exec_bind_err in Hy as (z & w2 & Hz & Hy).
  apply exec_call in Hz as (t & [-> Hz] & ->). destruct w as [o c p u d]; cbn in *.
  destruct z as [r|e|why]; destruct Hy as [-> ->]; destruct Hx as [-> ->]; (split; [done|]); intros c' Hc; try done.
  - destruct Hz as [[i Hi] Hid]. by exists i, r.
  - by destruct (is_not_found _).
Qed.

Lemma product_lookup_reads ids (w : production) x w' :
  exec (productLookup_FindManyByID ids) w x w' ->
  w' = w /\ forall l, x = Ok l -> Forall (fun p => is_Some (pr_products w !! p_ID p)) l.
Proof.
  unfold productLookup_FindManyByID, product.FindManyByID. intros Hx.
  apply exec_bind_res in Hx as (y & w1 & Hy & Hx). apply exec_bind_err in Hy as (z & w2 & Hz & Hy).
  apply exec_call in Hz as (t & [-> Hz] & ->). destruct w as [o c p u d]; cbn in *.
  destruct z as [r|e|why]; destruct Hy as [-> ->]; destruct Hx as [-> ->]; (split; [done|]); try done.
  intros l [= <-]. rewrite !Forall_fmap. eapply Forall_impl; [exact Hz|]. intros q [Hq _]. cbn. by rewrite Hq.
Qed.

(** A table only grows, and keeps its keys. *)
Definition grows {A} (ident : A -> uuid) (t t' : gmap uuid A) : Prop :=
  dom t ⊆ dom t' /\ (keyed ident t -> keyed ident t').

Lemma grows_refl {A} (ident : A -> uuid) t : grows ident t t.
Proof. by split. Qed.

Lemma grows_insert {A} (ident : A -> uuid) (t : gmap uuid A) i a : ident a = i -> grows ident t (<[i := a]> t).
Proof. intros <-. split; [apply dom_insert_grow|]. intros Hk. by apply map_Forall_insert_2. Qed.

Lemma insert_grows {A T} (ident : A -> uuid) key fails a t (x : res T) t' :
  insert_result ident key fails a t x t' -> grows ident t t'.
Proof.
  assert (Hins : t !! ident a = None /\ free_for key (ident a) (key a) t /\ t' = <[ident a := a]> t -> grows ident t t')
    by (intros (_ & _ & ->); by apply grows_insert).
  destruct x as [n|e|why]; [exact Hins| |done]. intros [_ [->|Ha]]; [apply grows_refl|by apply Hins].
Qed.

(** An update keeps the id of the row, when the table is keyed. *)
Lemma written_grows {A} (ident : A -> uuid) fails nf admits id f t (x : res unit) t' :
  (forall a, ident (f a) = ident a) -> row_written fails nf admits id f t x t' -> grows ident t t'.
Proof.
  intros Hf. assert (Hset : forall a, t !! id = Some a -> grows ident t (<[id := f a]> t)).
  { intros a Ha. split; [apply dom_insert_grow|]. intros Hk. apply map_Forall_insert_2; [|done].
    rewrite Hf. by apply (Hk id). }
  destruct x as [n|e|why]; [|intros [(_ & _ & ->)|[_ [->|(a & Ha & _ & ->)]]]|done]; try apply grows_refl; [|by apply Hset].
  intros (a & Ha & _ & ->). by apply Hset.
Qed.

Lemma customer_grows {X} (e : customer.repoE X) t x t' : customer_spec e t x t' -> grows customer.ID t t'.
Proof.
  destruct e; cbn.
  - apply insert_grows.
  - by apply written_grows.
  - intros [now Hx]. by eapply written_grows; [|exact Hx].
  - intros [-> _]. apply grows_refl.
  - intros [-> _]. apply grows_refl.
  - intros [-> _]. apply grows_refl.
Qed.

Lemma product_grows {X} (e : product.repoE X) t x t' : product_spec e t x t' -> grows product.ID t t'.
Proof.
  destruct e; cbn.
  - apply insert_grows.
  - by apply written_grows.
  - intros [now Hx]. by eapply written_grows; [|exact Hx].
  - intros [-> _]. apply grows_refl.
  - intros [-> _]. apply grows_refl.
  - intros [-> _]. apply grows_refl.
  - intros [-> _]. apply grows_refl.
Qed.

Lemma user_kept u t (x : res unit) t' email us : create_spec u t x t' -> t !! email = Some us -> t' !! email = Some us.
Proof.
  intros Hc Hus. assert (Hadd : user_added u t t' -> t' !! email = Some us).
  { intros [Hn ->]. rewrite lookup_insert_ne; [exact Hus|congruence]. }
  destruct x as [n|e|why]; cbn in Hc; naive_solver.
Qed.
(** ** The laws *)
Lemma orders_of_call X (e : orderE X) (w : production) x w' :
  sem e w x w' -> is_repo e = false ->
  pr_orders w' = pr_orders w /\ pr_drawn w ⊆ pr_drawn w' /\ pr_customers w' = pr_customers w /\
  pr_products w' = pr_products w /\ pr_users w' = pr_users w.
Proof.
  intros Hs Hr. destruct e; try done; cbn in Hs; try by subst w'.
  - apply customer_lookup_reads in Hs as [-> _]. done.
  - apply product_lookup_reads in Hs as [-> _]. done.
  - destruct Hs as (_ & _ & ->). cbn. split_and!; try done. set_solver.
Qed.

#[export] Instance production_order_laws : OrderWorldLaws production.
Proof.
  constructor.
  - intros X e w x w' _ (t & Hspec & ->). split; [|done]. exists (stored_call e).
    split; [apply stored_as_stored_call|exact Hspec].
  - intros X e w x w' _ Hs Hr. by destruct (orders_of_call _ _ _ _ _ Hs Hr) as (Ho & Hd & _).
  - intros w u w' _ (Hnil & Hnew & ->). cbn. split_and!; [done..|set_solver].
  - intros X e w x w' Hk Hs. cbn in Hk |- *. destruct (is_repo e) eqn:Hr.
    + destruct e; try done. by destruct Hs as (t & _ & ->).
    + by destruct (orders_of_call _ _ _ _ _ Hs Hr) as (_ & _ & -> & _).
Qed.

(** What a call does to the tables beside the orders. *)
Definition tables_grow (w w' : production) : Prop :=
  grows customer.ID (pr_customers w) (pr_customers w') /\ grows product.ID (pr_products w) (pr_products w') /\
  forall email us, pr_users w !! email = Some us -> pr_users w' !! email = Some us.

Lemma tables_of_call X (e : httpE X) (w : production) x w' : sem e w x w' -> tables_grow w w'.
Proof.
  unfold tables_grow. intros Hs. assert (Hsame : w' = w -> tables_grow w w') by (intros ->; split_and!; [apply grows_refl..|done]).
  destruct e as [token| | |l|X e|X e|X e|X e]; cbn in Hs; try by apply Hsame.
  - apply Hsame. by destruct Hs as [_ ->].
  - clear Hsame. destruct (is_repo e) eqn:Hr.
    + destruct e; try done. destruct Hs as (t & _ & ->). by split_and!; [apply grows_refl..|].
    + destruct (orders_of_call _ _ _ _ _ Hs Hr) as (_ & _ & Hc & Hp & Hu).
      rewrite Hc, Hp, Hu. by split_and!; [apply grows_refl..|].
  - destruct e; try by apply Hsame. destruct Hs as (t & Ht & ->). split_and!; [by eapply customer_grows|apply grows_refl|done].
  - destruct e; try by apply Hsame. destruct Hs as (t & Ht & ->). split_and!; [apply grows_refl|by eapply product_grows|done].
  - destruct e; try by apply Hsame.
    + apply Hsame. by destruct Hs as [_ ->].
    + destruct Hs as (t & Ht & ->). split_and!; [apply grows_refl..|]. intros email us. by apply (user_kept user _ x).
Qed.

Lemma other_call_orders X (e : httpE X) (w : production) x w' :
  sem e w x w' -> (forall e' : orderE X, e <> HOrder e') -> pr_orders w' = pr_orders w /\ pr_drawn w' = pr_drawn w.
Proof.
  intros Hs Hout. destruct e as [token| | |l|X e|X e|X e|X e]; cbn in Hs; try (by subst w').
  - by destruct Hs as [_ ->].
  - by destruct (Hout e).
  - destruct e; cbn in Hs; first [by destruct Hs as (t & _ & ->)|by rewrite Hs].
  - destruct e; cbn in Hs; first [by destruct Hs as (t & _ & ->)|by rewrite Hs].
  - destruct e; cbn in Hs; first [by destruct Hs as (t & _ & ->)|by destruct Hs as [_ ->]|by rewrite Hs].
Qed.

#[export] Instance production_api_laws : ApiLaws production.
Proof.
  constructor.
  - done.
  - intros X e w x w' Hk Hs Hout. destruct (other_call_orders _ _ _ _ _ Hs Hout) as [Ho Hd].
    destruct (tables_of_call _ _ _ _ _ Hs) as ([_ Hc] & _). split; [exact Ho|]. split; [by cbn; rewrite Hd|by apply Hc].
  - intros X e w x w' _ Hs. destruct (tables_of_call _ _ _ _ _ Hs) as ([Hc _] & [Hp _] & _). by split.
  - intros X e w x w' u _ Hs (email & us & Hus & Hu). destruct (tables_of_call _ _ _ _ _ Hs) as (_ & _ & Hk).
    exists email, us. split; [by apply Hk|exact Hu].
  - intros id w c w' Hk [_ Hs]%customer_lookup_reads. destruct (Hs c eq_refl) as (i & r & Hi & <-).
    cbn. rewrite (Hk _ _ Hi). by eapply elem_of_dom_2.
  - intros ids w ps w' _ [_ Hs]%product_lookup_reads. specialize (Hs ps eq_refl). cbn. intros u.
    rewrite elem_of_list_to_set, list_elem_of_fmap. intros (p & -> & Hp). rewrite Forall_forall in Hs.
    apply elem_of_dom. by apply Hs.
Qed.
End production.

(** ** The adapters are calls of this process

    What the statements of the customer, product and user adapters do to a database is
    one of the answers of the contracts above. *)
Section adapters.
Context `{!CaseTables, !Ilike} {D : Type} `{!CatalogDatabase D} {U : Type} `{!UserDatabase U}.

Definition on_database (o : store) (d : D) (u : U) (drawn : gset uuid) : production :=
  mkProduction o (customers_table d) (products_table d) (users_table u) drawn.

Lemma customer_adapter_call {X} (r : customer.repoE X) o d u drawn x d' :
  exec (customer_pg X r) d x d' -> sem (customer.Repo r) (on_database o d u drawn) x (on_database o d' u drawn).
Proof.
  intros [Hs Hp]%customer_pg_refines. exists (customers_table d'). split; [exact Hs|]. unfold on_database. by rewrite Hp.
Qed.

Lemma product_adapter_call {X} (r : product.repoE X) o d u drawn x d' :
  product_call_ok r -> exec (product_pg X r) d x d' ->
  sem (product.Repo r) (on_database o d u drawn) x (on_database o d' u drawn).
Proof.
  intros Hok Hx. destruct (product_pg_refines r _ _ _ Hok Hx) as [Hs Hc]. exists (products_table d').
  split; [exact Hs|]. unfold on_database. by rewrite Hc.
Qed.

Lemma user_adapter_creates v o d u drawn x u' :
  exec (user_Create v) u x u' -> sem (auth.CreateUser v) (on_database o d u drawn) x (on_database o d u' drawn).
Proof. intros Hs%user_create_refines. by exists (users_table u'). Qed.

Lemma user_adapter_finds email o d u drawn x u' :
  exec (user_FindByEmail email) u x u' -> sem (auth.FindByEmail email) (on_database o d u drawn) x (on_database o d u' drawn).
Proof.
  intros Hs%user_find_refines. pose proof (proj1 Hs) as Ht. unfold find_spec in Hs.
  unfold on_database. rewrite Ht in *. by split.
Qed.
End adapters.
