(* ===== verification/PhaseMetrics.v ===== *)
(** PhaseMetrics: the in-memory collector of the sixth work folder
    (dev/phase-6-worker-metrics/internal/metrics), which the live program replaced by
    Prometheus instruments: atomic counters, a locked sum of IEEE binary64 durations,
    the plain-text exposition, and what a reader sees while goroutines are counting. *)
From Stdlib Require Import SpecFloat.
From S2P Require Import Prelude Errors Effects GoStrings.

(** ** float64

    The binary64 arithmetic of the Go specification, rounding to nearest even. *)
Definition float64_add : spec_float -> spec_float -> spec_float := SFadd 53 1024.
Definition float64_div : spec_float -> spec_float -> spec_float := SFdiv 53 1024.

(** The conversion [float64(n)]. *)
Definition float64_of_int (n : Z) : spec_float := binary_normalize 53 1024 n 0 false.

Definition float64_zero : spec_float := S754_zero false.

(** [num / den] rounded to an integer, halves to even. *)
Definition round_half_even (num den : Z) : Z :=
  let q := num / den in
  let r := num mod den in
  if 2 * r <? den then q
  else if den <? 2 * r then q + 1
  else if Z.even q then q else q + 1.

(** The hundredths of [m * 2 ^ e]. *)
Definition hundredths (m : positive) (e : Z) : Z :=
  if 0 <=? e then Zpos m * 2 ^ e * 100 else round_half_even (Zpos m * 100) (2 ^ (- e)).

Definition sign_text (s : bool) : string := if s then "-" else "".

(** [%.2f]: the exact decimal value rounded to two places, as strconv prints it. *)
Definition fmt_2f (x : spec_float) : string :=
  match x with
  | S754_zero s => sign_text s +:+ "0.00"
  | S754_infinity s => if s then "-Inf" else "+Inf"
  | S754_nan => "NaN"
  | S754_finite s m e =>
      sign_text s +:+ Itoa (hundredths m e / 100) +:+ "." +:+ of_bytes (fmt_02d (hundredths m e mod 100))
  end.

(** ** Collector (collector.go) *)
Record Collector := mkCollector {
  created : Z;
  processed : Z;
  failed : Z;
  durationSum : spec_float;
  durationCount : Z;
}.

Definition NewCollector : Collector := mkCollector 0 0 0 float64_zero 0.

(** The atomic operations of the methods: an [atomic.Int64] operation, or a section
    under the mutex. *)
Inductive collectorE : Type -> Type :=
| AddCreated : collectorE unit
| AddProcessed : collectorE unit
| AddFailed : collectorE unit
| LockAdd (seconds : spec_float) : collectorE unit
| LockRead : collectorE (spec_float * Z)
| LoadCreated : collectorE Z
| LoadProcessed : collectorE Z
| LoadFailed : collectorE Z.

Definition IncOrdersCreated : prog collectorE unit := call AddCreated.
Definition IncOrdersProcessed : prog collectorE unit := call AddProcessed.
Definition IncOrdersFailed : prog collectorE unit := call AddFailed.
Definition RecordProcessingDuration (seconds : spec_float) : prog collectorE unit := call (LockAdd seconds).

Record snapshot := mkSnapshot {
  s_created : Z;
  s_processed : Z;
  s_failed : Z;
  s_sum : spec_float;
  s_count : Z;
}.

Definition Snapshot : prog collectorE snapshot :=
  locked <- call LockRead ;;
  c <- call LoadCreated ;;
  p <- call LoadProcessed ;;
  f <- call LoadFailed ;;
  Ret (mkSnapshot c p f locked.1 locked.2).

Definition newline : string := String (chr 10) "".

Definition render_snapshot (s : snapshot) : string :=
  let avg := if 0 <? s_count s then float64_div (s_sum s) (float64_of_int (s_count s)) else float64_zero in
  "orders_created_total " +:+ Itoa (s_created s) +:+ newline +:+
  "orders_processed_total " +:+ Itoa (s_processed s) +:+ newline +:+
  "orders_failed_total " +:+ Itoa (s_failed s) +:+ newline +:+
  "orders_processing_duration_seconds_sum " +:+ fmt_2f (s_sum s) +:+ newline +:+
  "orders_processing_duration_seconds_count " +:+ Itoa (s_count s) +:+ newline +:+
  "orders_processing_duration_seconds_avg " +:+ fmt_2f avg +:+ newline.

Definition RenderText : prog collectorE string := s <- Snapshot ;; Ret (render_snapshot s).

(** [ServeHTTP] (handler.go), mounted at GET /metrics. *)
Definition ServeHTTP : prog collectorE Response :=
  text <- RenderText ;;
  Ret (mkResponse StatusOK [("Content-Type", "text/plain; charset=utf-8")] (TextBody text)).

(** ** The shared state

    The collector with the list of samples it took, in the order of their atomic
    operations. *)
Inductive sample := SCreated | SProcessed | SFailed | SDuration (seconds : spec_float).

Record cworld := mkCW { cw_collector : Collector; cw_log : list sample }.

(** One sample on the fields. *)
Definition take_sample (c : Collector) (s : sample) : Collector :=
  match s with
  | SCreated => mkCollector (wrap64 (created c + 1)) (processed c) (failed c) (durationSum c) (durationCount c)
  | SProcessed => mkCollector (created c) (wrap64 (processed c + 1)) (failed c) (durationSum c) (durationCount c)
  | SFailed => mkCollector (created c) (processed c) (wrap64 (failed c + 1)) (durationSum c) (durationCount c)
  | SDuration x =>
      mkCollector (created c) (processed c) (failed c) (float64_add (durationSum c) x) (wrap64 (durationCount c + 1))
  end.

Definition add_sample (s : sample) (w : cworld) : unit * cworld :=
  (tt, mkCW (take_sample (cw_collector w) s) (cw_log w ++ [s])).

#[export] Instance collector_handler : Handler collectorE cworld :=
  fun X e =>
  match e in collectorE X return cworld -> X * cworld with
  | AddCreated => add_sample SCreated
  | AddProcessed => add_sample SProcessed
  | AddFailed => add_sample SFailed
  | LockAdd x => add_sample (SDuration x)
  | LockRead => fun w => ((durationSum (cw_collector w), durationCount (cw_collector w)), w)
  | LoadCreated => fun w => (created (cw_collector w), w)
  | LoadProcessed => fun w => (processed (cw_collector w), w)
  | LoadFailed => fun w => (failed (cw_collector w), w)
  end.

Definition cw_new : cworld := mkCW NewCollector [].

(** The goroutine that records [l]. *)
Fixpoint recorder (l : list sample) : prog collectorE (option snapshot) :=
  match l with
  | [] => Ret None
  | s :: l' =>
      match s with
      | SCreated => IncOrdersCreated
      | SProcessed => IncOrdersProcessed
      | SFailed => IncOrdersFailed
      | SDuration x => RecordProcessingDuration x
      end ;;; recorder l'
  end.

(** The goroutine that renders the metrics once. *)
Definition reader : prog collectorE (option snapshot) := s <- Snapshot ;; Ret (Some s).

(** ** What the fields say of the samples *)
Definition replay (l : list sample) : Collector := fold_left take_sample l NewCollector.

Definition is_created (s : sample) : bool := match s with SCreated => true | _ => false end.
Definition is_processed (s : sample) : bool := match s with SProcessed => true | _ => false end.
Definition is_failed (s : sample) : bool := match s with SFailed => true | _ => false end.
Definition seconds_of (s : sample) : option spec_float := match s with SDuration x => Some x | _ => None end.

Definition tally (p : sample -> bool) (l : list sample) : Z := Z.of_nat (length (List.filter p l)).

(** The durations, added from the left as the lock admitted them. *)
Definition total_seconds (l : list sample) : spec_float := fold_left float64_add (omap seconds_of l) float64_zero.

Lemma replay_snoc l s : replay (l ++ [s]) = take_sample (replay l) s.
Proof. unfold replay. by rewrite fold_left_app. Qed.

Lemma tally_snoc p l s : tally p (l ++ [s]) = tally p l + if p s then 1 else 0.
Proof. unfold tally. rewrite List.filter_app, length_app. cbn. destruct (p s); cbn; lia. Qed.

Lemma total_seconds_snoc l s :
  total_seconds (l ++ [s]) =
  match seconds_of s with Some x => float64_add (total_seconds l) x | None => total_seconds l end.
Proof. unfold total_seconds. rewrite omap_app, fold_left_app. cbn. by destruct (seconds_of s). Qed.

(** The counters count, to the width of an int64, and the sum is the left sum. *)
Lemma replay_fields l :
  replay l = mkCollector (wrap64 (tally is_created l)) (wrap64 (tally is_processed l))
               (wrap64 (tally is_failed l)) (total_seconds l)
               (wrap64 (Z.of_nat (length (omap seconds_of l)))).
Proof.
  induction l as [|s l IH] using rev_ind; [done|].
  rewrite replay_snoc, IH, !tally_snoc, total_seconds_snoc, omap_app, length_app.
  destruct s; cbn; wrap_simpl; rewrite ?Z.add_0_r, ?Nat.add_0_r; try done.
  by rewrite Nat2Z.inj_add.
Qed.

(** Counters do not depend on the order of the samples. *)
Lemma tally_Permutation p l l' : l ≡ₚ l' -> tally p l = tally p l'.
Proof.
  unfold tally. intros Hl. f_equal. apply Permutation_length.
  induction Hl as [|x l l' _ IH|x y l|l1 l2 l3 _ IH1 _ IH2]; cbn; [done|..].
  - destruct (p x); [by constructor|done].
  - destruct (p x), (p y); [apply perm_swap|done..].
  - by rewrite IH1.
Qed.

(** ** Scraping while goroutines count *)

(** What a read returned. *)
Inductive obs := OLocked (sumcount : spec_float * Z) | OCreated (n : Z) | OProcessed (n : Z) | OFailed (n : Z).

Definition shows (o : obs) (c : Collector) : Prop :=
  match o with
  | OLocked sc => sc = (durationSum c, durationCount c)
  | OCreated n => n = created c
  | OProcessed n => n = processed c
  | OFailed n => n = failed c
  end.

(** Observations, the latest first, each of a moment of the history no later than
    that of the observation after it. *)
Fixpoint explained (os : list obs) (log : list sample) : Prop :=
  match os with
  | [] => True
  | o :: older => exists l, l `prefix_of` log /\ shows o (replay l) /\ explained older l
  end.

Lemma explained_mono os log log' : log `prefix_of` log' -> explained os log -> explained os log'.
Proof. destruct os as [|o os]; cbn; [done|]. intros Hp (l & Hl & Ho). exists l. split; [by etrans|done]. Qed.

(** A snapshot taken between two moments of the history: the sum and the count of one
    moment, then the three counters of later and later moments. *)
Definition truthful (s : snapshot) (log : list sample) : Prop :=
  explained [OFailed (s_failed s); OProcessed (s_processed s); OCreated (s_created s);
             OLocked (s_sum s, s_count s)] log.

(** A goroutine's samples still to record, and what it has read. *)
Record account := mkAccount { todo : list sample; observed : list obs }.

Definition act_sample {X} (e : collectorE X) : option sample :=
  match e with
  | AddCreated => Some SCreated
  | AddProcessed => Some SProcessed
  | AddFailed => Some SFailed
  | LockAdd x => Some (SDuration x)
  | _ => None
  end.

Definition act_obs {X} (e : collectorE X) : X -> option obs :=
  match e in collectorE X return X -> option obs with
  | LockRead => fun x => Some (OLocked x)
  | LoadCreated => fun x => Some (OCreated x)
  | LoadProcessed => fun x => Some (OProcessed x)
  | LoadFailed => fun x => Some (OFailed x)
  | _ => fun _ => None
  end.

Definition accounting : protocol collectorE account :=
  mkProtocol
    (fun X s e => forall x, act_sample e = Some x -> exists rest, todo s = x :: rest)
    (fun X s e x => True)
    (fun X s e x =>
       mkAccount (match act_sample e with Some _ => tail (todo s) | None => todo s end)
                 (option_list (act_obs e x) ++ observed s)).

Definition settled (s : account) (r : option snapshot) : Prop :=
  todo s = [] /\
  forall snap, r = Some snap ->
    observed s = [OFailed (s_failed snap); OProcessed (s_processed snap); OCreated (s_created snap);
                  OLocked (s_sum snap, s_count snap)].

Lemma conforms_recorder l : conforms accounting (mkAccount l []) (recorder l) settled.
Proof.
  induction l as [|s l IH]; [done|].
  destruct s; (split; [intros x [= <-]; by eexists|intros [] _; apply IH]).
Qed.

Lemma conforms_reader : conforms accounting (mkAccount [] []) reader settled.
Proof.
  split; [done|intros [sum count] _]. do 3 (split; [done|intros ? _]). split; [done|].
  intros snap Hsnap. by injection Hsnap as <-.
Qed.

(** The collector is the replay of its history, the history and the samples to come
    are those of the jobs, and every observation is of a moment of the history. *)
Definition history (jobs : list (list sample)) (ss : list account) (w : cworld) : Prop :=
  cw_collector w = replay (cw_log w) /\
  cw_log w ++ concat (todo <$> ss) ≡ₚ concat jobs /\
  Forall (fun s => explained (observed s) (cw_log w)) ss.

Lemma concat_take_head {A} (ls : list (list A)) i x rest :
  ls !! i = Some (x :: rest) -> concat ls ≡ₚ x :: concat (<[i := rest]> ls).
Proof.
  revert i. induction ls as [|l ls IH]; intros [|i]; cbn; [done..| |].
  - by intros [= ->].
  - intros Hi. rewrite (IH i Hi). by rewrite Permutation_middle.
Qed.

(** A sample taken, or an observation made. *)
Lemma act_cases {X} (e : collectorE X) w x w' :
  handle e w = (x, w') ->
  (exists s, act_sample e = Some s /\ act_obs e x = None /\ w' = (add_sample s w).2) \/
  (exists o, act_sample e = None /\ act_obs e x = Some o /\ w' = w /\ shows o (cw_collector w)).
Proof. destruct e; cbn; intros [= <- <-]; naive_solver. Qed.

Lemma history_step jobs ss w i s X (e : collectorE X) x w' :
  ss !! i = Some s -> history jobs ss w -> allowed accounting s e -> handle e w = (x, w') ->
  history jobs (<[i := next accounting s e x]> ss) w'.
Proof.
  intros Hi (Hc & Hlog & Hex) Hal Hh. cbn [allowed next accounting] in *. unfold history.
  rewrite list_fmap_insert. pose proof (Forall_lookup_1 _ _ _ _ Hex Hi) as Hs.
  destruct (act_cases e w x w' Hh) as [(s0 & Hs0 & Ho & ->)|(o & Hs0 & Ho & -> & Hsh)];
    rewrite Hs0, Ho; cbn [app option_list observed todo add_sample snd cw_collector cw_log].
  - destruct (Hal _ Hs0) as [rest Hrest]. rewrite Hrest. cbn [tail].
    split; [by rewrite replay_snoc, Hc|]. split.
    + rewrite <- Hlog, <- app_assoc. cbn. f_equiv. symmetry.
      apply (concat_take_head (todo <$> ss) i). by rewrite list_lookup_fmap, Hi; cbn; rewrite Hrest.
    + assert (Hpre : cw_log w `prefix_of` cw_log w ++ [s0]) by by eexists.
      apply Forall_insert; [|by eapply explained_mono].
      eapply Forall_impl; [exact Hex|]. intros a Ha. by eapply explained_mono.
  - split; [done|]. split; [by rewrite list_insert_id by by rewrite list_lookup_fmap, Hi|].
    apply Forall_insert; [done|]. exists (cw_log w). rewrite <- Hc. done.
Qed.

(** A goroutine that records samples, or one that scrapes. *)
Definition start (job : option (list sample)) : prog collectorE (option snapshot) :=
  match job with Some l => recorder l | None => reader end.

(** However recorders and readers interleave, the collector's fields are those of the
    samples taken so far, every completed snapshot is truthful, and once all
    goroutines are done nothing was lost: the samples taken are all of them. *)
Theorem scrapes_are_truthful (jobs : list (option (list sample))) ts w :
  @pool_steps _ _ (sem_of_handler collector_handler) _ (start <$> jobs, cw_new) (ts, w) ->
  cw_collector w = replay (cw_log w) /\
  (forall i s, ts !! i = Some (Ret (Some s)) -> truthful s (cw_log w)) /\
  ((forall i p, ts !! i = Some p -> exists r, p = Ret r) -> cw_log w ≡ₚ concat (default [] <$> jobs)).
Proof.
  intros Hsteps.
  destruct (@pool_conforms _ _ accounting _ (sem_of_handler collector_handler)
              (history (default [] <$> jobs)) ltac:(done)
              (fun ss w i s X e x w' => history_step _ ss w i s X e x w')
              _ settled _ _ ((fun j => mkAccount (default [] j) []) <$> jobs) Hsteps)
    as (ss & Hall & Hc & Hlog & Hex).
  - cbn. rewrite Forall2_fmap. apply Forall_Forall2_diag, Forall_true.
    intros [l|]; [apply conforms_recorder|apply conforms_reader].
  - split; [done|]. split; [by rewrite <- list_fmap_compose|]. apply Forall_fmap, Forall_true. done.
  - cbn in *. split; [done|]. split.
    + intros i s Hi. destruct (Forall2_lookup_r _ _ _ _ _ Hall Hi) as (a & Ha & _ & Hobs).
      pose proof (Forall_lookup_1 _ _ _ _ Hex Ha) as Hs. cbn beta in Hs. by rewrite (Hobs s eq_refl) in Hs.
    + intros Hdone. rewrite <- Hlog.
      enough (Hnil : concat (todo <$> ss) = []) by by rewrite Hnil, app_nil_r.
      clear -Hall Hdone. induction Hall as [|a p ss ts Hap _ IH]; [done|]. cbn.
      destruct (Hdone 0%nat p eq_refl) as [r ->]. destruct Hap as [-> _]. cbn.
      apply IH. intros i q Hq. by apply (Hdone (S i)).
Qed.

(** The printed hundredths are a nearest integer: half a hundredth away at most. *)
Lemma round_half_even_nearest num den :
  0 < den -> Z.abs (2 * (den * round_half_even num den - num)) <= den.
Proof.
  intros Hd. unfold round_half_even. pose proof (Z.div_mod num den ltac:(lia)) as Hdm.
  pose proof (Z.mod_pos_bound num den Hd) as Hr.
  destruct (2 * (num mod den) <? den) eqn:H1; [nia|].
  destruct (den <? 2 * (num mod den)) eqn:H2; [nia|].
  destruct (Z.even (num / den)); nia.
Qed.

(** The page of a collector that nobody else is using. *)
Lemma run_RenderText w :
  run RenderText w =
  (render_snapshot (mkSnapshot (created (cw_collector w)) (processed (cw_collector w))
     (failed (cw_collector w)) (durationSum (cw_collector w)) (durationCount (cw_collector w))), w).
Proof. done. Qed.

(** No division by zero: with no sample the average is printed as zero. *)
Lemma render_no_samples c p f sum :
  render_snapshot (mkSnapshot c p f sum 0) =
  "orders_created_total " +:+ Itoa c +:+ newline +:+ "orders_processed_total " +:+ Itoa p +:+ newline +:+
  "orders_failed_total " +:+ Itoa f +:+ newline +:+
  "orders_processing_duration_seconds_sum " +:+ fmt_2f sum +:+ newline +:+
  "orders_processing_duration_seconds_count 0" +:+ newline +:+
  "orders_processing_duration_seconds_avg 0.00" +:+ newline.
Proof. done. Qed.

Definition demo_samples : list sample :=
  [SCreated; SCreated; SProcessed; SDuration (float64_of_int 2); SDuration (float64_of_int 4)].

Example demo_page :
  (run (recorder demo_samples ;;; RenderText) cw_new).1 =
  "orders_created_total 2" +:+ newline +:+ "orders_processed_total 1" +:+ newline +:+
  "orders_failed_total 0" +:+ newline +:+
  "orders_processing_duration_seconds_sum 6.00" +:+ newline +:+
  "orders_processing_duration_seconds_count 2" +:+ newline +:+
  "orders_processing_duration_seconds_avg 3.00" +:+ newline.
Proof. vm_compute. reflexivity. Qed.

(** Only the sum and the count are read together: a scrape may report an order as
    processed that it does not yet report as created. *)
Example snapshot_is_torn :
  exists ts w, @pool_steps _ _ (sem_of_handler collector_handler) _
    (start <$> [Some [SCreated; SProcessed]; None], cw_new) (ts, w) /\
    ts !! 1%nat = Some (Ret (Some (mkSnapshot 0 1 0 float64_zero 0))).
Proof.
  pose proof (run_schedule_steps collector_handler [1; 1; 0; 0; 1; 1]%nat
                (start <$> [Some [SCreated; SProcessed]; None]) cw_new) as Hsteps.
  destruct (run_schedule _ _ _ _) as [ts w] eqn:Hrun. exists ts, w. split; [exact Hsteps|].
  vm_compute in Hrun. injection Hrun as <- _. reflexivity.
Qed.
