(* ===== verification/Phases.v ===== *)
(** Phases: the code of the archived work folders under dev/ that differs from the
    live packages, and how the two compare: the stricter configuration loaders, the
    authentication scaffold of phases 3 to 6, order creation before it was metered
    (phase 5), and the worker pool before it retried (phase 6).  The folders share
    the rest of their code with the live packages, which model it. *)
From S2P Require Import Prelude Errors Effects GoStrings Uuid Money Pagination Auth OrderModel OrderRepo OrderService OrderQueue OrderSystem Worker Bodies Http Handlers Server Config.

(** ** Configuration: phases 1, 2 and 6 (internal/config/config.go) *)

(** The nine fields both loaders of phases 1 and 6 fill. *)
Record BaseConfig := mkBase {
  b_AppEnv : string;
  b_HTTPPort : string;
  b_DatabaseURL : string;
  b_RedisAddr : string;
  b_RedisPassword : string;
  b_JWTSecret : string;
  b_JWTExpirationMinutes : Z;
  b_OrderWorkerCount : Z;
  b_LogLevel : string;
}.

Module phase1.
Definition Load `{CaseTables} (getenv : string -> string) : res BaseConfig :=
  let logLevel := valueOr getenv "LOG_LEVEL" "info" in
  match check_required [("DATABASE_URL", getenv "DATABASE_URL"); ("REDIS_ADDR", getenv "REDIS_ADDR");
                        ("JWT_SECRET", getenv "JWT_SECRET")] with
  | Some e => Err e
  | None =>
      bind_cfg (intOr getenv "JWT_EXPIRATION_MINUTES" 120) (fun jwtExp =>
      bind_cfg (intOr getenv "ORDER_WORKER_COUNT" 3) (fun workers =>
      if negb (validLogLevel logLevel) then
        Err (ErrNew ("config: invalid LOG_LEVEL " +:+ Quote logLevel))
      else Ok (mkBase (valueOr getenv "APP_ENV" "development") (valueOr getenv "HTTP_PORT" "8080")
                 (getenv "DATABASE_URL") (getenv "REDIS_ADDR") (getenv "REDIS_PASSWORD")
                 (getenv "JWT_SECRET") jwtExp workers logLevel)))
  end.
End phase1.

Module phase2.
Record Config := mkConfig { JWTSecret : string; JWTExpirationMinutes : Z }.

Definition Load (getenv : string -> string) : res Config :=
  let secret := getenv "JWT_SECRET" in
  if bool_decide (secret = "") then Err (ErrNew "config: required env var JWT_SECRET is missing")
  else
    let raw := getenv "JWT_EXPIRATION_MINUTES" in
    if bool_decide (raw = "") then Ok (mkConfig secret 120)
    else match Atoi raw with
         | None => Err (ErrWrap "config: JWT_EXPIRATION_MINUTES must be an integer" (ErrNew "invalid syntax or range"))
         | Some n =>
             if n <=? 0 then
               Err (ErrNew ("config: JWT_EXPIRATION_MINUTES must be positive, got " +:+ Itoa n))
             else Ok (mkConfig secret n)
         end.
End phase2.

Module phase6.
Definition Load `{CaseTables} (getenv : string -> string) : res BaseConfig :=
  let logLevel := valueOr getenv "LOG_LEVEL" "info" in
  match check_required [("DATABASE_URL", getenv "DATABASE_URL"); ("REDIS_ADDR", getenv "REDIS_ADDR");
                        ("JWT_SECRET", getenv "JWT_SECRET")] with
  | Some e => Err e
  | None =>
      bind_cfg (intOr getenv "JWT_EXPIRATION_MINUTES" 120) (fun jwtExp =>
      bind_cfg (intOr getenv "ORDER_WORKER_COUNT" 3) (fun workers =>
      if workers <? 1 then Err (ErrNew "config: ORDER_WORKER_COUNT must be at least 1")
      else if negb (validLogLevel logLevel) then
        Err (ErrNew ("config: invalid LOG_LEVEL " +:+ Quote logLevel))
      else Ok (mkBase (valueOr getenv "APP_ENV" "development") (valueOr getenv "HTTP_PORT" "8080")
                 (getenv "DATABASE_URL") (getenv "REDIS_ADDR") (getenv "REDIS_PASSWORD")
                 (getenv "JWT_SECRET") jwtExp workers logLevel)))
  end.
End phase6.

(** The fields of a live configuration the earlier loaders know. *)
Definition base_of (cfg : Config) : BaseConfig :=
  mkBase (AppEnv cfg) (HTTPPort cfg) (DatabaseURL cfg) (RedisAddr cfg) (RedisPassword cfg) (JWTSecret cfg)
    (JWTExpirationMinutes cfg) (OrderWorkerCount cfg) (LogLevel cfg).

(** What the live loader accepts, phase 1 accepts with the same fields; phase 6
    refuses it exactly when it asks for no worker, and phase 2 exactly when the token
    lifetime is not positive. *)
Theorem live_Load_against_phases `{CaseTables} (getenv : string -> string) (cfg : Config) :
  Load getenv = Ok cfg ->
  phase1.Load getenv = Ok (base_of cfg) /\
  phase6.Load getenv =
    (if OrderWorkerCount cfg <? 1 then Err (ErrNew "config: ORDER_WORKER_COUNT must be at least 1")
     else Ok (base_of cfg)) /\
  phase2.Load getenv =
    (if JWTExpirationMinutes cfg <=? 0
     then Err (ErrNew ("config: JWT_EXPIRATION_MINUTES must be positive, got " +:+ Itoa (JWTExpirationMinutes cfg)))
     else Ok (phase2.mkConfig (JWTSecret cfg) (JWTExpirationMinutes cfg))).
Proof.
  unfold Load, phase1.Load, phase6.Load, phase2.Load.
  destruct (check_required _) eqn:Hreq; [done|].
  apply check_required_None in Hreq. rewrite !Forall_cons in Hreq. destruct Hreq as (_ & _ & Hj & _).
  rewrite (bool_decide_eq_false_2 (getenv "JWT_SECRET" = "")) by done.
  destruct (intOr getenv "JWT_EXPIRATION_MINUTES" 120) as [j|e|w] eqn:Hje; [|done..].
  destruct (intOr getenv "ORDER_WORKER_COUNT" 3) as [k|e|w]; [|done..].
  destruct (intOr getenv "ORDER_MAX_RETRIES" 3) as [r|e|w]; [|done..]. cbn [bind_cfg].
  destruct (r <? 0); [done|]. destruct (validLogLevel _); [|done]. cbn [negb]. intros [= <-]. cbn.
  split; [done|]. split; [done|]. unfold intOr in Hje. revert Hje. case_bool_decide; [by intros [= <-]|].
  destruct (Atoi _); [|done]. by intros [= <-].
Qed.

(** Conversely phase 6 loses nothing: what it accepts the live loader accepts with
    the same fields, given an acceptable retry limit. *)
Theorem phase6_Load_is_live `{CaseTables} (getenv : string -> string) (b : BaseConfig) (r : Z) :
  phase6.Load getenv = Ok b -> intOr getenv "ORDER_MAX_RETRIES" 3 = Ok r -> 0 <= r ->
  exists cfg, Load getenv = Ok cfg /\ base_of cfg = b /\ 1 <= OrderWorkerCount cfg /\ OrderMaxRetries cfg = r.
Proof.
  unfold Load, phase6.Load. destruct (check_required _); [done|].
  destruct (intOr getenv "JWT_EXPIRATION_MINUTES" 120) as [j|e|w]; [|done..].
  destruct (intOr getenv "ORDER_WORKER_COUNT" 3) as [k|e|w]; [|done..]. cbn [bind_cfg].
  destruct (k <? 1) eqn:Hk; [done|]. destruct (validLogLevel _); [|done]. cbn [negb].
  intros [= <-] -> Hr. cbn [bind_cfg]. replace (r <? 0) with false by lia.
  eexists. split; [done|]. cbn. split; [done|]. lia.
Qed.

(** The process of the live program that starts with no worker was refused. *)
Example no_worker_was_refused :
  (exists cfg, @Load no_tables demo_env = Ok cfg /\ OrderWorkerCount cfg = 0) /\
  @phase6.Load no_tables demo_env = Err (ErrNew "config: ORDER_WORKER_COUNT must be at least 1").
Proof. split; [eexists; split; [vm_compute; reflexivity|reflexivity]|vm_compute; reflexivity]. Qed.

(** ** The authentication scaffold: phases 3 to 6 (internal/auth/auth.go) *)
Module scaffold.
Record Identity := mkIdentity { UserID : uuid; IRole : string }.

Section scaffold.
(** The calls of the protected handlers, with the token verifier among them. *)
Context {E : Type -> Type} (verify : string -> E (res Identity)).

(** A handler, given the identity in the request's context. *)
Definition scaffold_handler : Type := option Identity -> Request -> prog E (res Response).

Definition reply (r : Response) : prog E (res Response) := Ret (Ok r).

Definition IdentityFromContext (ctx : option Identity) : option Identity := ctx.

Definition Authenticator (next : scaffold_handler) : scaffold_handler := fun ctx r =>
  match bearerToken r with
  | None => reply (Write (Unauthorized "Authentication required"))
  | Some token =>
      verified <- call (verify token) ;;
      match verified with
      | Err _ => reply (Write (Unauthorized "Invalid or expired token"))
      | Panic why => Ret (Panic why)
      | Ok identity => next (Some identity) r
      end
  end.

(** The map of the allowed roles, built once per route. *)
Definition allowed_roles (roles : list string) : gmap string bool :=
  fold_left (fun m role => <[role := true]> m) roles ∅.

Definition RequireRoles (roles : list string) (next : scaffold_handler) : scaffold_handler := fun ctx r =>
  match IdentityFromContext ctx with
  | None => reply (Write (Unauthorized "Authentication required"))
  | Some identity =>
      if default false (allowed_roles roles !! IRole identity) then next ctx r
      else reply (Write (Forbidden "You do not have permission to perform this action"))
  end.

(** The routers of phases 3, 4 and 5 around their multiplexer. *)
Definition New (mux : scaffold_handler) : scaffold_handler :=
  Authenticator (RequireRoles [auth.RoleAdmin; auth.RoleOperator] mux).
End scaffold.
End scaffold.

Lemma allowed_roles_lookup roles role :
  default false (scaffold.allowed_roles roles !! role) = bool_decide (role ∈ roles).
Proof.
  unfold scaffold.allowed_roles.
  enough (Hgen : forall m : gmap string bool, (forall r, m !! r <> Some false) ->
            default false (fold_left (fun m r => <[r := true]> m) roles m !! role) =
            bool_decide (role ∈ roles) || default false (m !! role)).
  { rewrite Hgen by done. by rewrite lookup_empty, orb_false_r. }
  induction roles as [|x roles IH]; intros m Hm; cbn [fold_left]; [done|].
  rewrite IH.
  - destruct (decide (role = x)) as [->|Hx].
    + rewrite lookup_insert_eq, (bool_decide_eq_true_2 (x ∈ x :: roles)) by set_solver. cbn.
      by rewrite orb_true_r.
    + rewrite lookup_insert_ne by done. f_equal. apply bool_decide_ext. set_solver.
  - intros r. destruct (decide (r = x)) as [->|Hr]; [by rewrite lookup_insert_eq|].
    by rewrite lookup_insert_ne.
Qed.

(** The live gate takes the decisions of the scaffold. *)
Section same_gate.
Context `{!UuidText} {E : Type -> Type} (verify : string -> E (res scaffold.Identity)).
Context {W W' : Type} `{!Effects.Handler E W} `{!Effects.Handler httpE W'} (R : W -> W' -> Prop).

(** The same verdict on a token. *)
Definition same_verdict (x : res scaffold.Identity) (y : res auth.Claims) : Prop :=
  match x, y with
  | Ok i, Ok c => auth.UserID c = uuid_String (scaffold.UserID i) /\ auth.CRole c = scaffold.IRole i
  | Err _, Err _ => True
  | Panic a, Panic b => a = b
  | _, _ => False
  end.

Hypothesis verifiers_agree : forall token w w', R w w' ->
  same_verdict (handle (verify token) w).1 (handle (HVerify token) w').1 /\
  R (handle (verify token) w).2 (handle (HVerify token) w').2.

(** The context the live middleware builds for an identity. *)
Definition live_request (i : scaffold.Identity) (r : Request) : Request :=
  with_ctx (mkCtx (cx_requestID (rq_ctx r)) (Some (uuid_String (scaffold.UserID i))) (Some (scaffold.IRole i))) r.

(** Two runs that answer alike and stay related. *)
Definition same_run {A} (x : A * W) (y : A * W') : Prop := x.1 = y.1 /\ R x.2 y.2.

Theorem scaffold_gate_is_live (mux : scaffold.scaffold_handler) (next : Handler) :
  (forall i r w w', R w w' -> same_run (run (mux (Some i) r) w) (run (next (live_request i r)) w')) ->
  forall r w w', R w w' ->
    same_run (run (scaffold.New verify mux None r) w) (run (guarded (Some staff) next r) w').
Proof.
  intros Hnext r w w' HR. unfold scaffold.New, scaffold.Authenticator. cbn [guarded staff].
  unfold Authenticator. destruct (bearerToken r) as [token|]; [|by split].
  rewrite !run_bind, !run_call.
  destruct (verifiers_agree token w w' HR) as [Hv HR1].
  destruct (handle (verify token) w) as [[i|e|why] w1]; destruct (handle (HVerify token) w') as [[c|e'|why'] w1'];
    cbn [fst snd same_verdict] in Hv, HR1; try done; [|by rewrite Hv; split].
  destruct Hv as [Hu Hr]. unfold scaffold.RequireRoles, scaffold.IdentityFromContext, RequireAnyRole, require.
  cbn [run]. rewrite allowed_roles_lookup. cbn [rq_ctx with_ctx RoleFromContext cx_role]. rewrite Hr, Hu. case_bool_decide; [by apply Hnext|by split].
Qed.
End same_gate.

(** ** The order endpoints behind the scaffold: phase 6 (internal/order/handler.go) *)

(** The scaffold's verifier beside the calls of the live handlers. *)
Inductive phaseE : Type -> Type :=
| PVerify (token : string) : phaseE (res scaffold.Identity)
| PHttp {X : Type} (e : httpE X) : phaseE X.

Definition lift {A} (p : prog httpE A) : prog phaseE A := interp (fun X e => call (PHttp e)) p.

Module phase6_order.
Section phase6_order.
Context `{!UuidText, !CaseTables}.

Definition Create : scaffold.scaffold_handler := fun ctx r =>
  match scaffold.IdentityFromContext ctx with
  | None => scaffold.reply (Write (Unauthorized "Authentication required"))
  | Some identity =>
      lift (or_write (decodeJSON decode_order r) (fun input =>
              answer (order_svc (OrderService.Create (scaffold.UserID identity) input))
                (fun out => writeJSON StatusCreatedHTTP (order_json out))))
  end.

Definition Get : scaffold.scaffold_handler := fun _ r =>
  lift (or_write (order_handler.pathID r) (fun id =>
          answer (order_svc (FindOrder id)) (fun out => writeJSON StatusOK (order_json out)))).

Definition List : scaffold.scaffold_handler := fun _ r =>
  lift (or_write (order_handler.parseFilter r) (fun filter =>
          answer (order_svc (ListService filter)) (fun page => writeJSON StatusOK (page_json order_json page)))).

Definition Cancel : scaffold.scaffold_handler := fun _ r =>
  lift (or_write (order_handler.pathID r) (fun id =>
          answer (order_svc (OrderService.Cancel id)) (fun out => writeJSON StatusOK (order_json out)))).

Definition Ship : scaffold.scaffold_handler := fun _ r =>
  lift (or_write (order_handler.pathID r) (fun id =>
          answer (order_svc (OrderService.Ship id)) (fun out => writeJSON StatusOK (order_json out)))).

Definition Register : list (string * string * scaffold.scaffold_handler) :=
  [("POST", "/api/orders", Create); ("GET", "/api/orders", List); ("GET", "/api/orders/{id}", Get);
   ("PATCH", "/api/orders/{id}/cancel", Cancel); ("PATCH", "/api/orders/{id}/ship", Ship)].
End phase6_order.
End phase6_order.

Section phase6_endpoints.
Context `{!UuidText, !CaseTables} {W : Type} `{!Effects.Handler httpE W}.
Context (V : string -> W -> res scaffold.Identity * W).

#[local] Instance phase_handler : Effects.Handler phaseE W :=
  fun X e =>
  match e in phaseE X return W -> X * W with
  | PVerify token => V token
  | PHttp e => handle e
  end.

Lemma run_lift {A} (p : prog httpE A) w : run (lift p) w = run p w.
Proof.
  revert w. induction p as [a|X e k IH]; intros w; [done|].
  unfold lift. cbn [interp]. rewrite run_bind, run_call. change (handle (PHttp e) w) with (handle e w).
  cbn [run]. destruct (handle e w) as [x w']. apply IH.
Qed.

Lemma same_run_refl {A} (x : A * W) : same_run eq x x.
Proof. by split. Qed.

(** With a verifier of the same verdicts, every order endpoint of phase 6 answers and
    acts as the live one, the user of an order included: the live handler parses the
    text of the identifier the scaffold carried as a value. *)
Theorem phase6_endpoints_are_live :
  (forall token w, same_verdict (V token w).1 (handle (HVerify token) w).1) ->
  (forall token w, (V token w).2 = (handle (HVerify token) w).2) ->
  Forall2 (fun old live => old.1.1 = live.1.1 /\
             forall r w, run (scaffold.New PVerify old.2 None r) w = run (guarded (Some staff) live.2 r) w)
    phase6_order.Register order_handler.Routes.
Proof.
  intros HV HW. repeat (constructor; [split; [done|]|]); [..|constructor]; cbn [fst snd]; intros r w;
    (enough (Hsame : same_run eq (run (scaffold.New PVerify _ None r) w) (run (guarded (Some staff) _ r) w))
       by by destruct Hsame; apply injective_projections);
    (apply (scaffold_gate_is_live PVerify eq); [by intros token v _ <-; split; [apply HV|apply HW]| |done]);
    intros i r' v _ <-;
    unfold phase6_order.Create, phase6_order.List, phase6_order.Get, phase6_order.Cancel, phase6_order.Ship;
    cbn [scaffold.IdentityFromContext]; rewrite run_lift; try apply same_run_refl.
  unfold order_handler.Create. cbn [live_request rq_ctx with_ctx UserIDFromContext cx_userID].
  rewrite uuid_Parse_String. apply same_run_refl.
Qed.
End phase6_endpoints.

(** ** Order creation before it was metered: phase 5 (internal/order/service.go)

    The messages of phases 5 and 6 have no retry count; the live record carries zero. *)
Module phase5.
Definition persist_and_publish (order : Order) (orderItems : list OrderItem) : prog orderE (res OrderOutput) :=
  _ <-! call (Repo (CreateWithItems (Some order) orderItems))
        catch (fun err => Err (Internal "could not create order" err)) ;;
  let msg := mkMessage (o_ID order) OrderCreatedEvent (o_CreatedAt order) 0 in
  published <- call (OrderService.PublishOrderCreated msg) ;;
  match published with
  | Err err =>
      call (LogPublishFailureAfterCommit (o_ID order) err) ;;;
      Ret (Err (Internal "order was created but could not be queued for processing" err))
  | Panic m => Ret (Panic m)
  | Ok _ => Ret (Ok (toOutput order orderItems))
  end.

Definition Create (createdBy : uuid) (input : CreateOrderInput) : prog orderE (res OrderOutput) :=
  match validate_input input with
  | Some e => Ret (Err e)
  | None =>
      customer <-! call (FindCustomer (in_CustomerID input))
        catch (fun err => Err (if errors_Is err OrderErrNotFound then NotFound "customer not found"
                               else Internal "could not load customer" err)) ;;
      if negb (c_Active customer) then
        Ret (Err (InactiveCustomer "inactive customers cannot create new orders"))
      else
        loaded <-! call (FindProducts (ii_ProductID <$> in_Items input))
          catch (fun err => Err (Internal "could not load products" err)) ;;
        let productByID := index_products loaded in
        now <- call Now ;;
        orderID <- call NewUUID ;;
        priced <-! for_res (price_line productByID orderID) (in_Items input) ([], []) ;;
        let order := mkOrder orderID (in_CustomerID input) StatusCreated
                       (OrderTotal priced.1) createdBy now now None in
        persist_and_publish order priced.2
  end.
End phase5.

(** The ports of the live service with [noopMetrics] (ports.go). *)
Definition noopMetrics {S} (H : Effects.Handler orderE S) : Effects.Handler orderE S :=
  fun X e =>
  match e in orderE X return S -> X * S with
  | IncOrdersCreated | IncOrdersProcessed | IncOrdersFailed => fun s => (tt, s)
  | RecordProcessingDuration _ => fun s => (tt, s)
  | e' => H _ e'
  end.

(** The pricing loop calls no metrics. *)
Lemma run_price_lines {S} (H : Effects.Handler orderE S) productByID orderID lines : forall acc s,
  @run _ _ (noopMetrics H) _ (for_res (price_line productByID orderID) lines acc) s =
  @run _ _ H _ (for_res (price_line productByID orderID) lines acc) s.
Proof.
  induction lines as [|line lines IH]; intros acc s; [done|]. cbn [for_res]. rewrite !run_bind_res.
  unfold price_line at 1 3. destruct (productByID !! ii_ProductID line) as [p|]; [|done].
  destruct (negb (p_Active p)); [done|]. cbn. unfold handle. cbn [noopMetrics].
  destruct (H _ NewUUID s) as [u s1]. apply IH.
Qed.

(** Both sides at their next call to a port. *)
Ltac at_port := rewrite ?run_bind_err, ?run_bind, ?run_call; unfold handle; cbn [noopMetrics].

(** With metrics that do nothing the live [Create] is the one of phase 5, whatever the
    ports answer. *)
Theorem Create_is_phase5 {S} (H : Effects.Handler orderE S) (createdBy : uuid) (input : CreateOrderInput) (s : S) :
  @run _ _ (noopMetrics H) _ (Create createdBy input) s = @run _ _ H _ (phase5.Create createdBy input) s.
Proof.
  unfold Create, phase5.Create. destruct (validate_input input); [done|].
  at_port.
  destruct (H _ (FindCustomer _) s) as [[c|e|why] s1]; [|done..]. destruct (negb (c_Active c)); [done|].
  at_port.
  destruct (H _ (FindProducts _) s1) as [[ps|e|why] s2]; [|done..].
  at_port. destruct (H _ Now s2) as [now s3].
  at_port. destruct (H _ NewUUID s3) as [id s4].
  rewrite !run_bind_res, run_price_lines.
  destruct (@run _ _ H _ (for_res _ _ _) s4) as [[acc|e|why] s5]; [|done..].
  unfold persist_and_publish, phase5.persist_and_publish.
  at_port.
  destruct (H _ (Repo _) s5) as [[[]|e|why] s6]; [|done..].
  at_port.
  by destruct (H _ (OrderService.PublishOrderCreated _) s6) as [[[]|e|why] s7].
Qed.

(** ** The worker pool before it retried: phase 6 (internal/worker/order_worker.go) *)
Module unretried.
Inductive poolE : Type -> Type :=
| PDequeue : poolE (res OrderCreatedMessage)
| PLogFailed (workerID : Z) (orderID : uuid) (err : error) : poolE unit
| PService {X : Type} (e : orderE X) : poolE X.

Fixpoint runLoop (workerID : Z) (fuel : nat) : prog poolE loop_end :=
  match fuel with
  | O => Ret Running
  | S fuel' =>
      next <- call PDequeue ;;
      match next with
      | Err _ => Ret Returned
      | Panic why => Ret (Crash why)
      | Ok msg =>
          processed <- interp (fun X e => call (PService e)) (Process (m_OrderID msg)) ;;
          match processed with
          | Panic why => Ret (Crash why)
          | Err err =>
              call (PLogFailed workerID (m_OrderID msg) err) ;;;
              runLoop workerID fuel'
          | Ok _ => runLoop workerID fuel'
          end
      end
  end.

Definition Run (workers : Z) (fuel : nat) : list (prog poolE loop_end) :=
  (fun workerID => runLoop workerID fuel) <$> seqZ 0 workers.

(** A worker over the queue, with the failures it logged. *)
Record pool_world (S : Type) := mkPool {
  pw_service : S;
  pw_queue : FakeQueue;
  pw_failures : list (uuid * error);
}.
End unretried.
Arguments unretried.mkPool {S} _ _ _.
Arguments unretried.pw_service {S} _.
Arguments unretried.pw_queue {S} _.
Arguments unretried.pw_failures {S} _.

#[export] Instance unretried_handler {S} `{!Effects.Handler orderE S} :
    Effects.Handler unretried.poolE (unretried.pool_world S) :=
  fun X e =>
  match e in unretried.poolE X return unretried.pool_world S -> X * unretried.pool_world S with
  | unretried.PDequeue => fun w =>
      match q_pop (unretried.pw_queue w) with
      | (Some r, q) => (r, unretried.mkPool (unretried.pw_service w) q (unretried.pw_failures w))
      | (None, q) => (Err (ErrVar CtxCanceled), w)
      end
  | unretried.PLogFailed _ id err => fun w =>
      (tt, unretried.mkPool (unretried.pw_service w) (unretried.pw_queue w) (unretried.pw_failures w ++ [(id, err)]))
  | unretried.PService e => fun w =>
      let '(x, s) := handle e (unretried.pw_service w) in
      (x, unretried.mkPool s (unretried.pw_queue w) (unretried.pw_failures w))
  end.

Section unretried_facts.
Context {S : Type} `{!Effects.Handler orderE S}.

(** Each message processed once, in order: the service afterwards and the failures;
    [None] when a processing panics. *)
Fixpoint process_all (msgs : list OrderCreatedMessage) (s : S) : option (S * list (uuid * error)) :=
  match msgs with
  | [] => Some (s, [])
  | msg :: rest =>
      match run (Process (m_OrderID msg)) s with
      | (Ok _, s1) => process_all rest s1
      | (Err err, s1) => prod_map id (cons (m_OrderID msg, err)) <$> process_all rest s1
      | (Panic _, _) => None
      end
  end.

Lemma run_unretried_service {A} (p : prog orderE A) (w : unretried.pool_world S) :
  run (interp (fun X e => call (unretried.PService e)) p) w =
  let '(a, s) := run p (unretried.pw_service w) in
  (a, unretried.mkPool s (unretried.pw_queue w) (unretried.pw_failures w)).
Proof.
  revert w. induction p as [a|X e k IH]; intros w; [by destruct w|].
  cbn [interp]. rewrite run_bind, run_call. cbn.
  destruct (handle e (unretried.pw_service w)) as [x s]. by rewrite IH.
Qed.

(** Every message is delivered exactly once: a failing one is logged and gone. *)
Theorem unretried_is_at_most_once (workerID : Z) (msgs : list OrderCreatedMessage) : forall tok s failures s' failed,
  process_all msgs s = Some (s', failed) ->
  run (unretried.runLoop workerID (Datatypes.S (length msgs))) (unretried.mkPool s (mkQueue msgs tok true) failures) =
  (Returned, unretried.mkPool s' (mkQueue [] tok true) (failures ++ failed)).
Proof.
  induction msgs as [|msg msgs IH]; intros tok s failures s' failed Hp.
  - cbn in Hp. injection Hp as <- <-. cbn. by rewrite app_nil_r.
  - cbn [process_all] in Hp. cbn [length]. cbn [unretried.runLoop]. fold (unretried.runLoop workerID).
    rewrite run_bind, run_call. unfold handle at 1. cbn [unretried_handler unretried.pw_queue q_pop q_msgs].
    rewrite run_bind, run_unretried_service. cbn [unretried.pw_service unretried.pw_queue unretried.pw_failures q_notify q_closed].
    destruct (run (Process (m_OrderID msg)) s) as [[[]|err|why] s1]; [by apply IH| |done].
    destruct (process_all msgs s1) as [[s2 failed2]|] eqn:Hrest; [|done]. injection Hp as <- <-.
    rewrite run_bind, run_call. unfold handle at 1. cbn [unretried_handler unretried.pw_queue].
    etrans; [by apply IH|]. cbn. by rewrite <- app_assoc.
Qed.

(** On messages that all succeed the live worker does the same, and requeues and
    dead-letters nothing. *)
Theorem live_worker_is_unretried (maxRetries workerID : Z) (msgs : list OrderCreatedMessage) :
  forall req dead tok s s' w,
  worker_at s (retry_state msgs req dead tok) w ->
  process_all msgs s = Some (s', []) ->
  exists w', run (runLoop maxRetries workerID (Datatypes.S (length msgs))) w = (Returned, w') /\
    worker_at s' (retry_state [] req dead tok) w'.
Proof.
  induction msgs as [|msg msgs IH]; intros req dead tok s s' w Hw Hp.
  - injection Hp as <-. by apply runLoop_end.
  - cbn [process_all] in Hp.
    destruct (run (Process (m_OrderID msg)) s) as [[[]|err|why] s1] eqn:Hrun; [|by destruct (process_all _ _)|done].
    destruct (runLoop_step maxRetries workerID (Datatypes.S (length msgs)) _ _ _ _ _ _ _ Hw) as (w1 & Hw1 & Hstep).
    destruct (deliver_done maxRetries workerID msg _ _ _ _ Hw1 Hrun) as (w2 & Hd & Hw2).
    destruct (IH _ _ _ _ _ _ Hw2 Hp) as (w3 & Hend & Hw3).
    exists w3. split; [|done]. cbn [length]. by rewrite Hstep, Hd.
Qed.
End unretried_facts.

(** The failure the retries were added for: after one transient failure the order
    stays CREATED and no queue holds a message for it. *)
Example unretried_loses_message :
  let '(r, w) := @run _ _ (@unretried_handler World flaky) _ (unretried.runLoop 0 2)
                   (unretried.mkPool one_order (mkQueue [msg_one] true true) []) in
  r = Returned /\ q_msgs (unretried.pw_queue w) = [] /\ fst <$> unretried.pw_failures w = [1%N] /\
  o_Status <$> orders (w_orders (unretried.pw_service w)) !! 1%N = Some StatusCreated.
Proof. vm_compute. done. Qed.
